(** * A shallow embedding of the [@arbendium/zip] archive codec

    The development follows the layout of the JavaScript sources:
    - [Js]     : the parts of the Node.js runtime the library relies on
                 (exceptions, [Buffer] accessors, UTF-8, the [Date] arithmetic);
    - [Cp437]  : [lib/cp437.js];
    - [Write]  : [lib/write.js], the record serializers;
    - [Read]   : [lib/read.js], the record parsers;
    - [Unzip]  : the reading half of [lib/zip.js] (archive opener, entry
                 iterator, entry read pipeline);
    - [Zip]    : the writing half of [lib/zip.js] (the writer state machine).

    Definitions come first, the theorems about them follow. *)

From Stdlib Require Import ZArith Lia List String Bool.
From Stdlib Require Import Strings.Byte.
From stdpp Require Import base list gmap.

Local Open Scope Z_scope.

(* ===================================================================== *)
(** * The JavaScript runtime *)
(* ===================================================================== *)

Module Js.

(** A computation that either returns or throws an [Error] with a message.
    Template-literal messages are kept up to their constant prefix. *)
Inductive result (A : Type) : Type :=
| Ok (a : A)
| Throw (msg : string).
Arguments Ok {A} a.
Arguments Throw {A} msg.

Definition bind {A B} (m : result A) (k : A -> result B) : result B :=
  match m with
  | Ok a => k a
  | Throw e => Throw e
  end.

Definition is_ok {A} (m : result A) : bool :=
  match m with Ok _ => true | Throw _ => false end.

(** ** Bytes and buffers *)

Definition Buffer := list byte.

#[global] Instance byte_eq_dec : EqDecision byte := Byte.byte_eq_dec.
#[global] Instance Buffer_eq_dec : EqDecision Buffer := list_eq_dec.

Definition byte_to_Z (b : byte) : Z := Z.of_N (Byte.to_N b).

Definition Z_to_byte (z : Z) : byte :=
  match Byte.of_N (Z.to_N (z mod 256)) with
  | Some b => b
  | None => x00
  end.

(** [buffer[i]] for a JavaScript number [i]: [undefined] outside the buffer. *)
Definition buf_get (buffer : Buffer) (i : Z) : option byte :=
  if i <? 0 then None else buffer !! Z.to_nat i.

(** [buffer.length]. *)
Definition blen (buffer : Buffer) : Z := Z.of_nat (length buffer).

(** [buffer.subarray(start, end)]: negative indices count from the end and
    both indices are clamped to the buffer. *)
Definition clamp_index (len i : Z) : Z :=
  if i <? 0 then Z.max (len + i) 0 else Z.min i len.

Definition subarray (buffer : Buffer) (start end_ : Z) : Buffer :=
  let s := clamp_index (blen buffer) start in
  let e := clamp_index (blen buffer) end_ in
  take (Z.to_nat (e - s)) (drop (Z.to_nat s) buffer).

(** [buffer.subarray(start)]. *)
Definition subarray_from (buffer : Buffer) (start : Z) : Buffer :=
  subarray buffer start (blen buffer).

(** Little-endian integers. *)
Fixpoint le_decode (bytes : list byte) : Z :=
  match bytes with
  | [] => 0
  | b :: rest => byte_to_Z b + 256 * le_decode rest
  end.

Fixpoint le_encode (n : nat) (v : Z) : list byte :=
  match n with
  | O => []
  | S k => Z_to_byte (v mod 256) :: le_encode k (v / 256)
  end.

(** [buffer.readUIntNLE(offset)]: a [RangeError] when the [n] bytes do not
    lie inside the buffer. *)
Definition readUIntLE (n : nat) (buffer : Buffer) (offset : Z) : result Z :=
  if (0 <=? offset) && (offset + Z.of_nat n <=? blen buffer)
  then Ok (le_decode (take n (drop (Z.to_nat offset) buffer)))
  else Throw "ERR_OUT_OF_RANGE: offset".

Definition readUInt8 := readUIntLE 1.
Definition readUInt16LE := readUIntLE 2.
Definition readUInt32LE := readUIntLE 4.
Definition readBigUInt64LE := readUIntLE 8.

(** [buffer.writeUIntNLE(value, offset)]: Node checks the value against
    [0 .. 2^(8n) - 1] first ([ERR_OUT_OF_RANGE] for [value]) and the offset
    next; the bytes are stored in place. *)
Definition writeUIntLE (n : nat) (buffer : Buffer) (value offset : Z) : result Buffer :=
  if (value <? 0) || (2 ^ (8 * Z.of_nat n) <=? value)
  then Throw "ERR_OUT_OF_RANGE: value"
  else if (0 <=? offset) && (offset + Z.of_nat n <=? blen buffer)
  then Ok (take (Z.to_nat offset) buffer ++ le_encode n value
             ++ drop (Z.to_nat offset + n) buffer)
  else Throw "ERR_OUT_OF_RANGE: offset".

Definition writeUInt16LE := writeUIntLE 2.
Definition writeUInt32LE := writeUIntLE 4.

(** A JavaScript number or bigint slot that may still hold [undefined]. *)
Definition optnum := option Z.

(** [buffer.writeUIntNLE(value, offset)] when [value] may be [undefined] or
    the [NaN] that [Number(undefined)] gives: [+value] is [NaN], which
    passes the range check and is stored as zero. *)
Definition writeUIntLE_num (n : nat) (buffer : Buffer) (value : optnum) (offset : Z)
  : result Buffer :=
  match value with
  | Some v => writeUIntLE n buffer v offset
  | None => writeUIntLE n buffer 0 offset
  end.

(** [buffer.writeBigUInt64LE(value, offset)]: [undefined] is no bigint. *)
Definition writeBigUInt64LE (buffer : Buffer) (value : optnum) (offset : Z)
  : result Buffer :=
  match value with
  | Some v => writeUIntLE 8 buffer v offset
  | None => Throw "TypeError: Cannot mix BigInt and other types"
  end.

(** ** Strings *)

(** A JavaScript string: its sequence of UTF-16 code units. *)
Definition jsstring := list Z.

Definition is_high_surrogate (c : Z) : bool := (0xD800 <=? c) && (c <=? 0xDBFF).
Definition is_low_surrogate (c : Z) : bool := (0xDC00 <=? c) && (c <=? 0xDFFF).

Definition utf8_of_code_point (cp : Z) : list byte :=
  if cp <? 0x80 then [Z_to_byte cp]
  else if cp <? 0x800 then
    [Z_to_byte (Z.lor 0xC0 (Z.shiftr cp 6));
     Z_to_byte (Z.lor 0x80 (Z.land cp 0x3F))]
  else if cp <? 0x10000 then
    [Z_to_byte (Z.lor 0xE0 (Z.shiftr cp 12));
     Z_to_byte (Z.lor 0x80 (Z.land (Z.shiftr cp 6) 0x3F));
     Z_to_byte (Z.lor 0x80 (Z.land cp 0x3F))]
  else
    [Z_to_byte (Z.lor 0xF0 (Z.shiftr cp 18));
     Z_to_byte (Z.lor 0x80 (Z.land (Z.shiftr cp 12) 0x3F));
     Z_to_byte (Z.lor 0x80 (Z.land (Z.shiftr cp 6) 0x3F));
     Z_to_byte (Z.lor 0x80 (Z.land cp 0x3F))].

(** [Buffer.from(string)]: the UTF-8 encoding; a surrogate pair is one code
    point, a lone surrogate becomes U+FFFD. *)
Fixpoint Buffer_from_string (s : jsstring) : Buffer :=
  match s with
  | [] => []
  | c :: rest =>
      if is_high_surrogate c then
        match rest with
        | d :: rest' =>
            if is_low_surrogate d
            then utf8_of_code_point (0x10000 + (c - 0xD800) * 0x400 + (d - 0xDC00))
                   ++ Buffer_from_string rest'
            else utf8_of_code_point 0xFFFD ++ Buffer_from_string rest
        | [] => utf8_of_code_point 0xFFFD
        end
      else if is_low_surrogate c then utf8_of_code_point 0xFFFD ++ Buffer_from_string rest
      else utf8_of_code_point c ++ Buffer_from_string rest
  end.

(** The text that string concatenation gives for [undefined]. *)
Definition undefined_text : jsstring :=
  [117; 110; 100; 101; 102; 105; 110; 101; 100].

(** ** 32-bit integer operators *)

Definition ToInt32 (z : Z) : Z := (z + 2 ^ 31) mod 2 ^ 32 - 2 ^ 31.
Definition ToUint32 (z : Z) : Z := z mod 2 ^ 32.

(** [a & b], [a | b], [a << n], [a >> n] and [a >>> n]. *)
Definition bitand (a b : Z) : Z := Z.land (ToInt32 a) (ToInt32 b).
Definition bitor (a b : Z) : Z := Z.lor (ToInt32 a) (ToInt32 b).
Definition shl (a n : Z) : Z := ToInt32 (Z.shiftl (ToInt32 a) (n mod 32)).
Definition sar (a n : Z) : Z := Z.shiftr (ToInt32 a) (n mod 32).
Definition shr (a n : Z) : Z := Z.shiftr (ToUint32 a) (n mod 32).

(** ** Dates

    A [Date] is its time value: milliseconds since 1970-01-01T00:00:00Z.
    The definitions are the abstract operations of ECMAScript's Date
    objects; only finite time values occur. *)

Definition Date := Z.

Definition msPerDay : Z := 86400000.
Definition msPerHour : Z := 3600000.
Definition msPerMinute : Z := 60000.
Definition msPerSecond : Z := 1000.

Definition Day (t : Z) : Z := t / msPerDay.
Definition TimeWithinDay (t : Z) : Z := t mod msPerDay.

Definition DayFromYear (y : Z) : Z :=
  365 * (y - 1970) + (y - 1969) / 4 - (y - 1901) / 100 + (y - 1601) / 400.

Definition DaysInYear (y : Z) : Z :=
  if (y mod 4 =? 0) && (negb (y mod 100 =? 0) || (y mod 400 =? 0))
  then 366 else 365.

(** The year [y] with [DayFromYear y <= d < DayFromYear (y + 1)]: an
    estimate from the mean year length, corrected by at most one. *)
Definition YearFromDay (d : Z) : Z :=
  let y := 1970 + (400 * d) / 146097 in
  if d <? DayFromYear y then y - 1
  else if DayFromYear (y + 1) <=? d then y + 1
  else y.

Definition InLeapYear (d : Z) : Z :=
  if DaysInYear (YearFromDay d) =? 366 then 1 else 0.

Definition DayWithinYear (d : Z) : Z := d - DayFromYear (YearFromDay d).

Definition MonthFromDay (d : Z) : Z :=
  let w := DayWithinYear d in
  let l := InLeapYear d in
  if w <? 31 then 0
  else if w <? 59 + l then 1
  else if w <? 90 + l then 2
  else if w <? 120 + l then 3
  else if w <? 151 + l then 4
  else if w <? 181 + l then 5
  else if w <? 212 + l then 6
  else if w <? 243 + l then 7
  else if w <? 273 + l then 8
  else if w <? 304 + l then 9
  else if w <? 334 + l then 10
  else 11.

(** Days of the year before the first of month [m] (0-based). *)
Definition DaysBeforeMonth (m l : Z) : Z :=
  match m with
  | 0 => 0
  | 1 => 31
  | 2 => 59 + l
  | 3 => 90 + l
  | 4 => 120 + l
  | 5 => 151 + l
  | 6 => 181 + l
  | 7 => 212 + l
  | 8 => 243 + l
  | 9 => 273 + l
  | 10 => 304 + l
  | _ => 334 + l
  end.

Definition DateFromDay (d : Z) : Z :=
  DayWithinYear d - DaysBeforeMonth (MonthFromDay d) (InLeapYear d) + 1.

Definition getUTCFullYear (t : Date) : Z := YearFromDay (Day t).
Definition getUTCMonth (t : Date) : Z := MonthFromDay (Day t).
Definition getUTCDate (t : Date) : Z := DateFromDay (Day t).
Definition getUTCHours (t : Date) : Z := (t / msPerHour) mod 24.
Definition getUTCMinutes (t : Date) : Z := (t / msPerMinute) mod 60.
Definition getUTCSeconds (t : Date) : Z := (t / msPerSecond) mod 60.

Definition MakeTime (hour min sec ms : Z) : Z :=
  hour * msPerHour + min * msPerMinute + sec * msPerSecond + ms.

Definition MakeDay (year month date : Z) : Z :=
  let ym := year + month / 12 in
  let mn := month mod 12 in
  DayFromYear ym
    + DaysBeforeMonth mn (if DaysInYear ym =? 366 then 1 else 0)
    + date - 1.

Definition MakeDate (day time : Z) : Z := day * msPerDay + time.

(** [new Date(Date.UTC(year, month, date, hours, minutes, seconds))]. *)
Definition Date_UTC (year month date hours minutes seconds : Z) : Date :=
  let yr := if (0 <=? year) && (year <=? 99) then 1900 + year else year in
  MakeDate (MakeDay yr month date) (MakeTime hours minutes seconds 0).

(** ** Streams

    A readable stream is modelled by what consuming it to the end gives:
    the chunks it yields, and the error it fails with, if any. *)

Record Run := { chunks : list Buffer; failure : option string }.

(** What comes out of a [Transform] in a pipeline. [transform] runs on every
    chunk and forwards what it passes to its callback, [flush] runs when the
    source has ended. The stream calls [flush] inside its own error handling:
    an exception in it fails the stream, as a failure of the source does. It
    calls [transform] without any: an exception in it is not turned into an
    error of the stream but leaves the stream machinery as an uncaught
    exception, and the stream neither fails nor ends; the chunks forwarded
    before it are all that a consumer gets. *)
Inductive Piped :=
| Flows (stream : Run)
| Escapes (forwarded : list Buffer) (e : string).

Fixpoint run_transform {S : Type}
    (transform : S -> Buffer -> result (S * Buffer))
    (flush : S -> result unit)
    (st : S) (input : list Buffer) (upstream : option string) : Piped :=
  match input with
  | [] =>
      match upstream with
      | Some e => Flows {| chunks := []; failure := Some e |}
      | None =>
          match flush st with
          | Ok _ => Flows {| chunks := []; failure := None |}
          | Throw e => Flows {| chunks := []; failure := Some e |}
          end
      end
  | chunk :: rest =>
      match transform st chunk with
      | Throw e => Escapes [] e
      | Ok (st', out) =>
          match run_transform transform flush st' rest upstream with
          | Flows r => Flows {| chunks := out :: chunks r; failure := failure r |}
          | Escapes forwarded e => Escapes (out :: forwarded) e
          end
      end
  end.

(** [Number.MAX_SAFE_INTEGER]. *)
Definition MAX_SAFE_INTEGER : Z := 2 ^ 53 - 1.

(** A value that is a string or a [Buffer]. *)
Inductive text :=
| Str (s : jsstring)
| Buf (b : Buffer).

(** ** Reference services

    [zlib.crc32(data, value)] as zlib computes it: the reflected CRC-32 with
    polynomial 0xEDB88320, continued from a previous [value]. It stands in
    for the runtime's function where a concrete one is needed. *)

Fixpoint crc32_bits (n : nat) (c : Z) : Z :=
  match n with
  | O => c
  | S k =>
      crc32_bits k
        (if Z.testbit c 0 then Z.lxor (Z.shiftr c 1) 0xEDB88320 else Z.shiftr c 1)
  end.

Definition crc32_ieee (data : Buffer) (value : Z) : Z :=
  Z.lxor
    (fold_left (fun c b => crc32_bits 8 (Z.lxor c (byte_to_Z b))) data
               (Z.lxor value 0xFFFFFFFF))
    0xFFFFFFFF.

(** Memory that happens to be zero. *)
Definition zero_fill (_ : nat) : byte := x00.

End Js.

Export Js.

Notation "x <- m ;; k" := (Js.bind m (fun x => k))
  (at level 100, m at next level, right associativity).

(* ===================================================================== *)
(** * lib/cp437.js *)
(* ===================================================================== *)

Module Cp437.

(** The 256 code units of the [cp437] string constant, in order. *)
Definition cp437 : jsstring :=
  [0; 9786; 9787; 9829; 9830; 9827; 9824; 8226; 9688; 9675; 9689; 9794; 9792;
   9834; 9835; 9788; 9658; 9668; 8597; 8252; 182; 167; 9644; 8616; 8593; 8595;
   8594; 8592; 8735; 8596; 9650; 9660; 32; 33; 34; 35; 36; 37; 38; 39; 40; 41;
   42; 43; 44; 45; 46; 47; 48; 49; 50; 51; 52; 53; 54; 55; 56; 57; 58; 59; 60;
   61; 62; 63; 64; 65; 66; 67; 68; 69; 70; 71; 72; 73; 74; 75; 76; 77; 78; 79;
   80; 81; 82; 83; 84; 85; 86; 87; 88; 89; 90; 91; 92; 93; 94; 95; 96; 97; 98;
   99; 100; 101; 102; 103; 104; 105; 106; 107; 108; 109; 110; 111; 112; 113;
   114; 115; 116; 117; 118; 119; 120; 121; 122; 123; 124; 125; 126; 8962; 199;
   252; 233; 226; 228; 224; 229; 231; 234; 235; 232; 239; 238; 236; 196; 197;
   201; 230; 198; 244; 246; 242; 251; 249; 255; 214; 220; 162; 163; 165; 8359;
   402; 225; 237; 243; 250; 241; 209; 170; 186; 191; 8976; 172; 189; 188; 161;
   171; 187; 9617; 9618; 9619; 9474; 9508; 9569; 9570; 9558; 9557; 9571; 9553;
   9559; 9565; 9564; 9563; 9488; 9492; 9524; 9516; 9500; 9472; 9532; 9566;
   9567; 9562; 9556; 9577; 9574; 9568; 9552; 9580; 9575; 9576; 9572; 9573;
   9561; 9560; 9554; 9555; 9579; 9578; 9496; 9484; 9608; 9604; 9612; 9616;
   9600; 945; 223; 915; 960; 931; 963; 181; 964; 934; 920; 937; 948; 8734;
   966; 949; 8745; 8801; 177; 8805; 8804; 8992; 8993; 247; 8776; 176; 8729;
   183; 8730; 8319; 178; 9632; 160].

(** The test [/^[\x20-\x7e]*$/]. *)
Definition is_printable_ascii (s : jsstring) : bool :=
  forallb (fun c => (0x20 <=? c) && (c <=? 0x7e)) s.

(** The lazily built [reverseCp437] object: the loop assigns
    [reverseCp437[cp437[i]] = i] for [i] from 0 to 255, so a later index
    would overwrite an earlier one. *)
Definition reverseCp437 : gmap Z Z :=
  fold_left (fun m ic => <[ic.2 := Z.of_nat ic.1]> m) (imap pair cp437) ∅.

Fixpoint encodeCp437_slow (s : jsstring) : result Buffer :=
  match s with
  | [] => Ok []
  | c :: rest =>
      match reverseCp437 !! c with
      | None => Throw "character not encodable in CP437"
      | Some b => result <- encodeCp437_slow rest ;; Ok (Z_to_byte b :: result)
      end
  end.

Definition encodeCp437 (s : jsstring) : result Buffer :=
  if is_printable_ascii s
  then Ok (Buffer_from_string s)
  else encodeCp437_slow s.

(** [decodeCp437(buffer, start, end)]. *)
Definition decodeCp437_range (buffer : Buffer) (start end_ : Z) : jsstring :=
  flat_map
    (fun i =>
       match buf_get buffer i with
       | Some b => match cp437 !! Z.to_nat (byte_to_Z b) with
                   | Some c => [c]
                   | None => undefined_text
                   end
       | None => undefined_text
       end)
    (seqZ start (end_ - start)).

(** [decodeCp437(buffer)] and [decodeCp437(buffer, start)], with the
    defaults [start = 0] and [end = buffer.length]. *)
Definition decodeCp437_from (buffer : Buffer) (start : Z) : jsstring :=
  decodeCp437_range buffer start (blen buffer).

Definition decodeCp437 (buffer : Buffer) : jsstring :=
  decodeCp437_from buffer 0.

End Cp437.

(* ===================================================================== *)
(** * lib/constants.js *)
(* ===================================================================== *)

Module generalPurposeBitFlags.
Definition encrypted : Z := 0x0001.
Definition strongEncryption : Z := 0x0040.
Definition unknownCrc32AndFileSizes : Z := 0x0008.
Definition utf8 : Z := 0x0800.
End generalPurposeBitFlags.

Module compressionMethods.
Definition none : Z := 0.
Definition deflate : Z := 8.
End compressionMethods.

(* ===================================================================== *)
(** * lib/write.js *)
(* ===================================================================== *)

Module Write.

(** One extra field, [{ id, data }]. *)
Record ExtraField := { id : Z; data : Buffer }.

(** The [extraFields] argument: a ready-made buffer or a list of fields. *)
Inductive ExtraFields :=
| ExtraBuffer (b : Buffer)
| ExtraList (l : list ExtraField).

Module LocalFileHeader.
Record t := {
  versionNeededToExtract : Z;
  generalPurposeBitFlag : Z;
  compressionMethod : Z;
  fileLastModificationTime : Z;
  fileLastModificationDate : Z;
  crc32 : optnum;
  compressedSize : optnum;
  uncompressedSize : optnum;
  fileName : Buffer;
  extraFields : ExtraFields
}.
End LocalFileHeader.

Module DataDescriptor.
Record t := {
  crc32 : optnum;
  compressedSize : optnum;
  uncompressedSize : optnum
}.
End DataDescriptor.

Module CentralDirectoryFileHeader.
Record t := {
  versionMadeBy : Z;
  versionNeededToExtract : Z;
  generalPurposeBitFlag : Z;
  compressionMethod : Z;
  fileLastModificationTime : Z;
  fileLastModificationDate : Z;
  crc32 : optnum;
  compressedSize : optnum;
  uncompressedSize : optnum;
  diskNumberStart : Z;
  internalFileAttributes : Z;
  externalFileAttributes : Z;
  relativeOffsetOfLocalHeader : optnum;
  fileName : Buffer;
  extraFields : ExtraFields;
  comment : Buffer
}.
End CentralDirectoryFileHeader.

Module EndOfCentralDirectoryRecord.
Record t := {
  diskNumber : Z;
  centralDirectoryDiskNumber : Z;
  numberOfEntriesOnDisk : Z;
  numberOfEntries : Z;
  sizeOfCentralDirectory : Z;
  centralDirectoryOffset : Z;
  comment : Buffer
}.
End EndOfCentralDirectoryRecord.

Module Zip64EndOfCentralDirectoryRecord.
Record t := {
  versionMadeBy : Z;
  versionNeededToExtract : Z;
  diskNumber : Z;
  centralDirectoryDiskNumber : Z;
  numberOfEntriesOnDisk : Z;
  numberOfEntries : Z;
  sizeOfCentralDirectory : Z;
  centralDirectoryOffset : Z;
  zip64ExtensibleDataSector : Buffer
}.
End Zip64EndOfCentralDirectoryRecord.

Module Zip64EndOfCentralDirectoryLocator.
Record t := {
  zip64EndOfCentralDirectoryRecordDiskNumber : Z;
  zip64EndOfCentralDirectoryRecordOffset : Z;
  diskCount : Z
}.
End Zip64EndOfCentralDirectoryLocator.

Section Serializers.

(** [Buffer.allocUnsafe(n)] hands out memory that is not cleared: [fill i]
    is the byte found at index [i] of such a buffer. *)
Variable fill : nat -> byte.

Definition allocUnsafe (n : nat) : Buffer := map fill (seq 0 n).

Fixpoint serializeExtraFields_list (l : list ExtraField) : result Buffer :=
  match l with
  | [] => Ok []
  | f :: rest =>
      let header := allocUnsafe 4 in
      header <- writeUInt16LE header (id f) 0 ;;
      header <- writeUInt16LE header (blen (data f)) 2 ;;
      buffers <- serializeExtraFields_list rest ;;
      Ok (header ++ data f ++ buffers)
  end.

Definition serializeExtraFields (extraFields : ExtraFields) : result Buffer :=
  match extraFields with
  | ExtraBuffer b => Ok b
  | ExtraList l => serializeExtraFields_list l
  end.

Definition serializeLocalFileHeader (object : LocalFileHeader.t) : result Buffer :=
  let buffer := allocUnsafe 30 in
  extraFields <- serializeExtraFields (LocalFileHeader.extraFields object) ;;
  buffer <- writeUInt32LE buffer 0x04034b50 0 ;;
  buffer <- writeUInt16LE buffer (LocalFileHeader.versionNeededToExtract object) 4 ;;
  buffer <- writeUInt16LE buffer (LocalFileHeader.generalPurposeBitFlag object) 6 ;;
  buffer <- writeUInt16LE buffer (LocalFileHeader.compressionMethod object) 8 ;;
  buffer <- writeUInt16LE buffer (LocalFileHeader.fileLastModificationTime object) 10 ;;
  buffer <- writeUInt16LE buffer (LocalFileHeader.fileLastModificationDate object) 12 ;;
  buffer <- writeUIntLE_num 4 buffer (LocalFileHeader.crc32 object) 14 ;;
  buffer <- writeUIntLE_num 4 buffer (LocalFileHeader.compressedSize object) 18 ;;
  buffer <- writeUIntLE_num 4 buffer (LocalFileHeader.uncompressedSize object) 22 ;;
  buffer <- writeUInt16LE buffer (blen (LocalFileHeader.fileName object)) 26 ;;
  buffer <- writeUInt16LE buffer (blen extraFields) 28 ;;
  Ok (buffer ++ LocalFileHeader.fileName object ++ extraFields).

Definition serializeDataDescriptor (object : DataDescriptor.t) : result Buffer :=
  match DataDescriptor.compressedSize object, DataDescriptor.uncompressedSize object with
  | Some _, Some _ =>
      let buffer := allocUnsafe 24 in
      buffer <- writeUInt32LE buffer 0x08074b50 0 ;;
      buffer <- writeUIntLE_num 4 buffer (DataDescriptor.crc32 object) 4 ;;
      buffer <- writeBigUInt64LE buffer (DataDescriptor.compressedSize object) 8 ;;
      buffer <- writeBigUInt64LE buffer (DataDescriptor.uncompressedSize object) 16 ;;
      Ok buffer
  | _, _ => Throw "data descriptor should only be used with zip64"
  end.

Definition serializeCentralDirectoryFileHeader (object : CentralDirectoryFileHeader.t)
  : result Buffer :=
  let buffer := allocUnsafe 46 in
  extraFields <- serializeExtraFields (CentralDirectoryFileHeader.extraFields object) ;;
  buffer <- writeUInt32LE buffer 0x02014b50 0 ;;
  buffer <- writeUInt16LE buffer (CentralDirectoryFileHeader.versionMadeBy object) 4 ;;
  buffer <- writeUInt16LE buffer (CentralDirectoryFileHeader.versionNeededToExtract object) 6 ;;
  buffer <- writeUInt16LE buffer (CentralDirectoryFileHeader.generalPurposeBitFlag object) 8 ;;
  buffer <- writeUInt16LE buffer (CentralDirectoryFileHeader.compressionMethod object) 10 ;;
  buffer <- writeUInt16LE buffer (CentralDirectoryFileHeader.fileLastModificationTime object) 12 ;;
  buffer <- writeUInt16LE buffer (CentralDirectoryFileHeader.fileLastModificationDate object) 14 ;;
  buffer <- writeUIntLE_num 4 buffer (CentralDirectoryFileHeader.crc32 object) 16 ;;
  buffer <- writeUIntLE_num 4 buffer (CentralDirectoryFileHeader.compressedSize object) 20 ;;
  buffer <- writeUIntLE_num 4 buffer (CentralDirectoryFileHeader.uncompressedSize object) 24 ;;
  buffer <- writeUInt16LE buffer (blen (CentralDirectoryFileHeader.fileName object)) 28 ;;
  buffer <- writeUInt16LE buffer (blen extraFields) 30 ;;
  buffer <- writeUInt16LE buffer (blen (CentralDirectoryFileHeader.comment object)) 32 ;;
  buffer <- writeUInt16LE buffer (CentralDirectoryFileHeader.diskNumberStart object) 34 ;;
  buffer <- writeUInt16LE buffer (CentralDirectoryFileHeader.internalFileAttributes object) 36 ;;
  buffer <- writeUInt32LE buffer (CentralDirectoryFileHeader.externalFileAttributes object) 38 ;;
  buffer <- writeUIntLE_num 4 buffer
              (CentralDirectoryFileHeader.relativeOffsetOfLocalHeader object) 42 ;;
  Ok (buffer ++ CentralDirectoryFileHeader.fileName object ++ extraFields
        ++ CentralDirectoryFileHeader.comment object).

(** The 22-byte buffer is written up to offset 20 only: the comment-length
    word at offsets 20 and 21 keeps what [allocUnsafe] returned. *)
Definition serializeEndOfCentralDirectoryRecord (object : EndOfCentralDirectoryRecord.t)
  : result Buffer :=
  let buffer := allocUnsafe 22 in
  buffer <- writeUInt32LE buffer 0x06054b50 0 ;;
  buffer <- writeUInt16LE buffer (EndOfCentralDirectoryRecord.diskNumber object) 4 ;;
  buffer <- writeUInt16LE buffer (EndOfCentralDirectoryRecord.centralDirectoryDiskNumber object) 6 ;;
  buffer <- writeUInt16LE buffer (EndOfCentralDirectoryRecord.numberOfEntriesOnDisk object) 8 ;;
  buffer <- writeUInt16LE buffer (EndOfCentralDirectoryRecord.numberOfEntries object) 10 ;;
  buffer <- writeUInt32LE buffer (EndOfCentralDirectoryRecord.sizeOfCentralDirectory object) 12 ;;
  buffer <- writeUInt32LE buffer (EndOfCentralDirectoryRecord.centralDirectoryOffset object) 16 ;;
  Ok (buffer ++ EndOfCentralDirectoryRecord.comment object).

Definition serializeZip64EndOfCentralDirectoryRecord
    (object : Zip64EndOfCentralDirectoryRecord.t) : result Buffer :=
  let buffer := allocUnsafe 56 in
  let sector := Zip64EndOfCentralDirectoryRecord.zip64ExtensibleDataSector object in
  buffer <- writeUInt32LE buffer 0x06064b50 0 ;;
  buffer <- writeBigUInt64LE buffer (Some (44 + blen sector)) 4 ;;
  buffer <- writeUInt16LE buffer (Zip64EndOfCentralDirectoryRecord.versionMadeBy object) 12 ;;
  buffer <- writeUInt16LE buffer
              (Zip64EndOfCentralDirectoryRecord.versionNeededToExtract object) 14 ;;
  buffer <- writeUInt32LE buffer (Zip64EndOfCentralDirectoryRecord.diskNumber object) 16 ;;
  buffer <- writeUInt32LE buffer
              (Zip64EndOfCentralDirectoryRecord.centralDirectoryDiskNumber object) 20 ;;
  buffer <- writeBigUInt64LE buffer
              (Some (Zip64EndOfCentralDirectoryRecord.numberOfEntriesOnDisk object)) 24 ;;
  buffer <- writeBigUInt64LE buffer
              (Some (Zip64EndOfCentralDirectoryRecord.numberOfEntries object)) 32 ;;
  buffer <- writeBigUInt64LE buffer
              (Some (Zip64EndOfCentralDirectoryRecord.sizeOfCentralDirectory object)) 40 ;;
  buffer <- writeBigUInt64LE buffer
              (Some (Zip64EndOfCentralDirectoryRecord.centralDirectoryOffset object)) 48 ;;
  if 0 <? blen sector then Ok (buffer ++ sector) else Ok buffer.

Definition serializeZip64EndOfCentralDirectoryLocator
    (object : Zip64EndOfCentralDirectoryLocator.t) : result Buffer :=
  let buffer := allocUnsafe 20 in
  buffer <- writeUInt32LE buffer 0x07064b50 0 ;;
  buffer <- writeUInt32LE buffer
              (Zip64EndOfCentralDirectoryLocator.zip64EndOfCentralDirectoryRecordDiskNumber
                 object) 4 ;;
  buffer <- writeBigUInt64LE buffer
              (Some (Zip64EndOfCentralDirectoryLocator.zip64EndOfCentralDirectoryRecordOffset
                       object)) 8 ;;
  buffer <- writeUInt32LE buffer (Zip64EndOfCentralDirectoryLocator.diskCount object) 16 ;;
  Ok buffer.

End Serializers.

End Write.

(* ===================================================================== *)
(** * lib/read.js *)
(* ===================================================================== *)

Module Read.

Abbreviation ExtraField := Write.ExtraField.

(** A random-access source: a [Buffer], or an open file given by its current
    file position and the bytes it holds. *)
Inductive Handle :=
| BufferHandle (buffer : Buffer)
| FileHandle (filePosition : Z) (content : Buffer).

Module LocalFileHeader.
Record t := {
  versionNeededToExtract : Z;
  generalPurposeBitFlag : Z;
  compressionMethod : Z;
  fileLastModificationTime : Z;
  fileLastModificationDate : Z;
  crc32 : Z;
  compressedSize : Z;
  uncompressedSize : Z;
  fileNameLength : Z;
  extraFieldsLength : Z;
  fileName : Buffer;
  extraFields : list ExtraField
}.
End LocalFileHeader.

Module CentralDirectoryFileHeader.
Record t := {
  versionMadeBy : Z;
  versionNeededToExtract : Z;
  generalPurposeBitFlag : Z;
  compressionMethod : Z;
  fileLastModificationTime : Z;
  fileLastModificationDate : Z;
  crc32 : Z;
  compressedSize : Z;
  uncompressedSize : Z;
  fileNameLength : Z;
  extraFieldsLength : Z;
  commentLength : Z;
  diskNumberStart : Z;
  internalFileAttributes : Z;
  externalFileAttributes : Z;
  relativeOffsetOfLocalHeader : Z;
  fileName : Buffer;
  extraFields : list ExtraField;
  comment : Buffer
}.
End CentralDirectoryFileHeader.

(** [read(handle, position, length)]; [position] is a bigint.

    For a file, [handle.read(buffer, undefined, undefined, position)] accepts
    the positions from [-1] to [2 ^ 63 - 1 - length] and throws
    [ERR_OUT_OF_RANGE] for every other one. Position [-1] reads at the current
    file position, every other accepted position reads at that offset; the
    bytes present from there on are returned, at most [length] of them.

    No file holds [2 ^ 63] bytes or more, so the range of a position above
    [2 ^ 63 - 1 - length] always leaves the content: the upper bound is
    tested where the range leaves the content, which needs no bound on the
    content ([read_file_position_checked_first] has the test in the order in
    which it is made).

    A read at [-1] moves the file position, a read at another position does
    not. No call of the reader makes a read at [-1] after another one: the
    positions of the reads of a call increase, except for those the opener
    takes from unsigned fields. So [filePosition] is the position of the file
    when the call is made. *)
Definition read (handle : Handle) (position length : Z) : result Buffer :=
  match handle with
  | BufferHandle buffer =>
      if blen buffer <? length + position
      then Throw "unexpected EOF"
      else Ok (subarray buffer position (position + length))
  | FileHandle filePosition content =>
      if length =? 0 then Ok []
      else if position <? -1 then Throw "ERR_OUT_OF_RANGE: position"
      else
        let from := if position =? -1 then filePosition else position in
        let bytes := take (Z.to_nat length) (drop (Z.to_nat from) content) in
        if blen bytes <? length
        then
          if 2 ^ 63 - 1 - length <? position
          then Throw "ERR_OUT_OF_RANGE: position"
          else Throw "unexpected EOF"
        else Ok bytes
  end.

(** The [while (start < end)] loop of [parseExtraFields]; every iteration
    advances [start] by at least 4, so [end - start] iterations suffice. *)
Fixpoint parseExtraFields_loop (fuel : nat) (buffer : Buffer) (start end_ : Z)
  : result (list ExtraField) :=
  if start <? end_ then
    match fuel with
    | O => Throw "parseExtraFields: iteration bound exceeded"
    | S fuel' =>
        if end_ - start <? 4
        then Throw "extra field header exceeds extra field buffer size"
        else
          id <- readUInt16LE buffer start ;;
          size <- readUInt16LE buffer (start + 2) ;;
          let start := start + 4 in
          if end_ <? start + size
          then Throw "extra field length exceeds extra field buffer size"
          else
            extraFields <- parseExtraFields_loop fuel' buffer (start + size) end_ ;;
            Ok ({| Write.id := id; Write.data := subarray buffer start (start + size) |}
                  :: extraFields)
    end
  else Ok [].

Definition parseExtraFields (buffer : Buffer) (start end_ : Z) : result (list ExtraField) :=
  parseExtraFields_loop (Z.to_nat (end_ - start)) buffer start end_.

Definition readLocalFileHeader (handle : Handle) (offset : Z)
  : result LocalFileHeader.t :=
  buffer <- read handle offset 30 ;;
  signature <- readUInt32LE buffer 0 ;;
  if negb (signature =? 0x04034b50)
  then Throw "invalid local file header signature"
  else
    fileNameLength <- readUInt16LE buffer 26 ;;
    extraFieldsLength <- readUInt16LE buffer 28 ;;
    rest <- read handle (offset + 30) (fileNameLength + extraFieldsLength) ;;
    versionNeededToExtract <- readUInt16LE buffer 4 ;;
    generalPurposeBitFlag <- readUInt16LE buffer 6 ;;
    compressionMethod <- readUInt16LE buffer 8 ;;
    fileLastModificationTime <- readUInt16LE buffer 10 ;;
    fileLastModificationDate <- readUInt16LE buffer 12 ;;
    crc32 <- readUInt32LE buffer 14 ;;
    compressedSize <- readUInt32LE buffer 18 ;;
    uncompressedSize <- readUInt32LE buffer 22 ;;
    extraFields <- parseExtraFields rest fileNameLength (blen rest) ;;
    Ok {| LocalFileHeader.versionNeededToExtract := versionNeededToExtract;
          LocalFileHeader.generalPurposeBitFlag := generalPurposeBitFlag;
          LocalFileHeader.compressionMethod := compressionMethod;
          LocalFileHeader.fileLastModificationTime := fileLastModificationTime;
          LocalFileHeader.fileLastModificationDate := fileLastModificationDate;
          LocalFileHeader.crc32 := crc32;
          LocalFileHeader.compressedSize := compressedSize;
          LocalFileHeader.uncompressedSize := uncompressedSize;
          LocalFileHeader.fileNameLength := fileNameLength;
          LocalFileHeader.extraFieldsLength := extraFieldsLength;
          LocalFileHeader.fileName := subarray rest 0 fileNameLength;
          LocalFileHeader.extraFields := extraFields |}.

Definition readCentralDirectoryFileHeader (handle : Handle) (offset : Z)
  : result CentralDirectoryFileHeader.t :=
  buffer <- read handle offset 46 ;;
  signature <- readUInt32LE buffer 0 ;;
  if negb (signature =? 0x02014b50)
  then Throw "invalid central directory file header signature"
  else
    fileNameLength <- readUInt16LE buffer 28 ;;
    extraFieldsLength <- readUInt16LE buffer 30 ;;
    commentLength <- readUInt16LE buffer 32 ;;
    rest <- read handle (offset + 46) (fileNameLength + extraFieldsLength + commentLength) ;;
    versionMadeBy <- readUInt16LE buffer 4 ;;
    versionNeededToExtract <- readUInt16LE buffer 6 ;;
    generalPurposeBitFlag <- readUInt16LE buffer 8 ;;
    compressionMethod <- readUInt16LE buffer 10 ;;
    fileLastModificationTime <- readUInt16LE buffer 12 ;;
    fileLastModificationDate <- readUInt16LE buffer 14 ;;
    crc32 <- readUInt32LE buffer 16 ;;
    compressedSize <- readUInt32LE buffer 20 ;;
    uncompressedSize <- readUInt32LE buffer 24 ;;
    diskNumberStart <- readUInt16LE buffer 34 ;;
    internalFileAttributes <- readUInt16LE buffer 36 ;;
    externalFileAttributes <- readUInt32LE buffer 38 ;;
    relativeOffsetOfLocalHeader <- readUInt32LE buffer 42 ;;
    extraFields <- parseExtraFields rest fileNameLength (fileNameLength + extraFieldsLength) ;;
    Ok {| CentralDirectoryFileHeader.versionMadeBy := versionMadeBy;
          CentralDirectoryFileHeader.versionNeededToExtract := versionNeededToExtract;
          CentralDirectoryFileHeader.generalPurposeBitFlag := generalPurposeBitFlag;
          CentralDirectoryFileHeader.compressionMethod := compressionMethod;
          CentralDirectoryFileHeader.fileLastModificationTime := fileLastModificationTime;
          CentralDirectoryFileHeader.fileLastModificationDate := fileLastModificationDate;
          CentralDirectoryFileHeader.crc32 := crc32;
          CentralDirectoryFileHeader.compressedSize := compressedSize;
          CentralDirectoryFileHeader.uncompressedSize := uncompressedSize;
          CentralDirectoryFileHeader.fileNameLength := fileNameLength;
          CentralDirectoryFileHeader.extraFieldsLength := extraFieldsLength;
          CentralDirectoryFileHeader.commentLength := commentLength;
          CentralDirectoryFileHeader.diskNumberStart := diskNumberStart;
          CentralDirectoryFileHeader.internalFileAttributes := internalFileAttributes;
          CentralDirectoryFileHeader.externalFileAttributes := externalFileAttributes;
          CentralDirectoryFileHeader.relativeOffsetOfLocalHeader := relativeOffsetOfLocalHeader;
          CentralDirectoryFileHeader.fileName := subarray rest 0 fileNameLength;
          CentralDirectoryFileHeader.extraFields := extraFields;
          CentralDirectoryFileHeader.comment :=
            subarray_from rest (fileNameLength + extraFieldsLength) |}.

(** ** The other record parsers *)

Module DataDescriptor.
Record t := { crc32 : Z; compressedSize : Z; uncompressedSize : Z }.
End DataDescriptor.

Module EndOfCentralDirectoryRecord.
Record t := {
  diskNumber : Z;
  centralDirectoryDiskNumber : Z;
  numberOfEntriesOnDisk : Z;
  numberOfEntries : Z;
  sizeOfCentralDirectory : Z;
  centralDirectoryOffset : Z;
  commentLength : Z;
  comment : Buffer
}.
End EndOfCentralDirectoryRecord.

Module Zip64EndOfCentralDirectoryRecord.
Record t := {
  zip64EndOfCentralDirectoryRecordSize : Z;
  versionMadeBy : Z;
  versionNeededToExtract : Z;
  diskNumber : Z;
  centralDirectoryDiskNumber : Z;
  numberOfEntriesOnDisk : Z;
  numberOfEntries : Z;
  sizeOfCentralDirectory : Z;
  centralDirectoryOffset : Z;
  zip64ExtensibleDataSector : Buffer
}.
End Zip64EndOfCentralDirectoryRecord.

Module Zip64EndOfCentralDirectoryLocator.
Record t := {
  zip64EndOfCentralDirectoryRecordDiskNumber : Z;
  zip64EndOfCentralDirectoryRecordOffset : Z;
  diskCount : Z
}.
End Zip64EndOfCentralDirectoryLocator.

Definition readDataDescriptor (handle : Handle) (cursor : Z) (zip64 : bool)
  : result DataDescriptor.t :=
  buffer <- read handle cursor (if zip64 then 24 else 16) ;;
  signature <- readUInt32LE buffer 0 ;;
  if negb (signature =? 0x08074b50)
  then Throw "invalid data descriptor"
  else
    crc32 <- readUInt32LE buffer 4 ;;
    compressedSize <-
      (if zip64 then readBigUInt64LE buffer 8 else readUInt32LE buffer 8) ;;
    uncompressedSize <-
      (if zip64 then readBigUInt64LE buffer 16 else readUInt32LE buffer 12) ;;
    Ok {| DataDescriptor.crc32 := crc32;
          DataDescriptor.compressedSize := compressedSize;
          DataDescriptor.uncompressedSize := uncompressedSize |}.

Definition readEndOfCentralDirectoryRecord (handle : Handle) (offset : Z)
  : result EndOfCentralDirectoryRecord.t :=
  buffer <- read handle offset 22 ;;
  signature <- readUInt32LE buffer 0 ;;
  if negb (signature =? 0x06054b50)
  then Throw "invalid end of central directory record signature"
  else
    commentLength <- readUInt16LE buffer 20 ;;
    rest <- read handle (offset + 22) commentLength ;;
    diskNumber <- readUInt16LE buffer 4 ;;
    centralDirectoryDiskNumber <- readUInt16LE buffer 6 ;;
    numberOfEntriesOnDisk <- readUInt16LE buffer 8 ;;
    numberOfEntries <- readUInt16LE buffer 10 ;;
    sizeOfCentralDirectory <- readUInt32LE buffer 12 ;;
    centralDirectoryOffset <- readUInt32LE buffer 16 ;;
    Ok {| EndOfCentralDirectoryRecord.diskNumber := diskNumber;
          EndOfCentralDirectoryRecord.centralDirectoryDiskNumber := centralDirectoryDiskNumber;
          EndOfCentralDirectoryRecord.numberOfEntriesOnDisk := numberOfEntriesOnDisk;
          EndOfCentralDirectoryRecord.numberOfEntries := numberOfEntries;
          EndOfCentralDirectoryRecord.sizeOfCentralDirectory := sizeOfCentralDirectory;
          EndOfCentralDirectoryRecord.centralDirectoryOffset := centralDirectoryOffset;
          EndOfCentralDirectoryRecord.commentLength := commentLength;
          EndOfCentralDirectoryRecord.comment := rest |}.

(** The fixed part is read as 54 bytes. [Number(size)] is exact up to
    [2 ^ 53]; no buffer or file is longer than that, so a larger size fails
    the read of the data sector whatever the rounding. *)
Definition readZip64EndOfCentralDirectoryRecord (handle : Handle) (offset : Z)
  : result Zip64EndOfCentralDirectoryRecord.t :=
  buffer <- read handle offset 54 ;;
  signature <- readUInt32LE buffer 0 ;;
  if negb (signature =? 0x06064b50)
  then Throw "invalid zip64 end of central directory record signature"
  else
    zip64EndOfCentralDirectoryRecordSize <- readBigUInt64LE buffer 4 ;;
    rest <- read handle (offset + 54) zip64EndOfCentralDirectoryRecordSize ;;
    versionMadeBy <- readUInt16LE buffer 12 ;;
    versionNeededToExtract <- readUInt16LE buffer 14 ;;
    diskNumber <- readUInt32LE buffer 16 ;;
    centralDirectoryDiskNumber <- readUInt32LE buffer 20 ;;
    numberOfEntriesOnDisk <- readBigUInt64LE buffer 24 ;;
    numberOfEntries <- readBigUInt64LE buffer 32 ;;
    sizeOfCentralDirectory <- readBigUInt64LE buffer 40 ;;
    centralDirectoryOffset <- readBigUInt64LE buffer 48 ;;
    Ok {| Zip64EndOfCentralDirectoryRecord.zip64EndOfCentralDirectoryRecordSize :=
            zip64EndOfCentralDirectoryRecordSize;
          Zip64EndOfCentralDirectoryRecord.versionMadeBy := versionMadeBy;
          Zip64EndOfCentralDirectoryRecord.versionNeededToExtract := versionNeededToExtract;
          Zip64EndOfCentralDirectoryRecord.diskNumber := diskNumber;
          Zip64EndOfCentralDirectoryRecord.centralDirectoryDiskNumber :=
            centralDirectoryDiskNumber;
          Zip64EndOfCentralDirectoryRecord.numberOfEntriesOnDisk := numberOfEntriesOnDisk;
          Zip64EndOfCentralDirectoryRecord.numberOfEntries := numberOfEntries;
          Zip64EndOfCentralDirectoryRecord.sizeOfCentralDirectory := sizeOfCentralDirectory;
          Zip64EndOfCentralDirectoryRecord.centralDirectoryOffset := centralDirectoryOffset;
          Zip64EndOfCentralDirectoryRecord.zip64ExtensibleDataSector := rest |}.

Definition readZip64EndOfCentralDirectoryLocator (handle : Handle) (offset : Z)
  : result Zip64EndOfCentralDirectoryLocator.t :=
  buffer <- read handle offset 20 ;;
  signature <- readUInt32LE buffer 0 ;;
  if negb (signature =? 0x07064b50)
  then Throw "invalid zip64 end of central directory locator signature"
  else
    zip64EndOfCentralDirectoryRecordDiskNumber <- readUInt32LE buffer 4 ;;
    zip64EndOfCentralDirectoryRecordOffset <- readBigUInt64LE buffer 8 ;;
    diskCount <- readUInt32LE buffer 16 ;;
    Ok {| Zip64EndOfCentralDirectoryLocator.zip64EndOfCentralDirectoryRecordDiskNumber :=
            zip64EndOfCentralDirectoryRecordDiskNumber;
          Zip64EndOfCentralDirectoryLocator.zip64EndOfCentralDirectoryRecordOffset :=
            zip64EndOfCentralDirectoryRecordOffset;
          Zip64EndOfCentralDirectoryLocator.diskCount := diskCount |}.

End Read.

(* ===================================================================== *)
(** * lib/zip.js, reading half *)
(* ===================================================================== *)

Module Unzip.

Import Read.
Module CDFH := Read.CentralDirectoryFileHeader.

(** The read-side entry. *)
Module Entry.
Record t := {
  centralDirectoryFileHeader : CDFH.t;
  fileName : text;
  comment : text;
  modificationDate : Date;
  compressedSize : Z;
  uncompressedSize : Z;
  relativeOffsetOfLocalHeader : Z;
  diskNumberStart : Z;
  encrypted : bool;
  compressed : option bool
}.
End Entry.

(** The fields of the [Unzip] class. *)
Record Unzip := {
  handle : Handle;
  centralDirectoryOffset : Z;
  fileSize : Z;
  entryCount : Z;
  comment : text
}.

Module UnzipEntryOptions.
Record t := {
  decompress : option bool;
  decrypt : option bool;
  end_ : option Z;
  start : option Z;
  validateData : option bool
}.
Definition default : t :=
  {| decompress := None; decrypt := None; end_ := None; start := None;
     validateData := None |}.
End UnzipEntryOptions.

Definition dosDateTimeToDate (date time : Z) : Date :=
  Date_UTC
    (bitand (sar date 9) 0x7f + 1980)
    (bitand (sar date 5) 0xf - 1)
    (bitand date 0x1f)
    (bitand (sar time 11) 0x1f)
    (bitand (sar time 5) 0x3f)
    (bitand time 0x1f * 2).

Section Reader.

(** The runtime services the reader calls. *)
Variable crc32 : Buffer -> Z -> Z.              (* [zlib.crc32(data, value)] *)
Variable Buffer_toString : Buffer -> jsstring.  (* [buffer.toString('utf8')] *)
Variable createInflateRaw : Run -> Run.         (* a stream piped through [zlib.createInflateRaw()] *)
Variable fileChunks : Buffer -> list Buffer.    (* the chunks a file read stream cuts a byte range into *)

(** *** The archive opener *)

Definition eocdrWithoutCommentSize : Z := 22.
Definition maxCommentSize : Z := 0xffff.

(** The body of the search loop of [fromRandomAccessReader] once the
    signature has been found at index [i] of the trailing window. Every path
    through it returns or throws. *)
Definition eocdr_found (handle : Handle) (totalSize : Z) (decodeStrings : bool)
    (bufferReadStart : Z) (buffer : Buffer) (i : Z) : result Unzip :=
  let eocdrBuffer := subarray_from buffer i in
  diskNumber <- readUInt16LE eocdrBuffer 4 ;;
  if negb (diskNumber =? 0)
  then Throw "multi-disk zip files are not supported"
  else
    entryCount <- readUInt16LE eocdrBuffer 10 ;;
    centralDirectoryOffset <- readUInt32LE eocdrBuffer 16 ;;
    commentLength <- readUInt16LE eocdrBuffer 20 ;;
    let expectedCommentLength := blen eocdrBuffer - eocdrWithoutCommentSize in
    if negb (commentLength =? expectedCommentLength)
    then Throw "invalid comment length"
    else
      let comment :=
        if decodeStrings
        then Str (Cp437.decodeCp437_from eocdrBuffer 22)
        else Buf (subarray_from eocdrBuffer 22) in
      if negb (entryCount =? 0xffff) && negb (centralDirectoryOffset =? 0xffffffff)
      then Ok {| handle := handle;
                 centralDirectoryOffset := centralDirectoryOffset;
                 fileSize := totalSize;
                 entryCount := entryCount;
                 comment := comment |}
      else
        let zip64EocdlOffset := bufferReadStart + (i - 20) in
        zip64EocdlBuffer <- read handle zip64EocdlOffset 20 ;;
        sig <- readUInt32LE zip64EocdlBuffer 0 ;;
        if negb (sig =? 0x07064b50)
        then Throw "invalid zip64 end of central directory locator signature"
        else
          zip64EocdrOffset <- readBigUInt64LE zip64EocdlBuffer 8 ;;
          zip64EocdrBuffer <- read handle zip64EocdrOffset 56 ;;
          sig <- readUInt32LE zip64EocdrBuffer 0 ;;
          if negb (sig =? 0x06064b50)
          then Throw "invalid zip64 end of central directory record signature"
          else
            entryCount <- readBigUInt64LE zip64EocdrBuffer 32 ;;
            centralDirectoryOffset <- readBigUInt64LE zip64EocdrBuffer 48 ;;
            Ok {| handle := handle;
                  centralDirectoryOffset := centralDirectoryOffset;
                  fileSize := totalSize;
                  entryCount := entryCount;
                  comment := comment |}.

(** The loop [for (let i = bufferSize - 22; i >= 0; i--)]: [eocdr_scan k]
    runs the iterations for [i = k - 1] down to [0]. *)
Fixpoint eocdr_scan (handle : Handle) (totalSize : Z) (decodeStrings : bool)
    (bufferReadStart : Z) (buffer : Buffer) (k : nat) : result Unzip :=
  match k with
  | O => Throw "end of central directory record signature not found"
  | S i =>
      sig <- readUInt32LE buffer (Z.of_nat i) ;;
      if negb (sig =? 0x06054b50)
      then eocdr_scan handle totalSize decodeStrings bufferReadStart buffer i
      else eocdr_found handle totalSize decodeStrings bufferReadStart buffer (Z.of_nat i)
  end.

Definition fromRandomAccessReader (handle : Handle) (totalSize : Z) (decodeStrings : bool)
  : result Unzip :=
  let bufferSize := Z.min totalSize (eocdrWithoutCommentSize + maxCommentSize) in
  let bufferReadStart := totalSize - bufferSize in
  buffer <- read handle bufferReadStart bufferSize ;;
  eocdr_scan handle totalSize decodeStrings bufferReadStart buffer
    (Z.to_nat (bufferSize - eocdrWithoutCommentSize + 1)).

Definition fromBuffer (buffer : Buffer) (decodeStrings : bool) : result Unzip :=
  fromRandomAccessReader (BufferHandle buffer) (blen buffer) decodeStrings.

(** [fromFileHandle]: [handle.stat()] reports the size of the file. *)
Definition fromFileHandle (filePosition : Z) (content : Buffer) (decodeStrings : bool)
  : result Unzip :=
  fromRandomAccessReader (FileHandle filePosition content) (blen content) decodeStrings.

(** *** The entry iterator *)

(** The first extra field with the given id ([for ... if (field.id === id)
    ... break]). *)
Definition findExtraField (id : Z) (extraFields : list ExtraField) : option Buffer :=
  Write.data <$> find (fun field => Write.id field =? id) extraFields.

(** The ZIP64 part of [readEntry]: the resolved [uncompressedSize],
    [compressedSize], [relativeOffsetOfLocalHeader] and [diskNumberStart]. *)
Definition readEntry_zip64 (centralDirectoryFileHeader : CDFH.t) : result (Z * Z * Z * Z) :=
  let h := centralDirectoryFileHeader in
  if (CDFH.uncompressedSize h =? 0xffffffff)
     || (CDFH.compressedSize h =? 0xffffffff)
     || (CDFH.relativeOffsetOfLocalHeader h =? 0xffffffff)
     || (CDFH.diskNumberStart h =? 0xffff)
  then
    match findExtraField 0x0001 (CDFH.extraFields h) with
    | None => Throw "expected zip64 extended information extra field"
    | Some zip64EiefBuffer =>
        let cursor := 0 in
        r <- (if CDFH.uncompressedSize h =? 0xffffffff then
                if blen zip64EiefBuffer <? cursor + 8
                then Throw "zip64 extended information extra field does not include uncompressed size"
                else v <- readBigUInt64LE zip64EiefBuffer cursor ;; Ok (v, cursor + 8)
              else Ok (CDFH.uncompressedSize h, cursor)) ;;
        let uncompressedSize := fst r in
        let cursor := snd r in
        r <- (if CDFH.compressedSize h =? 0xffffffff then
                if blen zip64EiefBuffer <? cursor + 8
                then Throw "zip64 extended information extra field does not include compressed size"
                else v <- readBigUInt64LE zip64EiefBuffer cursor ;; Ok (v, cursor + 8)
              else Ok (CDFH.compressedSize h, cursor)) ;;
        let compressedSize := fst r in
        let cursor := snd r in
        r <- (if CDFH.relativeOffsetOfLocalHeader h =? 0xffffffff then
                if blen zip64EiefBuffer <? cursor + 8
                then Throw "zip64 extended information extra field does not include relative header offset"
                else v <- readBigUInt64LE zip64EiefBuffer cursor ;; Ok (v, cursor + 8)
              else Ok (CDFH.relativeOffsetOfLocalHeader h, cursor)) ;;
        let relativeOffsetOfLocalHeader := fst r in
        let cursor := snd r in
        (* the source tests [relativeOffsetOfLocalHeader] here, as above *)
        diskNumberStart <-
          (if CDFH.relativeOffsetOfLocalHeader h =? 0xffffffff then
             if blen zip64EiefBuffer <? cursor + 4
             then Throw "zip64 extended information extra field does not include disk number start"
             else readUInt32LE zip64EiefBuffer cursor
           else Ok (CDFH.diskNumberStart h)) ;;
        Ok (uncompressedSize, compressedSize, relativeOffsetOfLocalHeader, diskNumberStart)
    end
  else
    Ok (CDFH.uncompressedSize h, CDFH.compressedSize h,
        CDFH.relativeOffsetOfLocalHeader h, CDFH.diskNumberStart h).

(** The Info-ZIP Unicode Path extra field that [readEntry] accepts: the
    first field with id 0x7075 that is long enough, has version 1 and
    carries the CRC-32 of the header's file name. *)
Definition unicodePath (h : CDFH.t) : option Buffer :=
  Write.data <$>
    find (fun extraField =>
            (Write.id extraField =? 0x7075)
            && negb (blen (Write.data extraField) <? 6)
            && (le_decode (take 1 (Write.data extraField)) =? 1)
            && (crc32 (CDFH.fileName h) 0 =? le_decode (take 4 (drop 1 (Write.data extraField)))))
         (CDFH.extraFields h).

(** [readEntry] once the central directory file header has been read. *)
Definition readEntry_of_header (centralDirectoryFileHeader : CDFH.t) (decodeStrings : bool)
  : result Entry.t :=
  let h := centralDirectoryFileHeader in
  if negb (bitand (CDFH.generalPurposeBitFlag h) generalPurposeBitFlags.strongEncryption =? 0)
  then Throw "strong encryption is not supported"
  else
    let isUtf8 := negb (bitand (CDFH.generalPurposeBitFlag h) generalPurposeBitFlags.utf8 =? 0) in
    let decode (b : Buffer) : text :=
      if decodeStrings
      then (if isUtf8 then Str (Buffer_toString b) else Str (Cp437.decodeCp437 b))
      else Buf b in
    sizes <- readEntry_zip64 h ;;
    let '(uncompressedSize, compressedSize, relativeOffsetOfLocalHeader, diskNumberStart) :=
      sizes in
    let fileName :=
      if decodeStrings then
        match unicodePath h with
        | Some data => Str (Buffer_toString (subarray_from data 5))
        | None => decode (CDFH.fileName h)
        end
      else decode (CDFH.fileName h) in
    Ok {| Entry.centralDirectoryFileHeader := h;
          Entry.fileName := fileName;
          Entry.comment := decode (CDFH.comment h);
          Entry.modificationDate :=
            dosDateTimeToDate (CDFH.fileLastModificationDate h)
                              (CDFH.fileLastModificationTime h);
          Entry.compressedSize := compressedSize;
          Entry.uncompressedSize := uncompressedSize;
          Entry.relativeOffsetOfLocalHeader := relativeOffsetOfLocalHeader;
          Entry.diskNumberStart := diskNumberStart;
          Entry.encrypted :=
            negb (bitand (CDFH.generalPurposeBitFlag h) generalPurposeBitFlags.encrypted =? 0);
          Entry.compressed :=
            if CDFH.compressionMethod h =? compressionMethods.none then Some false
            else if CDFH.compressionMethod h =? compressionMethods.deflate then Some true
            else None |}.

Definition readEntry (handle : Handle) (cursor : Z) (decodeStrings : bool) : result Entry.t :=
  centralDirectoryFileHeader <- readCentralDirectoryFileHeader handle cursor ;;
  readEntry_of_header centralDirectoryFileHeader decodeStrings.

(** [Unzip.entries]: the entries read until the count is reached, and the
    error that ends the iteration early, if any. *)
Fixpoint entries_loop (handle : Handle) (decodeStrings : bool) (n : nat) (cursor : Z)
  : list Entry.t * option string :=
  match n with
  | O => ([], None)
  | S n' =>
      match readEntry handle cursor decodeStrings with
      | Throw e => ([], Some e)
      | Ok entry =>
          let h := Entry.centralDirectoryFileHeader entry in
          let entrySize :=
            46 + CDFH.fileNameLength h + CDFH.extraFieldsLength h + CDFH.commentLength h in
          let r := entries_loop handle decodeStrings n' (cursor + entrySize) in
          (entry :: fst r, snd r)
      end
  end.

Definition entries (self : Unzip) (decodeStrings : bool) : list Entry.t * option string :=
  entries_loop (handle self) decodeStrings (Z.to_nat (entryCount self))
    (centralDirectoryOffset self).

(** *** The entry read pipeline *)

Definition createReadStream (handle : Handle) (start end_ : Z) : result Run :=
  if (MAX_SAFE_INTEGER <=? start) || (MAX_SAFE_INTEGER <=? end_)
  then Throw "Buffers don't support bigints"
  else
    match handle with
    | BufferHandle buffer =>
        Ok {| chunks := [subarray buffer start end_]; failure := None |}
    | FileHandle _ content =>
        if start =? end_
        then Ok {| chunks := [[]]; failure := None |}
        else Ok {| chunks := fileChunks (subarray content start end_); failure := None |}
    end.

(** The number of bytes in a sequence of chunks, and the checksum that
    feeding them to [zlib.crc32] one after the other accumulates. *)
Definition stream_length (source : list Buffer) : Z := blen (concat source).

Definition stream_crc32 (source : list Buffer) : Z :=
  foldl (fun c chunk => crc32 chunk c) 0 source.

(** The validating [Transform] of [openReadStream]: its two counters, its
    [transform] method and its [flush] method. *)
Record Tap := { bytes : Z; tap_crc32 : Z }.

Definition tap_transform (entry : Entry.t) (st : Tap) (chunk : Buffer)
  : result (Tap * Buffer) :=
  let bytes := bytes st + blen chunk in
  if Entry.uncompressedSize entry <? bytes
  then Throw "too many bytes in the stream"
  else Ok ({| bytes := bytes; tap_crc32 := crc32 chunk (tap_crc32 st) |}, chunk).

Definition tap_flush (entry : Entry.t) (st : Tap) : result unit :=
  if negb (bytes st =? Entry.uncompressedSize entry)
  then Throw "not enough bytes in the stream"
  else if negb (tap_crc32 st =? CDFH.crc32 (Entry.centralDirectoryFileHeader entry))
  then Throw "unexpected checksum"
  else Ok tt.

Definition validate (entry : Entry.t) (source : Run) : Piped :=
  run_transform (tap_transform entry) (tap_flush entry)
    {| bytes := 0; tap_crc32 := 0 |} (chunks source) (failure source).

(** Whether [openReadStream] pipes the data through the validating tap. *)
Definition validation_active (options : UnzipEntryOptions.t) (localMethod : Z) : bool :=
  let decompress :=
    (localMethod =? compressionMethods.deflate)
    && negb (bool_decide (UnzipEntryOptions.decompress options = Some false)) in
  negb (bool_decide (UnzipEntryOptions.validateData options = Some false))
  && ((localMethod =? compressionMethods.none) || decompress).

Definition openReadStream (handle : Handle) (entry : Entry.t) (options : UnzipEntryOptions.t)
  : result Piped :=
  let relativeStart := 0 in
  let relativeEnd := Entry.compressedSize entry in
  let ranged :=
    bool_decide (is_Some (UnzipEntryOptions.start options))
    || bool_decide (is_Some (UnzipEntryOptions.end_ options)) in
  if ranged
     && bool_decide (Entry.compressed entry = Some true)
     && negb (bool_decide (UnzipEntryOptions.decompress options = Some false))
  then Throw "start/end range not allowed for compressed entry without options.decompress === false"
  else if ranged
     && Entry.encrypted entry
     && negb (bool_decide (UnzipEntryOptions.decrypt options = Some false))
  then Throw "start/end range not allowed for encrypted entry without options.decrypt === false"
  else
    relativeStart <-
      match UnzipEntryOptions.start options with
      | Some start =>
          if start <? 0 then Throw "options.start < 0"
          else if Entry.compressedSize entry <? start
          then Throw "options.start > entry.compressedSize"
          else Ok start
      | None => Ok relativeStart
      end ;;
    relativeEnd <-
      match UnzipEntryOptions.end_ options with
      | Some e =>
          if e <? 0 then Throw "options.end < 0"
          else if Entry.compressedSize entry <? e
          then Throw "options.end > entry.compressedSize"
          else if e <? relativeStart then Throw "options.end < options.start"
          else Ok e
      | None => Ok relativeEnd
      end ;;
    localFileHeader <- readLocalFileHeader handle (Entry.relativeOffsetOfLocalHeader entry) ;;
    let fileDataStart :=
      Entry.relativeOffsetOfLocalHeader entry
      + (30 + LocalFileHeader.fileNameLength localFileHeader
         + LocalFileHeader.extraFieldsLength localFileHeader) in
    let method := LocalFileHeader.compressionMethod localFileHeader in
    if negb (method =? compressionMethods.none) && negb (method =? compressionMethods.deflate)
    then Throw "unsupported compression method"
    else
      readStream <- createReadStream handle (fileDataStart + relativeStart)
                      (fileDataStart + relativeEnd) ;;
      let decompress :=
        (method =? compressionMethods.deflate)
        && negb (bool_decide (UnzipEntryOptions.decompress options = Some false)) in
      let stream := if decompress then createInflateRaw readStream else readStream in
      if negb (bool_decide (UnzipEntryOptions.validateData options = Some false))
         && ((method =? compressionMethods.none) || decompress)
      then Ok (validate entry stream)
      else Ok (Flows stream).

End Reader.

End Unzip.

(* ===================================================================== *)
(** * lib/zip.js, writing half *)
(* ===================================================================== *)

Module Zip.

Import Write.

Definition EMPTY_BUFFER : Buffer := [].

Definition VERSION_NEEDED_TO_EXTRACT_UTF8 : Z := 20.
Definition VERSION_NEEDED_TO_EXTRACT_ZIP64 : Z := 45.
(* 3 = unix. 63 = spec version 6.3 *)
Definition VERSION_MADE_BY : Z := bitor (shl 3 8) 63.

Definition eocdrSignatureBuffer : Buffer := [x50; x4b; x05; x06].

(** The write-side entry. [crc32], the two sizes and the header offset are
    [undefined] until they are known. *)
Module Entry.
Record t := {
  fileName : Buffer;
  lastModFileTime : Z;
  lastModFileDate : Z;
  externalFileAttributes : Z;
  crc32 : optnum;
  uncompressedSize : optnum;
  compressedSize : optnum;
  compressionMethod : Z;
  crcAndFileSizeKnown : bool;
  forceZip64Format : bool;
  comment : Buffer;
  relativeOffsetOfLocalHeader : optnum
}.

Definition set_relativeOffsetOfLocalHeader (v : optnum) (e : t) : t :=
  {| fileName := fileName e; lastModFileTime := lastModFileTime e;
     lastModFileDate := lastModFileDate e;
     externalFileAttributes := externalFileAttributes e; crc32 := crc32 e;
     uncompressedSize := uncompressedSize e; compressedSize := compressedSize e;
     compressionMethod := compressionMethod e;
     crcAndFileSizeKnown := crcAndFileSizeKnown e;
     forceZip64Format := forceZip64Format e; comment := comment e;
     relativeOffsetOfLocalHeader := v |}.

Definition set_compressedSize (v : optnum) (e : t) : t :=
  {| fileName := fileName e; lastModFileTime := lastModFileTime e;
     lastModFileDate := lastModFileDate e;
     externalFileAttributes := externalFileAttributes e; crc32 := crc32 e;
     uncompressedSize := uncompressedSize e; compressedSize := v;
     compressionMethod := compressionMethod e;
     crcAndFileSizeKnown := crcAndFileSizeKnown e;
     forceZip64Format := forceZip64Format e; comment := comment e;
     relativeOffsetOfLocalHeader := relativeOffsetOfLocalHeader e |}.

Definition set_crc32 (v : optnum) (e : t) : t :=
  {| fileName := fileName e; lastModFileTime := lastModFileTime e;
     lastModFileDate := lastModFileDate e;
     externalFileAttributes := externalFileAttributes e; crc32 := v;
     uncompressedSize := uncompressedSize e; compressedSize := compressedSize e;
     compressionMethod := compressionMethod e;
     crcAndFileSizeKnown := crcAndFileSizeKnown e;
     forceZip64Format := forceZip64Format e; comment := comment e;
     relativeOffsetOfLocalHeader := relativeOffsetOfLocalHeader e |}.

Definition set_uncompressedSize (v : optnum) (e : t) : t :=
  {| fileName := fileName e; lastModFileTime := lastModFileTime e;
     lastModFileDate := lastModFileDate e;
     externalFileAttributes := externalFileAttributes e; crc32 := crc32 e;
     uncompressedSize := v; compressedSize := compressedSize e;
     compressionMethod := compressionMethod e;
     crcAndFileSizeKnown := crcAndFileSizeKnown e;
     forceZip64Format := forceZip64Format e; comment := comment e;
     relativeOffsetOfLocalHeader := relativeOffsetOfLocalHeader e |}.
End Entry.

(** The options objects of the public methods; a field left out is [None]. *)
Module Options.
Record t := {
  fileName : option text;
  comment : option text;
  compress : option bool;
  compressedSize : optnum;
  crc32 : optnum;
  forceZip64Format : option bool;
  mode : option Z;
  mtime : option Date;
  uncompressedSize : optnum
}.
Definition empty : t :=
  {| fileName := None; comment := None; compress := None; compressedSize := None;
     crc32 := None; forceZip64Format := None; mode := None; mtime := None;
     uncompressedSize := None |}.
End Options.

(** The promise held in [this.queue], once the work chained on it has run
    as far as it gets: fulfilled, rejected, or pending for good. *)
Inductive Promise :=
| Fulfilled
| Failed (e : string)
| Pending.

(** The writer: the fields of the [Zip] class and, for the [Readable] it
    extends, the chunks pushed so far, whether [push(null)] ended it, the
    errors emitted on it and whether it was destroyed. *)
Record Zip := {
  queue : option Promise;
  outputStreamCursor : Z;
  entries : list Entry.t;
  offsetOfStartOfCentralDirectory : option Z;
  pushed : list Buffer;
  ended : bool;
  errors : list string;
  destroyed : bool
}.

(** [new Zip({ cursor })]. *)
Definition new (cursor : Z) : Zip :=
  {| queue := Some Fulfilled; outputStreamCursor := cursor; entries := [];
     offsetOfStartOfCentralDirectory := None; pushed := []; ended := false;
     errors := []; destroyed := false |}.

Definition set_queue (q : option Promise) (self : Zip) : Zip :=
  {| queue := q; outputStreamCursor := outputStreamCursor self; entries := entries self;
     offsetOfStartOfCentralDirectory := offsetOfStartOfCentralDirectory self;
     pushed := pushed self; ended := ended self; errors := errors self;
     destroyed := destroyed self |}.

Definition set_outputStreamCursor (c : Z) (self : Zip) : Zip :=
  {| queue := queue self; outputStreamCursor := c; entries := entries self;
     offsetOfStartOfCentralDirectory := offsetOfStartOfCentralDirectory self;
     pushed := pushed self; ended := ended self; errors := errors self;
     destroyed := destroyed self |}.

Definition set_entries (l : list Entry.t) (self : Zip) : Zip :=
  {| queue := queue self; outputStreamCursor := outputStreamCursor self; entries := l;
     offsetOfStartOfCentralDirectory := offsetOfStartOfCentralDirectory self;
     pushed := pushed self; ended := ended self; errors := errors self;
     destroyed := destroyed self |}.

Definition set_offsetOfStartOfCentralDirectory (o : option Z) (self : Zip) : Zip :=
  {| queue := queue self; outputStreamCursor := outputStreamCursor self;
     entries := entries self; offsetOfStartOfCentralDirectory := o;
     pushed := pushed self; ended := ended self; errors := errors self;
     destroyed := destroyed self |}.

(** [self.push(chunk)]. *)
Definition push (chunk : Buffer) (self : Zip) : Zip :=
  {| queue := queue self; outputStreamCursor := outputStreamCursor self;
     entries := entries self;
     offsetOfStartOfCentralDirectory := offsetOfStartOfCentralDirectory self;
     pushed := pushed self ++ [chunk]; ended := ended self; errors := errors self;
     destroyed := destroyed self |}.

(** [self.push(null)]. *)
Definition push_null (self : Zip) : Zip :=
  {| queue := queue self; outputStreamCursor := outputStreamCursor self;
     entries := entries self;
     offsetOfStartOfCentralDirectory := offsetOfStartOfCentralDirectory self;
     pushed := pushed self; ended := true; errors := errors self;
     destroyed := destroyed self |}.

(** [self.emit('error', e); self.destroy()], on a writer that has a listener
    for ['error']: without one [emit] throws the error itself and [destroy] is
    not reached. *)
Definition emit_error_and_destroy (e : string) (self : Zip) : Zip :=
  {| queue := queue self; outputStreamCursor := outputStreamCursor self;
     entries := entries self;
     offsetOfStartOfCentralDirectory := offsetOfStartOfCentralDirectory self;
     pushed := pushed self; ended := ended self; errors := errors self ++ [e];
     destroyed := true |}.

(** The number of bytes pushed to the output so far. *)
Definition pushed_bytes (self : Zip) : Z := blen (concat (pushed self)).

(** Work queued on the writer: it updates the writer and returns or throws,
    or, with [None], never settles; what it did before that stays done. *)
Definition Task (A : Type) : Type := Zip -> Zip * option (result A).

Definition ret {A} (a : A) : Task A := fun self => (self, Some (Ok a)).

Definition lift {A} (r : result A) : Task A := fun self => (self, Some r).

(** An [await] on a promise that never settles. *)
Definition stall {A} : Task A := fun self => (self, None).

Definition tbind {A B} (m : Task A) (k : A -> Task B) : Task B :=
  fun self =>
    match m self with
    | (self', Some (Ok a)) => k a self'
    | (self', Some (Throw e)) => (self', Some (Throw e))
    | (self', None) => (self', None)
    end.

Definition get : Task Zip := fun self => (self, Some (Ok self)).

Definition modify (f : Zip -> Zip) : Task unit := fun self => (f self, Some (Ok tt)).

(** How a call of a public method comes back: it throws, or it returns a
    promise that is rejected, fulfilled, or never settled. *)
Inductive Outcome (A : Type) :=
| Threw (e : string)
| Rejected (e : string)
| Resolved (a : A)
| Unsettled.
Arguments Threw {A} e.
Arguments Rejected {A} e.
Arguments Resolved {A} a.
Arguments Unsettled {A}.

Notation "x <~ m ;; k" := (tbind m (fun x => k))
  (at level 100, m at next level, right associativity).

(** *** The cursor and the output *)

(** From [self] to [self'] the cursor has not moved back. *)
Definition cursor_kept (self self' : Zip) : Prop :=
  outputStreamCursor self <= outputStreamCursor self'.

(** From [self] to [self'] the cursor has advanced by the number of bytes
    pushed in between. *)
Definition cursor_tracks (self self' : Zip) : Prop :=
  outputStreamCursor self' - outputStreamCursor self
  = pushed_bytes self' - pushed_bytes self.

(** Work that never moves the cursor back, also when it throws. *)
Definition never_back {A} (work : Task A) : Prop :=
  forall self, cursor_kept self (fst (work self)).

(** Work that, when it returns, has advanced the cursor by what it pushed. *)
Definition accounts {A} (work : Task A) : Prop :=
  forall self self' a, work self = (self', Some (Ok a)) -> cursor_tracks self self'.

Record DosDateTime := { date : Z; time : Z }.

Definition dateToDosDateTime (d : Date) : DosDateTime :=
  {| date := bitor (bitor (bitand (getUTCDate d) 0x1f)
                          (shl (bitand (getUTCMonth d + 1) 0xf) 5))
                   (shl (bitand (getUTCFullYear d - 1980) 0x7f) 9);
     time := bitor (bitor (getUTCSeconds d / 2)
                          (shl (bitand (getUTCMinutes d) 0x3f) 5))
                   (shl (bitand (getUTCHours d) 0x1f) 11) |}.

(** [Buffer.from(value)] for a string or a [Buffer]. *)
Definition Buffer_from (value : text) : Buffer :=
  match value with
  | Str s => Buffer_from_string s
  | Buf b => b
  end.

(** [a >= 0xffffffff] for a bigint that may be [undefined]. *)
Definition ge_ffffffff (a : optnum) : bool :=
  match a with
  | Some v => 0xffffffff <=? v
  | None => false
  end.

(** *** Paths *)

(** [string.split('/')]. *)
Fixpoint split_slash (s : jsstring) : list jsstring :=
  match s with
  | [] => [[]]
  | c :: rest =>
      if c =? 47 then [] :: split_slash rest
      else match split_slash rest with
           | seg :: segs => (c :: seg) :: segs
           | [] => [[c]]
           end
  end.

Definition jsstring_eqb (a b : jsstring) : bool := bool_decide (a = b).

Definition is_ascii_letter (c : Z) : bool :=
  ((97 <=? c) && (c <=? 122)) || ((65 <=? c) && (c <=? 90)).

Definition sanitizeMetadataPath (metadataPath : jsstring) (isDirectory : bool)
  : result jsstring :=
  if jsstring_eqb metadataPath []
  then Throw "empty metadataPath"
  else
    let metadataPath := map (fun c => if c =? 92 then 47 else c) metadataPath in
    if match metadataPath with
       | c :: 58 :: _ => is_ascii_letter c
       | _ => false
       end
       || match metadataPath with
          | 47 :: _ => true
          | _ => false
          end
    then Throw "absolute path"
    else if existsb (jsstring_eqb [46; 46]) (split_slash metadataPath)
    then Throw "invalid relative path"
    else
      let looksLikeDirectory :=
        match last metadataPath with
        | Some 47 => true
        | _ => false
        end in
      if isDirectory then
        if negb looksLikeDirectory then Ok (metadataPath ++ [47]) else Ok metadataPath
      else if looksLikeDirectory then Throw "file path cannot end with '/'"
      else Ok metadataPath.

(** *** Records *)

(** The ZIP64 extra field of a local header written before the sizes are
    known, as [getLocalFileHeader] builds it: id 1, size 16 and the sixteen
    zero bytes of [Buffer.alloc(16)]. *)
Definition zero_zip64_extra : Buffer :=
  le_encode 2 0x0001 ++ le_encode 2 16 ++ replicate 16 x00.

Module CreateEntryOptions.
Record t := {
  fileName : jsstring;
  comment : text;
  compress : bool;
  compressedSize : optnum;
  crc32 : optnum;
  forceZip64Format : bool;
  mode : Z;
  mtime : option Date;
  uncompressedSize : optnum
}.
End CreateEntryOptions.

Section Writer.

(** The runtime services the writer calls. *)
Variable fill : nat -> byte.                   (* what [Buffer.allocUnsafe] leaves in memory *)
Variable crc32 : Buffer -> Z -> Z.             (* [zlib.crc32(data, value)] *)
Variable deflateRaw : Buffer -> result Buffer. (* [zlib.deflateRaw(buffer, callback)] *)
Variable createDeflateRaw : Run -> Run.        (* a stream piped through [zlib.createDeflateRaw()] *)
Variable now : Date.                           (* [new Date()] *)


Definition createEntry (options : CreateEntryOptions.t) : result Entry.t :=
  let fileName := Buffer_from_string (CreateEntryOptions.fileName options) in
  if 0xffff <? blen fileName
  then Throw "utf8 file name too long"
  else if negb (bitand (CreateEntryOptions.mode options) 0xffff
                  =? CreateEntryOptions.mode options)
  then Throw "invalid mode"
  else
    let comment := Buffer_from (CreateEntryOptions.comment options) in
    if 0xffff <? blen comment
    then Throw "File comment is too large"
    else
      let dosDateTime :=
        dateToDosDateTime (default now (CreateEntryOptions.mtime options)) in
      Ok {| Entry.fileName := fileName;
            Entry.lastModFileTime := time dosDateTime;
            Entry.lastModFileDate := date dosDateTime;
            Entry.externalFileAttributes := shr (shl (CreateEntryOptions.mode options) 16) 0;
            Entry.crc32 := CreateEntryOptions.crc32 options;
            Entry.uncompressedSize := CreateEntryOptions.uncompressedSize options;
            Entry.compressedSize := CreateEntryOptions.compressedSize options;
            Entry.compressionMethod :=
              if CreateEntryOptions.compress options
              then compressionMethods.deflate else compressionMethods.none;
            Entry.crcAndFileSizeKnown :=
              bool_decide (is_Some (CreateEntryOptions.crc32 options))
              && bool_decide (is_Some (CreateEntryOptions.uncompressedSize options))
              && bool_decide (is_Some (CreateEntryOptions.compressedSize options));
            Entry.forceZip64Format := CreateEntryOptions.forceZip64Format options;
            Entry.comment := comment;
            Entry.relativeOffsetOfLocalHeader := None |}.

Definition getLocalFileHeader (entry : Entry.t) : result Buffer :=
  let generalPurposeBitFlag := generalPurposeBitFlags.utf8 in
  let useZip64Format :=
    Entry.forceZip64Format entry
    || negb (Entry.crcAndFileSizeKnown entry)
    || ge_ffffffff (Entry.uncompressedSize entry)
    || ge_ffffffff (Entry.compressedSize entry) in
  r <- (if useZip64Format then
          let zeiefBuffer := replicate 16 x00 in
          zeiefBuffer <-
            (if Entry.crcAndFileSizeKnown entry then
               b <- writeBigUInt64LE zeiefBuffer (Entry.uncompressedSize entry) 0 ;;
               writeBigUInt64LE b (Entry.compressedSize entry) 8
             else Ok zeiefBuffer) ;;
          Ok (Some 0xffffffff, Some 0xffffffff, VERSION_NEEDED_TO_EXTRACT_ZIP64,
              [{| id := 0x0001; data := zeiefBuffer |}])
        else
          Ok (Entry.compressedSize entry, Entry.uncompressedSize entry,
              VERSION_NEEDED_TO_EXTRACT_UTF8, [])) ;;
  let '(compressedSize, uncompressedSize, versionNeededToExtract, extraFields) := r in
  let crc32 := if Entry.crcAndFileSizeKnown entry then Entry.crc32 entry else Some 0 in
  let generalPurposeBitFlag :=
    if Entry.crcAndFileSizeKnown entry then generalPurposeBitFlag
    else bitor generalPurposeBitFlag generalPurposeBitFlags.unknownCrc32AndFileSizes in
  serializeLocalFileHeader fill
    {| LocalFileHeader.versionNeededToExtract := versionNeededToExtract;
       LocalFileHeader.generalPurposeBitFlag := generalPurposeBitFlag;
       LocalFileHeader.compressionMethod := Entry.compressionMethod entry;
       LocalFileHeader.fileLastModificationTime := Entry.lastModFileTime entry;
       LocalFileHeader.fileLastModificationDate := Entry.lastModFileDate entry;
       LocalFileHeader.crc32 := crc32;
       LocalFileHeader.compressedSize := compressedSize;
       LocalFileHeader.uncompressedSize := uncompressedSize;
       LocalFileHeader.fileName := Entry.fileName entry;
       LocalFileHeader.extraFields := ExtraList extraFields |}.

Definition getCentralDirectoryRecord (entry : Entry.t) : result Buffer :=
  let useZip64Format :=
    Entry.forceZip64Format entry
    || ge_ffffffff (Entry.uncompressedSize entry)
    || ge_ffffffff (Entry.compressedSize entry)
    || ge_ffffffff (Entry.relativeOffsetOfLocalHeader entry) in
  r <- (if useZip64Format then
          let zeiefBuffer := allocUnsafe fill 24 in
          zeiefBuffer <- writeBigUInt64LE zeiefBuffer (Entry.uncompressedSize entry) 0 ;;
          zeiefBuffer <- writeBigUInt64LE zeiefBuffer (Entry.compressedSize entry) 8 ;;
          zeiefBuffer <- writeBigUInt64LE zeiefBuffer
                           (Entry.relativeOffsetOfLocalHeader entry) 16 ;;
          Ok (VERSION_NEEDED_TO_EXTRACT_ZIP64, Some 0xffffffff, Some 0xffffffff,
              Some 0xffffffff, [{| id := 0x0001; data := zeiefBuffer |}])
        else
          Ok (VERSION_NEEDED_TO_EXTRACT_UTF8, Entry.compressedSize entry,
              Entry.uncompressedSize entry, Entry.relativeOffsetOfLocalHeader entry, [])) ;;
  let '(versionNeededToExtract, compressedSize, uncompressedSize,
        relativeOffsetOfLocalHeader, extraFields) := r in
  let generalPurposeBitFlag :=
    if Entry.crcAndFileSizeKnown entry then generalPurposeBitFlags.utf8
    else bitor generalPurposeBitFlags.utf8 generalPurposeBitFlags.unknownCrc32AndFileSizes in
  let versionNeededToExtract :=
    if Entry.crcAndFileSizeKnown entry then versionNeededToExtract
    else VERSION_NEEDED_TO_EXTRACT_ZIP64 in
  serializeCentralDirectoryFileHeader fill
    {| CentralDirectoryFileHeader.versionMadeBy := VERSION_MADE_BY;
       CentralDirectoryFileHeader.versionNeededToExtract := versionNeededToExtract;
       CentralDirectoryFileHeader.generalPurposeBitFlag := generalPurposeBitFlag;
       CentralDirectoryFileHeader.compressionMethod := Entry.compressionMethod entry;
       CentralDirectoryFileHeader.fileLastModificationDate := Entry.lastModFileDate entry;
       CentralDirectoryFileHeader.fileLastModificationTime := Entry.lastModFileTime entry;
       CentralDirectoryFileHeader.crc32 := Entry.crc32 entry;
       CentralDirectoryFileHeader.compressedSize := compressedSize;
       CentralDirectoryFileHeader.uncompressedSize := uncompressedSize;
       CentralDirectoryFileHeader.diskNumberStart := 0;
       CentralDirectoryFileHeader.internalFileAttributes := 0;
       CentralDirectoryFileHeader.externalFileAttributes := Entry.externalFileAttributes entry;
       CentralDirectoryFileHeader.relativeOffsetOfLocalHeader := relativeOffsetOfLocalHeader;
       CentralDirectoryFileHeader.fileName := Entry.fileName entry;
       CentralDirectoryFileHeader.extraFields := ExtraList extraFields;
       CentralDirectoryFileHeader.comment := Entry.comment entry |}.

Definition getEndOfCentralDirectoryRecord
    (entryCount cursor offsetOfStartOfCentralDirectory : Z)
    (comment : Buffer) (forceZip64Format : bool) : result Buffer :=
  let sizeOfCentralDirectory := cursor - offsetOfStartOfCentralDirectory in
  let useZip64Format :=
    forceZip64Format
    || (0xffff <=? entryCount)
    || (0xffffffff <=? sizeOfCentralDirectory)
    || (0xffffffff <=? offsetOfStartOfCentralDirectory) in
  let '(normalEntryCount, normalSizeOfCentralDirectory,
        normalOffsetOfStartOfCentralDirectory) :=
    if forceZip64Format
    then (0xffff, 0xffffffff, 0xffffffff)
    else (entryCount, sizeOfCentralDirectory, offsetOfStartOfCentralDirectory) in
  eocdrBuffer <-
    serializeEndOfCentralDirectoryRecord fill
      {| EndOfCentralDirectoryRecord.diskNumber := 0;
         EndOfCentralDirectoryRecord.centralDirectoryDiskNumber := 0;
         EndOfCentralDirectoryRecord.numberOfEntriesOnDisk := normalEntryCount;
         EndOfCentralDirectoryRecord.numberOfEntries := normalEntryCount;
         EndOfCentralDirectoryRecord.sizeOfCentralDirectory := normalSizeOfCentralDirectory;
         EndOfCentralDirectoryRecord.centralDirectoryOffset :=
           normalOffsetOfStartOfCentralDirectory;
         EndOfCentralDirectoryRecord.comment := comment |} ;;
  if negb useZip64Format
  then Ok eocdrBuffer
  else
    zip64EocdrBuffer <-
      serializeZip64EndOfCentralDirectoryRecord fill
        {| Zip64EndOfCentralDirectoryRecord.versionMadeBy := VERSION_MADE_BY;
           Zip64EndOfCentralDirectoryRecord.versionNeededToExtract :=
             VERSION_NEEDED_TO_EXTRACT_ZIP64;
           Zip64EndOfCentralDirectoryRecord.diskNumber := 0;
           Zip64EndOfCentralDirectoryRecord.centralDirectoryDiskNumber := 0;
           Zip64EndOfCentralDirectoryRecord.numberOfEntriesOnDisk := entryCount;
           Zip64EndOfCentralDirectoryRecord.numberOfEntries := entryCount;
           Zip64EndOfCentralDirectoryRecord.sizeOfCentralDirectory := sizeOfCentralDirectory;
           Zip64EndOfCentralDirectoryRecord.centralDirectoryOffset :=
             offsetOfStartOfCentralDirectory;
           Zip64EndOfCentralDirectoryRecord.zip64ExtensibleDataSector := EMPTY_BUFFER |} ;;
    zip64EocdlBuffer <-
      serializeZip64EndOfCentralDirectoryLocator fill
        {| Zip64EndOfCentralDirectoryLocator.zip64EndOfCentralDirectoryRecordDiskNumber := 0;
           Zip64EndOfCentralDirectoryLocator.zip64EndOfCentralDirectoryRecordOffset := cursor;
           Zip64EndOfCentralDirectoryLocator.diskCount := 1 |} ;;
    Ok (zip64EocdrBuffer ++ zip64EocdlBuffer ++ eocdrBuffer).

(** *** Writing *)

Definition writeBuffer (buffer : Buffer) : Task unit :=
  modify (fun self =>
            set_outputStreamCursor (outputStreamCursor self + blen buffer)
              (push buffer self)).

Definition push_all (chunks : list Buffer) : Task unit :=
  modify (fun self => foldl (fun s chunk => push chunk s) self chunks).

Definition total_length (chunks : list Buffer) : Z :=
  foldl (fun size chunk => size + blen chunk) 0 chunks.

Definition advance (size : Z) : Task unit :=
  modify (fun self => set_outputStreamCursor (outputStreamCursor self + size) self).

Definition writeRawStream (readStream : Run) : Task unit :=
  _ <~ push_all (chunks readStream) ;;
  match failure readStream with
  | Some e => lift (Throw e)
  | None => advance (total_length (chunks readStream))
  end.

(** The pipeline of [writeEntryStream] without compression. It ends with the
    generator that computes the checksum: the chunks that it yields go to the
    pass-through stream that [pipeline] sets up behind a trailing generator,
    an object stream that nothing reads, and no [self.push] is reached. That
    stream takes 15 chunks, holds back the callback of the 16th write, and
    buffers the 14 writes that follow; a source that has ended by then ends
    the pipeline when it gave 15 chunks or fewer and leaves it waiting for
    the writes to finish otherwise, and a source that has failed by then
    fails it. At the 31st chunk the pipeline waits for the stream to drain,
    for good. A source that fails is one that fails when it is asked for the
    chunk after its last. *)
Definition pipeline_stored {A} (readStream : Run) (value : A) : Task A :=
  match failure readStream with
  | None => if (length (chunks readStream) <? 16)%nat then ret value else stall
  | Some e => if (length (chunks readStream) <? 31)%nat then lift (Throw e) else stall
  end.

(** In the deflate branch the last pipeline stage pushes every compressed
    chunk to the output; in the other branch nothing does. *)
Definition writeEntryStream (entry : Entry.t) (readStream : Run) : Task Entry.t :=
  let uncompressedSize := total_length (chunks readStream) in
  let crc32_ := foldl (fun c chunk => crc32 chunk c) 0 (chunks readStream) in
  compressedSize <~
    (if Entry.compressionMethod entry =? compressionMethods.deflate then
       let deflated := createDeflateRaw readStream in
       _ <~ push_all (chunks deflated) ;;
       match failure deflated with
       | Some e => lift (Throw e)
       | None => ret (total_length (chunks deflated))
       end
     else pipeline_stored readStream uncompressedSize) ;;
  entry <~ lift (match Entry.crc32 entry with
                 | None => Ok (Entry.set_crc32 (Some crc32_) entry)
                 | Some c =>
                     if negb (c =? crc32_)
                     then Throw "file data stream has unexpected checksum"
                     else Ok entry
                 end) ;;
  entry <~ lift (match Entry.uncompressedSize entry with
                 | None => Ok (Entry.set_uncompressedSize (Some uncompressedSize) entry)
                 | Some u =>
                     if negb (u =? uncompressedSize)
                     then Throw "file data stream has unexpected number of bytes"
                     else Ok entry
                 end) ;;
  _ <~ advance compressedSize ;;
  ret entry.

(** What the [callback] of [addEntry] resolves to: the entry and the
    [write] closure, which may update the entry it closes over. *)
Definition Prepared : Type := Entry.t * (Entry.t -> Task Entry.t).

(** The function that [addEntry] chains on the queue. *)
Definition addEntry_queued (callback : result Prepared) : Task Entry.t :=
  p <~ lift callback ;;
  let '(entry, write) := p in
  self <~ get ;;
  let entry :=
    Entry.set_relativeOffsetOfLocalHeader (Some (outputStreamCursor self)) entry in
  header <~ lift (getLocalFileHeader entry) ;;
  _ <~ writeBuffer header ;;
  self <~ get ;;
  let cursor := outputStreamCursor self in
  entry <~ write entry ;;
  self <~ get ;;
  let compressedSize := outputStreamCursor self - cursor in
  entry <~ lift (match Entry.compressedSize entry with
                 | None => Ok (Entry.set_compressedSize (Some compressedSize) entry)
                 | Some c =>
                     if negb (compressedSize =? c)
                     then Throw "Unexpected compressed size"
                     else Ok entry
                 end) ;;
  _ <~ (if negb (Entry.crcAndFileSizeKnown entry) then
          descriptor <~ lift (serializeDataDescriptor fill
                                {| DataDescriptor.crc32 := Entry.crc32 entry;
                                   DataDescriptor.compressedSize := Entry.compressedSize entry;
                                   DataDescriptor.uncompressedSize :=
                                     Entry.uncompressedSize entry |}) ;;
          writeBuffer descriptor
        else ret tt) ;;
  _ <~ modify (fun self => set_entries (entries self ++ [entry]) self) ;;
  ret entry.

(** Chaining [work] on [self.queue] with the [catch] handler that emits the
    error and destroys the stream: work behind a rejected promise never
    runs, and neither does work behind a promise that stays pending. *)
Definition enqueue {A} (self : Zip) (work : Task A) : Zip * Outcome A :=
  match queue self with
  | None => (self, Rejected "Zip file has been finalized")
  | Some (Failed e) => (emit_error_and_destroy e self, Rejected e)
  | Some Pending => (self, Unsettled)
  | Some Fulfilled =>
      match work self with
      | (self', Some (Ok a)) => (self', Resolved a)
      | (self', Some (Throw e)) =>
          (emit_error_and_destroy e (set_queue (Some (Failed e)) self'), Rejected e)
      | (self', None) => (set_queue (Some Pending) self', Unsettled)
      end
  end.

(** The module-level [async function addEntry(self, callback)]. *)
Definition addEntry (self : Zip) (callback : result Prepared) : Zip * Outcome Entry.t :=
  enqueue self (addEntry_queued callback).

(** [buffer.includes(value)]. *)
Fixpoint includes (buffer value : Buffer) : bool :=
  bool_decide (take (length value) buffer = value)
  || match buffer with
     | [] => false
     | _ :: rest => includes rest value
     end.

End Writer.

(** *** The methods of the [Zip] class *)

(** An open file: what [handle.stat()] reports and what the stream from
    [handle.createReadStream()] yields. *)
Record Stats := { isFile : bool; st_mode : Z; st_mtime : Date; size : Z }.
Record OpenFile := { stat : result Stats; file_stream : Run }.

Module Class.

Section Methods.

Variable fill : nat -> byte.
Variable crc32 : Buffer -> Z -> Z.
Variable deflateRaw : Buffer -> result Buffer.
Variable createDeflateRaw : Run -> Run.
Variable now : Date.

(** The entry that [addEntry] builds from a read-side entry before it looks
    at the queue. *)
Definition pendingEntry (entry : Unzip.Entry.t) (withReadStream : bool)
    (options : Options.t) : result Entry.t :=
  let header := Unzip.Entry.centralDirectoryFileHeader entry in
  let isUtf8 :=
    negb (bitand (Unzip.CDFH.generalPurposeBitFlag header) generalPurposeBitFlags.utf8
            =? 0) in
  fileName <-
    match Options.fileName options with
    | Some fileName =>
        let fileName := Buffer_from fileName in
        if 0xffff <? blen fileName then Throw "utf8 file name too long" else Ok fileName
    | None =>
        match Unzip.Entry.fileName entry with
        | Buf b => if isUtf8 then Ok b else Ok (Buffer_from_string (Cp437.decodeCp437 b))
        | Str s => Ok (Buffer_from_string s)
        end
    end ;;
  comment <-
    match Options.comment options with
    | Some comment =>
        let comment := Buffer_from comment in
        if 0xffff <? blen comment then Throw "File comment is too large" else Ok comment
    | None =>
        match Unzip.Entry.comment entry with
        | Buf b => if isUtf8 then Ok b else Ok (Buffer_from_string (Cp437.decodeCp437 b))
        | Str s => Ok (Buffer_from_string s)
        end
    end ;;
  externalFileAttributes <-
    match Options.mode options with
    | Some mode =>
        if negb (bitand mode 0xffff =? mode) then Throw "invalid mode"
        else Ok (shr (shl mode 16) 0)
    | None => Ok (Unzip.CDFH.externalFileAttributes header)
    end ;;
  let dosDateTime :=
    dateToDosDateTime
      (default (Unzip.Entry.modificationDate entry) (Options.mtime options)) in
  Ok {| Entry.fileName := fileName;
        Entry.lastModFileTime := time dosDateTime;
        Entry.lastModFileDate := date dosDateTime;
        Entry.externalFileAttributes := externalFileAttributes;
        Entry.crc32 := Some (Unzip.CDFH.crc32 header);
        Entry.uncompressedSize := Some (Unzip.Entry.uncompressedSize entry);
        Entry.compressedSize := Some (Unzip.Entry.compressedSize entry);
        Entry.compressionMethod := Unzip.CDFH.compressionMethod header;
        Entry.crcAndFileSizeKnown := true;
        Entry.forceZip64Format := default false (Options.forceZip64Format options);
        Entry.comment := comment;
        Entry.relativeOffsetOfLocalHeader :=
          if withReadStream then None
          else Some (Unzip.Entry.relativeOffsetOfLocalHeader entry) |}.

(** [addEntry(entry, createReadStream, options)]; [createReadStream] is
    given by what calling it with [{ decompress: false }] resolves to. *)
Definition addEntry (self : Zip) (entry : Unzip.Entry.t)
    (createReadStream : option (result Run)) (options : Options.t)
  : Zip * Outcome Entry.t :=
  match pendingEntry entry (bool_decide (is_Some createReadStream)) options with
  | Throw e => (self, Threw e)
  | Ok pendingEntry =>
      match createReadStream with
      | None =>
          match queue self with
          | None => (self, Threw "Zip file has been finalized")
          | Some Fulfilled =>
              (set_entries (entries self ++ [pendingEntry]) self, Resolved pendingEntry)
          | Some (Failed e) => (self, Rejected e)
          | Some Pending => (self, Unsettled)
          end
      | Some createReadStream =>
          Zip.addEntry fill self
            (stream <- createReadStream ;;
             Ok (pendingEntry, fun e => _ <~ writeRawStream stream ;; ret e))
      end
  end.

Definition streamedEntryOptions (fileName : jsstring) (options : Options.t) (stats : Stats)
  : CreateEntryOptions.t :=
  {| CreateEntryOptions.comment := default (Buf EMPTY_BUFFER) (Options.comment options);
     CreateEntryOptions.compress := default true (Options.compress options);
     CreateEntryOptions.compressedSize := None;
     CreateEntryOptions.crc32 := None;
     CreateEntryOptions.fileName := fileName;
     CreateEntryOptions.forceZip64Format := default false (Options.forceZip64Format options);
     CreateEntryOptions.mode := default (st_mode stats) (Options.mode options);
     CreateEntryOptions.mtime := Some (default (st_mtime stats) (Options.mtime options));
     CreateEntryOptions.uncompressedSize := Some (size stats) |}.

(** [addFile(realPath, fileName, options)]; [opened] is what
    [fs.promises.open(realPath)] resolves to. *)
Definition addFile (self : Zip) (opened : result OpenFile) (fileName : jsstring)
    (options : Options.t) : Zip * Outcome Entry.t :=
  match sanitizeMetadataPath fileName false with
  | Throw e => (self, Threw e)
  | Ok fileName =>
      Zip.addEntry fill self
        (handle <- opened ;;
         stats <- stat handle ;;
         if negb (isFile stats) then Throw "not a file"
         else
           entry <- createEntry now (streamedEntryOptions fileName options stats) ;;
           Ok (entry,
               fun e => writeEntryStream crc32 createDeflateRaw e (file_stream handle)))
  end.

Definition addFileHandle (self : Zip) (fileHandle : OpenFile) (fileName : jsstring)
    (options : Options.t) : Zip * Outcome Entry.t :=
  match sanitizeMetadataPath fileName false with
  | Throw e => (self, Threw e)
  | Ok fileName =>
      Zip.addEntry fill self
        (stats <- stat fileHandle ;;
         if negb (isFile stats) then Throw "not a file"
         else
           entry <- createEntry now (streamedEntryOptions fileName options stats) ;;
           Ok (entry,
               fun e => writeEntryStream crc32 createDeflateRaw e (file_stream fileHandle)))
  end.

(** The default [mode] is [0o100664], that is 33204. *)
Definition addReadStream (self : Zip) (readStream : Run) (fileName : jsstring)
    (options : Options.t) : Zip * Outcome Entry.t :=
  match sanitizeMetadataPath fileName false with
  | Throw e => (self, Threw e)
  | Ok fileName =>
      match createEntry now
              {| CreateEntryOptions.comment :=
                   default (Buf EMPTY_BUFFER) (Options.comment options);
                 CreateEntryOptions.compress := default true (Options.compress options);
                 CreateEntryOptions.compressedSize := Options.compressedSize options;
                 CreateEntryOptions.crc32 := Options.crc32 options;
                 CreateEntryOptions.fileName := fileName;
                 CreateEntryOptions.forceZip64Format :=
                   default false (Options.forceZip64Format options);
                 CreateEntryOptions.mode := default 33204 (Options.mode options);
                 CreateEntryOptions.mtime := Options.mtime options;
                 CreateEntryOptions.uncompressedSize := Options.uncompressedSize options |}
      with
      | Throw e => (self, Threw e)
      | Ok entry =>
          Zip.addEntry fill self
            (Ok (entry, fun e => writeEntryStream crc32 createDeflateRaw e readStream))
      end
  end.

Definition addBuffer (self : Zip) (buffer : Buffer) (fileName : jsstring)
    (options : Options.t) : Zip * Outcome Entry.t :=
  match sanitizeMetadataPath fileName false with
  | Throw e => (self, Threw e)
  | Ok fileName =>
      if 0x3fffffff <? blen buffer
      then (self, Threw "buffer too large")
      else
        let checksum := crc32 buffer 0 in
        let uncompressedSize := blen buffer in
        let compress := default true (Options.compress options) in
        let bufferPromise := if compress then deflateRaw buffer else Ok buffer in
        Zip.addEntry fill self
          (buffer <- bufferPromise ;;
           entry <- createEntry now
                      {| CreateEntryOptions.comment :=
                           default (Buf EMPTY_BUFFER) (Options.comment options);
                         CreateEntryOptions.compress := compress;
                         CreateEntryOptions.compressedSize := Some (blen buffer);
                         CreateEntryOptions.crc32 := Some checksum;
                         CreateEntryOptions.fileName := fileName;
                         CreateEntryOptions.forceZip64Format :=
                           default false (Options.forceZip64Format options);
                         CreateEntryOptions.mode := default 33204 (Options.mode options);
                         CreateEntryOptions.mtime := Options.mtime options;
                         CreateEntryOptions.uncompressedSize := Some uncompressedSize |} ;;
           Ok (entry, fun e => _ <~ writeBuffer buffer ;; ret e))
  end.

(** The default [mode] is [0o40775], that is 16893. *)
Definition addDirectory (self : Zip) (fileName : jsstring) (options : Options.t)
  : Zip * Outcome Entry.t :=
  match sanitizeMetadataPath fileName true with
  | Throw e => (self, Threw e)
  | Ok fileName =>
      Zip.addEntry fill self
        (entry <- createEntry now
                    {| CreateEntryOptions.comment :=
                         default (Buf EMPTY_BUFFER) (Options.comment options);
                       CreateEntryOptions.compress := false;
                       CreateEntryOptions.compressedSize := Some 0;
                       CreateEntryOptions.crc32 := Some 0;
                       CreateEntryOptions.fileName := fileName;
                       CreateEntryOptions.forceZip64Format :=
                         default false (Options.forceZip64Format options);
                       CreateEntryOptions.mode := default 16893 (Options.mode options);
                       CreateEntryOptions.mtime := Options.mtime options;
                       CreateEntryOptions.uncompressedSize := Some 0 |} ;;
         Ok (entry, fun e => ret e))
  end.

(** The function that [addCentralDirectoryRecord] chains on the queue. *)
Definition addCentralDirectoryRecord_queued (comment : Buffer) (forceZip64Format : bool)
  : Task unit :=
  _ <~ modify (fun self =>
                 set_offsetOfStartOfCentralDirectory (Some (outputStreamCursor self)) self) ;;
  self <~ get ;;
  _ <~ foldl (fun work entry =>
                _ <~ work ;;
                record <~ lift (getCentralDirectoryRecord fill entry) ;;
                writeBuffer record)
             (ret tt) (entries self) ;;
  self <~ get ;;
  record <~ lift (getEndOfCentralDirectoryRecord fill
                    (Z.of_nat (length (entries self)))
                    (outputStreamCursor self)
                    (default 0 (offsetOfStartOfCentralDirectory self))
                    comment forceZip64Format) ;;
  writeBuffer record.

Definition addCentralDirectoryRecord (self : Zip) (options : Options.t)
  : Zip * Outcome unit :=
  match queue self with
  | None => (self, Threw "Zip file has been finalized")
  | Some _ =>
      match
        (comment <- match default (Buf EMPTY_BUFFER) (Options.comment options) with
                    | Buf b => Ok b
                    | Str s => Cp437.encodeCp437 s
                    end ;;
         if 0xffff <? blen comment then Throw "comment is too large"
         else if includes comment eocdrSignatureBuffer
         then Throw "comment contains end of central directory record signature"
         else Ok comment)
      with
      | Throw e => (self, Threw e)
      | Ok comment =>
          enqueue self
            (addCentralDirectoryRecord_queued comment
               (default false (Options.forceZip64Format options)))
      end
  end.

Definition end_ (self : Zip) : Zip :=
  match queue self with
  | Some Fulfilled => set_queue None (push_null self)
  | _ => set_queue None self
  end.

(** *** Sequences of calls *)

Inductive Op :=
| AddBuffer (buffer : Buffer) (fileName : jsstring) (options : Options.t)
| AddFile (opened : result OpenFile) (fileName : jsstring) (options : Options.t)
| AddFileHandle (fileHandle : OpenFile) (fileName : jsstring) (options : Options.t)
| AddReadStream (readStream : Run) (fileName : jsstring) (options : Options.t)
| AddDirectory (fileName : jsstring) (options : Options.t)
| AddEntry (entry : Unzip.Entry.t) (createReadStream : option (result Run))
    (options : Options.t)
| AddCentralDirectoryRecord (options : Options.t)
| End.

Definition is_add (op : Op) : bool :=
  match op with
  | AddCentralDirectoryRecord _ | End => false
  | _ => true
  end.

(** The calls that send their data through the branch of [writeEntryStream]
    without compression. *)
Definition streams_stored (op : Op) : bool :=
  match op with
  | AddFile _ _ options | AddFileHandle _ _ options | AddReadStream _ _ options =>
      negb (default true (Options.compress options))
  | _ => false
  end.

Definition forget {A} (r : Zip * Outcome A) : Zip * Outcome unit :=
  (fst r,
   match snd r with
   | Threw e => Threw e
   | Rejected e => Rejected e
   | Resolved _ => Resolved tt
   | Unsettled => Unsettled
   end).

(** One call on the writer, with the work it queues run as far as it gets
    before the next call: the queue runs the work of the calls in the order
    they were made. *)
Definition step (self : Zip) (op : Op) : Zip * Outcome unit :=
  match op with
  | AddBuffer buffer fileName options => forget (addBuffer self buffer fileName options)
  | AddFile opened fileName options => forget (addFile self opened fileName options)
  | AddFileHandle fileHandle fileName options =>
      forget (addFileHandle self fileHandle fileName options)
  | AddReadStream readStream fileName options =>
      forget (addReadStream self readStream fileName options)
  | AddDirectory fileName options => forget (addDirectory self fileName options)
  | AddEntry entry createReadStream options =>
      forget (addEntry self entry createReadStream options)
  | AddCentralDirectoryRecord options => addCentralDirectoryRecord self options
  | End => (end_ self, Resolved tt)
  end.

Definition run (self : Zip) (ops : list Op) : Zip :=
  foldl (fun s op => fst (step s op)) self ops.

End Methods.

End Class.

End Zip.

(* ===================================================================== *)
(** * Sample data *)
(* ===================================================================== *)

Module Samples.

Import Read.

(** The bytes of ["foo"] and the file name ["a.txt"]. *)
Definition foo : Buffer := [x66; x6f; x6f].
Definition a_txt : jsstring := [97; 46; 116; 120; 116].

(** A zlib stand-in that stores instead of compressing. *)
Definition no_deflate (r : Run) : Run := r.
Definition no_deflateRaw (b : Buffer) : result Buffer := Ok b.
Definition no_inflate (r : Run) : Run := r.
Definition one_chunk (b : Buffer) : list Buffer := [b].

Definition stored_options : Zip.Options.t :=
  {| Zip.Options.fileName := None; Zip.Options.comment := None;
     Zip.Options.compress := Some false; Zip.Options.compressedSize := None;
     Zip.Options.crc32 := None; Zip.Options.forceZip64Format := None;
     Zip.Options.mode := Some 0; Zip.Options.mtime := Some 0;
     Zip.Options.uncompressedSize := None |}.

(** The options [{ mode: 0, mtime: new Date(0) }]. *)
Definition plain_options : Zip.Options.t :=
  {| Zip.Options.fileName := None; Zip.Options.comment := None;
     Zip.Options.compress := None; Zip.Options.compressedSize := None;
     Zip.Options.crc32 := None; Zip.Options.forceZip64Format := None;
     Zip.Options.mode := Some 0; Zip.Options.mtime := Some 0;
     Zip.Options.uncompressedSize := None |}.

(** The entry that [addReadStream(stream, 'a.txt', plain_options)] creates:
    a deflate entry whose checksum and sizes are not known yet. *)
Definition streamed_entry : Zip.Entry.t :=
  {| Zip.Entry.fileName := [x61; x2e; x74; x78; x74];
     Zip.Entry.lastModFileTime := 0;
     Zip.Entry.lastModFileDate := 60449;
     Zip.Entry.externalFileAttributes := 0;
     Zip.Entry.crc32 := None;
     Zip.Entry.uncompressedSize := None;
     Zip.Entry.compressedSize := None;
     Zip.Entry.compressionMethod := 8;
     Zip.Entry.crcAndFileSizeKnown := false;
     Zip.Entry.forceZip64Format := false;
     Zip.Entry.comment := [];
     Zip.Entry.relativeOffsetOfLocalHeader := None |}.

(** A central directory file header with the given sizes, offset, disk
    number and extra fields, and nothing else of interest. *)
Definition header (uncompressedSize compressedSize relativeOffsetOfLocalHeader
                   diskNumberStart : Z) (extraFields : list ExtraField)
  : CentralDirectoryFileHeader.t :=
  {| CentralDirectoryFileHeader.versionMadeBy := 831;
     CentralDirectoryFileHeader.versionNeededToExtract := 45;
     CentralDirectoryFileHeader.generalPurposeBitFlag := 0x0800;
     CentralDirectoryFileHeader.compressionMethod := 0;
     CentralDirectoryFileHeader.fileLastModificationTime := 43437;
     CentralDirectoryFileHeader.fileLastModificationDate := 22811;
     CentralDirectoryFileHeader.crc32 := 2356372769;
     CentralDirectoryFileHeader.compressedSize := compressedSize;
     CentralDirectoryFileHeader.uncompressedSize := uncompressedSize;
     CentralDirectoryFileHeader.fileNameLength := 5;
     CentralDirectoryFileHeader.extraFieldsLength :=
       fold_right (fun f n => 4 + blen (Write.data f) + n) 0 extraFields;
     CentralDirectoryFileHeader.commentLength := 0;
     CentralDirectoryFileHeader.diskNumberStart := diskNumberStart;
     CentralDirectoryFileHeader.internalFileAttributes := 0;
     CentralDirectoryFileHeader.externalFileAttributes := 0;
     CentralDirectoryFileHeader.relativeOffsetOfLocalHeader := relativeOffsetOfLocalHeader;
     CentralDirectoryFileHeader.fileName := [x61; x2e; x74; x78; x74];
     CentralDirectoryFileHeader.extraFields := extraFields;
     CentralDirectoryFileHeader.comment := [] |}.

(** The archive without entries: the 22-byte end of central directory
    record alone. *)
Definition empty_archive : Buffer :=
  [x50; x4b; x05; x06; x00; x00; x00; x00; x00; x00; x00; x00;
   x00; x00; x00; x00; x00; x00; x00; x00; x00; x00].

(** The same record with an entry count of 0xFFFF, the ZIP64 sentinel. *)
Definition sentinel_archive : Buffer :=
  [x50; x4b; x05; x06; x00; x00; x00; x00; x00; x00; xff; xff;
   x00; x00; x00; x00; x00; x00; x00; x00; x00; x00].

(** An archive of 44 bytes: an end of central directory record at offset 0
    that declares a 22-byte comment, and, as that comment, the signature
    again at offset 22 followed by a comment-length word of 5. *)
Definition eocdr_in_comment : Buffer :=
  [x50; x4b; x05; x06; x00; x00; x00; x00; x00; x00; x00; x00;
   x00; x00; x00; x00; x00; x00; x00; x00; x16; x00]
  ++ [x50; x4b; x05; x06; x00; x00; x00; x00; x00; x00; x00; x00;
      x00; x00; x00; x00; x00; x00; x00; x00; x05; x00].

(** The stored entry [a.txt] holding ["foo"]: its local header followed by
    its data, and the entry the iterator yields for it. *)
Definition stored_foo : Buffer :=
  [x50; x4b; x03; x04; x14; x00; x00; x08; x00; x00; xad; xa9; x1b; x59;
   x21; x65; x73; x8c; x03; x00; x00; x00; x03; x00; x00; x00; x05; x00; x00; x00;
   x61; x2e; x74; x78; x74]
  ++ foo.

Definition stored_foo_entry : Unzip.Entry.t :=
  {| Unzip.Entry.centralDirectoryFileHeader := header 3 3 0 0 [];
     Unzip.Entry.fileName := Str a_txt;
     Unzip.Entry.comment := Str [];
     Unzip.Entry.modificationDate := 1724793206000;
     Unzip.Entry.compressedSize := 3;
     Unzip.Entry.uncompressedSize := 3;
     Unzip.Entry.relativeOffsetOfLocalHeader := 0;
     Unzip.Entry.diskNumberStart := 0;
     Unzip.Entry.encrypted := false;
     Unzip.Entry.compressed := Some false |}.

(** The same entry with an uncompressed size of 2 in its central directory
    header, one byte short of its data. *)
Definition short_foo_entry : Unzip.Entry.t :=
  {| Unzip.Entry.centralDirectoryFileHeader := header 2 3 0 0 [];
     Unzip.Entry.fileName := Str a_txt;
     Unzip.Entry.comment := Str [];
     Unzip.Entry.modificationDate := 1724793206000;
     Unzip.Entry.compressedSize := 3;
     Unzip.Entry.uncompressedSize := 2;
     Unzip.Entry.relativeOffsetOfLocalHeader := 0;
     Unzip.Entry.diskNumberStart := 0;
     Unzip.Entry.encrypted := false;
     Unzip.Entry.compressed := Some false |}.

(** A local file header and a central directory file header for [a.txt]
    holding ["foo"], each carrying one extra field, and the trailing
    records of an archive. *)
Definition a_txt_local_header : Write.LocalFileHeader.t :=
  {| Write.LocalFileHeader.versionNeededToExtract := 20;
     Write.LocalFileHeader.generalPurposeBitFlag := 0x0800;
     Write.LocalFileHeader.compressionMethod := 0;
     Write.LocalFileHeader.fileLastModificationTime := 43437;
     Write.LocalFileHeader.fileLastModificationDate := 22811;
     Write.LocalFileHeader.crc32 := Some 2356372769;
     Write.LocalFileHeader.compressedSize := Some 3;
     Write.LocalFileHeader.uncompressedSize := Some 3;
     Write.LocalFileHeader.fileName := [x61; x2e; x74; x78; x74];
     Write.LocalFileHeader.extraFields :=
       Write.ExtraList [{| Write.id := 0x5455; Write.data := [x01; x02] |}] |}.

Definition a_txt_central_header : Write.CentralDirectoryFileHeader.t :=
  {| Write.CentralDirectoryFileHeader.versionMadeBy := 831;
     Write.CentralDirectoryFileHeader.versionNeededToExtract := 20;
     Write.CentralDirectoryFileHeader.generalPurposeBitFlag := 0x0800;
     Write.CentralDirectoryFileHeader.compressionMethod := 0;
     Write.CentralDirectoryFileHeader.fileLastModificationTime := 43437;
     Write.CentralDirectoryFileHeader.fileLastModificationDate := 22811;
     Write.CentralDirectoryFileHeader.crc32 := Some 2356372769;
     Write.CentralDirectoryFileHeader.compressedSize := Some 3;
     Write.CentralDirectoryFileHeader.uncompressedSize := Some 3;
     Write.CentralDirectoryFileHeader.diskNumberStart := 0;
     Write.CentralDirectoryFileHeader.internalFileAttributes := 0;
     Write.CentralDirectoryFileHeader.externalFileAttributes := 2176057344;
     Write.CentralDirectoryFileHeader.relativeOffsetOfLocalHeader := Some 0;
     Write.CentralDirectoryFileHeader.fileName := [x61; x2e; x74; x78; x74];
     Write.CentralDirectoryFileHeader.extraFields :=
       Write.ExtraList [{| Write.id := 0x5455; Write.data := [x01; x02] |}];
     Write.CentralDirectoryFileHeader.comment := [x68; x69] |}.

Definition foo_descriptor : Write.DataDescriptor.t :=
  {| Write.DataDescriptor.crc32 := Some 2356372769;
     Write.DataDescriptor.compressedSize := Some 3;
     Write.DataDescriptor.uncompressedSize := Some 3 |}.

Definition one_entry_end_record : Write.EndOfCentralDirectoryRecord.t :=
  {| Write.EndOfCentralDirectoryRecord.diskNumber := 0;
     Write.EndOfCentralDirectoryRecord.centralDirectoryDiskNumber := 0;
     Write.EndOfCentralDirectoryRecord.numberOfEntriesOnDisk := 1;
     Write.EndOfCentralDirectoryRecord.numberOfEntries := 1;
     Write.EndOfCentralDirectoryRecord.sizeOfCentralDirectory := 51;
     Write.EndOfCentralDirectoryRecord.centralDirectoryOffset := 38;
     Write.EndOfCentralDirectoryRecord.comment := [] |}.

Definition one_disk_locator : Write.Zip64EndOfCentralDirectoryLocator.t :=
  {| Write.Zip64EndOfCentralDirectoryLocator.zip64EndOfCentralDirectoryRecordDiskNumber := 0;
     Write.Zip64EndOfCentralDirectoryLocator.zip64EndOfCentralDirectoryRecordOffset := 89;
     Write.Zip64EndOfCentralDirectoryLocator.diskCount := 1 |}.

(** What [addBuffer(foo, 'a.txt', { compress: false })] passes to
    [createEntry]. *)
Definition a_txt_options : Zip.CreateEntryOptions.t :=
  {| Zip.CreateEntryOptions.fileName := a_txt;
     Zip.CreateEntryOptions.comment := Buf [];
     Zip.CreateEntryOptions.compress := false;
     Zip.CreateEntryOptions.compressedSize := Some 3;
     Zip.CreateEntryOptions.crc32 := Some 2356372769;
     Zip.CreateEntryOptions.forceZip64Format := false;
     Zip.CreateEntryOptions.mode := 33204;
     Zip.CreateEntryOptions.mtime := None;
     Zip.CreateEntryOptions.uncompressedSize := Some 3 |}.

(** The options [{ comment: Buffer.from('aPK\x05\x06') }]. *)
Definition signature_comment_options : Zip.Options.t :=
  {| Zip.Options.fileName := None;
     Zip.Options.comment := Some (Buf [x61; x50; x4b; x05; x06]);
     Zip.Options.compress := None; Zip.Options.compressedSize := None;
     Zip.Options.crc32 := None; Zip.Options.forceZip64Format := None;
     Zip.Options.mode := None; Zip.Options.mtime := None;
     Zip.Options.uncompressedSize := None |}.

(** The archive that [addBuffer(foo, 'a.txt', stored_options)] and
    [addCentralDirectoryRecord()] push on a new writer, in memory that
    [Buffer.allocUnsafe] hands out zeroed. *)
Definition a_txt_archive : Buffer :=
  concat
    (Zip.pushed
       (fst (Zip.Class.addCentralDirectoryRecord zero_fill
               (fst (Zip.Class.addBuffer zero_fill crc32_ieee no_deflateRaw 0 (Zip.new 0)
                       foo a_txt stored_options))
               Zip.Options.empty))).

(** That archive with the uncompressed size in its central directory header,
    the four bytes at offset 38 + 24, set to 2. *)
Definition overlong_archive : Buffer :=
  take 62 a_txt_archive ++ [x02; x00; x00; x00] ++ drop 66 a_txt_archive.

(** The options [{ start: 0n, end: 2n }]. *)
Definition first_two_bytes : Unzip.UnzipEntryOptions.t :=
  {| Unzip.UnzipEntryOptions.decompress := None;
     Unzip.UnzipEntryOptions.decrypt := None;
     Unzip.UnzipEntryOptions.end_ := Some 2;
     Unzip.UnzipEntryOptions.start := Some 0;
     Unzip.UnzipEntryOptions.validateData := None |}.

(** The entry of [a.txt] holding ["foo"] with [forceZip64Format] set, as
    [addBuffer] records it on a new writer. *)
Definition forced_zip64_entry : Zip.Entry.t :=
  {| Zip.Entry.fileName := [x61; x2e; x74; x78; x74];
     Zip.Entry.lastModFileTime := 0;
     Zip.Entry.lastModFileDate := 60449;
     Zip.Entry.externalFileAttributes := 0;
     Zip.Entry.crc32 := Some 2356372769;
     Zip.Entry.uncompressedSize := Some 3;
     Zip.Entry.compressedSize := Some 3;
     Zip.Entry.compressionMethod := 0;
     Zip.Entry.crcAndFileSizeKnown := true;
     Zip.Entry.forceZip64Format := true;
     Zip.Entry.comment := [];
     Zip.Entry.relativeOffsetOfLocalHeader := Some 0 |}.

End Samples.

(* ===================================================================== *)
(** * Theorems *)
(* ===================================================================== *)

(** ** Results and buffers *)

Lemma Ok_inj {A : Type} (a b : A) : Ok a = Ok b -> a = b.
Proof. intros H. now injection H. Qed.

Lemma Some_Ok_inj {A : Type} (a b : A) : Some (Ok a) = Some (Ok b) -> a = b.
Proof. intros H. now injection H. Qed.

Section BufferFacts.
Import Write.

Lemma byte_to_Z_range (b : byte) : 0 <= byte_to_Z b < 256.
Proof.
  unfold byte_to_Z. pose proof (Byte.to_N_bounded b). lia.
Qed.

Lemma Z_to_byte_to_Z (b : byte) : Z_to_byte (byte_to_Z b) = b.
Proof.
  unfold Z_to_byte. pose proof (byte_to_Z_range b) as Hb.
  rewrite Z.mod_small by lia. unfold byte_to_Z. rewrite N2Z.id.
  now rewrite Byte.of_to_N.
Qed.

Lemma byte_to_Z_to_byte (z : Z) : 0 <= z < 256 -> byte_to_Z (Z_to_byte z) = z.
Proof.
  intros Hz. unfold Z_to_byte. rewrite Z.mod_small by lia.
  destruct (Byte.of_N (Z.to_N z)) eqn:E.
  - apply Byte.to_of_N in E. unfold byte_to_Z. rewrite E. lia.
  - apply Byte.of_N_None_iff in E. lia.
Qed.

Lemma blen_nonneg (b : Buffer) : 0 <= blen b.
Proof. unfold blen. lia. Qed.

Lemma blen_app (a b : Buffer) : blen (a ++ b) = blen a + blen b.
Proof. unfold blen. rewrite length_app. lia. Qed.

Lemma blen_drop (b : Buffer) (n : nat) : blen (drop n b) = Z.max 0 (blen b - Z.of_nat n).
Proof. unfold blen. rewrite length_drop. lia. Qed.

Lemma subarray_from_drop (b : Buffer) (i : Z) :
  0 <= i <= blen b -> subarray_from b i = drop (Z.to_nat i) b.
Proof.
  intros Hi. unfold subarray_from, subarray, clamp_index.
  destruct (Z.ltb_spec i 0) as [|_]; [lia|].
  destruct (Z.ltb_spec (blen b) 0) as [Hneg|_].
  { unfold blen in Hneg. lia. }
  rewrite !Z.min_l by lia.
  apply take_ge. rewrite length_drop. unfold blen in *. lia.
Qed.

Lemma readUIntLE_in_range (n : nat) (b : Buffer) (off : Z) :
  0 <= off -> off + Z.of_nat n <= blen b ->
  readUIntLE n b off = Ok (le_decode (take n (drop (Z.to_nat off) b))).
Proof.
  intros H0 H1. unfold readUIntLE.
  destruct (Z.leb_spec 0 off); [|lia].
  destruct (Z.leb_spec (off + Z.of_nat n) (blen b)); [|lia].
  reflexivity.
Qed.

Lemma readUIntLE_subarray_from (n : nat) (b : Buffer) (i k : Z) :
  0 <= i -> 0 <= k -> i + k + Z.of_nat n <= blen b ->
  readUIntLE n (subarray_from b i) k = readUIntLE n b (i + k).
Proof.
  intros Hi Hk Hlen.
  rewrite subarray_from_drop by lia.
  rewrite !readUIntLE_in_range; try lia.
  - rewrite drop_drop.
    replace (Z.to_nat (i + k)) with (Z.to_nat i + Z.to_nat k)%nat by lia.
    reflexivity.
  - rewrite blen_drop. lia.
Qed.

Lemma read_length (handle : Read.Handle) (position length : Z) (b : Buffer) :
  0 <= position -> 0 <= length ->
  Read.read handle position length = Ok b -> blen b = length.
Proof.
  intros Hp Hl. unfold Read.read. destruct handle as [buffer|filePosition content].
  - destruct (Z.ltb_spec (blen buffer) (length + position)); [discriminate|].
    intros [= <-]. unfold subarray, clamp_index.
    destruct (Z.ltb_spec position 0); [lia|].
    destruct (Z.ltb_spec (position + length) 0); [lia|].
    rewrite !Z.min_l by lia.
    unfold blen in *. rewrite length_take, length_drop. lia.
  - destruct (Z.eqb_spec length 0) as [->|Hne]; [intros [= <-]; reflexivity|].
    destruct (Z.ltb_spec position (-1)); [discriminate|].
    cbv zeta.
    match goal with |- context [blen ?x <? length] => destruct (Z.ltb_spec (blen x) length) end;
      [destruct (_ <? position); discriminate|].
    intros [= <-]. unfold blen in *. rewrite length_take in *. lia.
Qed.

Lemma length_le_encode (n : nat) (v : Z) : length (le_encode n v) = n.
Proof. revert v. induction n as [|n IH]; intros v; cbn; [reflexivity|]. now rewrite IH. Qed.

Lemma blen_le_encode (n : nat) (v : Z) : blen (le_encode n v) = Z.of_nat n.
Proof. unfold blen. now rewrite length_le_encode. Qed.

Lemma le_decode_encode (n : nat) (v : Z) :
  0 <= v < 2 ^ (8 * Z.of_nat n) -> le_decode (le_encode n v) = v.
Proof.
  revert v. induction n as [|n IH]; intros v Hv.
  - cbn in *. lia.
  - cbn [le_encode le_decode].
    replace (2 ^ (8 * Z.of_nat (S n))) with (256 * 2 ^ (8 * Z.of_nat n)) in Hv.
    2:{ replace (8 * Z.of_nat (S n)) with (8 + 8 * Z.of_nat n) by lia.
        rewrite Z.pow_add_r by lia. reflexivity. }
    rewrite IH by (Z.div_mod_to_equations; lia).
    rewrite byte_to_Z_to_byte by (Z.div_mod_to_equations; lia).
    Z.div_mod_to_equations. lia.
Qed.

Lemma length_allocUnsafe (fill : nat -> byte) (n : nat) : length (allocUnsafe fill n) = n.
Proof. unfold allocUnsafe. now rewrite length_map, length_seq. Qed.

(** Writing the next field of a record: the buffer is what has been written
    so far followed by memory still to be filled. *)
Lemma write_next (n : nat) (pre rest : Buffer) (v off : Z) :
  0 <= v < 2 ^ (8 * Z.of_nat n) ->
  off = blen pre ->
  (n <= length rest)%nat ->
  writeUIntLE n (pre ++ rest) v off = Ok ((pre ++ le_encode n v) ++ drop n rest).
Proof.
  intros Hv -> Hn. unfold writeUIntLE.
  destruct (Z.ltb_spec v 0); [lia|].
  destruct (Z.leb_spec (2 ^ (8 * Z.of_nat n)) v); [lia|].
  cbn [orb].
  destruct (Z.leb_spec 0 (blen pre)); [|unfold blen in *; lia].
  destruct (Z.leb_spec (blen pre + Z.of_nat n) (blen (pre ++ rest)));
    [|rewrite blen_app in *; unfold blen in *; lia].
  cbn [andb]. f_equal. unfold blen. rewrite Nat2Z.id.
  rewrite take_app_length, drop_app_add'. 2: reflexivity.
  now rewrite <- app_assoc.
Qed.

Lemma write_ok_range (n : nat) (buffer b' : Buffer) (v off : Z) :
  writeUIntLE n buffer v off = Ok b' -> 0 <= v < 2 ^ (8 * Z.of_nat n).
Proof.
  unfold writeUIntLE.
  destruct (Z.ltb_spec v 0); [discriminate|].
  destruct (Z.leb_spec (2 ^ (8 * Z.of_nat n)) v); [discriminate|].
  lia.
Qed.

Lemma read_in_prefix (n : nat) (pre post : Buffer) (off : Z) :
  0 <= off -> off + Z.of_nat n <= blen pre ->
  readUIntLE n (pre ++ post) off = readUIntLE n pre off.
Proof.
  intros H0 H1.
  rewrite !readUIntLE_in_range; try lia.
  - do 2 f_equal. rewrite drop_app_le by (unfold blen in *; lia).
    rewrite take_app_le; [reflexivity|].
    rewrite length_drop. unfold blen in *. lia.
  - rewrite blen_app. pose proof (blen_nonneg post). lia.
Qed.

Lemma read_last (n : nat) (pre : Buffer) (v off : Z) :
  0 <= v < 2 ^ (8 * Z.of_nat n) ->
  off = blen pre ->
  readUIntLE n (pre ++ le_encode n v) off = Ok v.
Proof.
  intros Hv ->.
  rewrite readUIntLE_in_range.
  - unfold blen. rewrite Nat2Z.id, drop_app_length.
    rewrite take_ge by (rewrite length_le_encode; lia).
    now rewrite le_decode_encode.
  - apply blen_nonneg.
  - rewrite blen_app, blen_le_encode. lia.
Qed.

Lemma read_single (n : nat) (v : Z) :
  0 <= v < 2 ^ (8 * Z.of_nat n) -> readUIntLE n (le_encode n v) 0 = Ok v.
Proof.
  intros Hv. change (le_encode n v) with ([] ++ le_encode n v).
  now apply read_last.
Qed.

Lemma limit2 : 2 ^ (8 * Z.of_nat 2) = 65536. Proof. reflexivity. Qed.

Lemma limit4 : 2 ^ (8 * Z.of_nat 4) = 4294967296. Proof. reflexivity. Qed.

Lemma limit8 : 2 ^ (8 * Z.of_nat 8) = 18446744073709551616. Proof. reflexivity. Qed.

End BufferFacts.

(** Sequential field writes into a fresh buffer, and reads back from the
    resulting concatenation. *)
Ltac blen_solve :=
  repeat rewrite blen_app; repeat rewrite blen_le_encode;
  unfold blen; cbn [length]; lia.

Ltac rest_solve :=
  repeat rewrite length_drop; rewrite ?length_allocUnsafe, ?length_replicate; lia.

Ltac range_solve :=
  rewrite ?limit2, ?limit4, ?limit8; lia.

Ltac write_field :=
  rewrite write_next by (first [range_solve | blen_solve | rest_solve]);
  cbn [Js.bind].

Ltac read_field :=
  rewrite ?app_assoc;
  repeat (rewrite read_in_prefix by blen_solve);
  first [ apply read_last; [range_solve | blen_solve]
        | apply read_single; range_solve ].

(** ** 32-bit operators on small non-negative numbers *)
Section BitFacts.

Lemma ToInt32_small (z : Z) : - 2 ^ 31 <= z < 2 ^ 31 -> ToInt32 z = z.
Proof.
  intros Hz. unfold ToInt32. rewrite Z.mod_small; lia.
Qed.

Lemma bitand_mask (x : Z) (k : Z) :
  0 <= x < 2 ^ 31 -> 0 <= k <= 30 -> bitand x (Z.ones k) = x mod 2 ^ k.
Proof.
  intros Hx Hk. unfold bitand.
  assert (Hones : 0 <= Z.ones k < 2 ^ 31).
  { rewrite Z.ones_equiv.
    assert (0 < 2 ^ k) by (apply Z.pow_pos_nonneg; lia).
    assert (2 ^ k <= 2 ^ 30) by (apply Z.pow_le_mono_r; lia).
    change (2 ^ 30) with 1073741824 in *. change (2 ^ 31) with 2147483648. lia. }
  rewrite !ToInt32_small by lia.
  apply Z.land_ones. lia.
Qed.

Lemma shl_small (x n : Z) :
  0 <= n < 32 -> 0 <= x -> x * 2 ^ n < 2 ^ 31 -> shl x n = x * 2 ^ n.
Proof.
  intros Hn Hx Hb. unfold shl.
  assert (0 < 2 ^ n) by (apply Z.pow_pos_nonneg; lia).
  rewrite (Z.mod_small n 32) by lia.
  rewrite (ToInt32_small x) by nia.
  rewrite Z.shiftl_mul_pow2 by lia.
  apply ToInt32_small. nia.
Qed.

Lemma sar_small (x n : Z) :
  0 <= n < 32 -> 0 <= x < 2 ^ 31 -> sar x n = x / 2 ^ n.
Proof.
  intros Hn Hx. unfold sar.
  rewrite (Z.mod_small n 32) by lia.
  rewrite ToInt32_small by lia.
  apply Z.shiftr_div_pow2. lia.
Qed.

Lemma land_low_high (a b k : Z) :
  0 <= k -> 0 <= a < 2 ^ k -> Z.land a (b * 2 ^ k) = 0.
Proof.
  intros Hk Ha. apply Z.bits_inj'. intros i Hi.
  rewrite Z.land_spec, Z.bits_0.
  destruct (Z.lt_ge_cases i k) as [Hlt|Hge].
  - rewrite (Z.mul_pow2_bits_low b k i) by lia. apply andb_false_r.
  - destruct (Z.eq_dec a 0) as [->|Hne]; [now rewrite Z.bits_0|].
    rewrite (Z.bits_above_log2 a i); [reflexivity|lia|].
    apply Z.log2_lt_pow2; [lia|].
    apply Z.lt_le_trans with (2 ^ k); [lia|].
    apply Z.pow_le_mono_r; lia.
Qed.

Lemma lor_low_high (a b k : Z) :
  0 <= k -> 0 <= a < 2 ^ k -> Z.lor a (b * 2 ^ k) = a + b * 2 ^ k.
Proof.
  intros Hk Ha.
  pose proof (land_low_high a b k Hk Ha) as Hl.
  rewrite <- Z.lxor_lor by exact Hl.
  symmetry. apply Z.add_nocarry_lxor. exact Hl.
Qed.

Lemma bitor_low_high (a b k : Z) :
  0 <= k -> 0 <= a < 2 ^ k -> 0 <= b -> a + b * 2 ^ k < 2 ^ 31 ->
  bitor a (b * 2 ^ k) = a + b * 2 ^ k.
Proof.
  intros Hk Ha Hb Hs. unfold bitor.
  assert (0 < 2 ^ k) by (apply Z.pow_pos_nonneg; lia).
  rewrite !ToInt32_small by nia.
  now apply lor_low_high.
Qed.

(** Three bit fields packed into one word, as both DOS words are. *)
Lemma pack3 (a b c : Z) (j k : Z) :
  0 < j < k -> k <= 16 -> 0 <= a < 2 ^ j -> 0 <= b < 2 ^ (k - j) -> 0 <= c < 2 ^ (16 - k) ->
  bitor (bitor a (shl b j)) (shl c k) = a + b * 2 ^ j + c * 2 ^ k
  /\ Z.lor (Z.lor a (Z.shiftl b j)) (Z.shiftl c k) = a + b * 2 ^ j + c * 2 ^ k
  /\ 0 <= a + b * 2 ^ j + c * 2 ^ k < 2 ^ 16.
Proof.
  intros Hj Hk Ha Hb Hc.
  assert (Hjk : 2 ^ k = 2 ^ j * 2 ^ (k - j)).
  { rewrite <- Z.pow_add_r by lia. f_equal. lia. }
  assert (H16 : 2 ^ 16 = 2 ^ k * 2 ^ (16 - k)).
  { rewrite <- Z.pow_add_r by lia. f_equal. lia. }
  assert (Hpj : 0 < 2 ^ j) by (apply Z.pow_pos_nonneg; lia).
  assert (Hpk : 0 < 2 ^ k) by (apply Z.pow_pos_nonneg; lia).
  assert (Hlow : 0 <= a + b * 2 ^ j < 2 ^ k) by nia.
  assert (Hall : 0 <= a + b * 2 ^ j + c * 2 ^ k < 2 ^ 16) by nia.
  assert (H31 : 2 ^ 16 < 2 ^ 31) by (apply Z.pow_lt_mono_r; lia).
  repeat split; try lia.
  - rewrite (shl_small b j) by nia.
    rewrite (shl_small c k) by nia.
    rewrite (bitor_low_high a b j) by nia.
    rewrite (bitor_low_high (a + b * 2 ^ j) c k) by nia.
    reflexivity.
  - rewrite !Z.shiftl_mul_pow2 by lia.
    rewrite (lor_low_high a b j) by lia.
    rewrite (lor_low_high (a + b * 2 ^ j) c k) by lia.
    reflexivity.
Qed.

End BitFacts.

(** ** The calendar *)
Section CalendarFacts.

Lemma DayFromYear_estimate (y : Z) :
  -1000 <= 400 * DayFromYear y - 146097 * (y - 1970) <= 1000.
Proof.
  unfold DayFromYear. Z.div_mod_to_equations. lia.
Qed.

Lemma YearFromDay_spec (d : Z) :
  DayFromYear (YearFromDay d) <= d < DayFromYear (YearFromDay d + 1).
Proof.
  unfold YearFromDay.
  set (y := 1970 + 400 * d / 146097).
  pose proof (DayFromYear_estimate (y - 1)) as Hlo.
  pose proof (DayFromYear_estimate (y + 1 + 1)) as Hhi.
  assert (Hq : 146097 * (y - 1970) <= 400 * d < 146097 * (y - 1970) + 146097).
  { subst y. Z.div_mod_to_equations. lia. }
  destruct (d <? DayFromYear y) eqn:E1.
  - apply Z.ltb_lt in E1. replace (y - 1 + 1) with y by lia. lia.
  - apply Z.ltb_ge in E1.
    destruct (DayFromYear (y + 1) <=? d) eqn:E2.
    + apply Z.leb_le in E2. lia.
    + apply Z.leb_gt in E2. lia.
Qed.

Lemma DaysInYear_step (y : Z) :
  DayFromYear (y + 1) = DayFromYear y + DaysInYear y.
Proof.
  unfold DayFromYear, DaysInYear.
  destruct (y mod 4 =? 0) eqn:E4; destruct (y mod 100 =? 0) eqn:E100;
    destruct (y mod 400 =? 0) eqn:E400; cbn [negb andb orb];
    rewrite ?Z.eqb_eq, ?Z.eqb_neq in *;
    Z.div_mod_to_equations; lia.
Qed.

Lemma DayFromYear_mono (y y' : Z) : y <= y' -> DayFromYear y <= DayFromYear y'.
Proof.
  unfold DayFromYear. intros H. Z.div_mod_to_equations. lia.
Qed.

Lemma DayWithinYear_range (d : Z) :
  0 <= DayWithinYear d < 365 + InLeapYear d /\ 0 <= InLeapYear d <= 1.
Proof.
  unfold DayWithinYear, InLeapYear.
  pose proof (YearFromDay_spec d) as Hs.
  rewrite DaysInYear_step in Hs.
  unfold DaysInYear in *.
  destruct ((YearFromDay d mod 4 =? 0)
            && (negb (YearFromDay d mod 100 =? 0) || (YearFromDay d mod 400 =? 0)));
    cbn; lia.
Qed.

Lemma MonthFromDay_range (d : Z) : 0 <= MonthFromDay d <= 11.
Proof.
  unfold MonthFromDay.
  repeat match goal with |- context [if ?c then _ else _] => destruct c end; lia.
Qed.

Lemma DateFromDay_range (d : Z) : 1 <= DateFromDay d <= 31.
Proof.
  pose proof (DayWithinYear_range d) as [Hw Hl].
  unfold DateFromDay, MonthFromDay.
  set (w := DayWithinYear d) in *. set (l := InLeapYear d) in *.
  repeat match goal with
         | |- context [if ?a <? ?b then _ else _] =>
             destruct (Z.ltb_spec a b)
         end; cbn [DaysBeforeMonth]; lia.
Qed.

(** [MakeDay] inverts the calendar fields of a day number. *)
Lemma MakeDay_fields (d : Z) :
  MakeDay (YearFromDay d) (MonthFromDay d) (DateFromDay d) = d.
Proof.
  pose proof (MonthFromDay_range d) as Hm.
  unfold MakeDay.
  replace (MonthFromDay d / 12) with 0 by (Z.div_mod_to_equations; lia).
  rewrite Z.mod_small by lia. rewrite Z.add_0_r.
  unfold DateFromDay. fold (InLeapYear d). unfold DayWithinYear. lia.
Qed.

(** Splitting a whole-second time value into its UTC fields. *)
Lemma time_fields (t : Z) :
  t mod 1000 = 0 ->
  t = MakeDate (Day t)
        (MakeTime (getUTCHours t) (getUTCMinutes t) (getUTCSeconds t) 0)
  /\ 0 <= getUTCHours t < 24 /\ 0 <= getUTCMinutes t < 60 /\ 0 <= getUTCSeconds t < 60.
Proof.
  intros Hms.
  unfold MakeDate, MakeTime, Day, getUTCHours, getUTCMinutes, getUTCSeconds,
    msPerDay, msPerHour, msPerMinute, msPerSecond.
  Z.div_mod_to_equations. lia.
Qed.

End CalendarFacts.

(** ** Code page 437 *)
Section Cp437Facts.
Import Cp437.

Lemma printable_ascii_utf8 (s : jsstring) :
  is_printable_ascii s = true -> Buffer_from_string s = map Z_to_byte s.
Proof.
  induction s as [|c rest IH]; intros H; [reflexivity|].
  cbn [is_printable_ascii forallb] in H.
  apply andb_prop in H as [Hc Hrest].
  apply andb_prop in Hc as [Hlo Hhi].
  apply Z.leb_le in Hlo, Hhi.
  cbn [Buffer_from_string map].
  unfold is_high_surrogate, is_low_surrogate.
  replace (0xD800 <=? c) with false by (symmetry; apply Z.leb_gt; lia).
  replace (0xDC00 <=? c) with false by (symmetry; apply Z.leb_gt; lia).
  cbn [andb]. unfold utf8_of_code_point.
  replace (c <? 0x80) with true by (symmetry; apply Z.ltb_lt; lia).
  cbn [app]. f_equal. now apply IH.
Qed.

(** C8. Encoding the CP437 decoding of any single byte gives that byte back,
    and a string of printable ASCII characters (U+0020..U+007E) passes the
    fast-path test and is encoded as its UTF-8 bytes, one byte per character. *)
Theorem cp437_roundtrip_and_ascii_fast_path :
  (forall b : byte, encodeCp437 (decodeCp437 [b]) = Ok [b]) /\
  (forall s : jsstring,
      Forall (fun c => 0x20 <= c <= 0x7e) s ->
      is_printable_ascii s = true /\
      encodeCp437 s = Ok (Buffer_from_string s) /\
      Buffer_from_string s = map Z_to_byte s).
Proof.
  split.
  - intros b. destruct b; vm_compute; reflexivity.
  - intros s Hs.
    assert (Hp : is_printable_ascii s = true).
    { unfold is_printable_ascii. apply forallb_forall. intros c Hc.
      rewrite Forall_forall in Hs. apply list_elem_of_In in Hc.
      specialize (Hs c Hc). apply andb_true_intro. split; apply Z.leb_le; lia. }
    split; [exact Hp|]. split.
    + unfold encodeCp437. now rewrite Hp.
    + now apply printable_ascii_utf8.
Qed.

Lemma cp437_roundtrip_and_ascii_fast_path_witness :
  encodeCp437 (decodeCp437 [x0a]) = Ok [x0a] /\
  is_printable_ascii [0x7a; 0x69; 0x70] = true /\
  encodeCp437 [0x7a; 0x69; 0x70] = Ok [x7a; x69; x70].
Proof.
  destruct cp437_roundtrip_and_ascii_fast_path as [Hbyte Hascii].
  split; [apply Hbyte|].
  destruct (Hascii [0x7a; 0x69; 0x70]) as (Hp & He & Hu).
  - repeat constructor; lia.
  - split; [exact Hp|]. rewrite He, Hu. reflexivity.
Defined.

End Cp437Facts.

(** ** DOS dates *)
Section DosDateFacts.
Import Unzip Zip.

(** C7. For a UTC timestamp [t] with whole seconds whose year lies in
    [1980, 2107], the DOS words are
    [date = day | (month << 5) | ((year - 1980) << 9)] and
    [time = floor(seconds / 2) | (minutes << 5) | (hours << 11)], and decoding
    them gives [t] with its seconds rounded down to even: [t] itself when the
    seconds are even. *)
Theorem dos_date_time_roundtrip (t : Date) :
  t mod 1000 = 0 ->
  1980 <= getUTCFullYear t <= 2107 ->
  let dt := dateToDosDateTime t in
  date dt = Z.lor (Z.lor (getUTCDate t) (Z.shiftl (getUTCMonth t + 1) 5))
                  (Z.shiftl (getUTCFullYear t - 1980) 9)
  /\ time dt = Z.lor (Z.lor (getUTCSeconds t / 2) (Z.shiftl (getUTCMinutes t) 5))
                     (Z.shiftl (getUTCHours t) 11)
  /\ dosDateTimeToDate (date dt) (time dt) = t - 1000 * (getUTCSeconds t mod 2)
  /\ (getUTCSeconds t mod 2 = 0 -> dosDateTimeToDate (date dt) (time dt) = t).
Proof.
  intros Hms Hyear dt.
  destruct (time_fields t Hms) as (Ht & Hh & Hmi & Hs).
  pose proof (MakeDay_fields (Day t)) as Hday.
  pose proof (MonthFromDay_range (Day t)) as Hm.
  pose proof (DateFromDay_range (Day t)) as Hd.
  unfold getUTCFullYear in Hyear.
  subst dt. unfold dateToDosDateTime. cbn [date time].
  unfold getUTCFullYear, getUTCMonth, getUTCDate in *.
  set (Y := YearFromDay (Day t)) in *.
  set (M := MonthFromDay (Day t)) in *.
  set (D := DateFromDay (Day t)) in *.
  set (h := getUTCHours t) in *.
  set (mi := getUTCMinutes t) in *.
  set (s := getUTCSeconds t) in *.
  change 0x1f with (Z.ones 5). change 0xf with (Z.ones 4).
  change 0x7f with (Z.ones 7). change 0x3f with (Z.ones 6).
  assert (H31 : 2 ^ 31 = 2147483648) by reflexivity.
  rewrite (bitand_mask D 5), (bitand_mask (M + 1) 4), (bitand_mask (Y - 1980) 7),
    (bitand_mask mi 6), (bitand_mask h 5) by lia.
  change (2 ^ 5) with 32. change (2 ^ 4) with 16. change (2 ^ 7) with 128.
  change (2 ^ 6) with 64.
  rewrite (Z.mod_small D 32), (Z.mod_small (M + 1) 16), (Z.mod_small (Y - 1980) 128),
    (Z.mod_small mi 64), (Z.mod_small h 32) by lia.
  assert (Hs2 : 0 <= s / 2 < 30) by (Z.div_mod_to_equations; lia).
  destruct (pack3 D (M + 1) (Y - 1980) 5 9) as (Hd1 & Hd2 & Hd3);
    [lia | lia | change (2 ^ 5) with 32; lia | change (2 ^ (9 - 5)) with 16; lia
    | change (2 ^ (16 - 9)) with 128; lia |].
  destruct (pack3 (s / 2) mi h 5 11) as (Ht1 & Ht2 & Ht3);
    [lia | lia | change (2 ^ 5) with 32; lia | change (2 ^ (11 - 5)) with 64; lia
    | change (2 ^ (16 - 11)) with 32; lia |].
  rewrite Hd1, Hd2, Ht1, Ht2.
  split; [reflexivity|]. split; [reflexivity|].
  change (2 ^ 5) with 32 in *. change (2 ^ 9) with 512 in *.
  change (2 ^ 11) with 2048 in *. change (2 ^ 16) with 65536 in *.
  set (wd := D + (M + 1) * 32 + (Y - 1980) * 512) in *.
  set (wt := s / 2 + mi * 32 + h * 2048) in *.
  assert (Hdecode :
    dosDateTimeToDate wd wt = t - 1000 * (s mod 2)).
  { unfold dosDateTimeToDate.
    change 0x1f with (Z.ones 5). change 0xf with (Z.ones 4).
    change 0x7f with (Z.ones 7). change 0x3f with (Z.ones 6).
    rewrite (sar_small wd 9), (sar_small wd 5), (sar_small wt 11), (sar_small wt 5)
      by lia.
    change (2 ^ 5) with 32. change (2 ^ 9) with 512. change (2 ^ 11) with 2048.
    rewrite !bitand_mask by (try (Z.div_mod_to_equations; lia); lia).
    change (2 ^ 5) with 32. change (2 ^ 4) with 16. change (2 ^ 7) with 128.
    change (2 ^ 6) with 64.
    replace (wd / 512 mod 128) with (Y - 1980)
      by (subst wd; Z.div_mod_to_equations; lia).
    replace (wd / 32 mod 16) with (M + 1)
      by (subst wd; Z.div_mod_to_equations; lia).
    replace (wd mod 32) with D by (subst wd; Z.div_mod_to_equations; lia).
    replace (wt / 2048 mod 32) with h by (subst wt; Z.div_mod_to_equations; lia).
    replace (wt / 32 mod 64) with mi by (subst wt; Z.div_mod_to_equations; lia).
    replace (wt mod 32) with (s / 2) by (subst wt; Z.div_mod_to_equations; lia).
    unfold Date_UTC.
    replace (Y - 1980 + 1980) with Y by lia.
    replace (M + 1 - 1) with M by lia.
    replace ((0 <=? Y) && (Y <=? 99)) with false
      by (symmetry; apply andb_false_iff; right; apply Z.leb_gt; lia).
    fold Y M D in Hday. rewrite Hday.
    rewrite Ht at 2.
    unfold MakeDate, MakeTime, msPerDay, msPerHour, msPerMinute, msPerSecond.
    Z.div_mod_to_equations. lia. }
  split; [exact Hdecode|].
  intros Heven. rewrite Hdecode, Heven. lia.
Qed.

(** 2024-08-27T21:13:26Z, the modification time of the [simple.zip] fixture. *)
Lemma dos_date_time_roundtrip_witness :
  dosDateTimeToDate (date (dateToDosDateTime 1724793206000))
                    (time (dateToDosDateTime 1724793206000)) = 1724793206000.
Proof.
  refine (proj2 (proj2 (proj2 (dos_date_time_roundtrip 1724793206000 _ _))) _).
  - reflexivity.
  - vm_compute. split; discriminate.
  - reflexivity.
Defined.

End DosDateFacts.

(** ** The archive opener *)
Section OpenerFacts.
Import Read Unzip Samples.

Lemma eocdr_scan_stops (handle : Handle) (totalSize : Z) (decodeStrings : bool)
    (bufferReadStart : Z) (buffer : Buffer) (k i : nat) :
  (i < k)%nat ->
  (k + 3 <= length buffer)%nat ->
  readUInt32LE buffer (Z.of_nat i) = Ok 0x06054b50 ->
  (forall j : nat, (i < j < k)%nat -> readUInt32LE buffer (Z.of_nat j) <> Ok 0x06054b50) ->
  eocdr_scan handle totalSize decodeStrings bufferReadStart buffer k
  = eocdr_found handle totalSize decodeStrings bufferReadStart buffer (Z.of_nat i).
Proof.
  induction k as [|k IH]; intros Hik Hlen Hsig Hlast; [lia|].
  cbn [eocdr_scan].
  destruct (Nat.eq_dec i k) as [->|Hne].
  - rewrite Hsig. cbn [Js.bind]. rewrite Z.eqb_refl. reflexivity.
  - assert (Hk : readUInt32LE buffer (Z.of_nat k) <> Ok 0x06054b50) by (apply Hlast; lia).
    unfold readUInt32LE in *.
    rewrite (readUIntLE_in_range 4 buffer (Z.of_nat k)) in * by (unfold blen; lia).
    cbn [Js.bind].
    destruct (Z.eqb_spec (le_decode (take 4 (drop (Z.to_nat (Z.of_nat k)) buffer))) 0x06054b50)
      as [Heq|_].
    + exfalso. apply Hk. now rewrite Heq.
    + cbn [negb]. apply IH; try lia; try assumption.
      intros j Hj. apply Hlast. lia.
Qed.

(** C1, as the code has it. The opener settles on the first signature it
    meets scanning backwards from [buffer.length - 22], at index [i] say. It
    fails for a multi-disk archive when the disk number there is not zero;
    it fails with an invalid comment length when the comment length there is
    not [buffer.length - 22 - i], whatever lies before [i]; and otherwise
    that record opens the archive. Its comment is the comment of the
    archive. Its entry count and central directory offset are those of the
    archive unless the count is 0xFFFF or the offset 0xFFFFFFFF; then the
    opener reads the 20 bytes before the record as the ZIP64 locator and the
    56 bytes at the offset found in the locator as the ZIP64 record, fails
    when a read fails or a signature is not the expected one, and takes the
    64-bit count and offset of the ZIP64 record otherwise. *)
Theorem opener_settles_on_last_signature
    (handle : Handle) (totalSize : Z) (decodeStrings : bool) (buffer : Buffer) (i : Z) :
  0 <= totalSize ->
  read handle (totalSize - Z.min totalSize 65557) (Z.min totalSize 65557) = Ok buffer ->
  0 <= i <= blen buffer - 22 ->
  readUInt32LE buffer i = Ok 0x06054b50 ->
  (forall j : Z, i < j <= blen buffer - 22 -> readUInt32LE buffer j <> Ok 0x06054b50) ->
  exists diskNumber entryCount centralDirectoryOffset commentLength : Z,
    readUInt16LE buffer (i + 4) = Ok diskNumber
    /\ readUInt16LE buffer (i + 10) = Ok entryCount
    /\ readUInt32LE buffer (i + 16) = Ok centralDirectoryOffset
    /\ readUInt16LE buffer (i + 20) = Ok commentLength
    /\ (diskNumber <> 0 ->
        fromRandomAccessReader handle totalSize decodeStrings
        = Throw "multi-disk zip files are not supported")
    /\ (diskNumber = 0 -> commentLength <> blen buffer - 22 - i ->
        fromRandomAccessReader handle totalSize decodeStrings
        = Throw "invalid comment length")
    /\ (diskNumber = 0 -> commentLength = blen buffer - 22 - i ->
        entryCount <> 0xffff -> centralDirectoryOffset <> 0xffffffff ->
        fromRandomAccessReader handle totalSize decodeStrings
        = Ok {| Unzip.handle := handle;
                centralDirectoryOffset := centralDirectoryOffset;
                fileSize := totalSize;
                entryCount := entryCount;
                comment :=
                  if decodeStrings
                  then Str (Cp437.decodeCp437_from (subarray_from buffer i) 22)
                  else Buf (subarray_from (subarray_from buffer i) 22) |})
    /\ (diskNumber = 0 -> commentLength = blen buffer - 22 - i ->
        entryCount = 0xffff \/ centralDirectoryOffset = 0xffffffff ->
        fromRandomAccessReader handle totalSize decodeStrings
        = (zip64EocdlBuffer <-
             read handle (totalSize - Z.min totalSize 65557 + (i - 20)) 20 ;;
           signature <- readUInt32LE zip64EocdlBuffer 0 ;;
           if negb (signature =? 0x07064b50)
           then Throw "invalid zip64 end of central directory locator signature"
           else
             zip64EocdrOffset <- readBigUInt64LE zip64EocdlBuffer 8 ;;
             zip64EocdrBuffer <- read handle zip64EocdrOffset 56 ;;
             signature <- readUInt32LE zip64EocdrBuffer 0 ;;
             if negb (signature =? 0x06064b50)
             then Throw "invalid zip64 end of central directory record signature"
             else
               entryCount64 <- readBigUInt64LE zip64EocdrBuffer 32 ;;
               centralDirectoryOffset64 <- readBigUInt64LE zip64EocdrBuffer 48 ;;
               Ok {| Unzip.handle := handle;
                     centralDirectoryOffset := centralDirectoryOffset64;
                     fileSize := totalSize;
                     entryCount := entryCount64;
                     comment :=
                       if decodeStrings
                       then Str (Cp437.decodeCp437_from (subarray_from buffer i) 22)
                       else Buf (subarray_from (subarray_from buffer i) 22) |})).
Proof.
  intros Htotal Hread Hi Hsig Hlast.
  assert (Hlen : blen buffer = Z.min totalSize 65557).
  { eapply read_length; [| |exact Hread]; lia. }
  set (disk := le_decode (take 2 (drop (Z.to_nat (i + 4)) buffer))).
  set (count := le_decode (take 2 (drop (Z.to_nat (i + 10)) buffer))).
  set (cdo := le_decode (take 4 (drop (Z.to_nat (i + 16)) buffer))).
  set (clen := le_decode (take 2 (drop (Z.to_nat (i + 20)) buffer))).
  assert (Hdisk : readUInt16LE buffer (i + 4) = Ok disk)
    by (apply readUIntLE_in_range; lia).
  assert (Hcount : readUInt16LE buffer (i + 10) = Ok count)
    by (apply readUIntLE_in_range; lia).
  assert (Hcdo : readUInt32LE buffer (i + 16) = Ok cdo)
    by (apply readUIntLE_in_range; lia).
  assert (Hclen : readUInt16LE buffer (i + 20) = Ok clen)
    by (apply readUIntLE_in_range; lia).
  exists disk, count, cdo, clen.
  do 4 (split; [assumption|]).
  assert (Hfound :
    fromRandomAccessReader handle totalSize decodeStrings
    = eocdr_found handle totalSize decodeStrings
        (totalSize - Z.min totalSize 65557) buffer i).
  { unfold fromRandomAccessReader, eocdrWithoutCommentSize, maxCommentSize.
    change (22 + 0xffff) with 65557. rewrite Hread. cbn [Js.bind].
    rewrite <- (Z2Nat.id i) by lia.
    apply eocdr_scan_stops.
    - lia.
    - unfold blen in *. lia.
    - rewrite Z2Nat.id by lia. exact Hsig.
    - intros j Hj. apply Hlast. lia. }
  assert (Heocdr : blen (subarray_from buffer i) = blen buffer - i).
  { rewrite subarray_from_drop by lia. rewrite blen_drop. lia. }
  unfold eocdr_found in Hfound. unfold readUInt16LE, readUInt32LE in *.
  rewrite !readUIntLE_subarray_from in Hfound
    by (try change (Z.of_nat 2) with 2; try change (Z.of_nat 4) with 4; lia).
  rewrite Hdisk, Hcount, Hcdo, Hclen in Hfound. cbn [Js.bind] in Hfound.
  rewrite Heocdr in Hfound. unfold eocdrWithoutCommentSize in Hfound.
  split; [|split; [|split]].
  - intros Hd. rewrite Hfound.
    destruct (Z.eqb_spec disk 0); [contradiction|]. reflexivity.
  - intros Hd Hc. rewrite Hfound.
    destruct (Z.eqb_spec disk 0); [|contradiction]. cbn [negb].
    destruct (Z.eqb_spec clen (blen buffer - i - 22)); [lia|]. reflexivity.
  - intros Hd Hc Hn Ho. rewrite Hfound.
    destruct (Z.eqb_spec disk 0); [|contradiction]. cbn [negb].
    destruct (Z.eqb_spec clen (blen buffer - i - 22)); [|lia]. cbn [negb].
    destruct (Z.eqb_spec count 0xffff); [contradiction|].
    destruct (Z.eqb_spec cdo 0xffffffff); [contradiction|].
    reflexivity.
  - intros Hd Hc Hsentinel. rewrite Hfound.
    destruct (Z.eqb_spec disk 0); [|contradiction]. cbn [negb].
    destruct (Z.eqb_spec clen (blen buffer - i - 22)); [|lia]. cbn [negb].
    replace (negb (count =? 0xffff) && negb (cdo =? 0xffffffff)) with false.
    2:{ symmetry. apply andb_false_iff.
        destruct Hsentinel as [->| ->]; [left|right]; reflexivity. }
    reflexivity.
Qed.

(** The empty archive opens. With an entry count of 0xFFFF the same archive
    is refused: the locator is looked for 20 bytes before the record, which
    is before the start of the archive. *)
Lemma opener_settles_on_last_signature_witness :
  fromBuffer empty_archive true
  = Ok {| Unzip.handle := BufferHandle empty_archive;
          centralDirectoryOffset := 0;
          fileSize := 22;
          entryCount := 0;
          comment := Str [] |}
  /\ fromBuffer sentinel_archive true = Throw "ERR_OUT_OF_RANGE: offset"
  /\ fromFileHandle 0 sentinel_archive true = Throw "ERR_OUT_OF_RANGE: position".
Proof.
  split; [|split].
  - destruct (opener_settles_on_last_signature (BufferHandle empty_archive) 22 true
                empty_archive 0)
      as (disk & count & cdo & clen & Hdisk & Hcount & Hcdo & Hclen & _ & _ & Hopen & _).
    + lia.
    + vm_compute. reflexivity.
    + vm_compute. split; discriminate.
    + vm_compute. reflexivity.
    + intros j Hj. change (blen empty_archive - 22) with 0 in Hj. lia.
    + vm_compute in Hdisk, Hcount, Hcdo, Hclen.
      injection Hdisk as <-. injection Hcount as <-.
      injection Hcdo as <-. injection Hclen as <-.
      unfold fromBuffer. change (blen empty_archive) with 22.
      rewrite Hopen; [reflexivity|reflexivity|reflexivity|discriminate|discriminate].
  - destruct (opener_settles_on_last_signature (BufferHandle sentinel_archive) 22 true
                sentinel_archive 0)
      as (disk & count & cdo & clen & Hdisk & Hcount & Hcdo & Hclen & _ & _ & _ & Hopen).
    + lia.
    + vm_compute. reflexivity.
    + vm_compute. split; discriminate.
    + vm_compute. reflexivity.
    + intros j Hj. change (blen sentinel_archive - 22) with 0 in Hj. lia.
    + vm_compute in Hdisk, Hcount, Hcdo, Hclen.
      injection Hdisk as <-. injection Hcount as <-.
      injection Hcdo as <-. injection Hclen as <-.
      unfold fromBuffer. change (blen sentinel_archive) with 22.
      rewrite Hopen; [reflexivity|reflexivity|reflexivity|left; reflexivity].
  - destruct (opener_settles_on_last_signature (FileHandle 0 sentinel_archive) 22 true
                sentinel_archive 0)
      as (disk & count & cdo & clen & Hdisk & Hcount & Hcdo & Hclen & _ & _ & _ & Hopen).
    + lia.
    + vm_compute. reflexivity.
    + vm_compute. split; discriminate.
    + vm_compute. reflexivity.
    + intros j Hj. change (blen sentinel_archive - 22) with 0 in Hj. lia.
    + vm_compute in Hdisk, Hcount, Hcdo, Hclen.
      injection Hdisk as <-. injection Hcount as <-.
      injection Hcdo as <-. injection Hclen as <-.
      unfold fromFileHandle. change (blen sentinel_archive) with 22.
      rewrite Hopen; [reflexivity|reflexivity|reflexivity|left; reflexivity].
Defined.

(** C1, as stated, fails on the 44-byte archive [eocdr_in_comment]: the
    signature at offset 22 is a candidate whose comment length (5) does not
    match the bytes that follow it (0), the signature at offset 0 is an
    earlier candidate whose comment length (22) does match, and the opener
    fails instead of going on to it. *)
Lemma opener_does_not_continue_scanning :
  readUInt32LE eocdr_in_comment 22 = Ok 0x06054b50
  /\ readUInt16LE eocdr_in_comment (22 + 20) = Ok 5
  /\ blen eocdr_in_comment - 22 - 22 = 0
  /\ readUInt32LE eocdr_in_comment 0 = Ok 0x06054b50
  /\ readUInt16LE eocdr_in_comment (0 + 20) = Ok (blen eocdr_in_comment - 22 - 0)
  /\ fromBuffer eocdr_in_comment true = Throw "invalid comment length"
  /\ fromBuffer eocdr_in_comment false = Throw "invalid comment length".
Proof. repeat split; vm_compute; reflexivity. Qed.

End OpenerFacts.

(** ** ZIP64 resolution in the entry iterator *)
Section Zip64Facts.
Import Read Unzip Samples.

(** Whatever the header, when the stored offset is no sentinel the resolved
    disk number is the stored one: the payload's disk number slot is not
    read, also when the stored disk number is 0xFFFF. *)
Lemma readEntry_zip64_keeps_disk_number (h : CDFH.t) (u c o d : Z) :
  CDFH.relativeOffsetOfLocalHeader h <> 0xffffffff ->
  readEntry_zip64 h = Ok (u, c, o, d) ->
  o = CDFH.relativeOffsetOfLocalHeader h /\ d = CDFH.diskNumberStart h.
Proof.
  intros Hoff. unfold readEntry_zip64.
  apply Z.eqb_neq in Hoff. rewrite Hoff. cbv iota.
  destruct (_ || _).
  - destruct (findExtraField 1 (CDFH.extraFields h)) as [payload|]; [|discriminate].
    repeat match goal with
           | |- Js.bind (Ok _) _ = Ok _ -> _ => cbn [Js.bind fst snd]
           | |- Js.bind ?m _ = Ok _ -> _ =>
               let r := fresh "r" in destruct m as [r|]; cbn [Js.bind]; [|discriminate]
           end.
    cbn [fst snd]. intros H. apply Ok_inj in H. split; congruence.
  - intros H. apply Ok_inj in H. split; congruence.
Qed.

(** When the stored offset is the sentinel, a disk number is demanded from
    the payload, whatever the stored disk number. *)
Lemma readEntry_zip64_reads_disk_number (h : CDFH.t) (u c o d : Z) :
  CDFH.relativeOffsetOfLocalHeader h = 0xffffffff ->
  readEntry_zip64 h = Ok (u, c, o, d) ->
  exists payload cursor,
    findExtraField 0x0001 (CDFH.extraFields h) = Some payload
    /\ cursor + 4 <= blen payload
    /\ readUInt32LE payload cursor = Ok d.
Proof.
  intros Hoff. unfold readEntry_zip64.
  rewrite Hoff. change (0xffffffff =? 0xffffffff) with true.
  rewrite orb_true_r. cbn [orb].
  destruct (findExtraField 1 (CDFH.extraFields h)) as [payload|]; [|discriminate].
  do 3 match goal with
       | |- Js.bind ?m _ = Ok _ -> _ =>
           let r := fresh "r" in destruct m as [r|]; cbn [Js.bind]; [|discriminate]
       end.
  destruct (Z.ltb_spec (blen payload) (snd r1 + 4)) as [|Hlen]; [discriminate|].
  destruct (readUInt32LE payload (snd r1)) as [v|] eqn:E; cbn [Js.bind]; [|discriminate].
  intros H. apply Ok_inj in H. exists payload, (snd r1).
  repeat split; [lia|]. rewrite E. congruence.
Qed.

(** C3, evaluated. A header whose only sentinel is [diskNumberStart = 0xFFFF],
    with the disk number 7 in its ZIP64 extra field, keeps disk number
    0xFFFF: the payload is not read. A header whose only sentinel is
    [relativeOffsetOfLocalHeader = 0xFFFFFFFF], with the 8-byte offset as the
    payload, is refused for lacking a disk number, although its stored disk
    number 0 is no sentinel. *)
Theorem zip64_disk_number_tested_on_offset :
  readEntry_zip64
    (header 10 5 0 0xffff [{| Write.id := 0x0001; Write.data := [x07; x00; x00; x00] |}])
  = Ok (10, 5, 0, 0xffff)
  /\ readEntry_zip64
       (header 10 5 0xffffffff 0
          [{| Write.id := 0x0001;
              Write.data := [x2a; x00; x00; x00; x00; x00; x00; x00] |}])
     = Throw "zip64 extended information extra field does not include disk number start".
Proof. split; vm_compute; reflexivity. Qed.

(** The three 8-byte slots are resolved as the claim says: with all four
    sentinels set and a 28-byte payload, sizes, offset and disk number come
    from the payload in order. *)
Lemma zip64_all_sentinels :
  readEntry_zip64
    (header 0xffffffff 0xffffffff 0xffffffff 0xffff
       [{| Write.id := 0x0001;
           Write.data :=
             [x2a; x00; x00; x00; x00; x00; x00; x00;
              x2b; x00; x00; x00; x00; x00; x00; x00;
              x2c; x00; x00; x00; x00; x00; x00; x00;
              x09; x00; x00; x00] |}])
  = Ok (42, 43, 44, 9).
Proof. vm_compute. reflexivity. Qed.

End Zip64Facts.

(** ** The validating tap of the entry read pipeline *)
Section TapFacts.
Import Read Unzip.

Variable crc32 : Buffer -> Z -> Z.
Variable Buffer_toString : Buffer -> jsstring.
Variable createInflateRaw : Run -> Run.
Variable fileChunks : Buffer -> list Buffer.

Lemma stream_length_cons (chunk : Buffer) (rest : list Buffer) :
  stream_length (chunk :: rest) = blen chunk + stream_length rest.
Proof. unfold stream_length. cbn [concat]. apply blen_app. Qed.

Lemma stream_length_nonneg (source : list Buffer) : 0 <= stream_length source.
Proof. apply blen_nonneg. Qed.

Lemma tap_passes (entry : Entry.t) (source : list Buffer) (st : Tap) :
  bytes st + stream_length source <= Entry.uncompressedSize entry ->
  run_transform (tap_transform crc32 entry) (tap_flush entry) st source None =
  Flows
    {| chunks := source;
       failure :=
         match tap_flush entry
                 {| bytes := bytes st + stream_length source;
                    tap_crc32 := foldl (fun c chunk => crc32 chunk c) (tap_crc32 st) source |}
         with
         | Ok _ => None
         | Throw e => Some e
         end |}.
Proof.
  revert st. induction source as [|chunk rest IH]; intros st Hle.
  - cbn [run_transform foldl]. unfold stream_length. cbn [concat].
    replace (bytes st + blen []) with (bytes st) by (unfold blen; cbn; lia).
    destruct st as [b c]. cbn [bytes tap_crc32].
    destruct (tap_flush entry {| bytes := b; tap_crc32 := c |}); reflexivity.
  - rewrite stream_length_cons in Hle.
    pose proof (stream_length_nonneg rest) as Hrest.
    cbn [run_transform]. unfold tap_transform at 1.
    destruct (Z.ltb_spec (Entry.uncompressedSize entry) (bytes st + blen chunk)) as [Hlt|_];
      [lia|].
    rewrite IH by (cbn [bytes]; lia).
    cbn [chunks failure bytes tap_crc32 foldl].
    rewrite stream_length_cons.
    replace (bytes st + blen chunk + stream_length rest)
      with (bytes st + (blen chunk + stream_length rest)) by lia.
    reflexivity.
Qed.

(** A source that fails before the count has passed the size fails the
    stream, behind the chunks it gave. *)
Lemma tap_source_fails (entry : Entry.t) (source : list Buffer) (e : string) (st : Tap) :
  bytes st + stream_length source <= Entry.uncompressedSize entry ->
  run_transform (tap_transform crc32 entry) (tap_flush entry) st source (Some e) =
  Flows {| chunks := source; failure := Some e |}.
Proof.
  revert st. induction source as [|chunk rest IH]; intros st Hle; [reflexivity|].
  rewrite stream_length_cons in Hle.
  pose proof (stream_length_nonneg rest) as Hrest.
  cbn [run_transform]. unfold tap_transform at 1.
  destruct (Z.ltb_spec (Entry.uncompressedSize entry) (bytes st + blen chunk)) as [Hlt|_];
    [lia|].
  rewrite IH by (cbn [bytes]; lia). reflexivity.
Qed.

(** The exception of the first chunk that takes the count above the size
    escapes, whatever the source does after that chunk. *)
Lemma tap_overflows (entry : Entry.t) (source : list Buffer) (upstream : option string)
    (st : Tap) (n : nat) :
  (n < length source)%nat ->
  bytes st + stream_length (take n source) <= Entry.uncompressedSize entry ->
  Entry.uncompressedSize entry < bytes st + stream_length (take (S n) source) ->
  run_transform (tap_transform crc32 entry) (tap_flush entry) st source upstream =
  Escapes (take n source) "too many bytes in the stream".
Proof.
  revert st n. induction source as [|chunk rest IH]; intros st n Hn Hle Hgt.
  - cbn in Hn. lia.
  - cbn [run_transform]. unfold tap_transform at 1.
    destruct n as [|n].
    + rewrite firstn_cons, take_0 in Hgt. rewrite stream_length_cons in Hgt.
      unfold stream_length in Hgt. cbn [concat] in Hgt.
      replace (blen []) with 0 in Hgt by reflexivity.
      destruct (Z.ltb_spec (Entry.uncompressedSize entry) (bytes st + blen chunk)); [|lia].
      reflexivity.
    + rewrite !firstn_cons in *. rewrite stream_length_cons in Hle, Hgt.
      pose proof (stream_length_nonneg (take n rest)).
      destruct (Z.ltb_spec (Entry.uncompressedSize entry) (bytes st + blen chunk)); [lia|].
      rewrite (IH _ n); cbn [bytes length] in *; try lia.
      reflexivity.
Qed.

(** When [openReadStream] succeeds with validation active, what it returns
    is the validating tap applied to the data stream: the byte range of the
    entry's data read from the source, inflated when the entry is
    decompressed. *)
Lemma openReadStream_validates (handle : Handle) (entry : Entry.t)
    (options : UnzipEntryOptions.t) (localFileHeader : LocalFileHeader.t) (out : Piped) :
  readLocalFileHeader handle (Entry.relativeOffsetOfLocalHeader entry) = Ok localFileHeader ->
  validation_active options (LocalFileHeader.compressionMethod localFileHeader) = true ->
  openReadStream crc32 createInflateRaw fileChunks handle entry options = Ok out ->
  let fileDataStart :=
    Entry.relativeOffsetOfLocalHeader entry
    + (30 + LocalFileHeader.fileNameLength localFileHeader
       + LocalFileHeader.extraFieldsLength localFileHeader) in
  let relativeStart := default 0 (UnzipEntryOptions.start options) in
  let relativeEnd := default (Entry.compressedSize entry) (UnzipEntryOptions.end_ options) in
  let decompress :=
    (LocalFileHeader.compressionMethod localFileHeader =? compressionMethods.deflate)
    && negb (bool_decide (UnzipEntryOptions.decompress options = Some false)) in
  exists readStream : Run,
    createReadStream fileChunks handle (fileDataStart + relativeStart)
      (fileDataStart + relativeEnd) = Ok readStream
    /\ out = validate crc32 entry
               (if decompress then createInflateRaw readStream else readStream).
Proof.
  intros Hlocal Hactive Hopen. cbv zeta.
  unfold openReadStream in Hopen.
  repeat match type of Hopen with
         | (if ?c then Throw _ else _) = Ok _ => destruct c; [discriminate|]
         end.
  unfold Js.bind in Hopen.
  assert (Hstart :
            match UnzipEntryOptions.start options with
            | Some start =>
                if start <? 0 then Throw "options.start < 0"
                else if Entry.compressedSize entry <? start
                     then Throw "options.start > entry.compressedSize"
                     else Ok start
            | None => Ok 0
            end = Ok (default 0 (UnzipEntryOptions.start options))).
  { destruct (UnzipEntryOptions.start options) as [start|]; [|reflexivity].
    destruct (start <? 0); [discriminate|].
    destruct (Entry.compressedSize entry <? start); [discriminate|]. reflexivity. }
  rewrite Hstart in Hopen.
  assert (Hend :
            match UnzipEntryOptions.end_ options with
            | Some e =>
                if e <? 0 then Throw "options.end < 0"
                else if Entry.compressedSize entry <? e
                     then Throw "options.end > entry.compressedSize"
                     else if e <? default 0 (UnzipEntryOptions.start options)
                          then Throw "options.end < options.start"
                          else Ok e
            | None => Ok (Entry.compressedSize entry)
            end
            = Ok (default (Entry.compressedSize entry) (UnzipEntryOptions.end_ options))).
  { destruct (UnzipEntryOptions.end_ options) as [e|]; [|reflexivity].
    destruct (e <? 0); [discriminate|].
    destruct (Entry.compressedSize entry <? e); [discriminate|].
    destruct (e <? default 0 (UnzipEntryOptions.start options)); [discriminate|].
    reflexivity. }
  rewrite Hend, Hlocal in Hopen.
  match type of Hopen with
  | (if ?c then Throw _ else _) = Ok _ => destruct c; [discriminate|]
  end.
  destruct (createReadStream fileChunks handle _ _) as [readStream|] eqn:Eread;
    [|discriminate].
  unfold validation_active in Hactive. rewrite Hactive in Hopen.
  apply Ok_inj in Hopen. subst out.
  exists readStream. split; reflexivity.
Qed.

(** C6. A stream opened with validation active is the validating tap over
    the entry's data: the bytes of the source from [fileDataStart + start] to
    [fileDataStart + end], where [start] and [end] default to 0 and
    [entry.compressedSize], inflated when the entry is decompressed. At the
    first chunk that takes the byte count above [entry.uncompressedSize] the
    tap throws inside [transform]: the chunks before it have been forwarded,
    and the exception escapes, so the stream does not fail. A failure of the
    data before that fails the stream. At the end of data that arrived
    without error the stream fails when the byte count is short of
    [entry.uncompressedSize], or when the count is right and the accumulated
    CRC-32 differs from the one in the central directory header; and when
    both match it completes having forwarded exactly the chunks of the
    data. *)
Theorem validated_stream (handle : Handle) (entry : Entry.t)
    (options : UnzipEntryOptions.t) (localFileHeader : LocalFileHeader.t) (out : Piped) :
  readLocalFileHeader handle (Entry.relativeOffsetOfLocalHeader entry) = Ok localFileHeader ->
  validation_active options (LocalFileHeader.compressionMethod localFileHeader) = true ->
  openReadStream crc32 createInflateRaw fileChunks handle entry options = Ok out ->
  let fileDataStart :=
    Entry.relativeOffsetOfLocalHeader entry
    + (30 + LocalFileHeader.fileNameLength localFileHeader
       + LocalFileHeader.extraFieldsLength localFileHeader) in
  let relativeStart := default 0 (UnzipEntryOptions.start options) in
  let relativeEnd := default (Entry.compressedSize entry) (UnzipEntryOptions.end_ options) in
  let decompress :=
    (LocalFileHeader.compressionMethod localFileHeader =? compressionMethods.deflate)
    && negb (bool_decide (UnzipEntryOptions.decompress options = Some false)) in
  exists readStream : Run,
    createReadStream fileChunks handle (fileDataStart + relativeStart)
      (fileDataStart + relativeEnd) = Ok readStream /\
    let data := if decompress then createInflateRaw readStream else readStream in
    let size := Entry.uncompressedSize entry in
    let stored := CDFH.crc32 (Entry.centralDirectoryFileHeader entry) in
    (forall n : nat,
        (n < length (chunks data))%nat ->
        stream_length (take n (chunks data)) <= size ->
        size < stream_length (take (S n) (chunks data)) ->
        out = Escapes (take n (chunks data)) "too many bytes in the stream") /\
    (forall e : string,
        failure data = Some e ->
        stream_length (chunks data) <= size ->
        out = Flows {| chunks := chunks data; failure := Some e |}) /\
    (failure data = None ->
     (stream_length (chunks data) < size ->
      out = Flows {| chunks := chunks data;
                     failure := Some "not enough bytes in the stream"%string |}) /\
     (stream_length (chunks data) = size ->
      stream_crc32 crc32 (chunks data) <> stored ->
      out = Flows {| chunks := chunks data;
                     failure := Some "unexpected checksum"%string |}) /\
     (stream_length (chunks data) = size ->
      stream_crc32 crc32 (chunks data) = stored ->
      out = Flows {| chunks := chunks data; failure := None |})).
Proof.
  intros Hlocal Hactive Hopen.
  destruct (openReadStream_validates _ _ _ _ _ Hlocal Hactive Hopen)
    as (readStream & Hread & ->).
  cbv zeta. exists readStream. split; [exact Hread|].
  match goal with |- context [failure ?d = None] => set (data := d) end.
  unfold validate. repeat split.
  - intros n Hn Hle Hgt. apply tap_overflows; cbn [bytes]; lia.
  - intros e He Hle. rewrite He. apply tap_source_fails. cbn [bytes]. lia.
  - intros Hshort. rewrite H, tap_passes by (cbn [bytes]; lia).
    unfold tap_flush. cbn [bytes tap_crc32].
    destruct (Z.eqb_spec (0 + stream_length (chunks data)) (Entry.uncompressedSize entry));
      [lia|].
    reflexivity.
  - intros Hlen Hcrc. rewrite H, tap_passes by (cbn [bytes]; lia).
    unfold tap_flush. cbn [bytes tap_crc32].
    destruct (Z.eqb_spec (0 + stream_length (chunks data)) (Entry.uncompressedSize entry));
      [|lia].
    cbn [negb]. fold (stream_crc32 crc32 (chunks data)).
    destruct (Z.eqb_spec (stream_crc32 crc32 (chunks data))
                (CDFH.crc32 (Entry.centralDirectoryFileHeader entry)));
      [contradiction|].
    reflexivity.
  - intros Hlen Hcrc. rewrite H, tap_passes by (cbn [bytes]; lia).
    unfold tap_flush. cbn [bytes tap_crc32].
    destruct (Z.eqb_spec (0 + stream_length (chunks data)) (Entry.uncompressedSize entry));
      [|lia].
    cbn [negb]. fold (stream_crc32 crc32 (chunks data)).
    destruct (Z.eqb_spec (stream_crc32 crc32 (chunks data))
                (CDFH.crc32 (Entry.centralDirectoryFileHeader entry)));
      [|contradiction].
    reflexivity.
Qed.

End TapFacts.

Section TapWitness.
Import Read Unzip Samples.

Lemma validated_stream_witness :
  openReadStream crc32_ieee no_inflate one_chunk (BufferHandle stored_foo) short_foo_entry
    UnzipEntryOptions.default
  = Ok (Escapes [] "too many bytes in the stream")
  /\ exists readStream : Run,
       createReadStream one_chunk (BufferHandle stored_foo) 35 38 = Ok readStream
       /\ chunks readStream = [foo].
Proof.
  assert (Hopen : openReadStream crc32_ieee no_inflate one_chunk (BufferHandle stored_foo)
                    short_foo_entry UnzipEntryOptions.default
                  = Ok (Escapes [] "too many bytes in the stream"))
    by (vm_compute; reflexivity).
  split; [exact Hopen|].
  destruct (validated_stream crc32_ieee no_inflate one_chunk
              (BufferHandle stored_foo) short_foo_entry UnzipEntryOptions.default
              {| LocalFileHeader.versionNeededToExtract := 20;
                 LocalFileHeader.generalPurposeBitFlag := 2048;
                 LocalFileHeader.compressionMethod := 0;
                 LocalFileHeader.fileLastModificationTime := 43437;
                 LocalFileHeader.fileLastModificationDate := 22811;
                 LocalFileHeader.crc32 := 2356372769;
                 LocalFileHeader.compressedSize := 3;
                 LocalFileHeader.uncompressedSize := 3;
                 LocalFileHeader.fileNameLength := 5;
                 LocalFileHeader.extraFieldsLength := 0;
                 LocalFileHeader.fileName := [x61; x2e; x74; x78; x74];
                 LocalFileHeader.extraFields := [] |}
              (Escapes [] "too many bytes in the stream"))
    as (readStream & Hread & _).
  - vm_compute. reflexivity.
  - vm_compute. reflexivity.
  - exact Hopen.
  - exists readStream. split; [exact Hread|].
    vm_compute in Hread. apply Ok_inj in Hread. now subst readStream.
Defined.

(** The stored entry of an archive whose central directory header gives an
    uncompressed size below the size of the data: the first chunk takes the
    count above it, and the exception that the tap throws escapes. *)
Lemma overlong_entry_escapes :
  exists (unzip : Unzip.Unzip) (entry : Entry.t),
    fromBuffer overlong_archive true = Ok unzip
    /\ entries crc32_ieee Cp437.decodeCp437 unzip true = ([entry], None)
    /\ Entry.compressedSize entry = 3
    /\ Entry.uncompressedSize entry = 2
    /\ openReadStream crc32_ieee no_inflate one_chunk (BufferHandle overlong_archive) entry
         UnzipEntryOptions.default
       = Ok (Escapes [] "too many bytes in the stream").
Proof.
  do 2 eexists. split; [vm_compute; reflexivity|].
  split; [vm_compute; reflexivity|].
  repeat split; vm_compute; reflexivity.
Qed.

End TapWitness.

(** ** Serialized records *)
Section RecordFacts.
Import Write Zip.

Variable fill : nat -> byte.

Lemma getLocalFileHeader_unknown (entry : Entry.t) :
  Entry.crcAndFileSizeKnown entry = false ->
  blen (Entry.fileName entry) <= 0xffff ->
  0 <= Entry.compressionMethod entry < 65536 ->
  0 <= Entry.lastModFileTime entry < 65536 ->
  0 <= Entry.lastModFileDate entry < 65536 ->
  getLocalFileHeader fill entry
  = Ok ((le_encode 4 0x04034b50 ++ le_encode 2 45 ++ le_encode 2 0x0808
           ++ le_encode 2 (Entry.compressionMethod entry)
           ++ le_encode 2 (Entry.lastModFileTime entry)
           ++ le_encode 2 (Entry.lastModFileDate entry)
           ++ le_encode 4 0 ++ le_encode 4 0xffffffff ++ le_encode 4 0xffffffff
           ++ le_encode 2 (blen (Entry.fileName entry)) ++ le_encode 2 20)
          ++ Entry.fileName entry ++ zero_zip64_extra).
Proof.
  intros Hknown Hname Hmethod Htime Hdate.
  pose proof (blen_nonneg (Entry.fileName entry)) as Hname0.
  unfold getLocalFileHeader. rewrite Hknown.
  replace (Entry.forceZip64Format entry || negb false
           || ge_ffffffff (Entry.uncompressedSize entry)
           || ge_ffffffff (Entry.compressedSize entry)) with true
    by (destruct (Entry.forceZip64Format entry); reflexivity).
  cbn [Js.bind].
  change (bitor generalPurposeBitFlags.utf8 generalPurposeBitFlags.unknownCrc32AndFileSizes)
    with 0x0808.
  unfold VERSION_NEEDED_TO_EXTRACT_ZIP64.
  unfold serializeLocalFileHeader.
  cbn [LocalFileHeader.extraFields LocalFileHeader.versionNeededToExtract
       LocalFileHeader.generalPurposeBitFlag LocalFileHeader.compressionMethod
       LocalFileHeader.fileLastModificationTime LocalFileHeader.fileLastModificationDate
       LocalFileHeader.crc32 LocalFileHeader.compressedSize
       LocalFileHeader.uncompressedSize LocalFileHeader.fileName].
  unfold serializeExtraFields, serializeExtraFields_list.
  cbn [id data].
  unfold writeUInt16LE, writeUInt32LE, writeUIntLE_num.
  change (allocUnsafe fill 4) with ([] ++ allocUnsafe fill 4).
  change (blen (replicate 16 x00)) with 16.
  write_field. write_field.
  replace (((([] ++ le_encode 2 1) ++ le_encode 2 16)
              ++ drop 2 (drop 2 (allocUnsafe fill 4))) ++ replicate 16 x00 ++ [])
    with zero_zip64_extra
    by (change (drop 2 (drop 2 (allocUnsafe fill 4))) with (@nil byte);
        unfold zero_zip64_extra; now rewrite !app_nil_r, <- app_assoc).
  change (blen zero_zip64_extra) with 20.
  change (allocUnsafe fill 30) with ([] ++ allocUnsafe fill 30).
  do 11 write_field.
  repeat rewrite drop_drop.
  rewrite drop_ge by (rewrite length_allocUnsafe; lia).
  rewrite app_nil_r. cbn [app]. now rewrite <- !app_assoc.
Qed.

Lemma unknown_header_fields (entry : Entry.t) (header : Buffer) :
  header
  = (le_encode 4 0x04034b50 ++ le_encode 2 45 ++ le_encode 2 0x0808
       ++ le_encode 2 (Entry.compressionMethod entry)
       ++ le_encode 2 (Entry.lastModFileTime entry)
       ++ le_encode 2 (Entry.lastModFileDate entry)
       ++ le_encode 4 0 ++ le_encode 4 0xffffffff ++ le_encode 4 0xffffffff
       ++ le_encode 2 (blen (Entry.fileName entry)) ++ le_encode 2 20)
      ++ Entry.fileName entry ++ zero_zip64_extra ->
  readUInt32LE header 0 = Ok 0x04034b50
  /\ readUInt16LE header 4 = Ok 45
  /\ readUInt16LE header 6 = Ok 0x0808
  /\ readUInt32LE header 14 = Ok 0
  /\ readUInt32LE header 18 = Ok 0xffffffff
  /\ readUInt32LE header 22 = Ok 0xffffffff
  /\ readUInt16LE header 28 = Ok 20
  /\ drop (30 + length (Entry.fileName entry)) header = zero_zip64_extra.
Proof.
  intros ->. unfold readUInt16LE, readUInt32LE.
  repeat split; try read_field.
  rewrite app_assoc. apply drop_app_length'.
  rewrite !length_app, !length_le_encode. lia.
Qed.

Lemma serializeDataDescriptor_ok (c cs us : optnum) (d : Buffer) :
  serializeDataDescriptor fill
    {| DataDescriptor.crc32 := c; DataDescriptor.compressedSize := cs;
       DataDescriptor.uncompressedSize := us |} = Ok d ->
  exists cs' us',
    cs = Some cs' /\ us = Some us'
    /\ d = le_encode 4 0x08074b50 ++ le_encode 4 (default 0 c)
             ++ le_encode 8 cs' ++ le_encode 8 us'.
Proof.
  unfold serializeDataDescriptor.
  cbn [DataDescriptor.crc32 DataDescriptor.compressedSize DataDescriptor.uncompressedSize].
  destruct cs as [cs'|]; [|discriminate]. destruct us as [us'|]; [|discriminate].
  intros H. exists cs', us'. split; [reflexivity|]. split; [reflexivity|].
  unfold writeUInt32LE, writeBigUInt64LE in H.
  change (allocUnsafe fill 24) with ([] ++ allocUnsafe fill 24) in H.
  rewrite write_next in H by (first [range_solve | blen_solve | rest_solve]).
  cbn [Js.bind] in H.
  assert (Hc : writeUIntLE_num 4 (([] ++ le_encode 4 0x08074b50)
                                    ++ drop 4 (allocUnsafe fill 24)) c 4
               = writeUIntLE 4 (([] ++ le_encode 4 0x08074b50)
                                  ++ drop 4 (allocUnsafe fill 24)) (default 0 c) 4)
    by (destruct c; reflexivity).
  rewrite Hc in H. clear Hc.
  destruct (writeUIntLE 4 _ (default 0 c) 4) as [b1|] eqn:E1; [|discriminate].
  pose proof (write_ok_range _ _ _ _ _ E1) as R1.
  rewrite write_next in E1 by (first [exact R1 | blen_solve | rest_solve]).
  apply Ok_inj in E1. subst b1. cbn [Js.bind] in H.
  destruct (writeUIntLE 8 _ cs' 8) as [b2|] eqn:E2; [|discriminate].
  pose proof (write_ok_range _ _ _ _ _ E2) as R2.
  rewrite write_next in E2 by (first [exact R2 | blen_solve | rest_solve]).
  apply Ok_inj in E2. subst b2. cbn [Js.bind] in H.
  destruct (writeUIntLE 8 _ us' 16) as [b3|] eqn:E3; [|discriminate].
  pose proof (write_ok_range _ _ _ _ _ E3) as R3.
  rewrite write_next in E3 by (first [exact R3 | blen_solve | rest_solve]).
  apply Ok_inj in E3. subst b3. cbn [Js.bind] in H.
  apply Ok_inj in H. subst d.
  repeat rewrite drop_drop.
  rewrite drop_ge by (rewrite length_allocUnsafe; lia).
  rewrite app_nil_r. cbn [app]. now rewrite <- !app_assoc.
Qed.

(** The classic end of central directory record, when its fields fit: the
    last two bytes are what [allocUnsafe] returned. *)
Lemma serializeEndOfCentralDirectoryRecord_form (n size off : Z) (comment : Buffer) :
  0 <= n < 65536 -> 0 <= size < 4294967296 -> 0 <= off < 4294967296 ->
  serializeEndOfCentralDirectoryRecord fill
    {| EndOfCentralDirectoryRecord.diskNumber := 0;
       EndOfCentralDirectoryRecord.centralDirectoryDiskNumber := 0;
       EndOfCentralDirectoryRecord.numberOfEntriesOnDisk := n;
       EndOfCentralDirectoryRecord.numberOfEntries := n;
       EndOfCentralDirectoryRecord.sizeOfCentralDirectory := size;
       EndOfCentralDirectoryRecord.centralDirectoryOffset := off;
       EndOfCentralDirectoryRecord.comment := comment |}
  = Ok ((le_encode 4 0x06054b50 ++ le_encode 2 0 ++ le_encode 2 0
           ++ le_encode 2 n ++ le_encode 2 n ++ le_encode 4 size ++ le_encode 4 off
           ++ [fill 20%nat; fill 21%nat]) ++ comment).
Proof.
  intros Hn Hsize Hoff.
  unfold serializeEndOfCentralDirectoryRecord.
  cbn [EndOfCentralDirectoryRecord.diskNumber
       EndOfCentralDirectoryRecord.centralDirectoryDiskNumber
       EndOfCentralDirectoryRecord.numberOfEntriesOnDisk
       EndOfCentralDirectoryRecord.numberOfEntries
       EndOfCentralDirectoryRecord.sizeOfCentralDirectory
       EndOfCentralDirectoryRecord.centralDirectoryOffset
       EndOfCentralDirectoryRecord.comment].
  unfold writeUInt16LE, writeUInt32LE.
  change (allocUnsafe fill 22) with ([] ++ allocUnsafe fill 22).
  do 7 write_field.
  repeat rewrite drop_drop.
  change (drop _ (allocUnsafe fill 22)) with [fill 20%nat; fill 21%nat].
  cbn [app]. now rewrite <- !app_assoc.
Qed.

(** The classic record is refused as soon as one of its fields does not
    fit. *)
Lemma serializeEndOfCentralDirectoryRecord_range
    (object : EndOfCentralDirectoryRecord.t) (buffer : Buffer) :
  serializeEndOfCentralDirectoryRecord fill object = Ok buffer ->
  0 <= EndOfCentralDirectoryRecord.numberOfEntriesOnDisk object < 65536
  /\ 0 <= EndOfCentralDirectoryRecord.numberOfEntries object < 65536
  /\ 0 <= EndOfCentralDirectoryRecord.sizeOfCentralDirectory object < 4294967296
  /\ 0 <= EndOfCentralDirectoryRecord.centralDirectoryOffset object < 4294967296.
Proof.
  unfold serializeEndOfCentralDirectoryRecord, writeUInt16LE, writeUInt32LE.
  intros H.
  repeat match type of H with
         | Js.bind ?m _ = Ok _ =>
             let E := fresh "E" in destruct m eqn:E; cbn [Js.bind] in H; [|discriminate]
         end.
  apply write_ok_range in E2, E3, E4, E5.
  rewrite ?limit2, ?limit4 in *. auto.
Qed.

(** The ZIP64 end of central directory record without an extensible data
    sector. *)
Lemma serializeZip64EndOfCentralDirectoryRecord_form (n size off : Z) :
  0 <= n < 2 ^ 64 -> 0 <= size < 2 ^ 64 -> 0 <= off < 2 ^ 64 ->
  serializeZip64EndOfCentralDirectoryRecord fill
    {| Zip64EndOfCentralDirectoryRecord.versionMadeBy := VERSION_MADE_BY;
       Zip64EndOfCentralDirectoryRecord.versionNeededToExtract :=
         VERSION_NEEDED_TO_EXTRACT_ZIP64;
       Zip64EndOfCentralDirectoryRecord.diskNumber := 0;
       Zip64EndOfCentralDirectoryRecord.centralDirectoryDiskNumber := 0;
       Zip64EndOfCentralDirectoryRecord.numberOfEntriesOnDisk := n;
       Zip64EndOfCentralDirectoryRecord.numberOfEntries := n;
       Zip64EndOfCentralDirectoryRecord.sizeOfCentralDirectory := size;
       Zip64EndOfCentralDirectoryRecord.centralDirectoryOffset := off;
       Zip64EndOfCentralDirectoryRecord.zip64ExtensibleDataSector := EMPTY_BUFFER |}
  = Ok (le_encode 4 0x06064b50 ++ le_encode 8 44 ++ le_encode 2 VERSION_MADE_BY
          ++ le_encode 2 VERSION_NEEDED_TO_EXTRACT_ZIP64 ++ le_encode 4 0 ++ le_encode 4 0
          ++ le_encode 8 n ++ le_encode 8 n ++ le_encode 8 size ++ le_encode 8 off).
Proof.
  intros Hn Hsize Hoff.
  unfold serializeZip64EndOfCentralDirectoryRecord.
  cbn [Zip64EndOfCentralDirectoryRecord.versionMadeBy
       Zip64EndOfCentralDirectoryRecord.versionNeededToExtract
       Zip64EndOfCentralDirectoryRecord.diskNumber
       Zip64EndOfCentralDirectoryRecord.centralDirectoryDiskNumber
       Zip64EndOfCentralDirectoryRecord.numberOfEntriesOnDisk
       Zip64EndOfCentralDirectoryRecord.numberOfEntries
       Zip64EndOfCentralDirectoryRecord.sizeOfCentralDirectory
       Zip64EndOfCentralDirectoryRecord.centralDirectoryOffset
       Zip64EndOfCentralDirectoryRecord.zip64ExtensibleDataSector].
  change (blen EMPTY_BUFFER) with 0. change (44 + 0) with 44.
  change VERSION_MADE_BY with 831. change VERSION_NEEDED_TO_EXTRACT_ZIP64 with 45.
  unfold writeUInt16LE, writeUInt32LE, writeBigUInt64LE.
  change (allocUnsafe fill 56) with ([] ++ allocUnsafe fill 56).
  do 10 write_field.
  change (0 <? 0) with false. cbv iota.
  repeat rewrite drop_drop.
  rewrite drop_ge by (rewrite length_allocUnsafe; lia).
  rewrite app_nil_r. cbn [app]. now rewrite <- !app_assoc.
Qed.

(** The ZIP64 end of central directory locator. *)
Lemma serializeZip64EndOfCentralDirectoryLocator_form (cursor : Z) :
  0 <= cursor < 2 ^ 64 ->
  serializeZip64EndOfCentralDirectoryLocator fill
    {| Zip64EndOfCentralDirectoryLocator.zip64EndOfCentralDirectoryRecordDiskNumber := 0;
       Zip64EndOfCentralDirectoryLocator.zip64EndOfCentralDirectoryRecordOffset := cursor;
       Zip64EndOfCentralDirectoryLocator.diskCount := 1 |}
  = Ok (le_encode 4 0x07064b50 ++ le_encode 4 0 ++ le_encode 8 cursor ++ le_encode 4 1).
Proof.
  intros Hcursor.
  unfold serializeZip64EndOfCentralDirectoryLocator.
  cbn [Zip64EndOfCentralDirectoryLocator.zip64EndOfCentralDirectoryRecordDiskNumber
       Zip64EndOfCentralDirectoryLocator.zip64EndOfCentralDirectoryRecordOffset
       Zip64EndOfCentralDirectoryLocator.diskCount].
  unfold writeUInt32LE, writeBigUInt64LE.
  change (allocUnsafe fill 20) with ([] ++ allocUnsafe fill 20).
  do 4 write_field.
  repeat rewrite drop_drop.
  rewrite drop_ge by (rewrite length_allocUnsafe; lia).
  rewrite app_nil_r. cbn [app]. now rewrite <- !app_assoc.
Qed.

End RecordFacts.

(** ** The end of central directory record *)
Section EocdrFacts.
Import Write Zip.

Variable fill : nat -> byte.

(** Below the sentinels, and with [forceZip64Format] unset, only the classic
    record is emitted, with the values themselves. *)
Lemma getEndOfCentralDirectoryRecord_classic
    (entryCount cursor offsetOfStartOfCentralDirectory : Z) (comment : Buffer) :
  0 <= entryCount < 0xffff ->
  0 <= cursor - offsetOfStartOfCentralDirectory < 0xffffffff ->
  0 <= offsetOfStartOfCentralDirectory < 0xffffffff ->
  getEndOfCentralDirectoryRecord fill entryCount cursor offsetOfStartOfCentralDirectory
    comment false
  = Ok ((le_encode 4 0x06054b50 ++ le_encode 2 0 ++ le_encode 2 0
           ++ le_encode 2 entryCount ++ le_encode 2 entryCount
           ++ le_encode 4 (cursor - offsetOfStartOfCentralDirectory)
           ++ le_encode 4 offsetOfStartOfCentralDirectory
           ++ [fill 20%nat; fill 21%nat]) ++ comment).
Proof.
  intros Hn Hsize Hoff. unfold getEndOfCentralDirectoryRecord.
  cbn [orb].
  destruct (Z.leb_spec 0xffff entryCount); [lia|].
  destruct (Z.leb_spec 0xffffffff (cursor - offsetOfStartOfCentralDirectory)); [lia|].
  destruct (Z.leb_spec 0xffffffff offsetOfStartOfCentralDirectory); [lia|].
  cbn [orb negb].
  rewrite serializeEndOfCentralDirectoryRecord_form by lia.
  reflexivity.
Qed.

(** With [forceZip64Format] set, the ZIP64 record and the locator precede
    the classic record, which holds the three sentinels. *)
Lemma getEndOfCentralDirectoryRecord_forced
    (entryCount cursor offsetOfStartOfCentralDirectory : Z) (comment : Buffer) :
  0 <= entryCount < 2 ^ 64 ->
  0 <= offsetOfStartOfCentralDirectory <= cursor ->
  cursor < 2 ^ 64 ->
  getEndOfCentralDirectoryRecord fill entryCount cursor offsetOfStartOfCentralDirectory
    comment true
  = Ok ((le_encode 4 0x06064b50 ++ le_encode 8 44 ++ le_encode 2 VERSION_MADE_BY
           ++ le_encode 2 VERSION_NEEDED_TO_EXTRACT_ZIP64 ++ le_encode 4 0 ++ le_encode 4 0
           ++ le_encode 8 entryCount ++ le_encode 8 entryCount
           ++ le_encode 8 (cursor - offsetOfStartOfCentralDirectory)
           ++ le_encode 8 offsetOfStartOfCentralDirectory)
        ++ (le_encode 4 0x07064b50 ++ le_encode 4 0 ++ le_encode 8 cursor ++ le_encode 4 1)
        ++ (le_encode 4 0x06054b50 ++ le_encode 2 0 ++ le_encode 2 0
              ++ le_encode 2 0xffff ++ le_encode 2 0xffff
              ++ le_encode 4 0xffffffff ++ le_encode 4 0xffffffff
              ++ [fill 20%nat; fill 21%nat]) ++ comment).
Proof.
  intros Hn Hoff Hcursor. unfold getEndOfCentralDirectoryRecord.
  cbn [orb negb].
  rewrite serializeEndOfCentralDirectoryRecord_form by lia.
  cbn [Js.bind].
  rewrite serializeZip64EndOfCentralDirectoryRecord_form by lia.
  cbn [Js.bind].
  rewrite serializeZip64EndOfCentralDirectoryLocator_form by lia.
  reflexivity.
Qed.

(** With [forceZip64Format] unset and a value at its sentinel, none above,
    the ZIP64 form is emitted and the classic record holds the values
    themselves, sentinels included. *)
Lemma getEndOfCentralDirectoryRecord_at_sentinel
    (entryCount cursor offsetOfStartOfCentralDirectory : Z) (comment : Buffer) :
  0 <= entryCount <= 0xffff ->
  0 <= cursor - offsetOfStartOfCentralDirectory <= 0xffffffff ->
  0 <= offsetOfStartOfCentralDirectory <= 0xffffffff ->
  entryCount = 0xffff
  \/ cursor - offsetOfStartOfCentralDirectory = 0xffffffff
  \/ offsetOfStartOfCentralDirectory = 0xffffffff ->
  getEndOfCentralDirectoryRecord fill entryCount cursor offsetOfStartOfCentralDirectory
    comment false
  = Ok ((le_encode 4 0x06064b50 ++ le_encode 8 44 ++ le_encode 2 VERSION_MADE_BY
           ++ le_encode 2 VERSION_NEEDED_TO_EXTRACT_ZIP64 ++ le_encode 4 0 ++ le_encode 4 0
           ++ le_encode 8 entryCount ++ le_encode 8 entryCount
           ++ le_encode 8 (cursor - offsetOfStartOfCentralDirectory)
           ++ le_encode 8 offsetOfStartOfCentralDirectory)
        ++ (le_encode 4 0x07064b50 ++ le_encode 4 0 ++ le_encode 8 cursor ++ le_encode 4 1)
        ++ (le_encode 4 0x06054b50 ++ le_encode 2 0 ++ le_encode 2 0
              ++ le_encode 2 entryCount ++ le_encode 2 entryCount
              ++ le_encode 4 (cursor - offsetOfStartOfCentralDirectory)
              ++ le_encode 4 offsetOfStartOfCentralDirectory
              ++ [fill 20%nat; fill 21%nat]) ++ comment).
Proof.
  intros Hn Hsize Hoff Hsentinel. unfold getEndOfCentralDirectoryRecord.
  cbn [orb].
  rewrite serializeEndOfCentralDirectoryRecord_form by lia.
  cbn [Js.bind].
  replace ((0xffff <=? entryCount)
           || (0xffffffff <=? cursor - offsetOfStartOfCentralDirectory)
           || (0xffffffff <=? offsetOfStartOfCentralDirectory)) with true.
  2: { symmetry. rewrite !orb_true_iff, !Z.leb_le. lia. }
  cbn [negb].
  rewrite serializeZip64EndOfCentralDirectoryRecord_form by lia.
  cbn [Js.bind].
  rewrite serializeZip64EndOfCentralDirectoryLocator_form by lia.
  reflexivity.
Qed.

(** With [forceZip64Format] unset, the call returns only when no value
    exceeds its sentinel: the classic record is serialized first, with the
    values as they are. *)
Lemma getEndOfCentralDirectoryRecord_returns
    (entryCount cursor offsetOfStartOfCentralDirectory : Z) (comment record : Buffer) :
  getEndOfCentralDirectoryRecord fill entryCount cursor offsetOfStartOfCentralDirectory
    comment false = Ok record ->
  0 <= entryCount <= 0xffff
  /\ 0 <= cursor - offsetOfStartOfCentralDirectory <= 0xffffffff
  /\ 0 <= offsetOfStartOfCentralDirectory <= 0xffffffff.
Proof.
  unfold getEndOfCentralDirectoryRecord. intros H.
  match type of H with
  | Js.bind ?m _ = Ok _ => destruct m eqn:E; cbn [Js.bind] in H; [|discriminate]
  end.
  apply serializeEndOfCentralDirectoryRecord_range in E.
  cbn [EndOfCentralDirectoryRecord.numberOfEntriesOnDisk
       EndOfCentralDirectoryRecord.numberOfEntries
       EndOfCentralDirectoryRecord.sizeOfCentralDirectory
       EndOfCentralDirectoryRecord.centralDirectoryOffset] in E.
  lia.
Qed.

(** More than 0xFFFF entries without [forceZip64Format]: the call throws. *)
Lemma getEndOfCentralDirectoryRecord_throws
    (entryCount cursor offsetOfStartOfCentralDirectory : Z) (comment : Buffer) :
  0xffff < entryCount ->
  getEndOfCentralDirectoryRecord fill entryCount cursor offsetOfStartOfCentralDirectory
    comment false
  = Throw "ERR_OUT_OF_RANGE: value".
Proof.
  intros Hn. unfold getEndOfCentralDirectoryRecord.
  unfold serializeEndOfCentralDirectoryRecord, writeUInt16LE, writeUInt32LE.
  cbn [EndOfCentralDirectoryRecord.diskNumber
       EndOfCentralDirectoryRecord.centralDirectoryDiskNumber
       EndOfCentralDirectoryRecord.numberOfEntriesOnDisk].
  change (Write.allocUnsafe fill 22) with ([] ++ Write.allocUnsafe fill 22).
  do 3 write_field.
  unfold writeUIntLE at 1.
  destruct (Z.ltb_spec entryCount 0); [lia|].
  destruct (Z.leb_spec (2 ^ (8 * Z.of_nat 2)) entryCount); [|rewrite limit2 in *; lia].
  reflexivity.
Qed.

(** C4, evaluated. With 65536 entries and [forceZip64Format] unset the ZIP64
    form is due, but the classic record is serialized first with the entry
    count itself, which no 16-bit field holds: the call throws and nothing
    is emitted. With exactly 65535 entries the three records are emitted. *)
Theorem eocdr_throws_above_sentinel :
  getEndOfCentralDirectoryRecord fill 65536 3000000 100 [] false
  = Throw "ERR_OUT_OF_RANGE: value"
  /\ is_ok (getEndOfCentralDirectoryRecord fill 65535 3000000 100 [] false) = true.
Proof. split; vm_compute; reflexivity. Qed.

End EocdrFacts.

(** ** Streamed entries *)
Section EntryWriteFacts.
Import Write Zip.

Variable fill : nat -> byte.
Variable crc32 : Buffer -> Z -> Z.
Variable createDeflateRaw : Run -> Run.

Lemma push_all_spec (chunks : list Buffer) (s : Zip) :
  foldl (fun s chunk => push chunk s) s chunks
  = {| queue := queue s; outputStreamCursor := outputStreamCursor s;
       entries := entries s;
       offsetOfStartOfCentralDirectory := offsetOfStartOfCentralDirectory s;
       pushed := pushed s ++ chunks; ended := ended s; errors := errors s;
       destroyed := destroyed s |}.
Proof.
  revert s. induction chunks as [|chunk rest IH]; intros s; cbn [foldl].
  - rewrite app_nil_r. now destruct s.
  - rewrite IH. unfold push. cbn. now rewrite <- app_assoc.
Qed.

(** What a completed [writeEntryStream] did: it pushed the body (the
    compressed chunks, for a deflate entry), filled in the checksum and the
    uncompressed size, and left the rest of the entry as it was. *)
Lemma writeEntryStream_ok (entry entry' : Entry.t) (readStream : Run) (s s' : Zip) :
  writeEntryStream crc32 createDeflateRaw entry readStream s = (s', Some (Ok entry')) ->
  exists body,
    pushed s' = pushed s ++ body
    /\ (Entry.compressionMethod entry = compressionMethods.deflate ->
        body = chunks (createDeflateRaw readStream))
    /\ Entry.crcAndFileSizeKnown entry' = Entry.crcAndFileSizeKnown entry
    /\ Entry.compressedSize entry' = Entry.compressedSize entry
    /\ is_Some (Entry.crc32 entry')
    /\ is_Some (Entry.uncompressedSize entry')
    /\ entries s' = entries s.
Proof.
  unfold writeEntryStream. intros H.
  cbv [tbind lift ret stall advance modify push_all pipeline_stored] in H.
  destruct (Z.eqb_spec (Entry.compressionMethod entry) compressionMethods.deflate)
    as [Em|Em];
    cbv beta iota in H; rewrite ?push_all_spec in H;
    (match type of H with
     | context [match failure ?r with _ => _ end] =>
         destruct (failure r);
         [try discriminate; destruct (_ <? 31)%nat; discriminate|]
     end);
    try (match type of H with
         | context [(?n <? 16)%nat] => destruct (n <? 16)%nat; [|discriminate]
         end);
    (destruct (Entry.crc32 entry) as [c|] eqn:Ec;
     [match type of H with
      | context [if ?b then _ else _] => destruct b; [discriminate|]
      end|]);
    cbn [Entry.uncompressedSize Entry.set_crc32] in H;
    (destruct (Entry.uncompressedSize entry) as [u|] eqn:Eu;
     [match type of H with
      | context [if ?b then _ else _] => destruct b; [discriminate|]
      end|]);
    apply pair_equal_spec in H as [<- H]; apply Some_Ok_inj in H; subst entry';
    cbn [pushed entries set_outputStreamCursor Entry.crcAndFileSizeKnown
         Entry.compressedSize Entry.crc32 Entry.uncompressedSize
         Entry.set_crc32 Entry.set_uncompressedSize];
    rewrite ?Ec, ?Eu;
    first [ exists (chunks (createDeflateRaw readStream));
            repeat split; eauto; fail
          | exists []; rewrite app_nil_r; repeat split; eauto; contradiction ].
Qed.

(** C2, as the code has it. For an entry whose checksum and sizes are not
    known when its local header is written (and whose name length, method
    and DOS time and date fit their 16-bit fields), the header is emitted
    with a zero CRC field, with both 32-bit size fields set to 0xFFFFFFFF,
    with the flags 0x0808, which include the data-descriptor bit 0x0008, and
    with a ZIP64 extra field of sixteen zero bytes. When the write of the
    entry completes, what it pushed is the header, the body chunks (the
    compressed chunks, for a deflate entry) and last the 24-byte data
    descriptor with the entry's checksum and 64-bit sizes; the entry is
    then recorded. *)
Theorem unknown_sizes_header_and_descriptor (self : Zip) (entry : Entry.t) (readStream : Run) :
  queue self = Some Fulfilled ->
  Entry.crcAndFileSizeKnown entry = false ->
  blen (Entry.fileName entry) <= 0xffff ->
  0 <= Entry.compressionMethod entry < 65536 ->
  0 <= Entry.lastModFileTime entry < 65536 ->
  0 <= Entry.lastModFileDate entry < 65536 ->
  exists header,
    getLocalFileHeader fill
      (Entry.set_relativeOffsetOfLocalHeader (Some (outputStreamCursor self)) entry)
    = Ok header
    /\ readUInt32LE header 14 = Ok 0
    /\ readUInt32LE header 18 = Ok 0xffffffff
    /\ readUInt32LE header 22 = Ok 0xffffffff
    /\ readUInt16LE header 6 = Ok 0x0808
    /\ bitand 0x0808 generalPurposeBitFlags.unknownCrc32AndFileSizes = 0x0008
    /\ drop (30 + length (Entry.fileName entry)) header = zero_zip64_extra
    /\ forall self' entry',
        Zip.addEntry fill self
          (Ok (entry, fun e => writeEntryStream crc32 createDeflateRaw e readStream))
        = (self', Resolved entry') ->
        exists body descriptor c cs us,
          pushed self' = pushed self ++ [header] ++ body ++ [descriptor]
          /\ (Entry.compressionMethod entry = compressionMethods.deflate ->
              body = chunks (createDeflateRaw readStream))
          /\ Entry.crc32 entry' = Some c
          /\ Entry.compressedSize entry' = Some cs
          /\ Entry.uncompressedSize entry' = Some us
          /\ descriptor = le_encode 4 0x08074b50 ++ le_encode 4 c
                            ++ le_encode 8 cs ++ le_encode 8 us
          /\ entries self' = entries self ++ [entry'].
Proof.
  intros Hq Hknown Hname Hmethod Htime Hdate.
  set (start := Entry.set_relativeOffsetOfLocalHeader (Some (outputStreamCursor self)) entry).
  pose proof (getLocalFileHeader_unknown fill start Hknown Hname Hmethod Htime Hdate)
    as Hheader.
  cbn [start Entry.set_relativeOffsetOfLocalHeader Entry.compressionMethod
       Entry.lastModFileTime Entry.lastModFileDate Entry.fileName] in Hheader.
  match type of Hheader with _ = Ok ?h => set (header := h) in * end.
  destruct (unknown_header_fields entry header eq_refl)
    as (_ & _ & Hflags & Hcrc & Hcs & Hus & _ & Hextra).
  exists header.
  do 4 (split; [assumption|]). split; [assumption|]. split; [reflexivity|].
  split; [assumption|].
  intros self' entry' Hadd.
  unfold Zip.addEntry, enqueue in Hadd. rewrite Hq in Hadd.
  destruct (addEntry_queued fill _ self) as [s [[e|err]|]] eqn:E;
    [|discriminate|discriminate].
  apply pair_equal_spec in Hadd as [<- Hadd].
  assert (e = entry') by congruence. subst e. clear Hadd.
  unfold addEntry_queued in E.
  cbv [tbind lift get ret modify writeBuffer] in E.
  fold start in E. rewrite Hheader in E. cbv beta iota in E.
  destruct (writeEntryStream crc32 createDeflateRaw start readStream _)
    as [s2 [[e2|err]|]] eqn:Ew; [|discriminate|discriminate].
  apply writeEntryStream_ok in Ew
    as (body & Hpushed & Hbody & Hk2 & Hc2 & [c Hcrc2] & [us Hus2] & Hentries).
  cbn [start Entry.set_relativeOffsetOfLocalHeader Entry.crcAndFileSizeKnown
       Entry.compressedSize Entry.compressionMethod] in Hk2, Hc2, Hbody.
  cbn [pushed entries set_outputStreamCursor push] in Hpushed, Hentries.
  assert (Hstep : forall e3 : Entry.t,
             Entry.crcAndFileSizeKnown e3 = false ->
             Entry.crc32 e3 = Some c ->
             Entry.uncompressedSize e3 = Some us ->
             (let (self'0, r0) :=
                (if negb (Entry.crcAndFileSizeKnown e3)
                 then
                   fun self : Zip =>
                     match
                       serializeDataDescriptor fill
                         {| DataDescriptor.crc32 := Entry.crc32 e3;
                            DataDescriptor.compressedSize := Entry.compressedSize e3;
                            DataDescriptor.uncompressedSize := Entry.uncompressedSize e3 |}
                     with
                     | Ok a1 =>
                         (set_outputStreamCursor (outputStreamCursor self + blen a1)
                            (push a1 self), Some (Ok ()))
                     | Throw e => (self, Some (Throw e))
                     end
                 else fun self : Zip => (self, Some (Ok ()))) s2 in
              match r0 with
              | Some (Ok _) => (set_entries (entries self'0 ++ [e3]) self'0, Some (Ok e3))
              | Some (Throw e) => (self'0, Some (Throw e))
              | None => (self'0, None)
              end) = (s, Some (Ok entry')) ->
             exists descriptor cs,
               pushed s = pushed s2 ++ [descriptor]
               /\ entry' = e3
               /\ Entry.compressedSize e3 = Some cs
               /\ descriptor = le_encode 4 0x08074b50 ++ le_encode 4 c
                                 ++ le_encode 8 cs ++ le_encode 8 us
               /\ entries s = entries s2 ++ [entry']).
  { intros e3 Hk3 Hcrc3 Hus3 H. rewrite Hk3, Hcrc3, Hus3 in H. cbn [negb] in H.
    destruct (serializeDataDescriptor fill _) as [d|] eqn:Ed; [|discriminate].
    apply serializeDataDescriptor_ok in Ed as (cs' & us' & Hcs' & Hus' & Hd).
    apply pair_equal_spec in H as [<- H]. apply Some_Ok_inj in H. subst entry'.
    injection Hus' as <-. cbn [default] in Hd.
    exists d, cs'. cbn [pushed entries set_entries set_outputStreamCursor push].
    repeat split; assumption. }
  rewrite Hc2 in E. rewrite Hknown in Hk2.
  destruct (Entry.compressedSize entry) as [cs0|] eqn:Ecs.
  - match type of E with
    | context [if ?b then _ else _] => destruct b; [discriminate|]
    end.
    apply Hstep in E as (descriptor & cs & Hp & -> & Hcs3 & Hd & He); try assumption.
    exists body, descriptor, c, cs, us.
    rewrite Hp, Hpushed, He, Hentries, <- !app_assoc. repeat split; try assumption.
  - apply Hstep in E as (descriptor & cs & Hp & -> & Hcs3 & Hd & He);
      try (cbn [Entry.crcAndFileSizeKnown Entry.crc32 Entry.uncompressedSize
                Entry.set_compressedSize]; assumption).
    exists body, descriptor, c, cs, us.
    rewrite Hp, Hpushed, He, Hentries, <- !app_assoc.
    cbn [Entry.crc32 Entry.uncompressedSize Entry.compressedSize
         Entry.set_compressedSize] in *.
    repeat split; assumption.
Qed.

End EntryWriteFacts.

Section EntryWriteWitnesses.
Import Zip Zip.Class Samples.

Lemma unknown_sizes_header_and_descriptor_witness :
  exists header,
    getLocalFileHeader zero_fill
      (Entry.set_relativeOffsetOfLocalHeader (Some 0) streamed_entry) = Ok header
    /\ readUInt32LE header 14 = Ok 0
    /\ readUInt32LE header 18 = Ok 0xffffffff
    /\ readUInt32LE header 22 = Ok 0xffffffff
    /\ readUInt16LE header 6 = Ok 0x0808.
Proof.
  destruct (unknown_sizes_header_and_descriptor zero_fill crc32_ieee no_deflate
              (new 0) streamed_entry {| chunks := [foo]; failure := None |})
    as (header & Hheader & Hcrc & Hcs & Hus & Hflags & _).
  - reflexivity.
  - reflexivity.
  - change (blen (Entry.fileName streamed_entry)) with 5. lia.
  - change (Entry.compressionMethod streamed_entry) with 8. lia.
  - change (Entry.lastModFileTime streamed_entry) with 0. lia.
  - change (Entry.lastModFileDate streamed_entry) with 60449. lia.
  - exists header. repeat split; assumption.
Defined.

(** C2, as stated, fails: [addReadStream] of the one-chunk stream ["foo"]
    as [a.txt] writes an entry whose checksum and sizes are not known at
    header time; the write completes, header, body and data descriptor are
    pushed, and the two 32-bit size fields of the header hold 0xFFFFFFFF,
    not zero. *)
Lemma unknown_sizes_header_sizes_are_not_zero :
  let r := addReadStream zero_fill crc32_ieee no_deflate 0 (new 0)
             {| chunks := [foo]; failure := None |} a_txt plain_options in
  exists entry header descriptor,
    snd r = Resolved entry
    /\ Entry.crcAndFileSizeKnown entry = false
    /\ pushed (fst r) = [header; foo; descriptor]
    /\ readUInt32LE header 0 = Ok 0x04034b50
    /\ readUInt32LE header 14 = Ok 0
    /\ readUInt32LE header 18 = Ok 0xffffffff
    /\ readUInt32LE header 22 = Ok 0xffffffff
    /\ readUInt32LE descriptor 0 = Ok 0x08074b50.
Proof.
  vm_compute. do 3 eexists. repeat split.
Qed.

End EntryWriteWitnesses.

(** ** The writer *)
Section WriterFacts.
Import Zip Zip.Class Samples.

Variable fill : nat -> byte.
Variable crc32 : Buffer -> Z -> Z.
Variable deflateRaw : Buffer -> result Buffer.
Variable createDeflateRaw : Run -> Run.
Variable now : Date.

Lemma pendingEntry_without_options (entry : Unzip.Entry.t) (withReadStream : bool) :
  exists pending, pendingEntry entry withReadStream Options.empty = Ok pending.
Proof.
  unfold pendingEntry, Options.empty. cbn [Options.fileName Options.comment Options.mode].
  destruct (Unzip.Entry.fileName entry), (Unzip.Entry.comment entry);
    repeat match goal with |- context [if ?c then _ else _] => destruct c end;
    cbn [Js.bind]; eauto.
Qed.

Lemma pendingEntry_fields (entry : Unzip.Entry.t) (withReadStream : bool)
    (options : Options.t) (pending : Entry.t) :
  pendingEntry entry withReadStream options = Ok pending ->
  Entry.crcAndFileSizeKnown pending = true
  /\ Entry.crc32 pending
     = Some (Unzip.CDFH.crc32 (Unzip.Entry.centralDirectoryFileHeader entry))
  /\ Entry.uncompressedSize pending = Some (Unzip.Entry.uncompressedSize entry)
  /\ Entry.compressedSize pending = Some (Unzip.Entry.compressedSize entry)
  /\ Entry.relativeOffsetOfLocalHeader pending
     = if withReadStream then None
       else Some (Unzip.Entry.relativeOffsetOfLocalHeader entry).
Proof.
  unfold pendingEntry, Js.bind. intros H.
  repeat match type of H with
         | match ?m with Ok _ => _ | Throw _ => _ end = Ok _ =>
             destruct m; [|discriminate]
         end.
  apply Ok_inj in H. subst pending.
  cbn [Entry.crcAndFileSizeKnown Entry.crc32 Entry.uncompressedSize
       Entry.compressedSize Entry.relativeOffsetOfLocalHeader].
  repeat split.
Qed.

(** C10. A call [addEntry(entry)] without [createReadStream], on a writer
    that has not been ended and whose queue has not failed, and with options
    that pass the checks of [addEntry] (as the absent options do), resolves
    with an entry that is appended to the entry list; the entry has the
    source entry's [relativeOffsetOfLocalHeader], [crcAndFileSizeKnown] set,
    the CRC of the source central directory header and the source entry's
    sizes. Nothing is pushed, and the cursor and the entries recorded before
    are as they were. The source entry's sizes are those [readEntry]
    resolved from the central directory header. *)
Theorem addEntry_without_stream (self : Zip) (entry : Unzip.Entry.t) (options : Options.t) :
  queue self = Some Fulfilled ->
  is_ok (pendingEntry entry false options) = true ->
  exists pending : Entry.t,
    addEntry fill self entry None options
    = (set_entries (entries self ++ [pending]) self, Resolved pending)
    /\ entries (fst (addEntry fill self entry None options)) = entries self ++ [pending]
    /\ pushed (fst (addEntry fill self entry None options)) = pushed self
    /\ outputStreamCursor (fst (addEntry fill self entry None options))
       = outputStreamCursor self
    /\ Entry.relativeOffsetOfLocalHeader pending
       = Some (Unzip.Entry.relativeOffsetOfLocalHeader entry)
    /\ Entry.crcAndFileSizeKnown pending = true
    /\ Entry.crc32 pending
       = Some (Unzip.CDFH.crc32 (Unzip.Entry.centralDirectoryFileHeader entry))
    /\ Entry.uncompressedSize pending = Some (Unzip.Entry.uncompressedSize entry)
    /\ Entry.compressedSize pending = Some (Unzip.Entry.compressedSize entry)
    /\ (forall Buffer_toString header decodeStrings,
           Unzip.readEntry_of_header crc32 Buffer_toString header decodeStrings = Ok entry ->
           Unzip.Entry.centralDirectoryFileHeader entry = header
           /\ Unzip.readEntry_zip64 header
              = Ok (Unzip.Entry.uncompressedSize entry, Unzip.Entry.compressedSize entry,
                    Unzip.Entry.relativeOffsetOfLocalHeader entry,
                    Unzip.Entry.diskNumberStart entry)).
Proof.
  intros Hq Hok.
  destruct (pendingEntry entry false options) as [pending|] eqn:Hp; [|discriminate].
  exists pending.
  assert (Hcall : addEntry fill self entry None options
                  = (set_entries (entries self ++ [pending]) self, Resolved pending)).
  { unfold addEntry. cbn [bool_decide]. 
    replace (bool_decide (is_Some (@None (result Run)))) with false.
    - rewrite Hp, Hq. reflexivity.
    - symmetry. apply bool_decide_eq_false. intros [x Hx]. discriminate. }
  destruct (pendingEntry_fields _ _ _ _ Hp) as (Hk & Hc & Hu & Hcs & Ho).
  rewrite Hcall. cbn [fst].
  repeat split; try assumption; try reflexivity.
  - unfold Unzip.readEntry_of_header, Js.bind in H.
    repeat match type of H with
           | (if ?c then Throw _ else _) = Ok _ => destruct c; [discriminate|]
           | match ?m with Ok _ => _ | Throw _ => _ end = Ok _ =>
               destruct m; [|discriminate]
           | (let '(_, _) := ?p in _) = Ok _ => destruct p
           end.
    apply Ok_inj in H. subst entry. reflexivity.
  - unfold Unzip.readEntry_of_header, Js.bind in H.
    repeat match type of H with
           | (if ?c then Throw _ else _) = Ok _ => destruct c; [discriminate|]
           | match ?m with Ok _ => _ | Throw _ => _ end = Ok _ =>
               destruct m eqn:?; [|discriminate]
           | (let '(_, _) := ?p in _) = Ok _ => destruct p
           end.
    apply Ok_inj in H. subst entry. reflexivity.
Qed.

(** C5, as the code has it. Once [end()] has cleared the queue, every call
    that adds an entry fails: it throws, or the promise it returns is
    rejected because the archive has been finalized; and it leaves the
    writer as it was, so that nothing is pushed and no entry is recorded.
    [addEntry] without [createReadStream] throws that error itself. *)
Theorem add_after_end_fails (self : Zip) (op : Op) :
  queue self = None ->
  is_add op = true ->
  fst (step fill crc32 deflateRaw createDeflateRaw now self op) = self
  /\ ((exists e, snd (step fill crc32 deflateRaw createDeflateRaw now self op) = Threw e)
      \/ snd (step fill crc32 deflateRaw createDeflateRaw now self op)
         = Rejected "Zip file has been finalized")
  /\ (forall entry options,
         op = AddEntry entry None options ->
         exists e, snd (step fill crc32 deflateRaw createDeflateRaw now self op) = Threw e).
Proof.
  intros Hq Hadd.
  assert (Hent : forall callback,
             Zip.addEntry fill self callback = (self, Rejected "Zip file has been finalized")).
  { intros callback. unfold Zip.addEntry, enqueue. now rewrite Hq. }
  destruct op as [buffer fileName options | opened fileName options
                 | fileHandle fileName options | readStream fileName options
                 | fileName options | entry createReadStream options | options | ];
    try discriminate; cbn [step].
  - unfold addBuffer.
    destruct (sanitizeMetadataPath fileName false); [|cbn; split; [|split]; eauto; discriminate].
    destruct (0x3fffffff <? blen buffer); [cbn; split; [|split]; eauto; discriminate|].
    rewrite Hent. cbn. split; [|split]; eauto; discriminate.
  - unfold addFile.
    destruct (sanitizeMetadataPath fileName false); [|cbn; split; [|split]; eauto; discriminate].
    rewrite Hent. cbn. split; [|split]; eauto; discriminate.
  - unfold addFileHandle.
    destruct (sanitizeMetadataPath fileName false); [|cbn; split; [|split]; eauto; discriminate].
    rewrite Hent. cbn. split; [|split]; eauto; discriminate.
  - unfold addReadStream.
    destruct (sanitizeMetadataPath fileName false); [|cbn; split; [|split]; eauto; discriminate].
    destruct (createEntry now _); [|cbn; split; [|split]; eauto; discriminate].
    rewrite Hent. cbn. split; [|split]; eauto; discriminate.
  - unfold addDirectory.
    destruct (sanitizeMetadataPath fileName true); [|cbn; split; [|split]; eauto; discriminate].
    rewrite Hent. cbn. split; [|split]; eauto; discriminate.
  - unfold addEntry.
    destruct (pendingEntry entry _ options) as [pending|e] eqn:Hp.
    + destruct createReadStream as [stream|].
      * rewrite Hent. cbn. split; [|split]; eauto; discriminate.
      * rewrite Hq. cbn. split; [|split]; eauto.
    + cbn. split; [|split]; eauto.
Qed.

End WriterFacts.

Section WriterWitnesses.
Import Zip Zip.Class Samples.

Lemma addEntry_without_stream_witness :
  exists pending : Entry.t,
    addEntry zero_fill (new 111) stored_foo_entry None Options.empty
    = (set_entries [pending] (new 111), Resolved pending).
Proof.
  destruct (addEntry_without_stream zero_fill crc32_ieee (new 111) stored_foo_entry
              Options.empty)
    as (pending & Hcall & _).
  - reflexivity.
  - vm_compute. reflexivity.
  - exists pending. exact Hcall.
Defined.

Lemma add_after_end_fails_witness :
  fst (step zero_fill crc32_ieee no_deflateRaw no_deflate 0 (end_ (new 0))
         (AddDirectory [100] stored_options))
  = end_ (new 0).
Proof.
  refine (proj1 (add_after_end_fails zero_fill crc32_ieee no_deflateRaw no_deflate 0
                   (end_ (new 0)) (AddDirectory [100] stored_options) _ _)).
  - reflexivity.
  - reflexivity.
Defined.

(** C5, as stated, fails: on a new writer [addCentralDirectoryRecord()]
    completes, and the [addDirectory] that follows is accepted: it resolves,
    32 more bytes are pushed and an entry is recorded. *)
Lemma add_after_central_directory_is_accepted :
  let r1 := step zero_fill crc32_ieee no_deflateRaw no_deflate 0 (new 0)
              (AddCentralDirectoryRecord Options.empty) in
  let r2 := step zero_fill crc32_ieee no_deflateRaw no_deflate 0 (fst r1)
              (AddDirectory [100] stored_options) in
  snd r1 = Resolved tt
  /\ snd r2 = Resolved tt
  /\ pushed_bytes (fst r1) = 22
  /\ pushed_bytes (fst r2) = 22 + 32
  /\ length (entries (fst r2)) = 1%nat
  /\ errors (fst r2) = [].
Proof. vm_compute. repeat split. Qed.

End WriterWitnesses.

(** ** The output cursor *)
Section CursorFacts.
Import Zip Zip.Class.

Variable fill : nat -> byte.
Variable crc32 : Buffer -> Z -> Z.
Variable deflateRaw : Buffer -> result Buffer.
Variable createDeflateRaw : Run -> Run.
Variable now : Date.

Lemma cursor_kept_refl (s : Zip) : cursor_kept s s.
Proof. unfold cursor_kept. lia. Qed.

Lemma cursor_kept_trans (s1 s2 s3 : Zip) :
  cursor_kept s1 s2 -> cursor_kept s2 s3 -> cursor_kept s1 s3.
Proof. unfold cursor_kept. lia. Qed.

Lemma cursor_tracks_refl (s : Zip) : cursor_tracks s s.
Proof. unfold cursor_tracks. lia. Qed.

Lemma cursor_tracks_trans (s1 s2 s3 : Zip) :
  cursor_tracks s1 s2 -> cursor_tracks s2 s3 -> cursor_tracks s1 s3.
Proof. unfold cursor_tracks. lia. Qed.

Lemma total_length_spec (chunks : list Buffer) : total_length chunks = blen (concat chunks).
Proof.
  unfold total_length.
  enough (forall a, foldl (fun size chunk => size + blen chunk) a chunks
                    = a + blen (concat chunks)) as H by (rewrite H; lia).
  induction chunks as [|chunk rest IH]; intros a; cbn [foldl concat].
  - unfold blen. cbn. lia.
  - rewrite IH, blen_app. lia.
Qed.

Lemma total_length_nonneg (chunks : list Buffer) : 0 <= total_length chunks.
Proof. rewrite total_length_spec. apply blen_nonneg. Qed.

Lemma blen_concat_app (l1 l2 : list Buffer) :
  blen (concat (l1 ++ l2)) = blen (concat l1) + blen (concat l2).
Proof. now rewrite concat_app, blen_app. Qed.

(** *** Work that never moves the cursor back *)

Lemma never_back_ret {A} (a : A) : never_back (ret a).
Proof. intros s. apply cursor_kept_refl. Qed.

Lemma never_back_lift {A} (r : result A) : never_back (lift r).
Proof. intros s. apply cursor_kept_refl. Qed.

Lemma never_back_get : never_back get.
Proof. intros s. apply cursor_kept_refl. Qed.

Lemma never_back_modify (f : Zip -> Zip) :
  (forall s, cursor_kept s (f s)) -> never_back (modify f).
Proof. intros H s. apply H. Qed.

Lemma never_back_tbind {A B} (m : Task A) (k : A -> Task B) :
  never_back m -> (forall a, never_back (k a)) -> never_back (tbind m k).
Proof.
  intros Hm Hk s. unfold tbind. specialize (Hm s).
  destruct (m s) as [s' [[a|e]|]]; cbn [fst] in *.
  - eapply cursor_kept_trans; [exact Hm|apply Hk].
  - exact Hm.
  - exact Hm.
Qed.

Lemma never_back_writeBuffer (buffer : Buffer) : never_back (writeBuffer buffer).
Proof.
  intros s. unfold writeBuffer, modify, cursor_kept. cbn.
  pose proof (blen_nonneg buffer). lia.
Qed.

Lemma never_back_push_all (chunks : list Buffer) : never_back (push_all chunks).
Proof.
  intros s. unfold push_all, modify, cursor_kept. cbn [fst].
  rewrite push_all_spec. cbn. lia.
Qed.

Lemma never_back_advance (size : Z) : 0 <= size -> never_back (advance size).
Proof. intros H s. unfold advance, modify, cursor_kept. cbn. lia. Qed.

Lemma never_back_tbind_lift {A B} (r : result A) (k : A -> Task B) :
  (forall a, r = Ok a -> never_back (k a)) -> never_back (tbind (lift r) k).
Proof.
  intros Hk s. unfold tbind, lift. destruct r as [a|e].
  - now apply Hk.
  - apply cursor_kept_refl.
Qed.

Lemma never_back_writeRawStream (readStream : Run) : never_back (writeRawStream readStream).
Proof.
  unfold writeRawStream. apply never_back_tbind; [apply never_back_push_all|].
  intros _. destruct (failure readStream).
  - apply never_back_lift.
  - apply never_back_advance, total_length_nonneg.
Qed.

Lemma never_back_writeEntryStream (entry : Entry.t) (readStream : Run) :
  never_back (writeEntryStream crc32 createDeflateRaw entry readStream).
Proof.
  intros s. unfold writeEntryStream, cursor_kept.
  pose proof (total_length_nonneg (chunks readStream)).
  pose proof (total_length_nonneg (chunks (createDeflateRaw readStream))).
  cbv [tbind lift ret stall advance modify push_all pipeline_stored].
  destruct (Entry.compressionMethod entry =? compressionMethods.deflate);
    cbv beta iota; rewrite ?push_all_spec;
    (match goal with
     | |- context [match failure ?r with _ => _ end] => destruct (failure r)
     end);
    try (match goal with
         | |- context [(?n <? ?k)%nat] => destruct (n <? k)%nat
         end);
    try (cbn; lia);
    (destruct (Entry.crc32 entry) as [c|];
     [match goal with
      | |- context [if ?b then _ else _] => destruct b
      end|]);
    try (cbn; lia);
    cbn [Entry.uncompressedSize Entry.set_crc32];
    (destruct (Entry.uncompressedSize entry) as [u|];
     [match goal with
      | |- context [if ?b then _ else _] => destruct b
      end|]);
    cbn; lia.
Qed.

Ltac never_back_step :=
  match goal with
  | |- never_back (tbind (lift _) _) => apply never_back_tbind_lift; intros ? ?
  | |- never_back (tbind _ _) => apply never_back_tbind; [|intros ?]
  | |- never_back (ret _) => apply never_back_ret
  | |- never_back (lift _) => apply never_back_lift
  | |- never_back get => apply never_back_get
  | |- never_back (writeBuffer _) => apply never_back_writeBuffer
  | |- never_back (writeRawStream _) => apply never_back_writeRawStream
  | |- never_back (writeEntryStream _ _ _ _) => apply never_back_writeEntryStream
  | |- never_back (modify _) =>
      apply never_back_modify; intros ?; unfold cursor_kept; cbn; lia
  | |- never_back (if ?b then _ else _) => destruct b
  | |- never_back (match ?x with _ => _ end) => destruct x
  end.

(** The work that [addEntry] queues keeps the cursor where it is or moves
    it forward, provided the [write] closure does. *)
Lemma never_back_addEntry_queued (callback : result Prepared) :
  (forall entry write, callback = Ok (entry, write) -> forall e, never_back (write e)) ->
  never_back (addEntry_queued fill callback).
Proof.
  intros Hw. unfold addEntry_queued.
  apply never_back_tbind_lift. intros [entry write] Hcallback.
  specialize (Hw entry write Hcallback).
  apply never_back_tbind; [apply never_back_get|]. intros s0.
  apply never_back_tbind; [apply never_back_lift|]. intros header.
  apply never_back_tbind; [apply never_back_writeBuffer|]. intros _.
  apply never_back_tbind; [apply never_back_get|]. intros s1.
  apply never_back_tbind; [apply Hw|]. intros entry1.
  repeat never_back_step.
Qed.

Lemma enqueue_cursor_kept {A} (self : Zip) (work : Task A) :
  never_back work -> cursor_kept self (fst (enqueue self work)).
Proof.
  intros Hwork. unfold enqueue.
  destruct (queue self) as [[|e|]|]; cbn [fst]; try apply cursor_kept_refl.
  - specialize (Hwork self). destruct (work self) as [s' [[a|e]|]]; cbn [fst] in *.
    + exact Hwork.
    + unfold cursor_kept in *. cbn. exact Hwork.
    + unfold cursor_kept in *. cbn. exact Hwork.
  - unfold cursor_kept. cbn. lia.
Qed.

Lemma addEntry_cursor_kept (self : Zip) (callback : result Prepared) :
  (forall entry write, callback = Ok (entry, write) -> forall e, never_back (write e)) ->
  cursor_kept self (fst (Zip.addEntry fill self callback)).
Proof.
  intros Hw. unfold Zip.addEntry.
  now apply enqueue_cursor_kept, never_back_addEntry_queued.
Qed.

Ltac invert_callback H :=
  repeat match type of H with
         | Js.bind ?m _ = Ok _ => destruct m; cbn [Js.bind] in H; [|discriminate H]
         | (if ?b then _ else _) = Ok _ => destruct b; try discriminate H
         end;
  apply Ok_inj, pair_equal_spec in H; destruct H as [_ <-]; cbv beta.

Lemma addBuffer_cursor_kept (self : Zip) (buffer : Buffer) (fileName : jsstring)
    (options : Options.t) :
  cursor_kept self (fst (addBuffer fill crc32 deflateRaw now self buffer fileName options)).
Proof.
  unfold addBuffer.
  destruct (sanitizeMetadataPath fileName false); [|apply cursor_kept_refl].
  destruct (0x3fffffff <? blen buffer); [apply cursor_kept_refl|].
  apply addEntry_cursor_kept. intros entry write H e.
  invert_callback H; repeat never_back_step.
Qed.

Lemma addFile_cursor_kept (self : Zip) (opened : result OpenFile) (fileName : jsstring)
    (options : Options.t) :
  cursor_kept self (fst (addFile fill crc32 createDeflateRaw now self opened fileName options)).
Proof.
  unfold addFile.
  destruct (sanitizeMetadataPath fileName false); [|apply cursor_kept_refl].
  apply addEntry_cursor_kept. intros entry write H e.
  invert_callback H; repeat never_back_step.
Qed.

Lemma addFileHandle_cursor_kept (self : Zip) (fileHandle : OpenFile) (fileName : jsstring)
    (options : Options.t) :
  cursor_kept self
    (fst (addFileHandle fill crc32 createDeflateRaw now self fileHandle fileName options)).
Proof.
  unfold addFileHandle.
  destruct (sanitizeMetadataPath fileName false); [|apply cursor_kept_refl].
  apply addEntry_cursor_kept. intros entry write H e.
  invert_callback H; repeat never_back_step.
Qed.

Lemma addReadStream_cursor_kept (self : Zip) (readStream : Run) (fileName : jsstring)
    (options : Options.t) :
  cursor_kept self
    (fst (addReadStream fill crc32 createDeflateRaw now self readStream fileName options)).
Proof.
  unfold addReadStream.
  destruct (sanitizeMetadataPath fileName false); [|apply cursor_kept_refl].
  destruct (createEntry now _); [|apply cursor_kept_refl].
  apply addEntry_cursor_kept. intros entry write H e.
  invert_callback H; repeat never_back_step.
Qed.

Lemma addDirectory_cursor_kept (self : Zip) (fileName : jsstring) (options : Options.t) :
  cursor_kept self (fst (addDirectory fill now self fileName options)).
Proof.
  unfold addDirectory.
  destruct (sanitizeMetadataPath fileName true); [|apply cursor_kept_refl].
  apply addEntry_cursor_kept. intros entry write H e.
  invert_callback H; repeat never_back_step.
Qed.

Lemma Class_addEntry_cursor_kept (self : Zip) (entry : Unzip.Entry.t)
    (createReadStream : option (result Run)) (options : Options.t) :
  cursor_kept self (fst (Class.addEntry fill self entry createReadStream options)).
Proof.
  unfold Class.addEntry.
  destruct (pendingEntry entry _ options); [|apply cursor_kept_refl].
  destruct createReadStream as [createReadStream|].
  - apply addEntry_cursor_kept. intros entry' write H e.
    invert_callback H; repeat never_back_step.
  - destruct (queue self) as [[|e|]|]; cbn [fst]; try apply cursor_kept_refl.
    unfold cursor_kept. cbn. lia.
Qed.

Lemma never_back_central_directory (records : list Entry.t) (work : Task unit) :
  never_back work ->
  never_back (foldl (fun work entry =>
                       _ <~ work ;;
                       record <~ lift (getCentralDirectoryRecord fill entry) ;;
                       writeBuffer record)
                work records).
Proof.
  revert work. induction records as [|entry rest IH]; intros work Hwork; cbn [foldl].
  - exact Hwork.
  - apply IH. apply never_back_tbind; [exact Hwork|]. intros _.
    repeat never_back_step.
Qed.

Lemma addCentralDirectoryRecord_cursor_kept (self : Zip) (options : Options.t) :
  cursor_kept self (fst (addCentralDirectoryRecord fill self options)).
Proof.
  unfold addCentralDirectoryRecord.
  destruct (queue self) eqn:Eq; [|apply cursor_kept_refl].
  match goal with
  | |- context [match ?m with Ok _ => _ | Throw _ => _ end] => destruct m
  end; [|apply cursor_kept_refl].
  apply enqueue_cursor_kept. unfold addCentralDirectoryRecord_queued.
  apply never_back_tbind; [never_back_step|]. intros _.
  apply never_back_tbind; [never_back_step|]. intros s0.
  apply never_back_tbind.
  { apply never_back_central_directory, never_back_ret. }
  intros _. repeat never_back_step.
Qed.

(** The cursor never decreases: no call on the writer moves it back,
    whether the call throws, is rejected, resolves or never settles. *)
Lemma step_cursor_kept (self : Zip) (op : Op) :
  cursor_kept self (fst (step fill crc32 deflateRaw createDeflateRaw now self op)).
Proof.
  destruct op; unfold step, forget; cbn [fst].
  - apply addBuffer_cursor_kept.
  - apply addFile_cursor_kept.
  - apply addFileHandle_cursor_kept.
  - apply addReadStream_cursor_kept.
  - apply addDirectory_cursor_kept.
  - apply Class_addEntry_cursor_kept.
  - apply addCentralDirectoryRecord_cursor_kept.
  - unfold end_, cursor_kept. destruct (queue self) as [[|e|]|]; cbn; lia.
Qed.

Lemma run_cursor_kept (ops : list Op) (self : Zip) :
  cursor_kept self (run fill crc32 deflateRaw createDeflateRaw now self ops).
Proof.
  unfold run. revert self. induction ops as [|op rest IH]; intros self; cbn [foldl].
  - apply cursor_kept_refl.
  - eapply cursor_kept_trans; [apply step_cursor_kept|apply IH].
Qed.

(** *** Work that advances the cursor by what it pushes *)

Lemma accounts_ret {A} (a : A) : accounts (ret a).
Proof. intros s s' a' H. injection H as <- _. apply cursor_tracks_refl. Qed.

Lemma accounts_lift {A} (r : result A) : accounts (lift r).
Proof. intros s s' a' H. injection H as <- _. apply cursor_tracks_refl. Qed.

Lemma accounts_get : accounts get.
Proof. intros s s' a' H. injection H as <- _. apply cursor_tracks_refl. Qed.

Lemma accounts_modify (f : Zip -> Zip) :
  (forall s, cursor_tracks s (f s)) -> accounts (modify f).
Proof. intros Hf s s' a' H. injection H as <-. apply Hf. Qed.

Lemma accounts_tbind {A B} (m : Task A) (k : A -> Task B) :
  accounts m -> (forall a, accounts (k a)) -> accounts (tbind m k).
Proof.
  intros Hm Hk s s'' b. unfold tbind.
  destruct (m s) as [s' [[a|e]|]] eqn:E; [|discriminate|discriminate].
  intros H. eapply cursor_tracks_trans; [eapply Hm, E|eapply Hk, H].
Qed.

Lemma accounts_tbind_lift {A B} (r : result A) (k : A -> Task B) :
  (forall a, r = Ok a -> accounts (k a)) -> accounts (tbind (lift r) k).
Proof.
  intros Hk s s' b. unfold tbind, lift. destruct r as [a|e]; [|discriminate].
  now apply Hk.
Qed.

Lemma pushed_bytes_push (chunk : Buffer) (s : Zip) :
  pushed_bytes (push chunk s) = pushed_bytes s + blen chunk.
Proof.
  unfold pushed_bytes, push. cbn [pushed].
  rewrite blen_concat_app. cbn [concat]. now rewrite app_nil_r.
Qed.

Lemma accounts_writeBuffer (buffer : Buffer) : accounts (writeBuffer buffer).
Proof.
  intros s s' a H. unfold writeBuffer, modify in H. injection H as <-.
  unfold cursor_tracks.
  change (pushed_bytes (set_outputStreamCursor _ (push buffer s)))
    with (pushed_bytes (push buffer s)).
  rewrite pushed_bytes_push. cbn. lia.
Qed.

Lemma accounts_writeRawStream (readStream : Run) : accounts (writeRawStream readStream).
Proof.
  intros s s' a. unfold writeRawStream.
  cbv [tbind lift advance modify push_all]. rewrite push_all_spec.
  destruct (failure readStream); [discriminate|].
  intros H. injection H as <-.
  unfold cursor_tracks, pushed_bytes. cbn [outputStreamCursor pushed set_outputStreamCursor].
  rewrite blen_concat_app, total_length_spec. lia.
Qed.

(** The deflate branch of [writeEntryStream] pushes every compressed chunk
    and advances the cursor by their total length. *)
Lemma accounts_writeEntryStream (entry : Entry.t) (readStream : Run) :
  Entry.compressionMethod entry = compressionMethods.deflate ->
  accounts (writeEntryStream crc32 createDeflateRaw entry readStream).
Proof.
  intros Hmethod s s' entry'. unfold writeEntryStream.
  rewrite Hmethod, Z.eqb_refl.
  cbv [tbind lift ret advance modify push_all]. rewrite push_all_spec.
  destruct (failure (createDeflateRaw readStream)); [discriminate|].
  destruct (Entry.crc32 entry) as [c|];
    [match goal with
     | |- context [if ?b then _ else _] => destruct b; [discriminate|]
     end|];
    cbn [Entry.uncompressedSize Entry.set_crc32];
    (destruct (Entry.uncompressedSize entry) as [u|];
     [match goal with
      | |- context [if ?b then _ else _] => destruct b; [discriminate|]
      end|]);
    intros H; apply pair_equal_spec in H as [<- _];
    unfold cursor_tracks, pushed_bytes;
    cbn [outputStreamCursor pushed set_outputStreamCursor];
    rewrite blen_concat_app, total_length_spec; lia.
Qed.

(** The other branch completes only for a source of fewer than 16 chunks
    that does not fail; it pushes nothing and advances the cursor by the
    length of the data. *)
Lemma writeEntryStream_stored (entry entry' : Entry.t) (readStream : Run) (s s' : Zip) :
  Entry.compressionMethod entry <> compressionMethods.deflate ->
  writeEntryStream crc32 createDeflateRaw entry readStream s = (s', Some (Ok entry')) ->
  pushed s' = pushed s
  /\ outputStreamCursor s' = outputStreamCursor s + total_length (chunks readStream)
  /\ failure readStream = None
  /\ (length (chunks readStream) < 16)%nat.
Proof.
  intros Hmethod. unfold writeEntryStream.
  apply Z.eqb_neq in Hmethod. rewrite Hmethod.
  cbv [tbind lift ret stall advance modify push_all pipeline_stored].
  destruct (failure readStream); [destruct (_ <? 31)%nat; discriminate|].
  destruct (Nat.ltb_spec (length (chunks readStream)) 16) as [Hfew|_]; [|discriminate].
  destruct (Entry.crc32 entry) as [c|];
    [match goal with
     | |- context [if ?b then _ else _] => destruct b; [discriminate|]
     end|];
    cbn [Entry.uncompressedSize Entry.set_crc32];
    (destruct (Entry.uncompressedSize entry) as [u|];
     [match goal with
      | |- context [if ?b then _ else _] => destruct b; [discriminate|]
      end|]);
    intros H; apply pair_equal_spec in H as [<- _]; cbn; auto.
Qed.

Ltac accounts_step :=
  match goal with
  | |- accounts (tbind (lift _) _) => apply accounts_tbind_lift; intros ? ?
  | |- accounts (tbind _ _) => apply accounts_tbind; [|intros ?]
  | |- accounts (ret _) => apply accounts_ret
  | |- accounts (lift _) => apply accounts_lift
  | |- accounts get => apply accounts_get
  | |- accounts (writeBuffer _) => apply accounts_writeBuffer
  | |- accounts (writeRawStream _) => apply accounts_writeRawStream
  | |- accounts (modify _) =>
      apply accounts_modify; intros ?; unfold cursor_tracks, pushed_bytes; cbn; lia
  | |- accounts (if ?b then _ else _) => destruct b
  | |- accounts (match ?x with _ => _ end) => destruct x
  end.

(** The work that [addEntry] queues, when it returns, has advanced the
    cursor by what it pushed, provided the [write] closure has. *)
Lemma accounts_addEntry_queued (callback : result Prepared) :
  (forall entry write, callback = Ok (entry, write) ->
   forall e, Entry.compressionMethod e = Entry.compressionMethod entry ->
             accounts (write e)) ->
  accounts (addEntry_queued fill callback).
Proof.
  intros Hw. unfold addEntry_queued.
  apply accounts_tbind_lift. intros [entry write] Hcallback.
  specialize (Hw entry write Hcallback).
  apply accounts_tbind; [apply accounts_get|]. intros s0.
  apply accounts_tbind; [apply accounts_lift|]. intros header.
  apply accounts_tbind; [apply accounts_writeBuffer|]. intros _.
  apply accounts_tbind; [apply accounts_get|]. intros s1.
  apply accounts_tbind; [apply Hw; reflexivity|]. intros entry1.
  repeat accounts_step.
Qed.

Lemma enqueue_cursor_tracks {A} (self self' : Zip) (work : Task A) (a : A) :
  accounts work -> enqueue self work = (self', Resolved a) -> cursor_tracks self self'.
Proof.
  intros Hwork. unfold enqueue.
  destruct (queue self) as [[|e|]|]; try discriminate.
  destruct (work self) as [s' [[a'|e]|]] eqn:E; [|discriminate|discriminate].
  intros H. apply pair_equal_spec in H as [<- _]. eapply Hwork, E.
Qed.

Lemma createEntry_compressionMethod (options : CreateEntryOptions.t) (entry : Entry.t) :
  createEntry now options = Ok entry ->
  Entry.compressionMethod entry
  = if CreateEntryOptions.compress options
    then compressionMethods.deflate else compressionMethods.none.
Proof.
  unfold createEntry.
  repeat match goal with
         | |- (if ?b then _ else _) = Ok _ -> _ => destruct b; [discriminate|]
         end.
  intros H. apply Ok_inj in H. now subst entry.
Qed.

Ltac invert_prepared H :=
  repeat match type of H with
         | Js.bind ?m _ = Ok _ =>
             let E := fresh "E" in
             destruct m eqn:E; cbn [Js.bind] in H; [|discriminate H]
         | (if ?b then _ else _) = Ok _ => destruct b; try discriminate H
         end;
  apply Ok_inj, pair_equal_spec in H; destruct H as [<- <-]; cbv beta.

Lemma addEntry_cursor_tracks (self self' : Zip) (callback : result Prepared) (e : Entry.t) :
  (forall entry write, callback = Ok (entry, write) ->
   forall e, Entry.compressionMethod e = Entry.compressionMethod entry ->
             accounts (write e)) ->
  Zip.addEntry fill self callback = (self', Resolved e) ->
  cursor_tracks self self'.
Proof.
  intros Hw. unfold Zip.addEntry.
  now apply enqueue_cursor_tracks, accounts_addEntry_queued.
Qed.

Lemma addBuffer_cursor_tracks (self self' : Zip) (buffer : Buffer) (fileName : jsstring)
    (options : Options.t) (e : Entry.t) :
  addBuffer fill crc32 deflateRaw now self buffer fileName options = (self', Resolved e) ->
  cursor_tracks self self'.
Proof.
  unfold addBuffer.
  destruct (sanitizeMetadataPath fileName false); [|discriminate].
  destruct (0x3fffffff <? blen buffer); [discriminate|].
  apply addEntry_cursor_tracks. intros entry write H e' _.
  invert_prepared H; repeat accounts_step.
Qed.

Lemma addFile_cursor_tracks (self self' : Zip) (opened : result OpenFile)
    (fileName : jsstring) (options : Options.t) (e : Entry.t) :
  default true (Options.compress options) = true ->
  addFile fill crc32 createDeflateRaw now self opened fileName options
  = (self', Resolved e) ->
  cursor_tracks self self'.
Proof.
  intros Hcompress. unfold addFile.
  destruct (sanitizeMetadataPath fileName false); [|discriminate].
  apply addEntry_cursor_tracks. intros entry write H e' He'.
  invert_prepared H.
  apply accounts_writeEntryStream. rewrite He'.
  erewrite createEntry_compressionMethod by eassumption.
  cbn [CreateEntryOptions.compress streamedEntryOptions]. now rewrite Hcompress.
Qed.

Lemma addFileHandle_cursor_tracks (self self' : Zip) (fileHandle : OpenFile)
    (fileName : jsstring) (options : Options.t) (e : Entry.t) :
  default true (Options.compress options) = true ->
  addFileHandle fill crc32 createDeflateRaw now self fileHandle fileName options
  = (self', Resolved e) ->
  cursor_tracks self self'.
Proof.
  intros Hcompress. unfold addFileHandle.
  destruct (sanitizeMetadataPath fileName false); [|discriminate].
  apply addEntry_cursor_tracks. intros entry write H e' He'.
  invert_prepared H.
  apply accounts_writeEntryStream. rewrite He'.
  erewrite createEntry_compressionMethod by eassumption.
  cbn [CreateEntryOptions.compress streamedEntryOptions]. now rewrite Hcompress.
Qed.

Lemma addReadStream_cursor_tracks (self self' : Zip) (readStream : Run)
    (fileName : jsstring) (options : Options.t) (e : Entry.t) :
  default true (Options.compress options) = true ->
  addReadStream fill crc32 createDeflateRaw now self readStream fileName options
  = (self', Resolved e) ->
  cursor_tracks self self'.
Proof.
  intros Hcompress. unfold addReadStream.
  destruct (sanitizeMetadataPath fileName false); [|discriminate].
  destruct (createEntry now _) as [created|] eqn:Ecreated; [|discriminate].
  apply addEntry_cursor_tracks. intros entry write H e' He'.
  invert_prepared H.
  apply accounts_writeEntryStream. rewrite He'.
  erewrite createEntry_compressionMethod by eassumption.
  cbn [CreateEntryOptions.compress]. now rewrite Hcompress.
Qed.

Lemma addDirectory_cursor_tracks (self self' : Zip) (fileName : jsstring)
    (options : Options.t) (e : Entry.t) :
  addDirectory fill now self fileName options = (self', Resolved e) ->
  cursor_tracks self self'.
Proof.
  unfold addDirectory.
  destruct (sanitizeMetadataPath fileName true); [|discriminate].
  apply addEntry_cursor_tracks. intros entry write H e' _.
  invert_prepared H; repeat accounts_step.
Qed.

Lemma Class_addEntry_cursor_tracks (self self' : Zip) (entry : Unzip.Entry.t)
    (createReadStream : option (result Run)) (options : Options.t) (e : Entry.t) :
  Class.addEntry fill self entry createReadStream options = (self', Resolved e) ->
  cursor_tracks self self'.
Proof.
  unfold Class.addEntry.
  destruct (pendingEntry entry _ options); [|discriminate].
  destruct createReadStream as [createReadStream|].
  - apply addEntry_cursor_tracks. intros entry' write H e' _.
    invert_prepared H; repeat accounts_step.
  - destruct (queue self) as [[|e0|]|]; try discriminate.
    intros H. apply pair_equal_spec in H as [<- _].
    unfold cursor_tracks, pushed_bytes. cbn. lia.
Qed.

Lemma accounts_central_directory (records : list Entry.t) (work : Task unit) :
  accounts work ->
  accounts (foldl (fun work entry =>
                     _ <~ work ;;
                     record <~ lift (getCentralDirectoryRecord fill entry) ;;
                     writeBuffer record)
              work records).
Proof.
  revert work. induction records as [|entry rest IH]; intros work Hwork; cbn [foldl].
  - exact Hwork.
  - apply IH. apply accounts_tbind; [exact Hwork|]. intros _.
    repeat accounts_step.
Qed.

Lemma addCentralDirectoryRecord_cursor_tracks (self self' : Zip) (options : Options.t) :
  addCentralDirectoryRecord fill self options = (self', Resolved tt) ->
  cursor_tracks self self'.
Proof.
  unfold addCentralDirectoryRecord.
  destruct (queue self) eqn:Eq; [|discriminate].
  match goal with
  | |- context [match ?m with Ok _ => _ | Throw _ => _ end] => destruct m
  end; [|discriminate].
  apply enqueue_cursor_tracks. unfold addCentralDirectoryRecord_queued.
  apply accounts_tbind; [accounts_step|]. intros _.
  apply accounts_tbind; [accounts_step|]. intros s0.
  apply accounts_tbind.
  { apply accounts_central_directory, accounts_ret. }
  intros _. repeat accounts_step.
Qed.

Lemma forget_resolved {A} (r : Zip * Outcome A) (self' : Zip) :
  forget r = (self', Resolved tt) -> exists a, r = (self', Resolved a).
Proof.
  destruct r as [s [e|e|a|]]; unfold forget; cbn [fst snd]; intros H;
    apply pair_equal_spec in H as [<- H]; try discriminate.
  now exists a.
Qed.

(** Every call that resolves has advanced the cursor by exactly the bytes it
    pushed, unless it streams its data without compression. *)
Lemma step_cursor_tracks (self self' : Zip) (op : Op) :
  streams_stored op = false ->
  step fill crc32 deflateRaw createDeflateRaw now self op = (self', Resolved tt) ->
  cursor_tracks self self'.
Proof.
  destruct op; unfold step, streams_stored; intros Hstored H;
    try apply negb_false_iff in Hstored;
    try (apply forget_resolved in H as [a H]).
  - eapply addBuffer_cursor_tracks, H.
  - eapply addFile_cursor_tracks; [exact Hstored|exact H].
  - eapply addFileHandle_cursor_tracks; [exact Hstored|exact H].
  - eapply addReadStream_cursor_tracks; [exact Hstored|exact H].
  - eapply addDirectory_cursor_tracks, H.
  - eapply Class_addEntry_cursor_tracks, H.
  - eapply addCentralDirectoryRecord_cursor_tracks, H.
  - apply pair_equal_spec in H as [<- _].
    unfold end_, cursor_tracks, pushed_bytes. destruct (queue self) as [[|e|]|]; cbn; lia.
Qed.

End CursorFacts.

Section CursorSamples.
Import Zip Zip.Class Samples.

(** C9, evaluated. Adding the one-chunk stream ["foo"] as [a.txt] with
    [compress: false] resolves; the local header (55 bytes) and the data
    descriptor (24 bytes) are pushed, the three data bytes are not, and the
    cursor has advanced by 82. *)
Theorem stored_stream_cursor_runs_ahead :
  let r := addReadStream zero_fill crc32_ieee no_deflate 0 (new 0)
             {| chunks := [foo]; failure := None |} a_txt stored_options in
  is_Some (queue (fst r)) /\ errors (fst r) = []
  /\ (exists e, snd r = Resolved e)
  /\ map blen (pushed (fst r)) = [55; 24]
  /\ pushed_bytes (fst r) = 79
  /\ outputStreamCursor (fst r) = 82.
Proof.
  vm_compute. repeat split; eauto.
Qed.

(** The same call with a stream of sixteen chunks never settles. The local
    header has been pushed; no data descriptor follows, no entry is
    recorded and no error is emitted. The queue stays pending: the
    [addCentralDirectoryRecord] and the [end] made after it push nothing, and
    the output stream is never ended. *)
Lemma stored_stream_of_sixteen_chunks_stalls :
  let r := addReadStream zero_fill crc32_ieee no_deflate 0 (new 0)
             {| chunks := replicate 16 foo; failure := None |} a_txt stored_options in
  let s := run zero_fill crc32_ieee no_deflateRaw no_deflate 0 (fst r)
             [AddCentralDirectoryRecord Options.empty; End] in
  snd r = Unsettled
  /\ queue (fst r) = Some Pending
  /\ map blen (pushed (fst r)) = [55]
  /\ entries (fst r) = [] /\ errors (fst r) = []
  /\ snd (step zero_fill crc32_ieee no_deflateRaw no_deflate 0 (fst r)
            (AddCentralDirectoryRecord Options.empty)) = Unsettled
  /\ pushed s = pushed (fst r) /\ ended s = false.
Proof.
  vm_compute. repeat split.
Qed.

End CursorSamples.

(* ===================================================================== *)
(** * Further properties of the code *)
(* ===================================================================== *)

(** ** Slices and positioned reads *)
Section SliceFacts.
Import Read.

Lemma subarray_range (b : Buffer) (s e : Z) :
  0 <= s <= e -> e <= blen b ->
  subarray b s e = take (Z.to_nat (e - s)) (drop (Z.to_nat s) b).
Proof.
  intros Hs He. unfold subarray, clamp_index.
  destruct (Z.ltb_spec s 0); [lia|].
  destruct (Z.ltb_spec e 0); [lia|].
  now rewrite !Z.min_l by lia.
Qed.

Lemma subarray_middle (a b c : Buffer) :
  subarray (a ++ b ++ c) (blen a) (blen a + blen b) = b.
Proof.
  pose proof (blen_nonneg a). pose proof (blen_nonneg b). pose proof (blen_nonneg c).
  rewrite subarray_range by (rewrite ?blen_app; lia).
  unfold blen. rewrite Nat2Z.id.
  replace (Z.to_nat (Z.of_nat (length a) + Z.of_nat (length b) - Z.of_nat (length a)))
    with (length b) by lia.
  rewrite drop_app_length. apply take_app_length.
Qed.

Lemma subarray_prefix (a b : Buffer) : subarray (a ++ b) 0 (blen a) = a.
Proof.
  pose proof (subarray_middle [] a b) as H. cbn [app] in H.
  change (blen []) with 0 in H. now rewrite Z.add_0_l in H.
Qed.

Lemma subarray_from_suffix (a b : Buffer) : subarray_from (a ++ b) (blen a) = b.
Proof.
  pose proof (blen_nonneg a). pose proof (blen_nonneg b).
  rewrite subarray_from_drop by (rewrite blen_app; lia).
  unfold blen. rewrite Nat2Z.id. apply drop_app_length.
Qed.

(** A positioned read inside a buffer returns the bytes at that place. *)
Lemma read_buffer_middle (pre mid post : Buffer) :
  read (BufferHandle (pre ++ mid ++ post)) (blen pre) (blen mid) = Ok mid.
Proof.
  pose proof (blen_nonneg post).
  unfold read. rewrite !blen_app.
  destruct (Z.ltb_spec (blen pre + (blen mid + blen post)) (blen mid + blen pre)); [lia|].
  now rewrite subarray_middle.
Qed.

Lemma read_file_middle (filePosition : Z) (pre mid post : Buffer) :
  read (FileHandle filePosition (pre ++ mid ++ post)) (blen pre) (blen mid) = Ok mid.
Proof.
  pose proof (blen_nonneg pre).
  unfold read. destruct (Z.eqb_spec (blen mid) 0) as [E|E].
  - destruct mid; [reflexivity|]. unfold blen in E. cbn in E. lia.
  - destruct (Z.ltb_spec (blen pre) (-1)); [lia|].
    destruct (Z.eqb_spec (blen pre) (-1)); [lia|]. cbv zeta.
    replace (take (Z.to_nat (blen mid)) (drop (Z.to_nat (blen pre)) (pre ++ mid ++ post)))
      with mid.
    + now rewrite Z.ltb_irrefl.
    + unfold blen. rewrite !Nat2Z.id, drop_app_length. symmetry. apply take_app_length.
Qed.

Lemma read_middle (file : bool) (filePosition : Z) (pre mid post : Buffer) :
  read ((if file then FileHandle filePosition else BufferHandle) (pre ++ mid ++ post))
    (blen pre) (blen mid) = Ok mid.
Proof. destruct file; [apply read_file_middle|apply read_buffer_middle]. Qed.

(** Reading a field that sits in the middle of a buffer. *)
Lemma read_at (n : nat) (pre post : Buffer) (v off : Z) :
  0 <= v < 2 ^ (8 * Z.of_nat n) ->
  off = blen pre ->
  readUIntLE n (pre ++ le_encode n v ++ post) off = Ok v.
Proof.
  intros Hv ->. pose proof (blen_nonneg pre).
  rewrite app_assoc, read_in_prefix by (rewrite ?blen_app, ?blen_le_encode; lia).
  now apply read_last.
Qed.

End SliceFacts.


(** ** Extra fields *)
Section ExtraFieldFacts.
Import Write Read.

Variable fill : nat -> byte.

Lemma write_next_inv (n : nat) (pre rest b' : Buffer) (v off : Z) :
  off = blen pre -> (n <= length rest)%nat ->
  writeUIntLE n (pre ++ rest) v off = Ok b' ->
  0 <= v < 2 ^ (8 * Z.of_nat n) /\ b' = (pre ++ le_encode n v) ++ drop n rest.
Proof.
  intros Hoff Hn H. pose proof (write_ok_range _ _ _ _ _ H) as Hv.
  split; [exact Hv|]. rewrite write_next in H by assumption.
  now apply Ok_inj in H.
Qed.

(** What [serializeExtraFields] returns for a list, and when. *)
Lemma serializeExtraFields_list_cons (f : ExtraField) (rest : list ExtraField) (b : Buffer) :
  serializeExtraFields_list fill (f :: rest) = Ok b ->
  exists b',
    serializeExtraFields_list fill rest = Ok b'
    /\ b = (le_encode 2 (id f) ++ le_encode 2 (blen (data f))) ++ data f ++ b'
    /\ 0 <= id f < 65536 /\ blen (data f) < 65536.
Proof.
  cbn [serializeExtraFields_list]. unfold writeUInt16LE.
  change (allocUnsafe fill 4) with ([] ++ allocUnsafe fill 4).
  intros H.
  destruct (writeUIntLE 2 ([] ++ allocUnsafe fill 4) (id f) 0) as [h1|] eqn:E1;
    cbn [Js.bind] in H; [|discriminate].
  apply write_next_inv in E1 as [R1 ->];
    [|reflexivity|rewrite length_allocUnsafe; lia].
  destruct (writeUIntLE 2 _ (blen (data f)) 2) as [h2|] eqn:E2;
    cbn [Js.bind] in H; [|discriminate].
  apply write_next_inv in E2 as [R2 ->];
    [|blen_solve|rewrite length_drop, length_allocUnsafe; lia].
  destruct (serializeExtraFields_list fill rest) as [b'|]; cbn [Js.bind] in H; [|discriminate].
  apply Ok_inj in H. subst b. exists b'.
  change (drop 2 (drop 2 (allocUnsafe fill 4))) with (@nil byte).
  rewrite app_nil_r, limit2 in *. repeat split; lia.
Qed.

Lemma serializeExtraFields_list_ok (l : list ExtraField) :
  Forall (fun f => 0 <= id f < 65536 /\ blen (data f) < 65536) l ->
  is_ok (serializeExtraFields_list fill l) = true.
Proof.
  induction 1 as [|f rest [Hid Hsize] _ IH]; [reflexivity|].
  cbn [serializeExtraFields_list]. unfold writeUInt16LE.
  pose proof (blen_nonneg (data f)).
  change (allocUnsafe fill 4) with ([] ++ allocUnsafe fill 4).
  do 2 write_field.
  destruct (serializeExtraFields_list fill rest); [reflexivity|discriminate].
Qed.

(** Parsing the serialized form of a list of extra fields, wherever it lies
    in the buffer, gives the list back. *)
Lemma parseExtraFields_loop_serialized (l : list ExtraField) :
  forall (b pre post : Buffer) (fuel : nat),
    serializeExtraFields_list fill l = Ok b ->
    (length b <= fuel)%nat ->
    parseExtraFields_loop fuel (pre ++ b ++ post) (blen pre) (blen pre + blen b) = Ok l.
Proof.
  induction l as [|f rest IH]; intros b pre post fuel Hser Hfuel.
  - apply Ok_inj in Hser. subst b. change (blen []) with 0. rewrite Z.add_0_r.
    destruct fuel; cbn [parseExtraFields_loop]; now rewrite Z.ltb_irrefl.
  - apply serializeExtraFields_list_cons in Hser
      as (b' & Hrest & -> & Hid & Hsize).
    pose proof (blen_nonneg (data f)) as Hd0. pose proof (blen_nonneg b') as Hb0.
    pose proof (blen_nonneg pre) as Hp0.
    assert (Hlen : blen ((le_encode 2 (id f) ++ le_encode 2 (blen (data f))) ++ data f ++ b')
                   = 4 + blen (data f) + blen b')
      by (rewrite !blen_app, !blen_le_encode; lia).
    rewrite Hlen.
    destruct fuel as [|fuel].
    { exfalso. unfold blen in *. lia. }
    cbn [parseExtraFields_loop].
    destruct (Z.ltb_spec (blen pre) (blen pre + (4 + blen (data f) + blen b'))); [|lia].
    destruct (Z.ltb_spec (blen pre + (4 + blen (data f) + blen b') - blen pre) 4); [lia|].
    unfold readUInt16LE.
    rewrite <- !app_assoc.
    rewrite (read_at 2 pre _ (id f)) by (rewrite ?limit2; lia).
    cbn [Js.bind].
    replace (pre ++ le_encode 2 (id f) ++ le_encode 2 (blen (data f)) ++ data f ++ b' ++ post)
      with ((pre ++ le_encode 2 (id f)) ++ le_encode 2 (blen (data f)) ++ data f ++ b' ++ post)
      by now rewrite <- app_assoc.
    rewrite (read_at 2 _ _ (blen (data f)))
      by (rewrite ?limit2, ?blen_app, ?blen_le_encode; lia).
    cbn [Js.bind].
    destruct (Z.ltb_spec (blen pre + (4 + blen (data f) + blen b'))
                (blen pre + 4 + blen (data f))); [lia|].
    replace ((pre ++ le_encode 2 (id f)) ++ le_encode 2 (blen (data f)) ++ data f ++ b' ++ post)
      with ((pre ++ le_encode 2 (id f) ++ le_encode 2 (blen (data f)))
              ++ data f ++ (b' ++ post))
      by now rewrite <- !app_assoc.
    set (pre' := pre ++ le_encode 2 (id f) ++ le_encode 2 (blen (data f))).
    assert (Hpre' : blen pre' = blen pre + 4)
      by (unfold pre'; rewrite !blen_app, !blen_le_encode; lia).
    rewrite <- Hpre'.
    rewrite subarray_middle.
    replace (pre' ++ data f ++ b' ++ post) with ((pre' ++ data f) ++ b' ++ post)
      by now rewrite <- app_assoc.
    replace (blen pre' + blen (data f)) with (blen (pre' ++ data f))
      by now rewrite blen_app.
    replace (blen pre + (4 + blen (data f) + blen b'))
      with (blen (pre' ++ data f) + blen b')
      by (rewrite blen_app; lia).
    rewrite (IH b' (pre' ++ data f) post fuel Hrest).
    + cbn [Js.bind]. now destruct f.
    + unfold blen in *. lia.
Qed.

End ExtraFieldFacts.


Section ExtraFieldParseFacts.
Import Write Read.

Variable fill : nat -> byte.

Lemma le_decode_range (bs : list byte) : 0 <= le_decode bs < 2 ^ (8 * Z.of_nat (length bs)).
Proof.
  induction bs as [|b bs IH]; [cbn; lia|].
  cbn [le_decode length]. pose proof (byte_to_Z_range b).
  replace (2 ^ (8 * Z.of_nat (S (length bs)))) with (256 * 2 ^ (8 * Z.of_nat (length bs))).
  - nia.
  - rewrite Nat2Z.inj_succ, <- Z.add_1_r, Z.mul_add_distr_l, Z.pow_add_r by lia.
    change (2 ^ (8 * 1)) with 256. lia.
Qed.

Lemma le_encode_decode (bs : list byte) : le_encode (length bs) (le_decode bs) = bs.
Proof.
  induction bs as [|b bs IH]; [reflexivity|].
  cbn [le_decode length le_encode]. pose proof (byte_to_Z_range b).
  replace ((byte_to_Z b + 256 * le_decode bs) mod 256) with (byte_to_Z b)
    by (Z.div_mod_to_equations; lia).
  replace ((byte_to_Z b + 256 * le_decode bs) / 256) with (le_decode bs)
    by (Z.div_mod_to_equations; lia).
  now rewrite Z_to_byte_to_Z, IH.
Qed.

Lemma readUIntLE_ok (n : nat) (b : Buffer) (off v : Z) :
  readUIntLE n b off = Ok v ->
  0 <= off /\ off + Z.of_nat n <= blen b
  /\ 0 <= v < 2 ^ (8 * Z.of_nat n)
  /\ le_encode n v = subarray b off (off + Z.of_nat n).
Proof.
  unfold readUIntLE.
  destruct (Z.leb_spec 0 off) as [H0|]; [|discriminate].
  destruct (Z.leb_spec (off + Z.of_nat n) (blen b)) as [H1|]; [|discriminate].
  cbn [andb]. intros H. apply Ok_inj in H. subst v.
  assert (Hlen : length (take n (drop (Z.to_nat off) b)) = n).
  { rewrite length_take, length_drop. unfold blen in H1. lia. }
  pose proof (le_decode_range (take n (drop (Z.to_nat off) b))) as Hr.
  rewrite Hlen in Hr. repeat split; try lia.
  rewrite subarray_range by lia.
  replace (Z.to_nat (off + Z.of_nat n - off)) with n by lia.
  rewrite <- Hlen at 1. apply le_encode_decode.
Qed.

Lemma subarray_split (b : Buffer) (s m e : Z) :
  0 <= s <= m -> m <= e -> e <= blen b ->
  subarray b s m ++ subarray b m e = subarray b s e.
Proof.
  intros Hs Hm He. rewrite !subarray_range by lia.
  replace (Z.to_nat (e - s)) with (Z.to_nat (m - s) + Z.to_nat (e - m))%nat by lia.
  rewrite <- take_take_drop, drop_drop.
  do 3 f_equal. lia.
Qed.

Lemma blen_subarray (b : Buffer) (s e : Z) :
  0 <= s <= e -> e <= blen b -> blen (subarray b s e) = e - s.
Proof.
  intros Hs He. rewrite subarray_range by lia.
  unfold blen in *. rewrite length_take, length_drop. lia.
Qed.

(** A list that [parseExtraFields] returns serializes to the bytes it was
    parsed from. *)
Lemma parseExtraFields_loop_sound (fuel : nat) :
  forall (b : Buffer) (start end_ : Z) (l : list ExtraField),
    0 <= start <= end_ -> end_ <= blen b ->
    parseExtraFields_loop fuel b start end_ = Ok l ->
    serializeExtraFields_list fill l = Ok (subarray b start end_).
Proof.
  induction fuel as [|fuel IH]; intros b start end_ l Hs He; cbn [parseExtraFields_loop];
    destruct (Z.ltb_spec start end_) as [Hlt|Hge]; try discriminate.
  1, 3: intros H; apply Ok_inj in H; subst l; cbn [serializeExtraFields_list];
        rewrite subarray_range by lia;
        replace (Z.to_nat (end_ - start)) with 0%nat by lia; reflexivity.
  destruct (Z.ltb_spec (end_ - start) 4) as [|H4]; [discriminate|].
  unfold readUInt16LE.
  destruct (readUIntLE 2 b start) as [id|] eqn:Eid; cbn [Js.bind]; [|discriminate].
  destruct (readUIntLE 2 b (start + 2)) as [size|] eqn:Esize; cbn [Js.bind]; [|discriminate].
  apply readUIntLE_ok in Eid as (_ & _ & Hid & Eid).
  apply readUIntLE_ok in Esize as (_ & _ & Hsize & Esize).
  rewrite limit2 in *. change (Z.of_nat 2) with 2 in *.
  destruct (Z.ltb_spec end_ (start + 4 + size)) as [|Hfit]; [discriminate|].
  destruct (parseExtraFields_loop fuel b (start + 4 + size) end_) as [rest|] eqn:Erest;
    cbn [Js.bind]; [|discriminate].
  intros H. apply Ok_inj in H. subst l.
  apply IH in Erest; [|lia|lia].
  cbn [serializeExtraFields_list]. cbn [Write.id Write.data].
  unfold writeUInt16LE.
  rewrite blen_subarray by lia.
  replace (start + 4 + size - (start + 4)) with size by lia.
  change (allocUnsafe fill 4) with ([] ++ allocUnsafe fill 4).
  do 2 write_field.
  rewrite Erest. cbn [Js.bind]. f_equal.
  change (drop 2 (drop 2 (allocUnsafe fill 4))) with (@nil byte).
  rewrite app_nil_r. cbn [app]. rewrite Eid, Esize.
  replace (start + 2 + 2) with (start + 4) by lia.
  rewrite <- app_assoc.
  rewrite (subarray_split b (start + 4) (start + 4 + size) end_) by lia.
  rewrite (subarray_split b (start + 2) (start + 4) end_) by lia.
  apply subarray_split; lia.
Qed.

(** With [end - start] iterations allowed the loop always runs to its end:
    it returns, or it throws one of its two errors. *)
Lemma parseExtraFields_loop_settles (fuel : nat) :
  forall (b : Buffer) (start end_ : Z),
    0 <= start -> end_ <= blen b -> end_ - start <= Z.of_nat fuel ->
    (exists l, parseExtraFields_loop fuel b start end_ = Ok l)
    \/ parseExtraFields_loop fuel b start end_
       = Throw "extra field header exceeds extra field buffer size"
    \/ parseExtraFields_loop fuel b start end_
       = Throw "extra field length exceeds extra field buffer size".
Proof.
  induction fuel as [|fuel IH]; intros b start end_ Hs He Hfuel; cbn [parseExtraFields_loop];
    destruct (Z.ltb_spec start end_) as [Hlt|Hge]; eauto; [lia|].
  destruct (Z.ltb_spec (end_ - start) 4) as [|H4]; [auto|].
  unfold readUInt16LE.
  rewrite (readUIntLE_in_range 2 b start) by (change (Z.of_nat 2) with 2; lia).
  rewrite (readUIntLE_in_range 2 b (start + 2)) by (change (Z.of_nat 2) with 2; lia).
  cbn [Js.bind].
  set (size := le_decode (take 2 (drop (Z.to_nat (start + 2)) b))).
  assert (Hsize : 0 <= size) by apply le_decode_range.
  destruct (Z.ltb_spec end_ (start + 4 + size)) as [|Hfit]; [auto|].
  destruct (IH b (start + 4 + size) end_) as [[l Hl]|[Hl|Hl]]; try lia;
    rewrite Hl; cbn [Js.bind]; eauto.
Qed.

End ExtraFieldParseFacts.


Section ExtraFieldTheorems.
Import Write Read.

Variable fill : nat -> byte.

(** X1. A list of extra fields can be serialized exactly when every id and
    every data length fits in 16 bits, and parsing the serialized bytes,
    wherever they lie in a buffer, gives the list back. *)
Theorem extra_fields_roundtrip (l : list ExtraField) :
  (is_ok (serializeExtraFields fill (ExtraList l)) = true
   <-> Forall (fun f => 0 <= id f < 65536 /\ blen (data f) < 65536) l)
  /\ (forall b pre post,
         serializeExtraFields fill (ExtraList l) = Ok b ->
         parseExtraFields (pre ++ b ++ post) (blen pre) (blen pre + blen b) = Ok l).
Proof.
  split; [split|].
  - cbn [serializeExtraFields]. induction l as [|f rest IH]; intros H; [constructor|].
    destruct (serializeExtraFields_list fill (f :: rest)) as [b|] eqn:E; [|discriminate].
    apply serializeExtraFields_list_cons in E as (b' & Hrest & _ & Hid & Hsize).
    constructor; [auto|]. apply IH. now rewrite Hrest.
  - apply serializeExtraFields_list_ok.
  - intros b pre post H. unfold parseExtraFields.
    apply parseExtraFields_loop_serialized with (fill := fill); [exact H|].
    unfold blen. lia.
Qed.

(** X2. Between valid bounds [parseExtraFields] always settles: it throws
    one of its two errors, or it returns a list that serializes to exactly
    the bytes it was given. *)
Theorem parseExtraFields_settles (b : Buffer) (start end_ : Z) :
  0 <= start <= end_ -> end_ <= blen b ->
  (exists l, parseExtraFields b start end_ = Ok l
             /\ serializeExtraFields fill (ExtraList l) = Ok (subarray b start end_))
  \/ parseExtraFields b start end_
     = Throw "extra field header exceeds extra field buffer size"
  \/ parseExtraFields b start end_
     = Throw "extra field length exceeds extra field buffer size".
Proof.
  intros Hs He. unfold parseExtraFields.
  destruct (parseExtraFields_loop_settles (Z.to_nat (end_ - start)) b start end_)
    as [[l Hl]|[Hl|Hl]]; try lia; auto.
  left. exists l. split; [exact Hl|].
  cbn [serializeExtraFields].
  now apply parseExtraFields_loop_sound with (fuel := Z.to_nat (end_ - start)).
Qed.

End ExtraFieldTheorems.

Section ExtraFieldWitnesses.
Import Write Read.

Lemma parseExtraFields_settles_witness :
  (exists l, parseExtraFields [x01; x00; x02; x00; xaa; xbb] 0 6 = Ok l
             /\ serializeExtraFields zero_fill (ExtraList l)
                = Ok (subarray [x01; x00; x02; x00; xaa; xbb] 0 6))
  \/ parseExtraFields [x01; x00; x02; x00; xaa; xbb] 0 6
     = Throw "extra field header exceeds extra field buffer size"
  \/ parseExtraFields [x01; x00; x02; x00; xaa; xbb] 0 6
     = Throw "extra field length exceeds extra field buffer size".
Proof.
  apply (parseExtraFields_settles zero_fill [x01; x00; x02; x00; xaa; xbb] 0 6).
  - lia.
  - vm_compute. discriminate.
Defined.

Lemma extra_fields_roundtrip_witness :
  parseExtraFields ([x00] ++ [x55; x54; x02; x00; x01; x02] ++ [xff]) 1 7
  = Ok [{| id := 0x5455; data := [x01; x02] |}].
Proof.
  apply (proj2 (extra_fields_roundtrip zero_fill [{| id := 0x5455; data := [x01; x02] |}])
           [x55; x54; x02; x00; x01; x02] [x00] [xff]).
  vm_compute. reflexivity.
Defined.

End ExtraFieldWitnesses.


(** ** Headers written and read back *)

Lemma writeUIntLE_num_default (n : nat) (b : Buffer) (v : optnum) (off : Z) :
  writeUIntLE_num n b v off = writeUIntLE n b (default 0 v) off.
Proof. now destruct v. Qed.

Ltac write_inv H :=
  try rewrite writeUIntLE_num_default in H;
  match type of H with
  | Js.bind (writeUIntLE ?n (?pre ++ ?rest) ?v ?off) _ = Ok _ =>
      let E := fresh "E" in
      let R := fresh "R" in
      let b := fresh "b" in
      destruct (writeUIntLE n (pre ++ rest) v off) as [b|] eqn:E;
      cbn [Js.bind] in H; [|discriminate H];
      apply write_next_inv in E as [R ->]; [|blen_solve|rest_solve]
  end.

Section HeaderFacts.
Import Write.

Variable fill : nat -> byte.

(** The bytes of a serialized local file header. *)
Lemma serializeLocalFileHeader_inv (object : LocalFileHeader.t) (l : list ExtraField)
    (out : Buffer) :
  LocalFileHeader.extraFields object = ExtraList l ->
  serializeLocalFileHeader fill object = Ok out ->
  exists extra,
    serializeExtraFields_list fill l = Ok extra
    /\ out = (le_encode 4 0x04034b50
                ++ le_encode 2 (LocalFileHeader.versionNeededToExtract object)
                ++ le_encode 2 (LocalFileHeader.generalPurposeBitFlag object)
                ++ le_encode 2 (LocalFileHeader.compressionMethod object)
                ++ le_encode 2 (LocalFileHeader.fileLastModificationTime object)
                ++ le_encode 2 (LocalFileHeader.fileLastModificationDate object)
                ++ le_encode 4 (default 0 (LocalFileHeader.crc32 object))
                ++ le_encode 4 (default 0 (LocalFileHeader.compressedSize object))
                ++ le_encode 4 (default 0 (LocalFileHeader.uncompressedSize object))
                ++ le_encode 2 (blen (LocalFileHeader.fileName object))
                ++ le_encode 2 (blen extra))
               ++ LocalFileHeader.fileName object ++ extra
    /\ (0 <= LocalFileHeader.versionNeededToExtract object < 65536
        /\ 0 <= LocalFileHeader.generalPurposeBitFlag object < 65536
        /\ 0 <= LocalFileHeader.compressionMethod object < 65536
        /\ 0 <= LocalFileHeader.fileLastModificationTime object < 65536
        /\ 0 <= LocalFileHeader.fileLastModificationDate object < 65536)
    /\ (0 <= default 0 (LocalFileHeader.crc32 object) < 4294967296
        /\ 0 <= default 0 (LocalFileHeader.compressedSize object) < 4294967296
        /\ 0 <= default 0 (LocalFileHeader.uncompressedSize object) < 4294967296)
    /\ blen (LocalFileHeader.fileName object) < 65536
    /\ blen extra < 65536.
Proof.
  intros Hl H. unfold serializeLocalFileHeader in H. rewrite Hl in H.
  cbn [serializeExtraFields] in H.
  destruct (serializeExtraFields_list fill l) as [extra|]; cbn [Js.bind] in H; [|discriminate].
  exists extra. split; [reflexivity|].
  unfold writeUInt16LE, writeUInt32LE in H.
  change (allocUnsafe fill 30) with ([] ++ allocUnsafe fill 30) in H.
  do 11 write_inv H.
  apply Ok_inj in H. subst out.
  rewrite ?limit2, ?limit4 in *.
  repeat rewrite drop_drop.
  rewrite drop_ge by (rewrite length_allocUnsafe; lia).
  rewrite app_nil_r. cbn [app].
  split; [now rewrite <- !app_assoc|]. repeat split; lia.
Qed.

End HeaderFacts.


Section LocalHeaderFacts.
Import Write.

Variable fill : nat -> byte.

Lemma local_fixed_reads (v g m t d c cs us n e : Z) (fixed : Buffer) :
  fixed = le_encode 4 0x04034b50 ++ le_encode 2 v ++ le_encode 2 g ++ le_encode 2 m
            ++ le_encode 2 t ++ le_encode 2 d ++ le_encode 4 c ++ le_encode 4 cs
            ++ le_encode 4 us ++ le_encode 2 n ++ le_encode 2 e ->
  0 <= v < 65536 -> 0 <= g < 65536 -> 0 <= m < 65536 -> 0 <= t < 65536 ->
  0 <= d < 65536 -> 0 <= c < 4294967296 -> 0 <= cs < 4294967296 ->
  0 <= us < 4294967296 -> 0 <= n < 65536 -> 0 <= e < 65536 ->
  blen fixed = 30
  /\ readUInt32LE fixed 0 = Ok 0x04034b50
  /\ readUInt16LE fixed 4 = Ok v /\ readUInt16LE fixed 6 = Ok g
  /\ readUInt16LE fixed 8 = Ok m /\ readUInt16LE fixed 10 = Ok t
  /\ readUInt16LE fixed 12 = Ok d /\ readUInt32LE fixed 14 = Ok c
  /\ readUInt32LE fixed 18 = Ok cs /\ readUInt32LE fixed 22 = Ok us
  /\ readUInt16LE fixed 26 = Ok n /\ readUInt16LE fixed 28 = Ok e.
Proof.
  intros -> Hv Hg Hm Ht Hd Hc Hcs Hus Hn He.
  unfold readUInt16LE, readUInt32LE.
  split; [blen_solve|]. repeat split; read_field.
Qed.

Lemma parseExtraFields_after_name (l : list ExtraField) (extra name : Buffer) :
  serializeExtraFields_list fill l = Ok extra ->
  Read.parseExtraFields (name ++ extra) (blen name) (blen (name ++ extra)) = Ok l.
Proof.
  intros Hextra. unfold Read.parseExtraFields. rewrite blen_app.
  replace (name ++ extra) with (name ++ extra ++ []) by now rewrite app_nil_r.
  apply parseExtraFields_loop_serialized with (fill := fill); [exact Hextra|].
  unfold blen. lia.
Qed.

Lemma readLocalFileHeader_serialized (file : bool) (filePosition : Z) (object : LocalFileHeader.t)
    (l : list ExtraField) (out pre post : Buffer) :
  LocalFileHeader.extraFields object = ExtraList l ->
  serializeLocalFileHeader fill object = Ok out ->
  exists extra,
    serializeExtraFields fill (ExtraList l) = Ok extra
    /\ blen out = 30 + blen (LocalFileHeader.fileName object) + blen extra
    /\ Read.readLocalFileHeader
         ((if file then Read.FileHandle filePosition else Read.BufferHandle) (pre ++ out ++ post))
         (blen pre)
       = Ok {| Read.LocalFileHeader.versionNeededToExtract :=
                 LocalFileHeader.versionNeededToExtract object;
               Read.LocalFileHeader.generalPurposeBitFlag :=
                 LocalFileHeader.generalPurposeBitFlag object;
               Read.LocalFileHeader.compressionMethod :=
                 LocalFileHeader.compressionMethod object;
               Read.LocalFileHeader.fileLastModificationTime :=
                 LocalFileHeader.fileLastModificationTime object;
               Read.LocalFileHeader.fileLastModificationDate :=
                 LocalFileHeader.fileLastModificationDate object;
               Read.LocalFileHeader.crc32 := default 0 (LocalFileHeader.crc32 object);
               Read.LocalFileHeader.compressedSize :=
                 default 0 (LocalFileHeader.compressedSize object);
               Read.LocalFileHeader.uncompressedSize :=
                 default 0 (LocalFileHeader.uncompressedSize object);
               Read.LocalFileHeader.fileNameLength :=
                 blen (LocalFileHeader.fileName object);
               Read.LocalFileHeader.extraFieldsLength := blen extra;
               Read.LocalFileHeader.fileName := LocalFileHeader.fileName object;
               Read.LocalFileHeader.extraFields := l |}.
Proof.
  intros Hl Hser.
  destruct (serializeLocalFileHeader_inv fill object l out Hl Hser)
    as (extra & Hextra & -> & (Hv & Hg & Hm & Ht & Hd) & (Hc & Hcs & Hus) & Hn & He).
  exists extra. split; [exact Hextra|].
  pose proof (blen_nonneg (LocalFileHeader.fileName object)) as Hn0.
  pose proof (blen_nonneg extra) as He0.
  match goal with
  | |- context [(?f ++ LocalFileHeader.fileName object ++ extra)] => set (fixed := f)
  end.
  destruct (local_fixed_reads _ _ _ _ _ _ _ _ _ _ fixed eq_refl Hv Hg Hm Ht Hd Hc Hcs Hus
              (conj Hn0 Hn) (conj He0 He))
    as (Hlen & Rsig & Rv & Rg & Rm & Rt & Rd & Rc & Rcs & Rus & Rn & Re).
  split; [rewrite !blen_app; lia|].
  set (name := LocalFileHeader.fileName object) in *.
  unfold Read.readLocalFileHeader.
  replace (pre ++ (fixed ++ name ++ extra) ++ post)
    with (pre ++ fixed ++ (name ++ extra) ++ post) by now rewrite <- !app_assoc.
  rewrite <- Hlen at 1. rewrite (read_middle file filePosition pre fixed). cbn [Js.bind].
  rewrite Rsig. cbn [Js.bind]. change (0x04034b50 =? 0x04034b50) with true. cbn [negb].
  rewrite Rn, Re. cbn [Js.bind].
  replace (pre ++ fixed ++ (name ++ extra) ++ post)
    with ((pre ++ fixed) ++ (name ++ extra) ++ post) by now rewrite <- !app_assoc.
  replace (blen pre + 30) with (blen (pre ++ fixed)) by (rewrite blen_app; lia).
  replace (blen name + blen extra) with (blen (name ++ extra)) by now rewrite blen_app.
  rewrite (read_middle file filePosition (pre ++ fixed) (name ++ extra)). cbn [Js.bind].
  rewrite Rv, Rg, Rm, Rt, Rd, Rc, Rcs, Rus. cbn [Js.bind].
  rewrite (parseExtraFields_after_name l extra name Hextra).
  cbn [Js.bind]. now rewrite subarray_prefix.
Qed.

End LocalHeaderFacts.


Section CentralHeaderFacts.
Import Write.

Variable fill : nat -> byte.

(** The bytes of a serialized central directory file header. *)
Lemma serializeCentralDirectoryFileHeader_inv (object : CentralDirectoryFileHeader.t)
    (l : list ExtraField) (out : Buffer) :
  CentralDirectoryFileHeader.extraFields object = ExtraList l ->
  serializeCentralDirectoryFileHeader fill object = Ok out ->
  exists extra,
    serializeExtraFields_list fill l = Ok extra
    /\ out = (le_encode 4 0x02014b50
                ++ le_encode 2 (CentralDirectoryFileHeader.versionMadeBy object)
                ++ le_encode 2 (CentralDirectoryFileHeader.versionNeededToExtract object)
                ++ le_encode 2 (CentralDirectoryFileHeader.generalPurposeBitFlag object)
                ++ le_encode 2 (CentralDirectoryFileHeader.compressionMethod object)
                ++ le_encode 2 (CentralDirectoryFileHeader.fileLastModificationTime object)
                ++ le_encode 2 (CentralDirectoryFileHeader.fileLastModificationDate object)
                ++ le_encode 4 (default 0 (CentralDirectoryFileHeader.crc32 object))
                ++ le_encode 4 (default 0 (CentralDirectoryFileHeader.compressedSize object))
                ++ le_encode 4 (default 0 (CentralDirectoryFileHeader.uncompressedSize object))
                ++ le_encode 2 (blen (CentralDirectoryFileHeader.fileName object))
                ++ le_encode 2 (blen extra)
                ++ le_encode 2 (blen (CentralDirectoryFileHeader.comment object))
                ++ le_encode 2 (CentralDirectoryFileHeader.diskNumberStart object)
                ++ le_encode 2 (CentralDirectoryFileHeader.internalFileAttributes object)
                ++ le_encode 4 (CentralDirectoryFileHeader.externalFileAttributes object)
                ++ le_encode 4
                     (default 0
                        (CentralDirectoryFileHeader.relativeOffsetOfLocalHeader object)))
               ++ CentralDirectoryFileHeader.fileName object ++ extra
               ++ CentralDirectoryFileHeader.comment object
    /\ (0 <= CentralDirectoryFileHeader.versionMadeBy object < 65536
        /\ 0 <= CentralDirectoryFileHeader.versionNeededToExtract object < 65536
        /\ 0 <= CentralDirectoryFileHeader.generalPurposeBitFlag object < 65536
        /\ 0 <= CentralDirectoryFileHeader.compressionMethod object < 65536
        /\ 0 <= CentralDirectoryFileHeader.fileLastModificationTime object < 65536
        /\ 0 <= CentralDirectoryFileHeader.fileLastModificationDate object < 65536)
    /\ (0 <= default 0 (CentralDirectoryFileHeader.crc32 object) < 4294967296
        /\ 0 <= default 0 (CentralDirectoryFileHeader.compressedSize object) < 4294967296
        /\ 0 <= default 0 (CentralDirectoryFileHeader.uncompressedSize object) < 4294967296)
    /\ (blen (CentralDirectoryFileHeader.fileName object) < 65536
        /\ blen extra < 65536
        /\ blen (CentralDirectoryFileHeader.comment object) < 65536)
    /\ (0 <= CentralDirectoryFileHeader.diskNumberStart object < 65536
        /\ 0 <= CentralDirectoryFileHeader.internalFileAttributes object < 65536
        /\ 0 <= CentralDirectoryFileHeader.externalFileAttributes object < 4294967296
        /\ 0 <= default 0 (CentralDirectoryFileHeader.relativeOffsetOfLocalHeader object)
           < 4294967296).
Proof.
  intros Hl H. unfold serializeCentralDirectoryFileHeader in H. rewrite Hl in H.
  cbn [serializeExtraFields] in H.
  destruct (serializeExtraFields_list fill l) as [extra|]; cbn [Js.bind] in H; [|discriminate].
  exists extra. split; [reflexivity|].
  unfold writeUInt16LE, writeUInt32LE in H.
  change (allocUnsafe fill 46) with ([] ++ allocUnsafe fill 46) in H.
  do 17 write_inv H.
  apply Ok_inj in H. subst out.
  rewrite ?limit2, ?limit4 in *.
  repeat rewrite drop_drop.
  rewrite drop_ge by (rewrite length_allocUnsafe; lia).
  rewrite app_nil_r. cbn [app].
  split; [now rewrite <- !app_assoc|]. repeat split; lia.
Qed.

Lemma central_fixed_reads (vm v g m t d c cs us n e k dn ia ea off : Z) (fixed : Buffer) :
  fixed = le_encode 4 0x02014b50 ++ le_encode 2 vm ++ le_encode 2 v ++ le_encode 2 g
            ++ le_encode 2 m ++ le_encode 2 t ++ le_encode 2 d ++ le_encode 4 c
            ++ le_encode 4 cs ++ le_encode 4 us ++ le_encode 2 n ++ le_encode 2 e
            ++ le_encode 2 k ++ le_encode 2 dn ++ le_encode 2 ia ++ le_encode 4 ea
            ++ le_encode 4 off ->
  (0 <= vm < 65536 /\ 0 <= v < 65536 /\ 0 <= g < 65536 /\ 0 <= m < 65536
   /\ 0 <= t < 65536 /\ 0 <= d < 65536) ->
  (0 <= c < 4294967296 /\ 0 <= cs < 4294967296 /\ 0 <= us < 4294967296) ->
  (0 <= n < 65536 /\ 0 <= e < 65536 /\ 0 <= k < 65536) ->
  (0 <= dn < 65536 /\ 0 <= ia < 65536 /\ 0 <= ea < 4294967296 /\ 0 <= off < 4294967296) ->
  blen fixed = 46
  /\ readUInt32LE fixed 0 = Ok 0x02014b50
  /\ (readUInt16LE fixed 4 = Ok vm /\ readUInt16LE fixed 6 = Ok v
      /\ readUInt16LE fixed 8 = Ok g /\ readUInt16LE fixed 10 = Ok m
      /\ readUInt16LE fixed 12 = Ok t /\ readUInt16LE fixed 14 = Ok d)
  /\ (readUInt32LE fixed 16 = Ok c /\ readUInt32LE fixed 20 = Ok cs
      /\ readUInt32LE fixed 24 = Ok us)
  /\ (readUInt16LE fixed 28 = Ok n /\ readUInt16LE fixed 30 = Ok e
      /\ readUInt16LE fixed 32 = Ok k)
  /\ (readUInt16LE fixed 34 = Ok dn /\ readUInt16LE fixed 36 = Ok ia
      /\ readUInt32LE fixed 38 = Ok ea /\ readUInt32LE fixed 42 = Ok off).
Proof.
  intros -> (Hvm & Hv & Hg & Hm & Ht & Hd) (Hc & Hcs & Hus) (Hn & He & Hk)
    (Hdn & Hia & Hea & Hoff).
  unfold readUInt16LE, readUInt32LE.
  split; [blen_solve|]. repeat split; read_field.
Qed.

Lemma readCentralDirectoryFileHeader_serialized (file : bool) (filePosition : Z)
    (object : CentralDirectoryFileHeader.t) (l : list ExtraField)
    (out pre post : Buffer) :
  CentralDirectoryFileHeader.extraFields object = ExtraList l ->
  serializeCentralDirectoryFileHeader fill object = Ok out ->
  exists extra,
    serializeExtraFields fill (ExtraList l) = Ok extra
    /\ blen out = 46 + blen (CentralDirectoryFileHeader.fileName object) + blen extra
                  + blen (CentralDirectoryFileHeader.comment object)
    /\ Read.readCentralDirectoryFileHeader
         ((if file then Read.FileHandle filePosition else Read.BufferHandle) (pre ++ out ++ post))
         (blen pre)
       = Ok {| Read.CentralDirectoryFileHeader.versionMadeBy :=
                 CentralDirectoryFileHeader.versionMadeBy object;
               Read.CentralDirectoryFileHeader.versionNeededToExtract :=
                 CentralDirectoryFileHeader.versionNeededToExtract object;
               Read.CentralDirectoryFileHeader.generalPurposeBitFlag :=
                 CentralDirectoryFileHeader.generalPurposeBitFlag object;
               Read.CentralDirectoryFileHeader.compressionMethod :=
                 CentralDirectoryFileHeader.compressionMethod object;
               Read.CentralDirectoryFileHeader.fileLastModificationTime :=
                 CentralDirectoryFileHeader.fileLastModificationTime object;
               Read.CentralDirectoryFileHeader.fileLastModificationDate :=
                 CentralDirectoryFileHeader.fileLastModificationDate object;
               Read.CentralDirectoryFileHeader.crc32 :=
                 default 0 (CentralDirectoryFileHeader.crc32 object);
               Read.CentralDirectoryFileHeader.compressedSize :=
                 default 0 (CentralDirectoryFileHeader.compressedSize object);
               Read.CentralDirectoryFileHeader.uncompressedSize :=
                 default 0 (CentralDirectoryFileHeader.uncompressedSize object);
               Read.CentralDirectoryFileHeader.fileNameLength :=
                 blen (CentralDirectoryFileHeader.fileName object);
               Read.CentralDirectoryFileHeader.extraFieldsLength := blen extra;
               Read.CentralDirectoryFileHeader.commentLength :=
                 blen (CentralDirectoryFileHeader.comment object);
               Read.CentralDirectoryFileHeader.diskNumberStart :=
                 CentralDirectoryFileHeader.diskNumberStart object;
               Read.CentralDirectoryFileHeader.internalFileAttributes :=
                 CentralDirectoryFileHeader.internalFileAttributes object;
               Read.CentralDirectoryFileHeader.externalFileAttributes :=
                 CentralDirectoryFileHeader.externalFileAttributes object;
               Read.CentralDirectoryFileHeader.relativeOffsetOfLocalHeader :=
                 default 0 (CentralDirectoryFileHeader.relativeOffsetOfLocalHeader object);
               Read.CentralDirectoryFileHeader.fileName :=
                 CentralDirectoryFileHeader.fileName object;
               Read.CentralDirectoryFileHeader.extraFields := l;
               Read.CentralDirectoryFileHeader.comment :=
                 CentralDirectoryFileHeader.comment object |}.
Proof.
  intros Hl Hser.
  destruct (serializeCentralDirectoryFileHeader_inv object l out Hl Hser)
    as (extra & Hextra & -> & H16 & H32 & (Hn & He & Hk) & Hrest).
  exists extra. split; [exact Hextra|].
  pose proof (blen_nonneg (CentralDirectoryFileHeader.fileName object)) as Hn0.
  pose proof (blen_nonneg extra) as He0.
  pose proof (blen_nonneg (CentralDirectoryFileHeader.comment object)) as Hk0.
  match goal with
  | |- context [(?f ++ CentralDirectoryFileHeader.fileName object ++ extra
                   ++ CentralDirectoryFileHeader.comment object)] => set (fixed := f)
  end.
  destruct (central_fixed_reads _ _ _ _ _ _ _ _ _ _ _ _ _ _ _ _ fixed eq_refl H16 H32
              (conj (conj Hn0 Hn) (conj (conj He0 He) (conj Hk0 Hk))) Hrest)
    as (Hlen & Rsig & (Rvm & Rv & Rg & Rm & Rt & Rd) & (Rc & Rcs & Rus)
        & (Rn & Re & Rk) & (Rdn & Ria & Rea & Roff)).
  split; [rewrite !blen_app; lia|].
  set (name := CentralDirectoryFileHeader.fileName object) in *.
  set (comment := CentralDirectoryFileHeader.comment object) in *.
  unfold Read.readCentralDirectoryFileHeader.
  replace (pre ++ (fixed ++ name ++ extra ++ comment) ++ post)
    with (pre ++ fixed ++ (name ++ extra ++ comment) ++ post) by now rewrite <- !app_assoc.
  rewrite <- Hlen at 1. rewrite (read_middle file filePosition pre fixed). cbn [Js.bind].
  rewrite Rsig. cbn [Js.bind]. change (0x02014b50 =? 0x02014b50) with true. cbn [negb].
  rewrite Rn, Re, Rk. cbn [Js.bind].
  replace (pre ++ fixed ++ (name ++ extra ++ comment) ++ post)
    with ((pre ++ fixed) ++ (name ++ extra ++ comment) ++ post) by now rewrite <- !app_assoc.
  replace (blen pre + 46) with (blen (pre ++ fixed)) by (rewrite blen_app; lia).
  replace (blen name + blen extra + blen comment) with (blen (name ++ extra ++ comment))
    by (rewrite !blen_app; lia).
  rewrite (read_middle file filePosition (pre ++ fixed) (name ++ extra ++ comment)). cbn [Js.bind].
  rewrite Rvm, Rv, Rg, Rm, Rt, Rd, Rc, Rcs, Rus, Rdn, Ria, Rea, Roff. cbn [Js.bind].
  unfold Read.parseExtraFields.
  rewrite (parseExtraFields_loop_serialized fill l extra name comment _ Hextra)
    by (unfold blen; lia).
  cbn [Js.bind]. rewrite subarray_prefix.
  replace (blen name + blen extra) with (blen (name ++ extra)) by now rewrite blen_app.
  rewrite app_assoc, subarray_from_suffix. reflexivity.
Qed.

End CentralHeaderFacts.


Section TrailingRecordFacts.
Import Write.

Variable fill : nat -> byte.

Lemma serializeDataDescriptor_inv (object : DataDescriptor.t) (out : Buffer) :
  serializeDataDescriptor fill object = Ok out ->
  exists cs us,
    DataDescriptor.compressedSize object = Some cs
    /\ DataDescriptor.uncompressedSize object = Some us
    /\ out = le_encode 4 0x08074b50 ++ le_encode 4 (default 0 (DataDescriptor.crc32 object))
               ++ le_encode 8 cs ++ le_encode 8 us
    /\ 0 <= default 0 (DataDescriptor.crc32 object) < 4294967296
    /\ 0 <= cs < 2 ^ 64 /\ 0 <= us < 2 ^ 64.
Proof.
  unfold serializeDataDescriptor.
  destruct (DataDescriptor.compressedSize object) as [cs|]; [|discriminate].
  destruct (DataDescriptor.uncompressedSize object) as [us|]; [|discriminate].
  intros H. exists cs, us. do 2 (split; [reflexivity|]).
  unfold writeUInt32LE, writeBigUInt64LE in H.
  change (allocUnsafe fill 24) with ([] ++ allocUnsafe fill 24) in H.
  do 4 write_inv H.
  apply Ok_inj in H. subst out.
  rewrite ?limit4, ?limit8 in *.
  repeat rewrite drop_drop.
  rewrite drop_ge by (rewrite length_allocUnsafe; lia).
  rewrite app_nil_r. cbn [app].
  split; [now rewrite <- !app_assoc|]. repeat split; lia.
Qed.

Lemma readDataDescriptor_serialized (file : bool) (filePosition : Z) (object : DataDescriptor.t)
    (out pre post : Buffer) :
  serializeDataDescriptor fill object = Ok out ->
  exists cs us,
    DataDescriptor.compressedSize object = Some cs
    /\ DataDescriptor.uncompressedSize object = Some us
    /\ blen out = 24
    /\ Read.readDataDescriptor
         ((if file then Read.FileHandle filePosition else Read.BufferHandle) (pre ++ out ++ post))
         (blen pre) true
       = Ok {| Read.DataDescriptor.crc32 := default 0 (DataDescriptor.crc32 object);
               Read.DataDescriptor.compressedSize := cs;
               Read.DataDescriptor.uncompressedSize := us |}.
Proof.
  intros H. apply serializeDataDescriptor_inv in H
    as (cs & us & Hcs & Hus & -> & Rc & Rcs & Rus).
  exists cs, us. do 2 (split; [assumption|]).
  match goal with |- blen ?o = _ /\ _ => set (out := o) end.
  assert (Hlen : blen out = 24) by (unfold out; blen_solve).
  split; [exact Hlen|].
  unfold Read.readDataDescriptor.
  rewrite <- Hlen at 1. rewrite (read_middle file filePosition pre out). cbn [Js.bind].
  assert (Rsig : readUInt32LE out 0 = Ok 0x08074b50)
    by (unfold out, readUInt32LE; read_field).
  assert (R4 : readUInt32LE out 4 = Ok (default 0 (DataDescriptor.crc32 object)))
    by (unfold out, readUInt32LE; read_field).
  assert (R8 : readBigUInt64LE out 8 = Ok cs)
    by (unfold out, readBigUInt64LE; read_field).
  assert (R16 : readBigUInt64LE out 16 = Ok us)
    by (unfold out, readBigUInt64LE; read_field).
  rewrite Rsig. cbn [Js.bind]. change (0x08074b50 =? 0x08074b50) with true. cbn [negb].
  now rewrite R4, R8, R16.
Qed.

(** The bytes of a serialized end of central directory record: the word at
    offset 20 is never written. *)
Lemma serializeEndOfCentralDirectoryRecord_inv (object : EndOfCentralDirectoryRecord.t)
    (out : Buffer) :
  serializeEndOfCentralDirectoryRecord fill object = Ok out ->
  out = (le_encode 4 0x06054b50
           ++ le_encode 2 (EndOfCentralDirectoryRecord.diskNumber object)
           ++ le_encode 2 (EndOfCentralDirectoryRecord.centralDirectoryDiskNumber object)
           ++ le_encode 2 (EndOfCentralDirectoryRecord.numberOfEntriesOnDisk object)
           ++ le_encode 2 (EndOfCentralDirectoryRecord.numberOfEntries object)
           ++ le_encode 4 (EndOfCentralDirectoryRecord.sizeOfCentralDirectory object)
           ++ le_encode 4 (EndOfCentralDirectoryRecord.centralDirectoryOffset object)
           ++ [fill 20%nat; fill 21%nat])
          ++ EndOfCentralDirectoryRecord.comment object
  /\ (0 <= EndOfCentralDirectoryRecord.diskNumber object < 65536
      /\ 0 <= EndOfCentralDirectoryRecord.centralDirectoryDiskNumber object < 65536
      /\ 0 <= EndOfCentralDirectoryRecord.numberOfEntriesOnDisk object < 65536
      /\ 0 <= EndOfCentralDirectoryRecord.numberOfEntries object < 65536)
  /\ 0 <= EndOfCentralDirectoryRecord.sizeOfCentralDirectory object < 4294967296
  /\ 0 <= EndOfCentralDirectoryRecord.centralDirectoryOffset object < 4294967296.
Proof.
  unfold serializeEndOfCentralDirectoryRecord, writeUInt16LE, writeUInt32LE. intros H.
  change (allocUnsafe fill 22) with ([] ++ allocUnsafe fill 22) in H.
  do 7 write_inv H.
  apply Ok_inj in H. subst out.
  rewrite ?limit2, ?limit4 in *.
  repeat rewrite drop_drop.
  change (drop _ (allocUnsafe fill 22)) with [fill 20%nat; fill 21%nat].
  cbn [app]. split; [now rewrite <- !app_assoc|]. repeat split; lia.
Qed.

Lemma le_encode_2_bytes (b0 b1 : byte) : le_encode 2 (le_decode [b0; b1]) = [b0; b1].
Proof. apply (le_encode_decode [b0; b1]). Qed.

Lemma readEndOfCentralDirectoryRecord_serialized (file : bool) (filePosition : Z)
    (object : EndOfCentralDirectoryRecord.t) (out pre post : Buffer) :
  serializeEndOfCentralDirectoryRecord fill object = Ok out ->
  blen out = 22 + blen (EndOfCentralDirectoryRecord.comment object)
  /\ readUInt16LE out 20 = Ok (le_decode [fill 20%nat; fill 21%nat])
  /\ (le_decode [fill 20%nat; fill 21%nat] = blen (EndOfCentralDirectoryRecord.comment object) ->
      Read.readEndOfCentralDirectoryRecord
        ((if file then Read.FileHandle filePosition else Read.BufferHandle) (pre ++ out ++ post))
        (blen pre)
      = Ok {| Read.EndOfCentralDirectoryRecord.diskNumber :=
                EndOfCentralDirectoryRecord.diskNumber object;
              Read.EndOfCentralDirectoryRecord.centralDirectoryDiskNumber :=
                EndOfCentralDirectoryRecord.centralDirectoryDiskNumber object;
              Read.EndOfCentralDirectoryRecord.numberOfEntriesOnDisk :=
                EndOfCentralDirectoryRecord.numberOfEntriesOnDisk object;
              Read.EndOfCentralDirectoryRecord.numberOfEntries :=
                EndOfCentralDirectoryRecord.numberOfEntries object;
              Read.EndOfCentralDirectoryRecord.sizeOfCentralDirectory :=
                EndOfCentralDirectoryRecord.sizeOfCentralDirectory object;
              Read.EndOfCentralDirectoryRecord.centralDirectoryOffset :=
                EndOfCentralDirectoryRecord.centralDirectoryOffset object;
              Read.EndOfCentralDirectoryRecord.commentLength :=
                blen (EndOfCentralDirectoryRecord.comment object);
              Read.EndOfCentralDirectoryRecord.comment :=
                EndOfCentralDirectoryRecord.comment object |}).
Proof.
  intros H. apply serializeEndOfCentralDirectoryRecord_inv in H
    as (-> & (Hd & Hcd & Hn1 & Hn2) & Hsize & Hoff).
  set (comment := EndOfCentralDirectoryRecord.comment object).
  pose proof (le_decode_range [fill 20%nat; fill 21%nat]) as Hg.
  cbn [length] in Hg. rewrite limit2 in Hg.
  set (g := le_decode [fill 20%nat; fill 21%nat]) in *.
  replace [fill 20%nat; fill 21%nat] with (le_encode 2 g) by apply le_encode_2_bytes.
  match goal with |- blen (?f ++ comment) = _ /\ _ => set (fixed := f) end.
  assert (Hlen : blen fixed = 22) by (unfold fixed; blen_solve).
  assert (R20 : readUInt16LE fixed 20 = Ok g)
    by (unfold fixed, readUInt16LE; read_field).
  split; [rewrite blen_app; lia|].
  split.
  { unfold readUInt16LE in *. rewrite read_in_prefix by lia. exact R20. }
  intros Hgc.
  unfold Read.readEndOfCentralDirectoryRecord.
  replace (pre ++ (fixed ++ comment) ++ post) with (pre ++ fixed ++ comment ++ post)
    by now rewrite <- !app_assoc.
  rewrite <- Hlen at 1. rewrite (read_middle file filePosition pre fixed). cbn [Js.bind].
  assert (Rsig : readUInt32LE fixed 0 = Ok 0x06054b50)
    by (unfold fixed, readUInt32LE; read_field).
  rewrite Rsig. cbn [Js.bind]. change (0x06054b50 =? 0x06054b50) with true. cbn [negb].
  rewrite R20. cbn [Js.bind]. rewrite Hgc.
  replace (pre ++ fixed ++ comment ++ post) with ((pre ++ fixed) ++ comment ++ post)
    by now rewrite <- !app_assoc.
  replace (blen pre + 22) with (blen (pre ++ fixed)) by (rewrite blen_app; lia).
  rewrite (read_middle file filePosition (pre ++ fixed) comment). cbn [Js.bind].
  assert (R4 : readUInt16LE fixed 4 = Ok (EndOfCentralDirectoryRecord.diskNumber object))
    by (unfold fixed, readUInt16LE; read_field).
  assert (R6 : readUInt16LE fixed 6
               = Ok (EndOfCentralDirectoryRecord.centralDirectoryDiskNumber object))
    by (unfold fixed, readUInt16LE; read_field).
  assert (R8 : readUInt16LE fixed 8
               = Ok (EndOfCentralDirectoryRecord.numberOfEntriesOnDisk object))
    by (unfold fixed, readUInt16LE; read_field).
  assert (R10 : readUInt16LE fixed 10 = Ok (EndOfCentralDirectoryRecord.numberOfEntries object))
    by (unfold fixed, readUInt16LE; read_field).
  assert (R12 : readUInt32LE fixed 12
                = Ok (EndOfCentralDirectoryRecord.sizeOfCentralDirectory object))
    by (unfold fixed, readUInt32LE; read_field).
  assert (R16 : readUInt32LE fixed 16
                = Ok (EndOfCentralDirectoryRecord.centralDirectoryOffset object))
    by (unfold fixed, readUInt32LE; read_field).
  now rewrite R4, R6, R8, R10, R12, R16.
Qed.

End TrailingRecordFacts.


Section Zip64RecordFacts.
Import Write.

Variable fill : nat -> byte.

(** A read never returns more bytes than were asked for. *)
Lemma read_at_most (handle : Read.Handle) (position length : Z) (b : Buffer) :
  0 <= length -> Read.read handle position length = Ok b -> blen b <= length.
Proof.
  intros Hl. unfold Read.read. destruct handle as [buffer|filePosition content].
  - destruct (Z.ltb_spec (blen buffer) (length + position)) as [|Hfit]; [discriminate|].
    intros H. apply Ok_inj in H. subst b.
    unfold subarray, clamp_index, blen in *. rewrite length_take, length_drop.
    etransitivity; [apply inj_le, Nat.le_min_l|].
    destruct (Z.ltb_spec position 0), (Z.ltb_spec (position + length) 0); lia.
  - destruct (Z.eqb_spec length 0);
      [intros H; apply Ok_inj in H; subst b; change (blen []) with 0; lia|].
    destruct (Z.ltb_spec position (-1)); [discriminate|]. cbv zeta.
    match goal with
    | |- context [if ?c then _ else Ok _] =>
        destruct c; [destruct (_ <? position); discriminate|]
    end.
    intros Hb. apply Ok_inj in Hb. subst b.
    unfold blen. rewrite length_take. lia.
Qed.

Lemma readZip64EndOfCentralDirectoryRecord_throws (handle : Read.Handle) (offset : Z) :
  is_ok (Read.readZip64EndOfCentralDirectoryRecord handle offset) = false.
Proof.
  unfold Read.readZip64EndOfCentralDirectoryRecord.
  destruct (Read.read handle offset 54) as [buffer|] eqn:Eread; cbn [Js.bind is_ok];
    [|reflexivity].
  apply read_at_most in Eread; [|lia].
  assert (Hlast : readBigUInt64LE buffer 48 = Throw "ERR_OUT_OF_RANGE: offset").
  { unfold readBigUInt64LE, readUIntLE. change (Z.of_nat 8) with 8.
    destruct (Z.leb_spec (48 + 8) (blen buffer)); [lia|].
    now rewrite andb_false_r. }
  rewrite Hlast.
  repeat match goal with
         | |- is_ok (if ?c then _ else _) = false => destruct c; [reflexivity|]
         | |- is_ok (Js.bind ?m _) = false =>
             destruct m; cbn [Js.bind is_ok]; [|reflexivity]
         end.
  reflexivity.
Qed.

Lemma serializeZip64EndOfCentralDirectoryLocator_inv
    (object : Zip64EndOfCentralDirectoryLocator.t) (out : Buffer) :
  serializeZip64EndOfCentralDirectoryLocator fill object = Ok out ->
  out = le_encode 4 0x07064b50
          ++ le_encode 4
               (Zip64EndOfCentralDirectoryLocator.zip64EndOfCentralDirectoryRecordDiskNumber
                  object)
          ++ le_encode 8
               (Zip64EndOfCentralDirectoryLocator.zip64EndOfCentralDirectoryRecordOffset
                  object)
          ++ le_encode 4 (Zip64EndOfCentralDirectoryLocator.diskCount object)
  /\ 0 <= Zip64EndOfCentralDirectoryLocator.zip64EndOfCentralDirectoryRecordDiskNumber object
     < 4294967296
  /\ 0 <= Zip64EndOfCentralDirectoryLocator.zip64EndOfCentralDirectoryRecordOffset object
     < 2 ^ 64
  /\ 0 <= Zip64EndOfCentralDirectoryLocator.diskCount object < 4294967296.
Proof.
  unfold serializeZip64EndOfCentralDirectoryLocator, writeUInt32LE, writeBigUInt64LE.
  intros H.
  change (allocUnsafe fill 20) with ([] ++ allocUnsafe fill 20) in H.
  do 4 write_inv H.
  apply Ok_inj in H. subst out.
  rewrite ?limit4, ?limit8 in *.
  repeat rewrite drop_drop.
  rewrite drop_ge by (rewrite length_allocUnsafe; lia).
  rewrite app_nil_r. cbn [app].
  split; [now rewrite <- !app_assoc|]. repeat split; lia.
Qed.

Lemma readZip64EndOfCentralDirectoryLocator_serialized (file : bool) (filePosition : Z)
    (object : Zip64EndOfCentralDirectoryLocator.t) (out pre post : Buffer) :
  serializeZip64EndOfCentralDirectoryLocator fill object = Ok out ->
  blen out = 20
  /\ Read.readZip64EndOfCentralDirectoryLocator
       ((if file then Read.FileHandle filePosition else Read.BufferHandle) (pre ++ out ++ post))
       (blen pre)
     = Ok {| Read.Zip64EndOfCentralDirectoryLocator.zip64EndOfCentralDirectoryRecordDiskNumber :=
               Zip64EndOfCentralDirectoryLocator.zip64EndOfCentralDirectoryRecordDiskNumber
                 object;
             Read.Zip64EndOfCentralDirectoryLocator.zip64EndOfCentralDirectoryRecordOffset :=
               Zip64EndOfCentralDirectoryLocator.zip64EndOfCentralDirectoryRecordOffset object;
             Read.Zip64EndOfCentralDirectoryLocator.diskCount :=
               Zip64EndOfCentralDirectoryLocator.diskCount object |}.
Proof.
  intros H. apply serializeZip64EndOfCentralDirectoryLocator_inv in H
    as (-> & Rd & Ro & Rc).
  match goal with |- blen ?o = _ /\ _ => set (out := o) end.
  assert (Hlen : blen out = 20) by (unfold out; blen_solve).
  split; [exact Hlen|].
  unfold Read.readZip64EndOfCentralDirectoryLocator.
  rewrite <- Hlen at 1. rewrite (read_middle file filePosition pre out). cbn [Js.bind].
  assert (Rsig : readUInt32LE out 0 = Ok 0x07064b50)
    by (unfold out, readUInt32LE; read_field).
  assert (R4 : readUInt32LE out 4
               = Ok (Zip64EndOfCentralDirectoryLocator.zip64EndOfCentralDirectoryRecordDiskNumber
                       object))
    by (unfold out, readUInt32LE; read_field).
  assert (R8 : readBigUInt64LE out 8
               = Ok (Zip64EndOfCentralDirectoryLocator.zip64EndOfCentralDirectoryRecordOffset
                       object))
    by (unfold out, readBigUInt64LE; read_field).
  assert (R16 : readUInt32LE out 16 = Ok (Zip64EndOfCentralDirectoryLocator.diskCount object))
    by (unfold out, readUInt32LE; read_field).
  rewrite Rsig. cbn [Js.bind]. change (0x07064b50 =? 0x07064b50) with true. cbn [negb].
  now rewrite R4, R8, R16.
Qed.

End Zip64RecordFacts.


(** ** Code page 437 on whole buffers and strings *)
Section Cp437BufferFacts.
Import Cp437.

Lemma cp437_length : length cp437 = 256%nat.
Proof. reflexivity. Qed.

Lemma buf_get_middle (pre rest : Buffer) (b : byte) :
  buf_get (pre ++ b :: rest) (blen pre) = Some b.
Proof.
  unfold buf_get, blen. destruct (Z.ltb_spec (Z.of_nat (length pre)) 0); [lia|].
  rewrite Nat2Z.id. apply list_lookup_middle. reflexivity.
Qed.

(** Decoding maps every byte to its character of the table. *)
Lemma decodeCp437_range_map (buffer pre : Buffer) :
  decodeCp437_range (pre ++ buffer) (blen pre) (blen pre + blen buffer)
  = map (fun b => default 0 (cp437 !! Z.to_nat (byte_to_Z b))) buffer.
Proof.
  revert pre. induction buffer as [|b rest IH]; intros pre; unfold decodeCp437_range.
  - change (blen []) with 0. now replace (blen pre + 0 - blen pre) with 0 by lia.
  - replace (blen pre + blen (b :: rest) - blen pre) with (blen (b :: rest)) by lia.
    pose proof (blen_nonneg rest) as Hr.
    assert (Hlen : blen (b :: rest) = blen rest + 1) by (unfold blen; cbn [length]; lia).
    rewrite seqZ_cons by lia. cbn [flat_map].
    rewrite buf_get_middle.
    pose proof (byte_to_Z_range b) as Hb.
    assert (Hsome : is_Some (cp437 !! Z.to_nat (byte_to_Z b))).
    { apply lookup_lt_is_Some_2. rewrite cp437_length. lia. }
    destruct Hsome as [c Hc].
    cbn [map]. rewrite Hc. change (default 0 (Some c)) with c. cbn [app].
    f_equal.
    specialize (IH (pre ++ [b])). unfold decodeCp437_range in IH.
    rewrite <- app_assoc in IH. cbn [app] in IH.
    rewrite blen_app in IH. change (blen [b]) with 1 in IH.
    replace (blen pre + 1 + blen rest - (blen pre + 1)) with (blen rest) in IH by lia.
    replace (Z.succ (blen pre)) with (blen pre + 1) by lia.
    replace (Z.pred (blen (b :: rest))) with (blen rest) by lia.
    exact IH.
Qed.

Lemma decodeCp437_map (buffer : Buffer) :
  decodeCp437 buffer = map (fun b => default 0 (cp437 !! Z.to_nat (byte_to_Z b))) buffer.
Proof.
  unfold decodeCp437, decodeCp437_from.
  pose proof (decodeCp437_range_map buffer []) as H. cbn [app] in H.
  change (blen []) with 0 in H. now rewrite Z.add_0_l in H.
Qed.

(** The table has no character twice: looking a byte's character up in the
    reverse table gives the byte. *)
Lemma reverseCp437_of_char (b : byte) :
  reverseCp437 !! default 0 (cp437 !! Z.to_nat (byte_to_Z b)) = Some (byte_to_Z b).
Proof. destruct b; vm_compute; reflexivity. Qed.

Lemma printable_char_is_byte (b : byte) :
  let c := default 0 (cp437 !! Z.to_nat (byte_to_Z b)) in
  (0x20 <=? c) && (c <=? 0x7e) = true -> Z_to_byte c = b.
Proof. destruct b; vm_compute; intros H; first [reflexivity | discriminate H]. Qed.

Lemma encodeCp437_slow_decoded (buffer : Buffer) :
  encodeCp437_slow (map (fun b => default 0 (cp437 !! Z.to_nat (byte_to_Z b))) buffer)
  = Ok buffer.
Proof.
  induction buffer as [|b rest IH]; [reflexivity|].
  cbn [map encodeCp437_slow]. rewrite reverseCp437_of_char, IH. cbn [Js.bind].
  now rewrite Z_to_byte_to_Z.
Qed.

(** What the reverse table holds comes from the table. *)
Lemma reverse_fold_lookup (l : list (nat * Z)) :
  forall (m : gmap Z Z) (c v : Z),
    fold_left (fun m ic => <[ic.2 := Z.of_nat ic.1]> m) l m !! c = Some v ->
    m !! c = Some v \/ exists i, (i, c) ∈ l /\ v = Z.of_nat i.
Proof.
  induction l as [|[i c'] l IH]; intros m c v H; cbn [fold_left] in H; [now left|].
  apply IH in H as [H|(j & Hj & ->)].
  - cbn [fst snd] in H. destruct (decide (c' = c)) as [->|Hne].
    + rewrite lookup_insert_eq in H. apply (inj Some) in H. subst v.
      right. exists i. split; [left|reflexivity].
    + rewrite lookup_insert_ne in H by exact Hne. now left.
  - right. exists j. split; [now right|reflexivity].
Qed.

Lemma reverse_fold_is_Some (l : list (nat * Z)) :
  forall (m : gmap Z Z) (c : Z),
    is_Some (m !! c) \/ (exists i, (i, c) ∈ l) ->
    is_Some (fold_left (fun m ic => <[ic.2 := Z.of_nat ic.1]> m) l m !! c).
Proof.
  induction l as [|[i c'] l IH]; intros m c H; cbn [fold_left].
  - destruct H as [H|(i & Hi)]; [exact H|]. now apply elem_of_nil in Hi.
  - apply IH. cbn [fst snd]. destruct (decide (c' = c)) as [->|Hne].
    + left. rewrite lookup_insert_eq. eauto.
    + rewrite lookup_insert_ne by exact Hne.
      destruct H as [H|(j & Hj)]; [now left|].
      apply elem_of_cons in Hj as [Hj|Hj]; [congruence|]. right. eauto.
Qed.

Lemma reverseCp437_Some (c v : Z) :
  reverseCp437 !! c = Some v ->
  exists i, cp437 !! i = Some c /\ v = Z.of_nat i /\ (i < 256)%nat.
Proof.
  unfold reverseCp437. intros H.
  apply reverse_fold_lookup in H as [H|(i & Hi & ->)].
  - now rewrite lookup_empty in H.
  - apply elem_of_lookup_imap_1 in Hi as (j & y & Hpair & Hj).
    injection Hpair as -> ->. exists j. split; [exact Hj|]. split; [reflexivity|].
    apply lookup_lt_Some in Hj. now rewrite cp437_length in Hj.
Qed.

Lemma reverseCp437_is_Some (c : Z) : c ∈ cp437 -> is_Some (reverseCp437 !! c).
Proof.
  intros Hc. apply list_elem_of_lookup in Hc as [i Hi].
  unfold reverseCp437. apply reverse_fold_is_Some. right. exists i.
  now apply (elem_of_lookup_imap_2 pair cp437 c i).
Qed.

Lemma ascii_char_in_table (c : Z) :
  0x20 <= c <= 0x7e -> cp437 !! Z.to_nat c = Some c.
Proof.
  intros Hc.
  assert (H : forall n : nat, (n < 95)%nat ->
                cp437 !! (32 + n)%nat = Some (32 + Z.of_nat n)).
  { intros n Hn. do 95 (destruct n as [|n]; [reflexivity|]). lia. }
  specialize (H (Z.to_nat (c - 32))).
  replace (32 + Z.to_nat (c - 32))%nat with (Z.to_nat c) in H by lia.
  replace (32 + Z.of_nat (Z.to_nat (c - 32))) with c in H by lia.
  apply H. lia.
Qed.

Lemma encodeCp437_slow_sound (s : jsstring) :
  forall b, encodeCp437_slow s = Ok b ->
            map (fun b => default 0 (cp437 !! Z.to_nat (byte_to_Z b))) b = s.
Proof.
  induction s as [|c rest IH]; intros b H; cbn [encodeCp437_slow] in H.
  - apply Ok_inj in H. now subst b.
  - destruct (reverseCp437 !! c) as [v|] eqn:Ev; [|discriminate].
    destruct (encodeCp437_slow rest) as [b'|]; cbn [Js.bind] in H; [|discriminate].
    apply Ok_inj in H. subst b. cbn [map]. rewrite (IH b' eq_refl). f_equal.
    apply reverseCp437_Some in Ev as (i & Hi & -> & Hlt).
    rewrite byte_to_Z_to_byte by lia. now rewrite Nat2Z.id, Hi.
Qed.

Lemma encodeCp437_slow_ok (s : jsstring) :
  is_ok (encodeCp437_slow s) = true <-> Forall (fun c => c ∈ cp437) s.
Proof.
  induction s as [|c rest IH]; cbn [encodeCp437_slow].
  - split; [constructor|reflexivity].
  - split.
    + destruct (reverseCp437 !! c) as [v|] eqn:Ev; [|discriminate].
      destruct (encodeCp437_slow rest) as [b'|]; cbn [Js.bind]; [|discriminate].
      intros _. constructor; [|now apply IH].
      apply reverseCp437_Some in Ev as (i & Hi & _). eapply list_elem_of_lookup_2, Hi.
    + intros H. apply Forall_cons in H as [Hc Hrest].
      destruct (reverseCp437_is_Some c Hc) as [v ->].
      apply IH in Hrest. destruct (encodeCp437_slow rest); [reflexivity|discriminate].
Qed.

Lemma printable_ascii_in_table (s : jsstring) :
  is_printable_ascii s = true -> Forall (fun c => c ∈ cp437) s.
Proof.
  unfold is_printable_ascii. intros H. apply Forall_forall. intros c Hc.
  rewrite forallb_forall in H. apply list_elem_of_In in Hc. specialize (H c Hc).
  apply andb_prop in H as [Hlo Hhi]. apply Z.leb_le in Hlo, Hhi.
  eapply list_elem_of_lookup_2, ascii_char_in_table. lia.
Qed.

Lemma printable_ascii_decodes (s : jsstring) :
  is_printable_ascii s = true ->
  map (fun b => default 0 (cp437 !! Z.to_nat (byte_to_Z b))) (map Z_to_byte s) = s.
Proof.
  unfold is_printable_ascii. induction s as [|c rest IH]; [reflexivity|].
  cbn [forallb map]. intros H. apply andb_prop in H as [Hc Hrest].
  apply andb_prop in Hc as [Hlo Hhi]. apply Z.leb_le in Hlo, Hhi.
  rewrite IH by exact Hrest. f_equal.
  rewrite byte_to_Z_to_byte by lia. now rewrite ascii_char_in_table by lia.
Qed.

End Cp437BufferFacts.


(** ** DOS words for arbitrary dates *)
Section DosWordFacts.
Import Zip.

Lemma bitand_ones (x k : Z) :
  0 <= k <= 30 -> bitand x (Z.ones k) = x mod 2 ^ k /\ 0 <= x mod 2 ^ k < 2 ^ k.
Proof.
  intros Hk. unfold bitand.
  assert (Hpos : 0 < 2 ^ k) by (apply Z.pow_pos_nonneg; lia).
  assert (Hle : 2 ^ k <= 2 ^ 30) by (apply Z.pow_le_mono_r; lia).
  change (2 ^ 30) with 1073741824 in Hle.
  rewrite (ToInt32_small (Z.ones k))
    by (rewrite Z.ones_equiv; change (2 ^ 31) with 2147483648; lia).
  rewrite Z.land_ones by lia.
  split; [|apply Z.mod_pos_bound; lia].
  unfold ToInt32.
  assert (Hdiv : 2 ^ 32 = 2 ^ (32 - k) * 2 ^ k)
    by (rewrite <- Z.pow_add_r by lia; f_equal; lia).
  rewrite (Z.mod_eq (x + 2 ^ 31) (2 ^ 32)) by lia.
  set (q := (x + 2 ^ 31) / 2 ^ 32).
  replace (x + 2 ^ 31 - 2 ^ 32 * q - 2 ^ 31) with (x + (- q * 2 ^ (32 - k)) * 2 ^ k)
    by (rewrite Hdiv; ring).
  apply Z.mod_add. lia.
Qed.

Lemma dateToDosDateTime_words (t : Date) :
  date (dateToDosDateTime t)
  = getUTCDate t + (getUTCMonth t + 1) * 32 + ((getUTCFullYear t - 1980) mod 128) * 512
  /\ time (dateToDosDateTime t)
     = getUTCSeconds t / 2 + getUTCMinutes t * 32 + getUTCHours t * 2048
  /\ 0 <= date (dateToDosDateTime t) < 65536
  /\ 0 <= time (dateToDosDateTime t) < 65536.
Proof.
  unfold dateToDosDateTime. cbn [date time].
  pose proof (DateFromDay_range (Day t)) as Hd.
  pose proof (MonthFromDay_range (Day t)) as Hm.
  fold (getUTCDate t) in Hd. fold (getUTCMonth t) in Hm.
  assert (Hs : 0 <= getUTCSeconds t < 60) by (unfold getUTCSeconds; apply Z.mod_pos_bound; lia).
  assert (Hmi : 0 <= getUTCMinutes t < 60) by (unfold getUTCMinutes; apply Z.mod_pos_bound; lia).
  assert (Hh : 0 <= getUTCHours t < 24) by (unfold getUTCHours; apply Z.mod_pos_bound; lia).
  change 0x1f with (Z.ones 5). change 0xf with (Z.ones 4).
  change 0x7f with (Z.ones 7). change 0x3f with (Z.ones 6).
  destruct (bitand_ones (getUTCDate t) 5) as [-> _]; [lia|].
  destruct (bitand_ones (getUTCMonth t + 1) 4) as [-> _]; [lia|].
  destruct (bitand_ones (getUTCFullYear t - 1980) 7) as [-> Hy]; [lia|].
  destruct (bitand_ones (getUTCMinutes t) 6) as [-> _]; [lia|].
  destruct (bitand_ones (getUTCHours t) 5) as [-> _]; [lia|].
  change (2 ^ 5) with 32 in *. change (2 ^ 4) with 16 in *.
  change (2 ^ 7) with 128 in *. change (2 ^ 6) with 64 in *.
  rewrite (Z.mod_small (getUTCDate t)) by lia.
  rewrite (Z.mod_small (getUTCMonth t + 1)) by lia.
  rewrite (Z.mod_small (getUTCMinutes t)) by lia.
  rewrite (Z.mod_small (getUTCHours t)) by lia.
  assert (Hs2 : 0 <= getUTCSeconds t / 2 < 30) by (Z.div_mod_to_equations; lia).
  assert (Hdate := pack3 (getUTCDate t) (getUTCMonth t + 1)
                     ((getUTCFullYear t - 1980) mod 128) 5 9).
  assert (Htime := pack3 (getUTCSeconds t / 2) (getUTCMinutes t) (getUTCHours t) 5 11).
  change (2 ^ (9 - 5)) with 16 in Hdate. change (2 ^ (16 - 9)) with 128 in Hdate.
  change (2 ^ (11 - 5)) with 64 in Htime. change (2 ^ (16 - 11)) with 32 in Htime.
  change (2 ^ 5) with 32 in *.
  destruct Hdate as (Hdate & _ & Hdr); [lia ..|].
  destruct Htime as (Htime & _ & Htr); [lia ..|].
  rewrite Hdate, Htime.
  change (2 ^ 5) with 32 in *. change (2 ^ 9) with 512 in *.
  change (2 ^ 11) with 2048 in *. change (2 ^ 16) with 65536 in *.
  repeat split; lia.
Qed.

End DosWordFacts.


(** ** Entry names and entries *)
Section PathFacts.
Import Zip.

Lemma drive_letter_test (l : jsstring) :
  match l with
  | c :: 58 :: _ => is_ascii_letter c
  | _ => false
  end
  = match l with
    | c :: d :: _ => (d =? 58) && is_ascii_letter c
    | _ => false
    end.
Proof.
  destruct l as [|c [|d r]]; try reflexivity.
  destruct (Z.eqb_spec d 58) as [->|Hne]; [reflexivity|].
  destruct d as [|p|p]; try reflexivity.
  do 6 (destruct p as [p|p|]; try reflexivity). all: exfalso; apply Hne; reflexivity.
Qed.

Lemma leading_slash_test (l : jsstring) :
  match l with
  | 47 :: _ => true
  | _ => false
  end
  = match l with
    | c :: _ => c =? 47
    | [] => false
    end.
Proof.
  destruct l as [|c r]; [reflexivity|].
  destruct (Z.eqb_spec c 47) as [->|Hne]; [reflexivity|].
  destruct c as [|p|p]; try reflexivity.
  do 6 (destruct p as [p|p|]; try reflexivity). all: exfalso; apply Hne; reflexivity.
Qed.

Lemma trailing_slash_test (o : option Z) :
  match o with
  | Some 47 => true
  | _ => false
  end
  = bool_decide (o = Some 47).
Proof.
  destruct o as [c|]; [|reflexivity].
  destruct (decide (c = 47)) as [->|Hne]; [reflexivity|].
  rewrite bool_decide_eq_false_2 by congruence.
  destruct c as [|p|p]; try reflexivity.
  do 6 (destruct p as [p|p|]; try reflexivity). all: exfalso; apply Hne; reflexivity.
Qed.

Lemma split_slash_nonempty (l : jsstring) : split_slash l <> [].
Proof.
  induction l as [|c l IH]; cbn [split_slash]; [discriminate|].
  destruct (c =? 47); [discriminate|]. now destruct (split_slash l).
Qed.

Lemma split_slash_snoc (l : jsstring) : split_slash (l ++ [47]) = split_slash l ++ [[]].
Proof.
  induction l as [|c l IH]; [reflexivity|].
  cbn [app split_slash]. rewrite IH.
  destruct (c =? 47); [reflexivity|].
  pose proof (split_slash_nonempty l). now destruct (split_slash l).
Qed.

Lemma existsb_dotdot (segments : list jsstring) :
  existsb (jsstring_eqb [46; 46]) segments = false <-> [46; 46] ∉ segments.
Proof.
  induction segments as [|s r IH]; cbn [existsb].
  - split; [intros _ H; now apply elem_of_nil in H|reflexivity].
  - rewrite orb_false_iff, IH, not_elem_of_cons. unfold jsstring_eqb.
    rewrite bool_decide_eq_false. tauto.
Qed.

Lemma map_unslash (l : jsstring) :
  Forall (fun c => c <> 92) l -> map (fun c => if c =? 92 then 47 else c) l = l.
Proof.
  induction 1 as [|c l Hc _ IH]; [reflexivity|].
  cbn [map]. rewrite IH. now destruct (Z.eqb_spec c 92).
Qed.

Lemma unslashed (l : jsstring) :
  Forall (fun c => c <> 92) (map (fun c => if c =? 92 then 47 else c) l).
Proof.
  apply Forall_forall. intros c Hc. apply list_elem_of_fmap in Hc as (d & -> & _).
  destruct (Z.eqb_spec d 92); lia.
Qed.

Lemma sanitizeMetadataPath_sound (p q : jsstring) (isDirectory : bool) :
  sanitizeMetadataPath p isDirectory = Ok q ->
  q <> []
  /\ Forall (fun c => c <> 92) q
  /\ head q <> Some 47
  /\ (forall c rest, q = c :: 58 :: rest -> is_ascii_letter c = false)
  /\ ([46; 46] ∉ split_slash q)
  /\ (last q = Some 47 <-> isDirectory = true)
  /\ sanitizeMetadataPath q isDirectory = Ok q.
Proof.
  unfold sanitizeMetadataPath at 1.
  unfold jsstring_eqb at 1. destruct (decide (p = [])) as [|Hp];
    [rewrite bool_decide_eq_true_2 by assumption; discriminate|].
  rewrite bool_decide_eq_false_2 by assumption.
  pose proof (unslashed p) as Hun.
  set (p' := map (fun c => if c =? 92 then 47 else c) p) in *.
  assert (Hp' : p' <> []) by (subst p'; destruct p; [congruence|discriminate]).
  rewrite drive_letter_test, leading_slash_test, trailing_slash_test.
  destruct (_ || _) eqn:Eabs; [discriminate|].
  apply orb_false_iff in Eabs as [Edrive Eslash].
  destruct (existsb _ _) eqn:Edots; [discriminate|].
  apply existsb_dotdot in Edots.
  assert (Hgoal : forall q, q <> [] -> Forall (fun c => c <> 92) q ->
            (match q with c :: d :: _ => (d =? 58) && is_ascii_letter c | _ => false end)
            = false ->
            (match q with c :: _ => c =? 47 | [] => false end) = false ->
            [46; 46] ∉ split_slash q ->
            (last q = Some 47 <-> isDirectory = true) ->
            q <> [] /\ Forall (fun c => c <> 92) q /\ head q <> Some 47
            /\ (forall c rest, q = c :: 58 :: rest -> is_ascii_letter c = false)
            /\ ([46; 46] ∉ split_slash q)
            /\ (last q = Some 47 <-> isDirectory = true)
            /\ sanitizeMetadataPath q isDirectory = Ok q).
  { intros r Hr Hr92 Hrd Hrs Hrdots Hrlast.
    split; [exact Hr|]. split; [exact Hr92|].
    split.
    { destruct r as [|c r']; [congruence|]. cbn [head]. intros [= ->]. discriminate. }
    split.
    { intros c rest ->. now rewrite Z.eqb_refl in Hrd. }
    split; [exact Hrdots|]. split; [exact Hrlast|].
    unfold sanitizeMetadataPath. unfold jsstring_eqb at 1.
    rewrite bool_decide_eq_false_2 by assumption.
    rewrite map_unslash by assumption.
    rewrite drive_letter_test, leading_slash_test, trailing_slash_test.
    rewrite Hrd, Hrs. cbn [orb].
    apply existsb_dotdot in Hrdots. rewrite Hrdots.
    destruct isDirectory.
    - rewrite bool_decide_eq_true_2 by now apply Hrlast. reflexivity.
    - rewrite bool_decide_eq_false_2; [reflexivity|].
      intros H. apply Hrlast in H. discriminate. }
  destruct isDirectory.
  - destruct (bool_decide (last p' = Some 47)) eqn:Elast; cbn [negb].
    + intros H. apply Ok_inj in H. subst q. apply bool_decide_eq_true in Elast.
      apply Hgoal; auto. tauto.
    + intros H. apply Ok_inj in H. subst q.
      apply Hgoal.
      * now destruct p'.
      * apply Forall_app. split; [exact Hun|]. repeat constructor. lia.
      * destruct p' as [|c [|d r]]; [congruence|reflexivity|exact Edrive].
      * destruct p' as [|c r]; [congruence|exact Eslash].
      * rewrite split_slash_snoc. rewrite not_elem_of_app. split; [exact Edots|].
        intros H. apply list_elem_of_singleton in H. discriminate.
      * rewrite last_snoc. tauto.
  - destruct (bool_decide (last p' = Some 47)) eqn:Elast; [discriminate|].
    intros H. apply Ok_inj in H. subst q. apply bool_decide_eq_false in Elast.
    apply Hgoal; auto. split; [contradiction|discriminate].
Qed.

End PathFacts.


Section CreateEntryFacts.
Import Zip.

Variable now : Date.

Lemma mode_test (mode : Z) :
  (bitand mode 0xffff =? mode) = true <-> 0 <= mode < 65536.
Proof.
  change 0xffff with (Z.ones 16).
  destruct (bitand_ones mode 16) as [-> Hr]; [lia|].
  change (2 ^ 16) with 65536 in *. rewrite Z.eqb_eq.
  split; [intros <-; exact Hr|intros H; now apply Z.mod_small].
Qed.

Lemma ToInt32_mod (z : Z) : ToInt32 z mod 2 ^ 32 = z mod 2 ^ 32.
Proof.
  unfold ToInt32. rewrite (Z.mod_eq (z + 2 ^ 31) (2 ^ 32)) by lia.
  replace (z + 2 ^ 31 - 2 ^ 32 * ((z + 2 ^ 31) / 2 ^ 32) - 2 ^ 31)
    with (z + (- ((z + 2 ^ 31) / 2 ^ 32)) * 2 ^ 32) by ring.
  apply Z.mod_add. lia.
Qed.

Lemma mode_attributes (mode : Z) :
  0 <= mode < 65536 -> shr (shl mode 16) 0 = mode * 65536.
Proof.
  intros Hm. unfold shr, shl, ToUint32.
  change (0 mod 32) with 0. change (16 mod 32) with 16.
  rewrite Z.shiftr_0_r, ToInt32_mod.
  rewrite (ToInt32_small mode) by (change (2 ^ 31) with 2147483648; lia).
  rewrite Z.shiftl_mul_pow2 by lia. change (2 ^ 16) with 65536.
  apply Z.mod_small. change (2 ^ 32) with 4294967296. lia.
Qed.

Lemma createEntry_sound (options : CreateEntryOptions.t) :
  (is_ok (createEntry now options) = true
   <-> blen (Buffer_from_string (CreateEntryOptions.fileName options)) <= 0xffff
       /\ 0 <= CreateEntryOptions.mode options <= 0xffff
       /\ blen (Buffer_from (CreateEntryOptions.comment options)) <= 0xffff)
  /\ (forall entry,
         createEntry now options = Ok entry ->
         Entry.fileName entry = Buffer_from_string (CreateEntryOptions.fileName options)
         /\ Entry.comment entry = Buffer_from (CreateEntryOptions.comment options)
         /\ Entry.externalFileAttributes entry = CreateEntryOptions.mode options * 65536
         /\ 0 <= Entry.lastModFileTime entry < 65536
         /\ 0 <= Entry.lastModFileDate entry < 65536
         /\ Entry.compressionMethod entry
            = (if CreateEntryOptions.compress options then 8 else 0)
         /\ (Entry.crcAndFileSizeKnown entry = true
             <-> is_Some (CreateEntryOptions.crc32 options)
                 /\ is_Some (CreateEntryOptions.uncompressedSize options)
                 /\ is_Some (CreateEntryOptions.compressedSize options))
         /\ Entry.relativeOffsetOfLocalHeader entry = None).
Proof.
  unfold createEntry.
  destruct (Z.ltb_spec 0xffff (blen (Buffer_from_string (CreateEntryOptions.fileName options))))
    as [Hname|Hname].
  { split; [split; [discriminate|lia]|discriminate]. }
  destruct (bitand (CreateEntryOptions.mode options) 0xffff =? CreateEntryOptions.mode options)
    eqn:Emode; cbn [negb].
  2: { split; [split; [discriminate|]|discriminate].
       intros (_ & Hm & _). apply Bool.not_true_iff_false in Emode.
       exfalso. apply Emode, mode_test. lia. }
  apply mode_test in Emode.
  destruct (Z.ltb_spec 0xffff (blen (Buffer_from (CreateEntryOptions.comment options))))
    as [Hcomment|Hcomment].
  { split; [split; [discriminate|lia]|discriminate]. }
  split; [split; [lia|reflexivity]|].
  intros entry H. apply Ok_inj in H. subst entry.
  cbn [Entry.fileName Entry.comment Entry.externalFileAttributes Entry.lastModFileTime
       Entry.lastModFileDate Entry.compressionMethod Entry.crcAndFileSizeKnown
       Entry.relativeOffsetOfLocalHeader].
  destruct (dateToDosDateTime_words
              (default now (CreateEntryOptions.mtime options))) as (_ & _ & Hd & Ht).
  repeat split; try tauto; try lia.
  - now apply mode_attributes.
  - rewrite !andb_true_iff, !bool_decide_eq_true in H. tauto.
  - rewrite !andb_true_iff, !bool_decide_eq_true in H. tauto.
  - rewrite !andb_true_iff, !bool_decide_eq_true in H. tauto.
  - intros (H1 & H2 & H3). rewrite !andb_true_iff, !bool_decide_eq_true. repeat split; assumption.
Qed.

End CreateEntryFacts.


(** ** The writer after a failure *)
Section FailureFacts.
Import Zip Zip.Class.

Variable fill : nat -> byte.
Variable crc32 : Buffer -> Z -> Z.
Variable deflateRaw : Buffer -> result Buffer.
Variable createDeflateRaw : Run -> Run.
Variable now : Date.

Lemma enqueue_inert {A} (self : Zip) (work : Task A) :
  queue self <> Some Fulfilled ->
  pushed (fst (enqueue self work)) = pushed self
  /\ ended (fst (enqueue self work)) = ended self
  /\ entries (fst (enqueue self work)) = entries self
  /\ outputStreamCursor (fst (enqueue self work)) = outputStreamCursor self
  /\ queue (fst (enqueue self work)) = queue self
  /\ (forall a, snd (enqueue self work) <> Resolved a).
Proof.
  intros Hq. unfold enqueue. destruct (queue self) as [[|e|]|] eqn:Eq; [congruence| | |];
    cbn [fst snd pushed ended entries outputStreamCursor queue emit_error_and_destroy];
    rewrite ?Eq; repeat split; discriminate.
Qed.

Lemma step_inert (self : Zip) (op : Op) :
  queue self <> Some Fulfilled ->
  let r := step fill crc32 deflateRaw createDeflateRaw now self op in
  pushed (fst r) = pushed self
  /\ ended (fst r) = ended self
  /\ entries (fst r) = entries self
  /\ outputStreamCursor (fst r) = outputStreamCursor self
  /\ queue (fst r) <> Some Fulfilled
  /\ (op <> End -> forall a, snd r <> Resolved a).
Proof.
  intros Hq.
  assert (Hself : pushed self = pushed self /\ ended self = ended self
                  /\ entries self = entries self
                  /\ outputStreamCursor self = outputStreamCursor self
                  /\ queue self <> Some Fulfilled) by tauto.
  assert (Henq : forall A (work : Task A),
             let r := forget (enqueue self work) in
             pushed (fst r) = pushed self /\ ended (fst r) = ended self
             /\ entries (fst r) = entries self
             /\ outputStreamCursor (fst r) = outputStreamCursor self
             /\ queue (fst r) <> Some Fulfilled
             /\ (forall a, snd r <> Resolved a)).
  { intros A work. destruct (enqueue_inert self work Hq) as (H1 & H2 & H3 & H4 & H5 & H6).
    unfold forget. cbn [fst snd]. rewrite H5. repeat split; try assumption.
    intros a. destruct (snd (enqueue self work)) eqn:E; try discriminate.
    exfalso. eapply H6. reflexivity. }
  pose proof (fun A (work : Task A) => enqueue_inert self work Hq) as Henq0.
  destruct op as [buffer fileName options | opened fileName options
                 | fileHandle fileName options | readStream fileName options
                 | fileName options | entry createReadStream options | options | ];
    cbv zeta; cbn [step].
  - unfold addBuffer.
    destruct (sanitizeMetadataPath fileName false);
      [|cbn; repeat split; try tauto; discriminate].
    destruct (0x3fffffff <? blen buffer); [cbn; repeat split; try tauto; discriminate|].
    unfold Zip.addEntry.
    match goal with |- context [enqueue self ?w] => destruct (Henq _ w)
                      as (H1 & H2 & H3 & H4 & H5 & H6) end.
    repeat split; try assumption. intros _. exact H6.
  - unfold addFile.
    destruct (sanitizeMetadataPath fileName false);
      [|cbn; repeat split; try tauto; discriminate].
    unfold Zip.addEntry.
    match goal with |- context [enqueue self ?w] => destruct (Henq _ w)
                      as (H1 & H2 & H3 & H4 & H5 & H6) end.
    repeat split; try assumption. intros _. exact H6.
  - unfold addFileHandle.
    destruct (sanitizeMetadataPath fileName false);
      [|cbn; repeat split; try tauto; discriminate].
    unfold Zip.addEntry.
    match goal with |- context [enqueue self ?w] => destruct (Henq _ w)
                      as (H1 & H2 & H3 & H4 & H5 & H6) end.
    repeat split; try assumption. intros _. exact H6.
  - unfold addReadStream.
    destruct (sanitizeMetadataPath fileName false);
      [|cbn; repeat split; try tauto; discriminate].
    destruct (createEntry now _); [|cbn; repeat split; try tauto; discriminate].
    unfold Zip.addEntry.
    match goal with |- context [enqueue self ?w] => destruct (Henq _ w)
                      as (H1 & H2 & H3 & H4 & H5 & H6) end.
    repeat split; try assumption. intros _. exact H6.
  - unfold addDirectory.
    destruct (sanitizeMetadataPath fileName true);
      [|cbn; repeat split; try tauto; discriminate].
    unfold Zip.addEntry.
    match goal with |- context [enqueue self ?w] => destruct (Henq _ w)
                      as (H1 & H2 & H3 & H4 & H5 & H6) end.
    repeat split; try assumption. intros _. exact H6.
  - unfold Class.addEntry.
    destruct (pendingEntry entry _ options);
      [|cbn; repeat split; try tauto; discriminate].
    destruct createReadStream as [createReadStream|].
    + unfold Zip.addEntry.
      match goal with |- context [enqueue self ?w] => destruct (Henq _ w)
                        as (H1 & H2 & H3 & H4 & H5 & H6) end.
      repeat split; try assumption. intros _. exact H6.
    + destruct (queue self) as [[|e|]|] eqn:Eq; [congruence| | |];
        cbn; rewrite ?Eq; repeat split; discriminate.
  - unfold addCentralDirectoryRecord.
    destruct (queue self) as [q|] eqn:Eq; [|cbn; rewrite ?Eq; repeat split; discriminate].
    match goal with
    | |- context [match ?m with Ok _ => _ | Throw _ => _ end] => destruct m
    end; [|cbn; rewrite ?Eq; repeat split; try discriminate; congruence].
    match goal with |- context [enqueue self ?w] =>
      destruct (Henq0 _ w) as (H1 & H2 & H3 & H4 & H5 & H6) end.
    rewrite H5. repeat split; try assumption. intros _. exact H6.
  - unfold end_. destruct (queue self) as [[|e|]|]; [congruence| | |];
      cbn; repeat split; congruence.
Qed.

Lemma run_inert (ops : list Op) :
  forall self,
    queue self <> Some Fulfilled ->
    let s := run fill crc32 deflateRaw createDeflateRaw now self ops in
    pushed s = pushed self /\ ended s = ended self /\ entries s = entries self
    /\ outputStreamCursor s = outputStreamCursor self.
Proof.
  induction ops as [|op rest IH]; intros self Hq; cbn [run foldl]; [tauto|].
  destruct (step_inert self op Hq) as (H1 & H2 & H3 & H4 & H5 & _).
  specialize (IH _ H5). cbn zeta in IH. unfold run in IH.
  destruct IH as (I1 & I2 & I3 & I4).
  rewrite I1, I2, I3, I4. tauto.
Qed.

(** When queued work fails, the queue holds the rejection, the error is
    emitted and the stream is destroyed. *)
Lemma enqueue_rejected {A} (self self' : Zip) (work : Task A) (e : string) :
  queue self = Some Fulfilled ->
  enqueue self work = (self', Rejected e) ->
  queue self' = Some (Failed e) /\ destroyed self' = true
  /\ exists errs, errors self' = errs ++ [e].
Proof.
  intros Hq. unfold enqueue. rewrite Hq.
  destruct (work self) as [s1 [[a|m]|]]; [discriminate| |discriminate].
  intros H. apply pair_equal_spec in H as [<- H]. injection H as ->.
  cbn. eauto.
Qed.

Lemma step_rejected (self self' : Zip) (op : Op) (e : string) :
  queue self = Some Fulfilled ->
  step fill crc32 deflateRaw createDeflateRaw now self op = (self', Rejected e) ->
  queue self' = Some (Failed e) /\ destroyed self' = true
  /\ exists errs, errors self' = errs ++ [e].
Proof.
  intros Hq.
  assert (Hforget : forall A (r : Zip * Outcome A),
             forget r = (self', Rejected e) -> r = (self', Rejected e)).
  { intros A [s [m|m|a|]]; unfold forget; cbn [fst snd]; intros H;
      apply pair_equal_spec in H as [<- H]; congruence. }
  destruct op as [buffer fileName options | opened fileName options
                 | fileHandle fileName options | readStream fileName options
                 | fileName options | entry createReadStream options | options | ];
    cbn [step]; intros H; try apply Hforget in H.
  - unfold addBuffer in H.
    destruct (sanitizeMetadataPath fileName false); [|discriminate].
    destruct (0x3fffffff <? blen buffer); [discriminate|].
    eapply enqueue_rejected; [exact Hq|exact H].
  - unfold addFile in H.
    destruct (sanitizeMetadataPath fileName false); [|discriminate].
    eapply enqueue_rejected; [exact Hq|exact H].
  - unfold addFileHandle in H.
    destruct (sanitizeMetadataPath fileName false); [|discriminate].
    eapply enqueue_rejected; [exact Hq|exact H].
  - unfold addReadStream in H.
    destruct (sanitizeMetadataPath fileName false); [|discriminate].
    destruct (createEntry now _); [|discriminate].
    eapply enqueue_rejected; [exact Hq|exact H].
  - unfold addDirectory in H.
    destruct (sanitizeMetadataPath fileName true); [|discriminate].
    eapply enqueue_rejected; [exact Hq|exact H].
  - unfold Class.addEntry in H.
    destruct (pendingEntry entry _ options); [|discriminate].
    destruct createReadStream as [createReadStream|].
    + eapply enqueue_rejected; [exact Hq|exact H].
    + rewrite Hq in H. discriminate.
  - unfold addCentralDirectoryRecord in H. rewrite Hq in H.
    match type of H with
    | context [match ?m with Ok _ => _ | Throw _ => _ end] => destruct m
    end; [|discriminate].
    eapply enqueue_rejected; [exact Hq|exact H].
  - discriminate.
Qed.

End FailureFacts.


(** ** What the writer emits *)
Section EmissionFacts.
Import Write Zip.

Variable fill : nat -> byte.

(** The queued work of [addBuffer]: the local header, then the data. *)
Lemma addEntry_queued_buffer (entry : Entry.t) (data : Buffer) (s : Zip) :
  Entry.crcAndFileSizeKnown entry = true ->
  Entry.compressedSize entry = Some (blen data) ->
  addEntry_queued fill (Ok (entry, fun e => _ <~ writeBuffer data ;; ret e)) s
  = let entry0 :=
      Entry.set_relativeOffsetOfLocalHeader (Some (outputStreamCursor s)) entry in
    match getLocalFileHeader fill entry0 with
    | Throw e => (s, Some (Throw e))
    | Ok header =>
        (set_entries (entries s ++ [entry0])
           (set_outputStreamCursor (outputStreamCursor s + blen header + blen data)
              (push data (push header s))),
         Some (Ok entry0))
    end.
Proof.
  intros Hknown Hsize. unfold addEntry_queued.
  cbv [tbind lift get ret modify writeBuffer]. cbv zeta.
  destruct (getLocalFileHeader fill _) as [header|e]; [|reflexivity].
  cbn [outputStreamCursor set_outputStreamCursor push Entry.compressedSize
       Entry.set_relativeOffsetOfLocalHeader Entry.crcAndFileSizeKnown].
  rewrite Hsize.
  replace (outputStreamCursor s + blen header + blen data
           - (outputStreamCursor s + blen header) =? blen data) with true
    by (symmetry; apply Z.eqb_eq; lia).
  cbn [negb Entry.crcAndFileSizeKnown Entry.set_relativeOffsetOfLocalHeader].
  rewrite Hknown. reflexivity.
Qed.

(** The queued work of [addDirectory]: the local header alone. *)
Lemma addEntry_queued_directory (entry : Entry.t) (s : Zip) :
  Entry.crcAndFileSizeKnown entry = true ->
  Entry.compressedSize entry = Some 0 ->
  addEntry_queued fill (Ok (entry, fun e => ret e)) s
  = let entry0 :=
      Entry.set_relativeOffsetOfLocalHeader (Some (outputStreamCursor s)) entry in
    match getLocalFileHeader fill entry0 with
    | Throw e => (s, Some (Throw e))
    | Ok header =>
        (set_entries (entries s ++ [entry0])
           (set_outputStreamCursor (outputStreamCursor s + blen header) (push header s)),
         Some (Ok entry0))
    end.
Proof.
  intros Hknown Hsize. unfold addEntry_queued.
  cbv [tbind lift get ret modify writeBuffer]. cbv zeta.
  destruct (getLocalFileHeader fill _) as [header|e]; [|reflexivity].
  cbn [outputStreamCursor set_outputStreamCursor push Entry.compressedSize
       Entry.set_relativeOffsetOfLocalHeader Entry.crcAndFileSizeKnown].
  rewrite Hsize, Z.sub_diag.
  cbn [Z.eqb negb Entry.crcAndFileSizeKnown Entry.set_relativeOffsetOfLocalHeader].
  rewrite Hknown. reflexivity.
Qed.

(** The queued work of [addEntry] with a stream: the local header, then the
    chunks of the stream as they come, whose total length must be the
    compressed size of the source entry. *)
Lemma addEntry_queued_raw (entry : Entry.t) (stream : Run) (size : Z) (s : Zip) :
  Entry.crcAndFileSizeKnown entry = true ->
  Entry.compressedSize entry = Some size ->
  addEntry_queued fill (Ok (entry, fun e => _ <~ writeRawStream stream ;; ret e)) s
  = let entry0 :=
      Entry.set_relativeOffsetOfLocalHeader (Some (outputStreamCursor s)) entry in
    match getLocalFileHeader fill entry0 with
    | Throw e => (s, Some (Throw e))
    | Ok header =>
        let s0 := set_outputStreamCursor (outputStreamCursor s + blen header) (push header s) in
        let s1 := foldl (fun s chunk => push chunk s) s0 (chunks stream) in
        match failure stream with
        | Some e => (s1, Some (Throw e))
        | None =>
            let s2 :=
              set_outputStreamCursor
                (outputStreamCursor s + blen header + total_length (chunks stream)) s1 in
            if total_length (chunks stream) =? size
            then (set_entries (entries s ++ [entry0]) s2, Some (Ok entry0))
            else (s2, Some (Throw "Unexpected compressed size"))
        end
    end.
Proof.
  intros Hknown Hsize. unfold addEntry_queued, writeRawStream.
  cbv [tbind lift get ret modify writeBuffer push_all advance]. cbv zeta.
  destruct (getLocalFileHeader fill _) as [header|e]; [|reflexivity].
  destruct (failure stream) as [e|]; [reflexivity|].
  rewrite !push_all_spec.
  cbn [outputStreamCursor set_outputStreamCursor push Entry.compressedSize entries
       Entry.set_relativeOffsetOfLocalHeader Entry.crcAndFileSizeKnown].
  rewrite Hsize.
  replace (outputStreamCursor s + blen header + total_length (chunks stream)
           - (outputStreamCursor s + blen header)) with (total_length (chunks stream)) by lia.
  destruct (total_length (chunks stream) =? size);
    cbn [negb Entry.crcAndFileSizeKnown Entry.set_relativeOffsetOfLocalHeader];
    rewrite ?Hknown; reflexivity.
Qed.

End EmissionFacts.


Section AddFacts.
Import Write Zip Zip.Class.

Variable fill : nat -> byte.
Variable crc32 : Buffer -> Z -> Z.
Variable deflateRaw : Buffer -> result Buffer.
Variable createDeflateRaw : Run -> Run.
Variable now : Date.

Lemma createEntry_sizes (options : CreateEntryOptions.t) (entry : Entry.t) :
  createEntry now options = Ok entry ->
  Entry.crc32 entry = CreateEntryOptions.crc32 options
  /\ Entry.uncompressedSize entry = CreateEntryOptions.uncompressedSize options
  /\ Entry.compressedSize entry = CreateEntryOptions.compressedSize options
  /\ Entry.forceZip64Format entry = CreateEntryOptions.forceZip64Format options.
Proof.
  unfold createEntry.
  repeat match goal with
         | |- (if ?b then _ else _) = Ok _ -> _ => destruct b; [discriminate|]
         end.
  intros H. apply Ok_inj in H. now subst entry.
Qed.

Lemma enqueue_resolved {A} (self self' : Zip) (work : Task A) (a : A) :
  enqueue self work = (self', Resolved a) ->
  queue self = Some Fulfilled /\ work self = (self', Some (Ok a)).
Proof.
  unfold enqueue. destruct (queue self) as [[|e|]|]; try discriminate.
  destruct (work self) as [s1 [[a'|e]|]]; [|discriminate|discriminate].
  intros H. apply pair_equal_spec in H as [<- H]. injection H as <-. auto.
Qed.

Lemma enqueue_fulfilled {A} (self self' : Zip) (work : Task A) (a : A) :
  queue self = Some Fulfilled -> work self = (self', Some (Ok a)) ->
  enqueue self work = (self', Resolved a).
Proof. intros Hq Hw. unfold enqueue. now rewrite Hq, Hw. Qed.

Lemma getLocalFileHeader_offset (entry : Entry.t) (offset : optnum) :
  getLocalFileHeader fill (Entry.set_relativeOffsetOfLocalHeader offset entry)
  = getLocalFileHeader fill entry.
Proof. reflexivity. Qed.

(** A resolved [addBuffer] pushed the local header and then the data, and
    recorded the entry. *)
Lemma addBuffer_resolved (self self' : Zip) (buffer : Buffer) (fileName : jsstring)
    (options : Options.t) (e : Entry.t) :
  addBuffer fill crc32 deflateRaw now self buffer fileName options = (self', Resolved e) ->
  exists name data header,
    sanitizeMetadataPath fileName false = Ok name
    /\ (if default true (Options.compress options) then deflateRaw buffer else Ok buffer)
       = Ok data
    /\ getLocalFileHeader fill e = Ok header
    /\ pushed self' = pushed self ++ [header; data]
    /\ entries self' = entries self ++ [e]
    /\ outputStreamCursor self' = outputStreamCursor self + blen header + blen data
    /\ Entry.relativeOffsetOfLocalHeader e = Some (outputStreamCursor self)
    /\ Entry.fileName e = Buffer_from_string name
    /\ Entry.crc32 e = Some (crc32 buffer 0)
    /\ Entry.uncompressedSize e = Some (blen buffer)
    /\ Entry.compressedSize e = Some (blen data)
    /\ Entry.crcAndFileSizeKnown e = true.
Proof.
  unfold addBuffer.
  destruct (sanitizeMetadataPath fileName false) as [name|]; [|discriminate].
  destruct (0x3fffffff <? blen buffer); [discriminate|].
  unfold Zip.addEntry. intros H. apply enqueue_resolved in H as [Hq H].
  destruct (if default true (Options.compress options) then deflateRaw buffer else Ok buffer)
    as [data|]; cbn [Js.bind] in H; [|discriminate].
  destruct (createEntry now _) as [entry|] eqn:Ecreate; cbn [Js.bind] in H; [|discriminate].
  destruct (createEntry_sizes _ _ Ecreate) as (Hcrc & Hus & Hcs & _).
  destruct (proj2 (createEntry_sound now _) entry Ecreate)
    as (Hname & _ & _ & _ & _ & _ & Hknown & _).
  cbn [CreateEntryOptions.crc32 CreateEntryOptions.uncompressedSize
       CreateEntryOptions.compressedSize CreateEntryOptions.fileName] in *.
  rewrite addEntry_queued_buffer in H;
    [|apply Hknown; rewrite <- ?Hcrc, <- ?Hus, <- ?Hcs; eauto|exact Hcs].
  cbv zeta in H. rewrite getLocalFileHeader_offset in H.
  destruct (getLocalFileHeader fill entry) as [header|] eqn:Eheader; [|discriminate].
  apply pair_equal_spec in H as [<- H]. apply Some_Ok_inj in H. subst e.
  exists name, data, header.
  rewrite getLocalFileHeader_offset.
  cbn [pushed entries outputStreamCursor set_entries set_outputStreamCursor push
       Entry.relativeOffsetOfLocalHeader Entry.fileName Entry.crc32 Entry.uncompressedSize
       Entry.compressedSize Entry.crcAndFileSizeKnown Entry.set_relativeOffsetOfLocalHeader].
  rewrite <- app_assoc. cbn [app].
  repeat split; try assumption; try reflexivity.
  apply Hknown. rewrite <- ?Hcrc, <- ?Hus, <- ?Hcs. eauto.
Qed.

End AddFacts.


(** ** Directories and raw copies *)
Section MoreAddFacts.
Import Write Zip Zip.Class.

Variable fill : nat -> byte.
Variable crc32 : Buffer -> Z -> Z.
Variable now : Date.

Lemma last_snoc_slash (q : jsstring) : last (q ++ [47]) = Some 47.
Proof. apply last_snoc. Qed.

(** A resolved [addDirectory] pushed the local header alone and recorded an
    entry without data whose name ends in a slash. *)
Lemma addDirectory_resolved (self self' : Zip) (fileName : jsstring)
    (options : Options.t) (e : Entry.t) :
  addDirectory fill now self fileName options = (self', Resolved e) ->
  exists name header,
    sanitizeMetadataPath fileName true = Ok name
    /\ last name = Some 47
    /\ getLocalFileHeader fill e = Ok header
    /\ pushed self' = pushed self ++ [header]
    /\ entries self' = entries self ++ [e]
    /\ outputStreamCursor self' = outputStreamCursor self + blen header
    /\ Entry.relativeOffsetOfLocalHeader e = Some (outputStreamCursor self)
    /\ Entry.fileName e = Buffer_from_string name
    /\ Entry.crc32 e = Some 0
    /\ Entry.uncompressedSize e = Some 0
    /\ Entry.compressedSize e = Some 0
    /\ Entry.compressionMethod e = 0
    /\ Entry.crcAndFileSizeKnown e = true.
Proof.
  unfold addDirectory.
  destruct (sanitizeMetadataPath fileName true) as [name|] eqn:Ename; [|discriminate].
  unfold Zip.addEntry. intros H. apply enqueue_resolved in H as [Hq H].
  destruct (createEntry now _) as [entry|] eqn:Ecreate; cbn [Js.bind] in H; [|discriminate].
  destruct (createEntry_sizes _ _ _ Ecreate) as (Hcrc & Hus & Hcs & _).
  destruct (proj2 (createEntry_sound now _) entry Ecreate)
    as (Hname & _ & _ & _ & _ & Hmethod & Hknown & _).
  cbn [CreateEntryOptions.crc32 CreateEntryOptions.uncompressedSize
       CreateEntryOptions.compressedSize CreateEntryOptions.fileName
       CreateEntryOptions.compress] in *.
  rewrite addEntry_queued_directory in H;
    [|apply Hknown; rewrite <- ?Hcrc, <- ?Hus, <- ?Hcs; eauto|exact Hcs].
  cbv zeta in H. rewrite getLocalFileHeader_offset in H.
  destruct (getLocalFileHeader fill entry) as [header|] eqn:Eheader; [|discriminate].
  apply pair_equal_spec in H as [<- H]. apply Some_Ok_inj in H. subst e.
  exists name, header.
  rewrite getLocalFileHeader_offset.
  cbn [pushed entries outputStreamCursor set_entries set_outputStreamCursor push
       Entry.relativeOffsetOfLocalHeader Entry.fileName Entry.crc32 Entry.uncompressedSize
       Entry.compressedSize Entry.crcAndFileSizeKnown Entry.compressionMethod
       Entry.set_relativeOffsetOfLocalHeader].
  repeat split; try assumption; try reflexivity.
  - now apply (sanitizeMetadataPath_sound fileName name true).
  - apply Hknown. rewrite <- ?Hcrc, <- ?Hus, <- ?Hcs. eauto.
Qed.

Lemma pendingEntry_copies (entry : Unzip.Entry.t) (withReadStream : bool)
    (options : Options.t) (pending : Entry.t) :
  pendingEntry entry withReadStream options = Ok pending ->
  Entry.crcAndFileSizeKnown pending = true
  /\ Entry.crc32 pending
     = Some (Unzip.CDFH.crc32 (Unzip.Entry.centralDirectoryFileHeader entry))
  /\ Entry.uncompressedSize pending = Some (Unzip.Entry.uncompressedSize entry)
  /\ Entry.compressedSize pending = Some (Unzip.Entry.compressedSize entry)
  /\ Entry.compressionMethod pending
     = Unzip.CDFH.compressionMethod (Unzip.Entry.centralDirectoryFileHeader entry).
Proof.
  unfold pendingEntry. intros H.
  repeat match type of H with
         | Js.bind ?m _ = Ok _ => destruct m; cbn [Js.bind] in H; [|discriminate]
         end.
  apply Ok_inj in H. now subst pending.
Qed.

(** A resolved [addEntry] with a stream pushed the local header and then the
    chunks of the stream unchanged; the stream ended without failure and
    held exactly as many bytes as the compressed size of the source entry,
    whose checksum, sizes and method the new entry keeps. *)
Lemma addEntry_raw_resolved (self self' : Zip) (entry : Unzip.Entry.t)
    (createReadStream : result Run) (options : Options.t) (e : Entry.t) :
  addEntry fill self entry (Some createReadStream) options = (self', Resolved e) ->
  exists stream header,
    createReadStream = Ok stream
    /\ failure stream = None
    /\ total_length (chunks stream) = Unzip.Entry.compressedSize entry
    /\ getLocalFileHeader fill e = Ok header
    /\ pushed self' = pushed self ++ header :: chunks stream
    /\ entries self' = entries self ++ [e]
    /\ outputStreamCursor self'
       = outputStreamCursor self + blen header + Unzip.Entry.compressedSize entry
    /\ Entry.relativeOffsetOfLocalHeader e = Some (outputStreamCursor self)
    /\ Entry.crc32 e = Some (Unzip.CDFH.crc32 (Unzip.Entry.centralDirectoryFileHeader entry))
    /\ Entry.uncompressedSize e = Some (Unzip.Entry.uncompressedSize entry)
    /\ Entry.compressedSize e = Some (Unzip.Entry.compressedSize entry)
    /\ Entry.compressionMethod e
       = Unzip.CDFH.compressionMethod (Unzip.Entry.centralDirectoryFileHeader entry).
Proof.
  unfold addEntry.
  destruct (pendingEntry entry _ options) as [pending|] eqn:Epending; [|discriminate].
  destruct (pendingEntry_copies _ _ _ _ Epending) as (Hknown & Hcrc & Hus & Hcs & Hmethod).
  unfold Zip.addEntry. intros H. apply enqueue_resolved in H as [Hq H].
  destruct createReadStream as [stream|]; cbn [Js.bind] in H; [|discriminate].
  rewrite (addEntry_queued_raw fill pending stream _ self Hknown Hcs) in H.
  cbv zeta in H. rewrite getLocalFileHeader_offset in H.
  destruct (getLocalFileHeader fill pending) as [header|] eqn:Eheader; [|discriminate].
  destruct (failure stream) as [err|] eqn:Efail; [discriminate|].
  destruct (Z.eqb_spec (total_length (chunks stream)) (Unzip.Entry.compressedSize entry))
    as [Hsize|]; [|discriminate].
  apply pair_equal_spec in H as [<- H]. apply Some_Ok_inj in H. subst e.
  exists stream, header. rewrite getLocalFileHeader_offset, push_all_spec.
  cbn [pushed entries outputStreamCursor set_entries set_outputStreamCursor push
       Entry.relativeOffsetOfLocalHeader Entry.crc32 Entry.uncompressedSize
       Entry.compressedSize Entry.compressionMethod Entry.set_relativeOffsetOfLocalHeader].
  rewrite <- app_assoc, Hsize. cbn [app].
  repeat split; try assumption; reflexivity.
Qed.

End MoreAddFacts.

(** ** The central directory *)
Section CentralDirectoryFacts.
Import Write Zip Zip.Class.

Variable fill : nat -> byte.

Lemma includes_spec (value buffer : Buffer) :
  includes buffer value = true <-> exists pre post, buffer = pre ++ value ++ post.
Proof.
  induction buffer as [|b rest IH]; cbn [includes].
  - rewrite orb_false_r, bool_decide_eq_true. split.
    + intros H. exists [], []. destruct value; [reflexivity|discriminate H].
    + intros (pre & post & H). symmetry in H.
      apply app_eq_nil in H as [_ H]. apply app_eq_nil in H as [-> _]. reflexivity.
  - rewrite orb_true_iff, bool_decide_eq_true, IH. split.
    + intros [H|(pre & post & ->)].
      * exists [], (drop (length value) (b :: rest)). cbn [app].
        rewrite <- H at 1. now rewrite take_drop.
      * exists (b :: pre), post. reflexivity.
    + intros (pre & post & H). destruct pre as [|c pre]; cbn [app] in H.
      * left. rewrite H. now rewrite take_app_length.
      * right. injection H as _ ->. eauto.
Qed.

(** Writing the records of the entries one after the other. *)
Lemma write_records_ok (es : list Entry.t) :
  forall (records : list Buffer) (s : Zip),
    Forall2 (fun e r => getCentralDirectoryRecord fill e = Ok r) es records ->
    foldl (fun work entry =>
             _ <~ work ;;
             record <~ lift (getCentralDirectoryRecord fill entry) ;;
             writeBuffer record)
          (ret tt) es s
    = ({| queue := queue s;
          outputStreamCursor := outputStreamCursor s + blen (concat records);
          entries := entries s;
          offsetOfStartOfCentralDirectory := offsetOfStartOfCentralDirectory s;
          pushed := pushed s ++ records; ended := ended s; errors := errors s;
          destroyed := destroyed s |}, Some (Ok tt)).
Proof.
  induction es as [|e es IH] using rev_ind; intros records s H.
  - apply Forall2_nil_inv_l in H. subst records. cbn [foldl concat]. unfold ret.
    change (blen []) with 0. rewrite Z.add_0_r, app_nil_r. now destruct s.
  - apply Forall2_app_inv_l in H as (rs & r1 & Hrs & Hr & ->).
    apply Forall2_cons_inv_l in Hr as (r & r0 & Hr & Hnil & ->).
    apply Forall2_nil_inv_l in Hnil. subst r0.
    rewrite foldl_snoc. unfold tbind at 1. rewrite (IH rs s Hrs).
    unfold tbind, lift, writeBuffer, modify. rewrite Hr.
    unfold set_outputStreamCursor, push.
    cbn [outputStreamCursor pushed entries queue ended errors destroyed
         offsetOfStartOfCentralDirectory].
    rewrite concat_app, blen_app. cbn [concat]. rewrite app_nil_r, <- app_assoc.
    f_equal. f_equal. lia.
Qed.

Lemma write_records_inv (es : list Entry.t) :
  forall (s s' : Zip),
    foldl (fun work entry =>
             _ <~ work ;;
             record <~ lift (getCentralDirectoryRecord fill entry) ;;
             writeBuffer record)
          (ret tt) es s
    = (s', Some (Ok tt)) ->
    exists records, Forall2 (fun e r => getCentralDirectoryRecord fill e = Ok r) es records.
Proof.
  induction es as [|e es IH] using rev_ind; intros s s' H.
  - exists []. constructor.
  - rewrite foldl_snoc in H. unfold tbind at 1 in H.
    destruct (foldl _ (ret tt) es s) as [s1 [[[]|err]|]] eqn:E; [|discriminate|discriminate].
    destruct (IH s s1 E) as (rs & Hrs).
    unfold tbind, lift in H.
    destruct (getCentralDirectoryRecord fill e) as [r|] eqn:Er; [|discriminate].
    exists (rs ++ [r]). apply Forall2_app; [exact Hrs|]. now repeat constructor.
Qed.

(** The work that [addCentralDirectoryRecord] queues, when every record
    serializes. *)
Lemma addCentralDirectoryRecord_queued_ok (comment : Buffer) (forceZip64Format : bool)
    (s : Zip) (records : list Buffer) (eocdr : Buffer) :
  Forall2 (fun e r => getCentralDirectoryRecord fill e = Ok r) (entries s) records ->
  getEndOfCentralDirectoryRecord fill (Z.of_nat (length (entries s)))
    (outputStreamCursor s + blen (concat records)) (outputStreamCursor s)
    comment forceZip64Format = Ok eocdr ->
  addCentralDirectoryRecord_queued fill comment forceZip64Format s
  = ({| queue := queue s;
        outputStreamCursor := outputStreamCursor s + blen (concat records) + blen eocdr;
        entries := entries s;
        offsetOfStartOfCentralDirectory := Some (outputStreamCursor s);
        pushed := pushed s ++ records ++ [eocdr]; ended := ended s; errors := errors s;
        destroyed := destroyed s |}, Some (Ok tt)).
Proof.
  intros Hrecords Heocdr. unfold addCentralDirectoryRecord_queued.
  unfold tbind at 1. unfold modify at 1.
  unfold tbind at 1. unfold get at 1.
  unfold tbind at 1.
  cbn [entries set_offsetOfStartOfCentralDirectory].
  rewrite (write_records_ok (entries s) records _ Hrecords).
  unfold tbind, get, lift, writeBuffer, modify.
  cbn [entries outputStreamCursor offsetOfStartOfCentralDirectory
       set_offsetOfStartOfCentralDirectory default queue pushed ended errors destroyed].
  unfold Datatypes.id. rewrite Heocdr. unfold set_outputStreamCursor, push.
  cbn [entries outputStreamCursor offsetOfStartOfCentralDirectory queue pushed ended
       errors destroyed].
  now rewrite <- app_assoc.
Qed.

Lemma addCentralDirectoryRecord_queued_inv (comment : Buffer) (forceZip64Format : bool)
    (s s' : Zip) :
  addCentralDirectoryRecord_queued fill comment forceZip64Format s = (s', Some (Ok tt)) ->
  exists records eocdr,
    Forall2 (fun e r => getCentralDirectoryRecord fill e = Ok r) (entries s) records
    /\ getEndOfCentralDirectoryRecord fill (Z.of_nat (length (entries s)))
         (outputStreamCursor s + blen (concat records)) (outputStreamCursor s)
         comment forceZip64Format = Ok eocdr.
Proof.
  intros H. unfold addCentralDirectoryRecord_queued in H.
  unfold tbind at 1 in H. unfold modify at 1 in H.
  unfold tbind at 1 in H. unfold get at 1 in H.
  unfold tbind at 1 in H.
  cbn [entries set_offsetOfStartOfCentralDirectory] in H.
  destruct (foldl _ (ret tt) (entries s) _) as [s1 [[[]|err]|]] eqn:E;
    [|discriminate|discriminate].
  destruct (write_records_inv _ _ _ E) as (records & Hrecords).
  rewrite (write_records_ok _ records _ Hrecords) in E.
  apply pair_equal_spec in E as [<- _].
  unfold tbind, get, lift in H.
  cbn [entries outputStreamCursor offsetOfStartOfCentralDirectory
       set_offsetOfStartOfCentralDirectory default] in H.
  unfold Datatypes.id in H.
  destruct (getEndOfCentralDirectoryRecord fill _ _ _ comment forceZip64Format)
    as [eocdr|] eqn:Eeocdr; [|discriminate].
  exists records, eocdr. split; [exact Hrecords|exact Eeocdr].
Qed.

(** A resolved [addCentralDirectoryRecord] pushed one record per entry, in
    the order the entries were added, and then the end records. *)
Lemma addCentralDirectoryRecord_resolved (self self' : Zip) (options : Options.t) :
  addCentralDirectoryRecord fill self options = (self', Resolved tt) ->
  exists comment records eocdr,
    match default (Buf EMPTY_BUFFER) (Options.comment options) with
    | Buf b => Ok b
    | Str s => Cp437.encodeCp437 s
    end = Ok comment
    /\ blen comment <= 0xffff
    /\ (forall pre post, comment <> pre ++ eocdrSignatureBuffer ++ post)
    /\ Forall2 (fun e r => getCentralDirectoryRecord fill e = Ok r) (entries self) records
    /\ getEndOfCentralDirectoryRecord fill (Z.of_nat (length (entries self)))
         (outputStreamCursor self + blen (concat records)) (outputStreamCursor self)
         comment (default false (Options.forceZip64Format options)) = Ok eocdr
    /\ pushed self' = pushed self ++ records ++ [eocdr]
    /\ outputStreamCursor self'
       = outputStreamCursor self + blen (concat records) + blen eocdr
    /\ offsetOfStartOfCentralDirectory self' = Some (outputStreamCursor self)
    /\ entries self' = entries self
    /\ queue self' = Some Fulfilled
    /\ ended self' = ended self.
Proof.
  unfold addCentralDirectoryRecord.
  destruct (queue self) as [q|] eqn:Hq; [|discriminate].
  destruct (match default (Buf EMPTY_BUFFER) (Options.comment options) with
            | Buf b => Ok b
            | Str s => Cp437.encodeCp437 s
            end) as [comment|]; cbn [Js.bind]; [|discriminate].
  destruct (Z.ltb_spec 0xffff (blen comment)) as [|Hlen]; [discriminate|].
  destruct (includes comment eocdrSignatureBuffer) eqn:Hinc; [discriminate|].
  intros H. apply enqueue_resolved in H as [Hq' H].
  destruct (addCentralDirectoryRecord_queued_inv _ _ _ _ H) as (records & eocdr & Hr & He).
  rewrite (addCentralDirectoryRecord_queued_ok _ _ _ records eocdr Hr He) in H.
  apply pair_equal_spec in H as [<- _].
  exists comment, records, eocdr.
  cbn [pushed outputStreamCursor offsetOfStartOfCentralDirectory entries queue ended].
  repeat split; try assumption; try reflexivity.
  intros pre post Hc.
  apply Bool.not_true_iff_false in Hinc. apply Hinc, includes_spec. eauto.
Qed.

(** The comment is checked before anything is queued. *)
Lemma addCentralDirectoryRecord_comment (self : Zip) (options : Options.t)
    (comment : Buffer) :
  queue self <> None ->
  match default (Buf EMPTY_BUFFER) (Options.comment options) with
  | Buf b => Ok b
  | Str s => Cp437.encodeCp437 s
  end = Ok comment ->
  (0xffff < blen comment ->
   addCentralDirectoryRecord fill self options = (self, Threw "comment is too large"))
  /\ (blen comment <= 0xffff ->
      (exists pre post, comment = pre ++ eocdrSignatureBuffer ++ post) ->
      addCentralDirectoryRecord fill self options
      = (self, Threw "comment contains end of central directory record signature")).
Proof.
  intros Hq Hc. unfold addCentralDirectoryRecord.
  destruct (queue self) as [q|]; [|congruence].
  rewrite Hc. cbn [Js.bind]. split.
  - intros Hlen. now replace (0xffff <? blen comment) with true
      by (symmetry; apply Z.ltb_lt; lia).
  - intros Hlen Hsig. replace (0xffff <? blen comment) with false
      by (symmetry; apply Z.ltb_ge; lia).
    apply includes_spec in Hsig. now rewrite Hsig.
Qed.

End CentralDirectoryFacts.

(** ** Opening an archive *)
Section OpenerWindowFacts.
Import Read Unzip.

(** The trailing window that the opener reads. *)
Lemma read_tail (file : bool) (filePosition : Z) (content : Buffer) (size : Z) :
  0 <= size <= blen content ->
  read ((if file then FileHandle filePosition else BufferHandle) content)
    (blen content - size) size
  = Ok (drop (Z.to_nat (blen content - size)) content).
Proof.
  intros Hsize.
  set (n := Z.to_nat (blen content - size)).
  assert (Hn : (n <= length content)%nat) by (unfold n, blen in *; lia).
  pose proof (read_middle file filePosition (take n content) (drop n content) []) as H.
  rewrite app_nil_r, take_drop in H.
  replace (blen (take n content)) with (blen content - size) in H
    by (unfold blen; rewrite length_take; unfold n, blen in *; lia).
  replace (blen (drop n content)) with size in H
    by (unfold blen; rewrite length_drop; unfold n, blen in *; lia).
  exact H.
Qed.

Lemma eocdr_scan_none (handle : Handle) (totalSize : Z) (decodeStrings : bool)
    (bufferReadStart : Z) (buffer : Buffer) (k : nat) :
  (k = 0%nat \/ (k + 3 <= length buffer)%nat) ->
  (forall j : nat, (j < k)%nat -> readUInt32LE buffer (Z.of_nat j) <> Ok 0x06054b50) ->
  eocdr_scan handle totalSize decodeStrings bufferReadStart buffer k
  = Throw "end of central directory record signature not found".
Proof.
  induction k as [|k IH]; intros Hlen Hnone; [reflexivity|].
  destruct Hlen as [|Hlen]; [discriminate|].
  cbn [eocdr_scan].
  pose proof (Hnone k ltac:(lia)) as Hk.
  unfold readUInt32LE in *.
  rewrite (readUIntLE_in_range 4 buffer (Z.of_nat k)) in * by (unfold blen; lia).
  cbn [Js.bind].
  destruct (Z.eqb_spec (le_decode (take 4 (drop (Z.to_nat (Z.of_nat k)) buffer))) 0x06054b50)
    as [Heq|_].
  - exfalso. apply Hk. now rewrite Heq.
  - cbn [negb]. apply IH; [right; lia|]. intros j Hj. apply Hnone. lia.
Qed.

Lemma readUInt32LE_drop (content : Buffer) (n j : nat) :
  (n + j + 4 <= length content)%nat ->
  readUInt32LE (drop n content) (Z.of_nat j) = readUInt32LE content (Z.of_nat (n + j)).
Proof.
  intros H. unfold readUInt32LE.
  rewrite !readUIntLE_in_range by (unfold blen; rewrite ?length_drop; lia).
  rewrite !Nat2Z.id, drop_drop. reflexivity.
Qed.

Lemma opener_not_found (file : bool) (filePosition : Z) (content : Buffer)
    (decodeStrings : bool) :
  (forall i : Z,
      blen content - 65557 <= i -> 0 <= i <= blen content - 22 ->
      readUInt32LE content i <> Ok 0x06054b50) ->
  fromRandomAccessReader ((if file then FileHandle filePosition else BufferHandle) content)
    (blen content) decodeStrings
  = Throw "end of central directory record signature not found".
Proof.
  intros Hnone. unfold fromRandomAccessReader.
  change (eocdrWithoutCommentSize + maxCommentSize) with 65557.
  change eocdrWithoutCommentSize with 22.
  pose proof (blen_nonneg content) as Hc.
  set (size := Z.min (blen content) 65557).
  rewrite read_tail by (unfold size; lia). cbn [Js.bind].
  set (n := Z.to_nat (blen content - size)).
  apply eocdr_scan_none.
  - destruct (Z.ltb_spec size 22); [left; lia|right].
    rewrite length_drop. unfold n, size, blen in *. lia.
  - intros j Hj.
    rewrite readUInt32LE_drop by (unfold n, size, blen in *; lia).
    apply Hnone; unfold n, size, blen in *; lia.
Qed.

End OpenerWindowFacts.

(** ** Records written and read back *)
Section RecordRoundTrips.
Import Write.

Variable fill : nat -> byte.

(** X3. A local file header that serializes, with its extra fields given as
    a list, reads back at its position in any buffer or file: the reader
    returns the fields that were written, an undefined checksum or size as
    0, the lengths of the name and of the serialized extra fields, and the
    list of extra fields; the header takes 30 bytes plus those two
    lengths. *)
Theorem local_file_header_roundtrip (file : bool) (filePosition : Z) (object : LocalFileHeader.t)
    (l : list ExtraField) (out pre post : Buffer) :
  LocalFileHeader.extraFields object = ExtraList l ->
  serializeLocalFileHeader fill object = Ok out ->
  exists extra,
    serializeExtraFields fill (ExtraList l) = Ok extra
    /\ blen out = 30 + blen (LocalFileHeader.fileName object) + blen extra
    /\ Read.readLocalFileHeader
         ((if file then Read.FileHandle filePosition else Read.BufferHandle) (pre ++ out ++ post))
         (blen pre)
       = Ok {| Read.LocalFileHeader.versionNeededToExtract :=
                 LocalFileHeader.versionNeededToExtract object;
               Read.LocalFileHeader.generalPurposeBitFlag :=
                 LocalFileHeader.generalPurposeBitFlag object;
               Read.LocalFileHeader.compressionMethod :=
                 LocalFileHeader.compressionMethod object;
               Read.LocalFileHeader.fileLastModificationTime :=
                 LocalFileHeader.fileLastModificationTime object;
               Read.LocalFileHeader.fileLastModificationDate :=
                 LocalFileHeader.fileLastModificationDate object;
               Read.LocalFileHeader.crc32 := default 0 (LocalFileHeader.crc32 object);
               Read.LocalFileHeader.compressedSize :=
                 default 0 (LocalFileHeader.compressedSize object);
               Read.LocalFileHeader.uncompressedSize :=
                 default 0 (LocalFileHeader.uncompressedSize object);
               Read.LocalFileHeader.fileNameLength :=
                 blen (LocalFileHeader.fileName object);
               Read.LocalFileHeader.extraFieldsLength := blen extra;
               Read.LocalFileHeader.fileName := LocalFileHeader.fileName object;
               Read.LocalFileHeader.extraFields := l |}.
Proof. apply readLocalFileHeader_serialized. Qed.

(** X4. A central directory file header that serializes, with its extra
    fields given as a list, reads back at its position in any buffer or
    file: the reader returns the fields that were written, an undefined
    checksum, size or offset as 0, the three lengths, the name, the list of
    extra fields and the comment; the header takes 46 bytes plus those
    three lengths. *)
Theorem central_directory_file_header_roundtrip (file : bool) (filePosition : Z)
    (object : CentralDirectoryFileHeader.t) (l : list ExtraField)
    (out pre post : Buffer) :
  CentralDirectoryFileHeader.extraFields object = ExtraList l ->
  serializeCentralDirectoryFileHeader fill object = Ok out ->
  exists extra,
    serializeExtraFields fill (ExtraList l) = Ok extra
    /\ blen out = 46 + blen (CentralDirectoryFileHeader.fileName object) + blen extra
                  + blen (CentralDirectoryFileHeader.comment object)
    /\ Read.readCentralDirectoryFileHeader
         ((if file then Read.FileHandle filePosition else Read.BufferHandle) (pre ++ out ++ post))
         (blen pre)
       = Ok {| Read.CentralDirectoryFileHeader.versionMadeBy :=
                 CentralDirectoryFileHeader.versionMadeBy object;
               Read.CentralDirectoryFileHeader.versionNeededToExtract :=
                 CentralDirectoryFileHeader.versionNeededToExtract object;
               Read.CentralDirectoryFileHeader.generalPurposeBitFlag :=
                 CentralDirectoryFileHeader.generalPurposeBitFlag object;
               Read.CentralDirectoryFileHeader.compressionMethod :=
                 CentralDirectoryFileHeader.compressionMethod object;
               Read.CentralDirectoryFileHeader.fileLastModificationTime :=
                 CentralDirectoryFileHeader.fileLastModificationTime object;
               Read.CentralDirectoryFileHeader.fileLastModificationDate :=
                 CentralDirectoryFileHeader.fileLastModificationDate object;
               Read.CentralDirectoryFileHeader.crc32 :=
                 default 0 (CentralDirectoryFileHeader.crc32 object);
               Read.CentralDirectoryFileHeader.compressedSize :=
                 default 0 (CentralDirectoryFileHeader.compressedSize object);
               Read.CentralDirectoryFileHeader.uncompressedSize :=
                 default 0 (CentralDirectoryFileHeader.uncompressedSize object);
               Read.CentralDirectoryFileHeader.fileNameLength :=
                 blen (CentralDirectoryFileHeader.fileName object);
               Read.CentralDirectoryFileHeader.extraFieldsLength := blen extra;
               Read.CentralDirectoryFileHeader.commentLength :=
                 blen (CentralDirectoryFileHeader.comment object);
               Read.CentralDirectoryFileHeader.diskNumberStart :=
                 CentralDirectoryFileHeader.diskNumberStart object;
               Read.CentralDirectoryFileHeader.internalFileAttributes :=
                 CentralDirectoryFileHeader.internalFileAttributes object;
               Read.CentralDirectoryFileHeader.externalFileAttributes :=
                 CentralDirectoryFileHeader.externalFileAttributes object;
               Read.CentralDirectoryFileHeader.relativeOffsetOfLocalHeader :=
                 default 0 (CentralDirectoryFileHeader.relativeOffsetOfLocalHeader object);
               Read.CentralDirectoryFileHeader.fileName :=
                 CentralDirectoryFileHeader.fileName object;
               Read.CentralDirectoryFileHeader.extraFields := l;
               Read.CentralDirectoryFileHeader.comment :=
                 CentralDirectoryFileHeader.comment object |}.
Proof. apply readCentralDirectoryFileHeader_serialized. Qed.

(** X5. [serializeDataDescriptor] returns only when both sizes are defined,
    the result is 24 bytes long, and [readDataDescriptor] in its ZIP64 form
    reads the checksum (0 when undefined) and the two sizes back from it, at
    its position in any buffer or file. *)
Theorem data_descriptor_roundtrip (file : bool) (filePosition : Z) (object : DataDescriptor.t)
    (out pre post : Buffer) :
  serializeDataDescriptor fill object = Ok out ->
  exists cs us,
    DataDescriptor.compressedSize object = Some cs
    /\ DataDescriptor.uncompressedSize object = Some us
    /\ blen out = 24
    /\ Read.readDataDescriptor
         ((if file then Read.FileHandle filePosition else Read.BufferHandle) (pre ++ out ++ post))
         (blen pre) true
       = Ok {| Read.DataDescriptor.crc32 := default 0 (DataDescriptor.crc32 object);
               Read.DataDescriptor.compressedSize := cs;
               Read.DataDescriptor.uncompressedSize := us |}.
Proof. apply readDataDescriptor_serialized. Qed.

(** X6. [serializeEndOfCentralDirectoryRecord] never writes the
    comment-length word: bytes 20 and 21 of its result are what
    [Buffer.allocUnsafe] left there, whatever the comment. The record is 22
    bytes plus the comment, and [readEndOfCentralDirectoryRecord] returns
    what was written whenever those two bytes happen to spell the length of
    the comment. *)
Theorem end_of_central_directory_record_comment_length (file : bool) (filePosition : Z)
    (object : EndOfCentralDirectoryRecord.t) (out pre post : Buffer) :
  serializeEndOfCentralDirectoryRecord fill object = Ok out ->
  blen out = 22 + blen (EndOfCentralDirectoryRecord.comment object)
  /\ readUInt16LE out 20 = Ok (le_decode [fill 20%nat; fill 21%nat])
  /\ (le_decode [fill 20%nat; fill 21%nat] = blen (EndOfCentralDirectoryRecord.comment object) ->
      Read.readEndOfCentralDirectoryRecord
        ((if file then Read.FileHandle filePosition else Read.BufferHandle) (pre ++ out ++ post))
        (blen pre)
      = Ok {| Read.EndOfCentralDirectoryRecord.diskNumber :=
                EndOfCentralDirectoryRecord.diskNumber object;
              Read.EndOfCentralDirectoryRecord.centralDirectoryDiskNumber :=
                EndOfCentralDirectoryRecord.centralDirectoryDiskNumber object;
              Read.EndOfCentralDirectoryRecord.numberOfEntriesOnDisk :=
                EndOfCentralDirectoryRecord.numberOfEntriesOnDisk object;
              Read.EndOfCentralDirectoryRecord.numberOfEntries :=
                EndOfCentralDirectoryRecord.numberOfEntries object;
              Read.EndOfCentralDirectoryRecord.sizeOfCentralDirectory :=
                EndOfCentralDirectoryRecord.sizeOfCentralDirectory object;
              Read.EndOfCentralDirectoryRecord.centralDirectoryOffset :=
                EndOfCentralDirectoryRecord.centralDirectoryOffset object;
              Read.EndOfCentralDirectoryRecord.commentLength :=
                blen (EndOfCentralDirectoryRecord.comment object);
              Read.EndOfCentralDirectoryRecord.comment :=
                EndOfCentralDirectoryRecord.comment object |}).
Proof. apply readEndOfCentralDirectoryRecord_serialized. Qed.

(** X7. [readZip64EndOfCentralDirectoryRecord] never returns a record: it
    reads 54 bytes for the fixed part and then asks that buffer for the
    eight bytes at offset 48, so whatever the source holds, the call
    throws. *)
Theorem readZip64EndOfCentralDirectoryRecord_never_returns
    (handle : Read.Handle) (offset : Z) :
  is_ok (Read.readZip64EndOfCentralDirectoryRecord handle offset) = false.
Proof. apply readZip64EndOfCentralDirectoryRecord_throws. Qed.

(** X8. A ZIP64 end of central directory locator that serializes is 20
    bytes long and reads back, field for field, at its position in any
    buffer or file. *)
Theorem zip64_locator_roundtrip (file : bool) (filePosition : Z)
    (object : Zip64EndOfCentralDirectoryLocator.t) (out pre post : Buffer) :
  serializeZip64EndOfCentralDirectoryLocator fill object = Ok out ->
  blen out = 20
  /\ Read.readZip64EndOfCentralDirectoryLocator
       ((if file then Read.FileHandle filePosition else Read.BufferHandle) (pre ++ out ++ post))
       (blen pre)
     = Ok {| Read.Zip64EndOfCentralDirectoryLocator.zip64EndOfCentralDirectoryRecordDiskNumber :=
               Zip64EndOfCentralDirectoryLocator.zip64EndOfCentralDirectoryRecordDiskNumber
                 object;
             Read.Zip64EndOfCentralDirectoryLocator.zip64EndOfCentralDirectoryRecordOffset :=
               Zip64EndOfCentralDirectoryLocator.zip64EndOfCentralDirectoryRecordOffset object;
             Read.Zip64EndOfCentralDirectoryLocator.diskCount :=
               Zip64EndOfCentralDirectoryLocator.diskCount object |}.
Proof. apply readZip64EndOfCentralDirectoryLocator_serialized. Qed.

End RecordRoundTrips.

Section RecordWitnesses.
Import Write Samples.

Lemma local_file_header_roundtrip_witness :
  exists out,
    serializeLocalFileHeader zero_fill a_txt_local_header = Ok out
    /\ blen out = 41
    /\ is_ok (Read.readLocalFileHeader (Read.BufferHandle (foo ++ out ++ foo)) 3) = true.
Proof.
  eexists. split; [vm_compute; reflexivity|].
  match goal with
  | |- blen ?out = _ /\ _ =>
      destruct (local_file_header_roundtrip zero_fill false 0 a_txt_local_header
                  [{| id := 0x5455; data := [x01; x02] |}] out foo foo)
        as (extra & Hextra & Hlen & Hread)
  end.
  - reflexivity.
  - vm_compute. reflexivity.
  - split; [reflexivity|]. change 3 with (blen foo).
    cbv iota in Hread. now rewrite Hread.
Defined.

Lemma central_directory_file_header_roundtrip_witness :
  exists out,
    serializeCentralDirectoryFileHeader zero_fill a_txt_central_header = Ok out
    /\ blen out = 59
    /\ is_ok (Read.readCentralDirectoryFileHeader (Read.FileHandle 0 (foo ++ out ++ foo)) 3)
       = true.
Proof.
  eexists. split; [vm_compute; reflexivity|].
  match goal with
  | |- blen ?out = _ /\ _ =>
      destruct (central_directory_file_header_roundtrip zero_fill true 0 a_txt_central_header
                  [{| id := 0x5455; data := [x01; x02] |}] out foo foo)
        as (extra & Hextra & Hlen & Hread)
  end.
  - reflexivity.
  - vm_compute. reflexivity.
  - split; [reflexivity|]. change 3 with (blen foo).
    cbv iota in Hread. now rewrite Hread.
Defined.

Lemma data_descriptor_roundtrip_witness :
  exists out,
    serializeDataDescriptor zero_fill foo_descriptor = Ok out
    /\ Read.readDataDescriptor (Read.BufferHandle (foo ++ out ++ foo)) 3 true
       = Ok {| Read.DataDescriptor.crc32 := 2356372769;
               Read.DataDescriptor.compressedSize := 3;
               Read.DataDescriptor.uncompressedSize := 3 |}.
Proof.
  eexists. split; [vm_compute; reflexivity|].
  match goal with
  | |- Read.readDataDescriptor (Read.BufferHandle (_ ++ ?out ++ _)) _ _ = _ =>
      destruct (data_descriptor_roundtrip zero_fill false 0 foo_descriptor out foo foo)
        as (cs & us & Hcs & Hus & Hlen & Hread)
  end.
  - vm_compute. reflexivity.
  - apply (inj Some) in Hcs, Hus. subst cs us. exact Hread.
Defined.

Lemma end_of_central_directory_record_comment_length_witness :
  exists out,
    serializeEndOfCentralDirectoryRecord zero_fill one_entry_end_record = Ok out
    /\ blen out = 22
    /\ readUInt16LE out 20 = Ok 0.
Proof.
  eexists. split; [vm_compute; reflexivity|].
  match goal with
  | |- blen ?out = _ /\ _ =>
      destruct (end_of_central_directory_record_comment_length zero_fill false 0
                  one_entry_end_record out [] [])
        as (Hlen & Hword & _)
  end.
  - vm_compute. reflexivity.
  - split; [exact Hlen|exact Hword].
Defined.

Lemma zip64_locator_roundtrip_witness :
  exists out,
    serializeZip64EndOfCentralDirectoryLocator zero_fill one_disk_locator = Ok out
    /\ Read.readZip64EndOfCentralDirectoryLocator (Read.FileHandle 0 (foo ++ out)) 3
       = Ok {| Read.Zip64EndOfCentralDirectoryLocator.zip64EndOfCentralDirectoryRecordDiskNumber
                 := 0;
               Read.Zip64EndOfCentralDirectoryLocator.zip64EndOfCentralDirectoryRecordOffset := 89;
               Read.Zip64EndOfCentralDirectoryLocator.diskCount := 1 |}.
Proof.
  eexists. split; [vm_compute; reflexivity|].
  match goal with
  | |- Read.readZip64EndOfCentralDirectoryLocator (Read.FileHandle _ (_ ++ ?out)) _ = _ =>
      destruct (zip64_locator_roundtrip zero_fill true 0 one_disk_locator out foo [])
        as (Hlen & Hread)
  end.
  - vm_compute. reflexivity.
  - rewrite app_nil_r in Hread. exact Hread.
Defined.

End RecordWitnesses.

(** ** CP437 on whole strings *)
Section Cp437Theorems.
Import Cp437.

Lemma decoded_printable_bytes (buffer : Buffer) :
  is_printable_ascii (map (fun b => default 0 (cp437 !! Z.to_nat (byte_to_Z b))) buffer) = true ->
  map Z_to_byte (map (fun b => default 0 (cp437 !! Z.to_nat (byte_to_Z b))) buffer) = buffer.
Proof.
  induction buffer as [|b rest IH]; [reflexivity|].
  cbn [map is_printable_ascii forallb]. intros H.
  apply andb_prop in H as [Hb Hrest].
  rewrite (printable_char_is_byte b Hb). f_equal. now apply IH.
Qed.

(** X9. Encoding the CP437 decoding of any buffer gives the buffer back,
    whichever of the two encoding paths the decoded string takes, and the
    decoded string has one character per byte. *)
Theorem cp437_decode_encode (buffer : Buffer) :
  encodeCp437 (decodeCp437 buffer) = Ok buffer
  /\ length (decodeCp437 buffer) = length buffer.
Proof.
  rewrite decodeCp437_map. split; [|apply length_map].
  unfold encodeCp437.
  destruct (is_printable_ascii _) eqn:E.
  - rewrite printable_ascii_utf8 by exact E. f_equal. now apply decoded_printable_bytes.
  - apply encodeCp437_slow_decoded.
Qed.

(** X10. [encodeCp437] succeeds exactly on the strings made of characters
    of the CP437 table; it then returns one byte per character, and
    decoding those bytes gives the string back. *)
Theorem cp437_encode_decode (s : jsstring) :
  (is_ok (encodeCp437 s) = true <-> Forall (fun c => c ∈ cp437) s)
  /\ (forall b : Buffer,
         encodeCp437 s = Ok b -> decodeCp437 b = s /\ length b = length s).
Proof.
  unfold encodeCp437. destruct (is_printable_ascii s) eqn:E.
  - split.
    + split; [intros _; now apply printable_ascii_in_table|reflexivity].
    + intros b H. apply Ok_inj in H. subst b.
      rewrite printable_ascii_utf8 by exact E. rewrite decodeCp437_map.
      split; [now apply printable_ascii_decodes|apply length_map].
  - split; [apply encodeCp437_slow_ok|].
    intros b H. rewrite decodeCp437_map.
    pose proof (encodeCp437_slow_sound s b H) as Hs. split; [exact Hs|].
    rewrite <- Hs. now rewrite length_map.
Qed.

End Cp437Theorems.

Section Cp437Witnesses.
Import Cp437.

Lemma cp437_encode_decode_witness :
  decodeCp437 [x82; x74; x82] = [233; 116; 233].
Proof.
  apply (proj2 (cp437_encode_decode [233; 116; 233]) [x82; x74; x82]).
  vm_compute. reflexivity.
Defined.

End Cp437Witnesses.

(** ** Dates, paths and entries of the writer *)
Section EntryTheorems.
Import Zip.

Variable now : Date.

(** X11. Whatever the date, the two DOS words that [dateToDosDateTime]
    builds fit in 16 bits, so they never make a header fail to serialize.
    The date word holds the day, the month and the year minus 1980 reduced
    modulo 128: a year outside 1980..2107 is stored as another year, not
    refused. *)
Theorem dos_words_fit (t : Date) :
  date (dateToDosDateTime t)
  = getUTCDate t + (getUTCMonth t + 1) * 32 + ((getUTCFullYear t - 1980) mod 128) * 512
  /\ time (dateToDosDateTime t)
     = getUTCSeconds t / 2 + getUTCMinutes t * 32 + getUTCHours t * 2048
  /\ 0 <= date (dateToDosDateTime t) < 65536
  /\ 0 <= time (dateToDosDateTime t) < 65536.
Proof. apply dateToDosDateTime_words. Qed.

(** X12. A path that [sanitizeMetadataPath] accepts comes back non-empty,
    without backslashes, not starting with a slash or with a drive letter
    and a colon, without a [..] segment, and ending in a slash exactly when
    it names a directory; sanitizing the result again changes nothing. *)
Theorem sanitized_path (p q : jsstring) (isDirectory : bool) :
  sanitizeMetadataPath p isDirectory = Ok q ->
  q <> []
  /\ Forall (fun c => c <> 92) q
  /\ head q <> Some 47
  /\ (forall c rest, q = c :: 58 :: rest -> is_ascii_letter c = false)
  /\ ([46; 46] ∉ split_slash q)
  /\ (last q = Some 47 <-> isDirectory = true)
  /\ sanitizeMetadataPath q isDirectory = Ok q.
Proof. apply sanitizeMetadataPath_sound. Qed.

(** X13. [createEntry] succeeds exactly when the UTF-8 file name and the
    comment are at most 65535 bytes long and the mode lies in 0..65535. The
    entry then carries the mode in the upper half of its external
    attributes, DOS words that fit in 16 bits, method 8 or 0 as [compress]
    says, no header offset yet, and counts its checksum and sizes as known
    exactly when all three were given. *)
Theorem createEntry_accepts (options : CreateEntryOptions.t) :
  (is_ok (createEntry now options) = true
   <-> blen (Buffer_from_string (CreateEntryOptions.fileName options)) <= 0xffff
       /\ 0 <= CreateEntryOptions.mode options <= 0xffff
       /\ blen (Buffer_from (CreateEntryOptions.comment options)) <= 0xffff)
  /\ (forall entry,
         createEntry now options = Ok entry ->
         Entry.fileName entry = Buffer_from_string (CreateEntryOptions.fileName options)
         /\ Entry.comment entry = Buffer_from (CreateEntryOptions.comment options)
         /\ Entry.externalFileAttributes entry = CreateEntryOptions.mode options * 65536
         /\ 0 <= Entry.lastModFileTime entry < 65536
         /\ 0 <= Entry.lastModFileDate entry < 65536
         /\ Entry.compressionMethod entry
            = (if CreateEntryOptions.compress options then 8 else 0)
         /\ (Entry.crcAndFileSizeKnown entry = true
             <-> is_Some (CreateEntryOptions.crc32 options)
                 /\ is_Some (CreateEntryOptions.uncompressedSize options)
                 /\ is_Some (CreateEntryOptions.compressedSize options))
         /\ Entry.relativeOffsetOfLocalHeader entry = None).
Proof. apply createEntry_sound. Qed.

End EntryTheorems.

Section EntryWitnesses.
Import Zip Samples.

Lemma sanitized_path_witness :
  last [97; 47; 98; 47] = Some 47 <-> true = true.
Proof.
  destruct (sanitized_path [97; 92; 98] [97; 47; 98; 47] true) as (_ & _ & _ & _ & _ & H & _).
  - reflexivity.
  - exact H.
Defined.

Lemma createEntry_accepts_witness :
  exists entry,
    createEntry 0 a_txt_options = Ok entry
    /\ Entry.externalFileAttributes entry = 33204 * 65536.
Proof.
  destruct (createEntry 0 a_txt_options) as [entry|] eqn:E; [|discriminate E].
  exists entry. split; [reflexivity|].
  destruct (proj2 (createEntry_accepts 0 a_txt_options) entry E) as (_ & _ & H & _).
  exact H.
Defined.

End EntryWitnesses.

(** ** The opener on a record that ends the archive *)
Section OpenerRecordFacts.
Import Read Unzip.

Lemma decodeCp437_from_end (b : Buffer) : Cp437.decodeCp437_from b (blen b) = [].
Proof.
  unfold Cp437.decodeCp437_from, Cp437.decodeCp437_range. now rewrite Z.sub_diag.
Qed.

Lemma subarray_from_end (b : Buffer) : subarray_from b (blen b) = [].
Proof.
  pose proof (subarray_from_suffix b []) as H. now rewrite app_nil_r in H.
Qed.

(** An end of central directory record without comment at the end of the
    source is the first place the opener looks at. *)
Lemma opener_on_trailing_record (file : bool) (filePosition : Z) (pre eocdr : Buffer)
    (decodeStrings : bool)
    (n size off : Z) (b20 b21 : byte) :
  eocdr = le_encode 4 0x06054b50 ++ le_encode 2 0 ++ le_encode 2 0
            ++ le_encode 2 n ++ le_encode 2 n ++ le_encode 4 size ++ le_encode 4 off
            ++ [b20; b21] ->
  0 <= n < 0xffff -> 0 <= size < 4294967296 -> 0 <= off < 0xffffffff ->
  let handle := (if file then FileHandle filePosition else BufferHandle) (pre ++ eocdr) in
  (le_decode [b20; b21] <> 0 ->
   fromRandomAccessReader handle (blen (pre ++ eocdr)) decodeStrings
   = Throw "invalid comment length")
  /\ (le_decode [b20; b21] = 0 ->
      fromRandomAccessReader handle (blen (pre ++ eocdr)) decodeStrings
      = Ok {| Unzip.handle := handle;
              centralDirectoryOffset := off;
              fileSize := blen (pre ++ eocdr);
              entryCount := n;
              comment := if decodeStrings then Str [] else Buf [] |}).
Proof.
  intros Heocdr Hn Hsize Hoff handle.
  assert (Hlen : blen eocdr = 22) by (subst eocdr; blen_solve).
  assert (Rsig : readUInt32LE eocdr 0 = Ok 0x06054b50)
    by (subst eocdr; unfold readUInt32LE; read_field).
  assert (Rdisk : readUInt16LE eocdr 4 = Ok 0)
    by (subst eocdr; unfold readUInt16LE; read_field).
  assert (Rcount : readUInt16LE eocdr 10 = Ok n)
    by (subst eocdr; unfold readUInt16LE; read_field).
  assert (Roff : readUInt32LE eocdr 16 = Ok off)
    by (subst eocdr; unfold readUInt32LE; read_field).
  assert (Rlen : readUInt16LE eocdr 20 = Ok (le_decode [b20; b21])).
  { subst eocdr. unfold readUInt16LE. rewrite readUIntLE_in_range by blen_solve.
    rewrite !app_assoc.
    match goal with
    | |- context [drop _ (?a ++ [b20; b21])] =>
        replace (Z.to_nat 20) with (length a)
          by (rewrite !length_app, !length_le_encode; reflexivity);
        rewrite drop_app_length
    end.
    reflexivity. }
  clear Heocdr.
  pose proof (blen_nonneg pre) as Hpre.
  set (content := pre ++ eocdr) in *.
  assert (Hcontent : blen content = blen pre + 22) by (unfold content; rewrite blen_app; lia).
  assert (Hfound :
            fromRandomAccessReader handle (blen content) decodeStrings
            = eocdr_found handle (blen content) decodeStrings
                (blen content - Z.min (blen content) 65557)
                (drop (Z.to_nat (blen content - Z.min (blen content) 65557)) content)
                (Z.min (blen content) 65557 - 22)).
  { unfold fromRandomAccessReader.
    change (eocdrWithoutCommentSize + maxCommentSize) with 65557.
    change eocdrWithoutCommentSize with 22.
    unfold handle. rewrite read_tail by lia. cbn [Js.bind]. fold handle.
    set (sz := Z.min (blen content) 65557).
    replace (Z.to_nat (sz - 22 + 1)) with (S (Z.to_nat (sz - 22))) by (unfold sz; lia).
    replace (sz - 22) with (Z.of_nat (Z.to_nat (sz - 22))) at 2 by (unfold sz; lia).
    apply eocdr_scan_stops.
    - lia.
    - rewrite length_drop. unfold sz, blen in *. lia.
    - rewrite readUInt32LE_drop by (unfold sz, blen in *; lia).
      replace (Z.of_nat (Z.to_nat (blen content - sz) + Z.to_nat (sz - 22))) with (blen pre)
        by (unfold sz; lia).
      unfold content, readUInt32LE. rewrite readUIntLE_in_range by (rewrite ?blen_app; lia).
      unfold blen at 1. rewrite Nat2Z.id, drop_app_length.
      unfold readUInt32LE in Rsig. rewrite readUIntLE_in_range in Rsig by lia.
      exact Rsig.
    - intros j Hj. lia. }
  assert (Hsub : subarray_from
                   (drop (Z.to_nat (blen content - Z.min (blen content) 65557)) content)
                   (Z.min (blen content) 65557 - 22) = eocdr).
  { rewrite subarray_from_drop by (rewrite blen_drop; lia).
    rewrite drop_drop.
    replace (Z.to_nat (blen content - Z.min (blen content) 65557)
             + Z.to_nat (Z.min (blen content) 65557 - 22))%nat with (length pre)
      by (unfold blen in *; lia).
    apply drop_app_length. }
  rewrite Hfound. unfold eocdr_found. rewrite Hsub.
  rewrite Rdisk. cbn [Js.bind]. change (0 =? 0) with true. cbn [negb].
  rewrite Rcount, Roff, Rlen. cbn [Js.bind].
  change eocdrWithoutCommentSize with 22. rewrite Hlen. change (22 - 22) with 0.
  split; intros Hword.
  - now replace (le_decode [b20; b21] =? 0) with false by (symmetry; apply Z.eqb_neq; lia).
  - rewrite Hword. change (0 =? 0) with true. cbn [negb].
    replace (n =? 0xffff) with false by (symmetry; apply Z.eqb_neq; lia).
    replace (off =? 0xffffffff) with false by (symmetry; apply Z.eqb_neq; lia).
    cbn [negb andb].
    replace 22 with (blen eocdr) by exact Hlen.
    now rewrite decodeCp437_from_end, subarray_from_end.
Qed.

End OpenerRecordFacts.

(** ** Entries written without ZIP64 fields *)
Section PlainEntryFacts.
Import Write Zip.

Variable fill : nat -> byte.

Lemma getLocalFileHeader_plain (entry : Entry.t) (us cs : Z) :
  Entry.crcAndFileSizeKnown entry = true ->
  Entry.forceZip64Format entry = false ->
  Entry.uncompressedSize entry = Some us -> us < 0xffffffff ->
  Entry.compressedSize entry = Some cs -> cs < 0xffffffff ->
  getLocalFileHeader fill entry
  = serializeLocalFileHeader fill
      {| LocalFileHeader.versionNeededToExtract := 20;
         LocalFileHeader.generalPurposeBitFlag := 0x0800;
         LocalFileHeader.compressionMethod := Entry.compressionMethod entry;
         LocalFileHeader.fileLastModificationTime := Entry.lastModFileTime entry;
         LocalFileHeader.fileLastModificationDate := Entry.lastModFileDate entry;
         LocalFileHeader.crc32 := Entry.crc32 entry;
         LocalFileHeader.compressedSize := Some cs;
         LocalFileHeader.uncompressedSize := Some us;
         LocalFileHeader.fileName := Entry.fileName entry;
         LocalFileHeader.extraFields := ExtraList [] |}.
Proof.
  intros Hknown Hforce Hus Hus' Hcs Hcs'. unfold getLocalFileHeader.
  rewrite Hknown, Hforce, Hus, Hcs. cbn [negb orb ge_ffffffff].
  replace (0xffffffff <=? us) with false by (symmetry; apply Z.leb_gt; lia).
  replace (0xffffffff <=? cs) with false by (symmetry; apply Z.leb_gt; lia).
  reflexivity.
Qed.

Lemma getCentralDirectoryRecord_plain (entry : Entry.t) (us cs off : Z) :
  Entry.crcAndFileSizeKnown entry = true ->
  Entry.forceZip64Format entry = false ->
  Entry.uncompressedSize entry = Some us -> us < 0xffffffff ->
  Entry.compressedSize entry = Some cs -> cs < 0xffffffff ->
  Entry.relativeOffsetOfLocalHeader entry = Some off -> off < 0xffffffff ->
  getCentralDirectoryRecord fill entry
  = serializeCentralDirectoryFileHeader fill
      {| CentralDirectoryFileHeader.versionMadeBy := 831;
         CentralDirectoryFileHeader.versionNeededToExtract := 20;
         CentralDirectoryFileHeader.generalPurposeBitFlag := 0x0800;
         CentralDirectoryFileHeader.compressionMethod := Entry.compressionMethod entry;
         CentralDirectoryFileHeader.fileLastModificationDate := Entry.lastModFileDate entry;
         CentralDirectoryFileHeader.fileLastModificationTime := Entry.lastModFileTime entry;
         CentralDirectoryFileHeader.crc32 := Entry.crc32 entry;
         CentralDirectoryFileHeader.compressedSize := Some cs;
         CentralDirectoryFileHeader.uncompressedSize := Some us;
         CentralDirectoryFileHeader.diskNumberStart := 0;
         CentralDirectoryFileHeader.internalFileAttributes := 0;
         CentralDirectoryFileHeader.externalFileAttributes :=
           Entry.externalFileAttributes entry;
         CentralDirectoryFileHeader.relativeOffsetOfLocalHeader := Some off;
         CentralDirectoryFileHeader.fileName := Entry.fileName entry;
         CentralDirectoryFileHeader.extraFields := ExtraList [];
         CentralDirectoryFileHeader.comment := Entry.comment entry |}.
Proof.
  intros Hknown Hforce Hus Hus' Hcs Hcs' Hoff Hoff'. unfold getCentralDirectoryRecord.
  rewrite Hknown, Hforce, Hus, Hcs, Hoff. cbn [negb orb ge_ffffffff].
  replace (0xffffffff <=? us) with false by (symmetry; apply Z.leb_gt; lia).
  replace (0xffffffff <=? cs) with false by (symmetry; apply Z.leb_gt; lia).
  replace (0xffffffff <=? off) with false by (symmetry; apply Z.leb_gt; lia).
  reflexivity.
Qed.

End PlainEntryFacts.

(** ** A stored buffer written and read back *)
Section StoredWriteFacts.
Import Write Zip Zip.Class.

Variable fill : nat -> byte.
Variable crc32 : Buffer -> Z -> Z.
Variable deflateRaw : Buffer -> result Buffer.
Variable now : Date.

(** More about the entry of a resolved [addBuffer]. *)
Lemma addBuffer_resolved_entry (self self' : Zip) (buffer : Buffer) (fileName : jsstring)
    (options : Options.t) (e : Entry.t) :
  addBuffer fill crc32 deflateRaw now self buffer fileName options = (self', Resolved e) ->
  blen buffer <= 0x3fffffff
  /\ queue self' = Some Fulfilled
  /\ Entry.forceZip64Format e = default false (Options.forceZip64Format options)
  /\ Entry.compressionMethod e = (if default true (Options.compress options) then 8 else 0)
  /\ Entry.comment e = Buffer_from (default (Buf EMPTY_BUFFER) (Options.comment options)).
Proof.
  unfold addBuffer.
  destruct (sanitizeMetadataPath fileName false) as [name|]; [|discriminate].
  destruct (Z.ltb_spec 0x3fffffff (blen buffer)) as [|Hsize]; [discriminate|].
  unfold Zip.addEntry. intros H. apply enqueue_resolved in H as [Hq H].
  destruct (if default true (Options.compress options) then deflateRaw buffer else Ok buffer)
    as [data|]; cbn [Js.bind] in H; [|discriminate].
  destruct (createEntry now _) as [entry|] eqn:Ecreate; cbn [Js.bind] in H; [|discriminate].
  destruct (createEntry_sizes _ _ _ Ecreate) as (Hcrc & Hus & Hcs & Hforce).
  destruct (proj2 (createEntry_sound now _) entry Ecreate)
    as (_ & Hcomment & _ & _ & _ & Hmethod & Hknown & _).
  cbn [CreateEntryOptions.crc32 CreateEntryOptions.uncompressedSize
       CreateEntryOptions.compressedSize CreateEntryOptions.fileName
       CreateEntryOptions.forceZip64Format CreateEntryOptions.compress
       CreateEntryOptions.comment] in *.
  rewrite addEntry_queued_buffer in H;
    [|apply Hknown; rewrite <- ?Hcrc, <- ?Hus, <- ?Hcs; eauto|exact Hcs].
  cbv zeta in H. rewrite getLocalFileHeader_offset in H.
  destruct (getLocalFileHeader fill entry) as [header|] eqn:Eheader; [|discriminate].
  apply pair_equal_spec in H as [<- H]. apply Some_Ok_inj in H. subst e.
  cbn [queue set_entries set_outputStreamCursor push Entry.forceZip64Format
       Entry.compressionMethod Entry.comment Entry.set_relativeOffsetOfLocalHeader].
  repeat split; assumption.
Qed.

End StoredWriteFacts.

Section StoredReadFacts.
Import Read Unzip.

Variable crc32 : Buffer -> Z -> Z.
Variable Buffer_toString : Buffer -> jsstring.
Variable createInflateRaw : Run -> Run.
Variable fileChunks : Buffer -> list Buffer.

(** The entry for a central directory file header that carries the UTF-8
    flag alone, no extra field and no ZIP64 sentinel. *)
Lemma readEntry_of_header_plain (h : CDFH.t) (decodeStrings : bool) :
  CDFH.generalPurposeBitFlag h = 0x0800 ->
  CDFH.uncompressedSize h <> 0xffffffff ->
  CDFH.compressedSize h <> 0xffffffff ->
  CDFH.relativeOffsetOfLocalHeader h <> 0xffffffff ->
  CDFH.diskNumberStart h = 0 ->
  CDFH.extraFields h = [] ->
  readEntry_of_header crc32 Buffer_toString h decodeStrings
  = Ok {| Entry.centralDirectoryFileHeader := h;
          Entry.fileName :=
            if decodeStrings then Str (Buffer_toString (CDFH.fileName h))
            else Buf (CDFH.fileName h);
          Entry.comment :=
            if decodeStrings then Str (Buffer_toString (CDFH.comment h))
            else Buf (CDFH.comment h);
          Entry.modificationDate :=
            dosDateTimeToDate (CDFH.fileLastModificationDate h)
                              (CDFH.fileLastModificationTime h);
          Entry.compressedSize := CDFH.compressedSize h;
          Entry.uncompressedSize := CDFH.uncompressedSize h;
          Entry.relativeOffsetOfLocalHeader := CDFH.relativeOffsetOfLocalHeader h;
          Entry.diskNumberStart := 0;
          Entry.encrypted := false;
          Entry.compressed :=
            if CDFH.compressionMethod h =? compressionMethods.none then Some false
            else if CDFH.compressionMethod h =? compressionMethods.deflate then Some true
            else None |}.
Proof.
  intros Hflag Hus Hcs Hoff Hdisk Hextra.
  unfold readEntry_of_header, readEntry_zip64, unicodePath.
  rewrite Hflag, Hdisk, Hextra.
  change (bitand 0x0800 generalPurposeBitFlags.strongEncryption =? 0) with true.
  change (bitand 0x0800 generalPurposeBitFlags.utf8 =? 0) with false.
  change (bitand 0x0800 generalPurposeBitFlags.encrypted =? 0) with true.
  cbn [negb].
  replace (CDFH.uncompressedSize h =? 0xffffffff) with false
    by (symmetry; now apply Z.eqb_neq).
  replace (CDFH.compressedSize h =? 0xffffffff) with false
    by (symmetry; now apply Z.eqb_neq).
  replace (CDFH.relativeOffsetOfLocalHeader h =? 0xffffffff) with false
    by (symmetry; now apply Z.eqb_neq).
  change (0 =? 0xffff) with false. cbn [orb Js.bind find fmap option_fmap option_map].
  destruct decodeStrings; reflexivity.
Qed.

(** Reading, with the default options, an entry without compression whose
    header and data lie in a buffer. *)
Lemma openReadStream_stored (pre header data post : Buffer) (entry : Entry.t)
    (localFileHeader : LocalFileHeader.t) :
  readLocalFileHeader (BufferHandle (pre ++ header ++ data ++ post)) (blen pre)
  = Ok localFileHeader ->
  30 + LocalFileHeader.fileNameLength localFileHeader
  + LocalFileHeader.extraFieldsLength localFileHeader = blen header ->
  LocalFileHeader.compressionMethod localFileHeader = 0 ->
  Entry.relativeOffsetOfLocalHeader entry = blen pre ->
  Entry.compressedSize entry = blen data ->
  Entry.uncompressedSize entry = blen data ->
  CDFH.crc32 (Entry.centralDirectoryFileHeader entry) = crc32 data 0 ->
  blen pre + blen header + blen data < MAX_SAFE_INTEGER ->
  openReadStream crc32 createInflateRaw fileChunks
    (BufferHandle (pre ++ header ++ data ++ post)) entry UnzipEntryOptions.default
  = Ok (Flows {| chunks := [data]; failure := None |}).
Proof.
  intros Hlocal Hlen Hmethod Hoff Hcs Hus Hcrc Hsafe.
  pose proof (blen_nonneg pre). pose proof (blen_nonneg header).
  pose proof (blen_nonneg data).
  unfold openReadStream.
  cbn [UnzipEntryOptions.start UnzipEntryOptions.end_ UnzipEntryOptions.default
       UnzipEntryOptions.decompress UnzipEntryOptions.validateData
       UnzipEntryOptions.decrypt].
  replace (bool_decide (is_Some (@None Z))) with false
    by (symmetry; apply bool_decide_eq_false; intros [x Hx]; discriminate).
  cbn [orb andb Js.bind].
  rewrite Hoff, Hlocal. cbn [Js.bind]. rewrite Hmethod, Hlen, Hcs.
  change (0 =? compressionMethods.none) with true.
  change (0 =? compressionMethods.deflate) with false.
  cbn [negb andb orb].
  unfold createReadStream.
  replace (MAX_SAFE_INTEGER <=? blen pre + blen header + 0) with false
    by (symmetry; apply Z.leb_gt; lia).
  replace (MAX_SAFE_INTEGER <=? blen pre + blen header + blen data) with false
    by (symmetry; apply Z.leb_gt; lia).
  cbn [orb Js.bind].
  replace (bool_decide (@None bool = Some false)) with false
    by (symmetry; apply bool_decide_eq_false; discriminate).
  cbn [negb andb].
  replace (subarray (pre ++ header ++ data ++ post) (blen pre + blen header + 0)
             (blen pre + blen header + blen data)) with data.
  2:{ rewrite Z.add_0_r. rewrite (app_assoc pre header).
      rewrite <- (blen_app pre header). now rewrite subarray_middle. }
  unfold validate. cbn [chunks failure].
  rewrite tap_passes.
  2:{ cbn [bytes]. unfold stream_length. cbn [concat]. rewrite app_nil_r. lia. }
  cbn [bytes tap_crc32 foldl]. unfold tap_flush. cbn [bytes tap_crc32].
  unfold stream_length. cbn [concat]. rewrite app_nil_r, Hus, Hcrc.
  rewrite Z.add_0_l, !Z.eqb_refl. reflexivity.
Qed.

End StoredReadFacts.

Section StoredRoundTrip.

Variable fill : nat -> byte.
Variable crc32 : Buffer -> Z -> Z.
Variable deflateRaw : Buffer -> result Buffer.
Variable now : Date.
Variable Buffer_toString : Buffer -> jsstring.
Variable createInflateRaw : Run -> Run.
Variable fileChunks : Buffer -> list Buffer.

(** The archive that [addBuffer] without compression and then
    [addCentralDirectoryRecord] without comment push on a new writer. *)
Lemma stored_archive_shape (buffer : Buffer) (fileName : jsstring)
    (options options' : Zip.Options.t) (s1 s2 : Zip.Zip) (e : Zip.Entry.t) :
  Zip.Options.compress options = Some false ->
  default false (Zip.Options.forceZip64Format options) = false ->
  Zip.Options.comment options' = None ->
  default false (Zip.Options.forceZip64Format options') = false ->
  Zip.Class.addBuffer fill crc32 deflateRaw now (Zip.new 0) buffer fileName options
  = (s1, Zip.Resolved e) ->
  Zip.Class.addCentralDirectoryRecord fill s1 options' = (s2, Zip.Resolved tt) ->
  exists header record eocdr,
    Zip.pushed s2 = [header; buffer; record; eocdr]
    /\ Write.serializeLocalFileHeader fill
         {| Write.LocalFileHeader.versionNeededToExtract := 20;
            Write.LocalFileHeader.generalPurposeBitFlag := 0x0800;
            Write.LocalFileHeader.compressionMethod := 0;
            Write.LocalFileHeader.fileLastModificationTime := Zip.Entry.lastModFileTime e;
            Write.LocalFileHeader.fileLastModificationDate := Zip.Entry.lastModFileDate e;
            Write.LocalFileHeader.crc32 := Some (crc32 buffer 0);
            Write.LocalFileHeader.compressedSize := Some (blen buffer);
            Write.LocalFileHeader.uncompressedSize := Some (blen buffer);
            Write.LocalFileHeader.fileName := Zip.Entry.fileName e;
            Write.LocalFileHeader.extraFields := Write.ExtraList [] |} = Ok header
    /\ Write.serializeCentralDirectoryFileHeader fill
         {| Write.CentralDirectoryFileHeader.versionMadeBy := 831;
            Write.CentralDirectoryFileHeader.versionNeededToExtract := 20;
            Write.CentralDirectoryFileHeader.generalPurposeBitFlag := 0x0800;
            Write.CentralDirectoryFileHeader.compressionMethod := 0;
            Write.CentralDirectoryFileHeader.fileLastModificationDate :=
              Zip.Entry.lastModFileDate e;
            Write.CentralDirectoryFileHeader.fileLastModificationTime :=
              Zip.Entry.lastModFileTime e;
            Write.CentralDirectoryFileHeader.crc32 := Some (crc32 buffer 0);
            Write.CentralDirectoryFileHeader.compressedSize := Some (blen buffer);
            Write.CentralDirectoryFileHeader.uncompressedSize := Some (blen buffer);
            Write.CentralDirectoryFileHeader.diskNumberStart := 0;
            Write.CentralDirectoryFileHeader.internalFileAttributes := 0;
            Write.CentralDirectoryFileHeader.externalFileAttributes :=
              Zip.Entry.externalFileAttributes e;
            Write.CentralDirectoryFileHeader.relativeOffsetOfLocalHeader := Some 0;
            Write.CentralDirectoryFileHeader.fileName := Zip.Entry.fileName e;
            Write.CentralDirectoryFileHeader.extraFields := Write.ExtraList [];
            Write.CentralDirectoryFileHeader.comment := Zip.Entry.comment e |} = Ok record
    /\ Zip.getEndOfCentralDirectoryRecord fill 1 (blen header + blen buffer + blen record)
         (blen header + blen buffer) [] false = Ok eocdr
    /\ blen buffer <= 0x3fffffff.
Proof.
  intros Hcompress Hforce Hcomment Hforce' Hadd Hcd.
  destruct (addBuffer_resolved_entry _ _ _ _ _ _ _ _ _ _ Hadd)
    as (Hsize & Hq1 & Hforce_e & Hmethod & _).
  destruct (addBuffer_resolved _ _ _ _ _ _ _ _ _ _ Hadd)
    as (name & data & header & _ & Hdata & Hheader & Hpushed & Hentries & Hcursor & Hoff
        & _ & Hcrc & Hus & Hcs & Hknown).
  rewrite Hcompress in Hdata, Hmethod. cbn [default] in Hdata, Hmethod.
  unfold Datatypes.id in Hdata, Hmethod. apply Ok_inj in Hdata. subst data.
  rewrite Hforce in Hforce_e.
  cbn [Zip.new Zip.pushed Zip.entries Zip.outputStreamCursor app] in Hpushed, Hentries,
    Hcursor, Hoff.
  rewrite Z.add_0_l in Hcursor.
  destruct (addCentralDirectoryRecord_resolved _ _ _ _ Hcd)
    as (comment & records & eocdr & Hc & _ & _ & Hrecords & Heocdr & Hpushed2 & _).
  rewrite Hcomment in Hc. cbn [default] in Hc. unfold Datatypes.id in Hc.
  apply Ok_inj in Hc. subst comment.
  rewrite Hforce' in Heocdr.
  rewrite Hentries in Hrecords, Heocdr.
  apply Forall2_cons_inv_l in Hrecords as (record & rest & Hrecord & Hnil & ->).
  apply Forall2_nil_inv_l in Hnil. subst rest.
  cbn [concat length] in Heocdr. rewrite app_nil_r, Hcursor in Heocdr.
  change (Z.of_nat 1) with 1 in Heocdr.
  rewrite (getLocalFileHeader_plain fill e (blen buffer) (blen buffer)) in Hheader
    by (try assumption; lia).
  rewrite (getCentralDirectoryRecord_plain fill e (blen buffer) (blen buffer) 0) in Hrecord
    by (try assumption; lia).
  rewrite Hmethod, Hcrc in Hheader, Hrecord.
  exists header, record, eocdr.
  rewrite Hpushed2, Hpushed. cbn [app].
  repeat split; assumption.
Qed.

(** Reading that archive back. *)
Lemma stored_archive_reads_back (buffer : Buffer) (fileName : jsstring)
    (options options' : Zip.Options.t) (s1 s2 : Zip.Zip) (e : Zip.Entry.t)
    (decodeStrings : bool) :
  Zip.Options.compress options = Some false ->
  default false (Zip.Options.forceZip64Format options) = false ->
  Zip.Options.comment options' = None ->
  default false (Zip.Options.forceZip64Format options') = false ->
  Zip.Class.addBuffer fill crc32 deflateRaw now (Zip.new 0) buffer fileName options
  = (s1, Zip.Resolved e) ->
  Zip.Class.addCentralDirectoryRecord fill s1 options' = (s2, Zip.Resolved tt) ->
  (le_decode [fill 20%nat; fill 21%nat] <> 0 ->
   Unzip.fromBuffer (concat (Zip.pushed s2)) decodeStrings = Throw "invalid comment length")
  /\ (le_decode [fill 20%nat; fill 21%nat] = 0 ->
      exists unzip entry,
        Unzip.fromBuffer (concat (Zip.pushed s2)) decodeStrings = Ok unzip
        /\ Unzip.entries crc32 Buffer_toString unzip decodeStrings = ([entry], None)
        /\ Unzip.Entry.fileName entry
           = (if decodeStrings then Str (Buffer_toString (Zip.Entry.fileName e))
              else Buf (Zip.Entry.fileName e))
        /\ Unzip.Entry.uncompressedSize entry = blen buffer
        /\ Unzip.Entry.compressed entry = Some false
        /\ Unzip.openReadStream crc32 createInflateRaw fileChunks
             (Read.BufferHandle (concat (Zip.pushed s2))) entry Unzip.UnzipEntryOptions.default
           = Ok (Flows {| chunks := [buffer]; failure := None |})).
Proof.
  intros Hcompress Hforce Hcomment Hforce' Hadd Hcd.
  destruct (stored_archive_shape _ _ _ _ _ _ _ Hcompress Hforce Hcomment Hforce' Hadd Hcd)
    as (header & record & eocdr & -> & Hheader & Hrecord & Heocdr & Hsize).
  cbn [concat]. rewrite app_nil_r.
  pose proof (blen_nonneg buffer) as Hbuffer.
  (* the lengths of the two headers *)
  match type of Hheader with
  | Write.serializeLocalFileHeader _ ?o = _ =>
      destruct (serializeLocalFileHeader_inv fill o [] header eq_refl Hheader)
        as (extra & Hextra & _ & _ & (Hcrc & _) & Hname & _)
  end.
  cbn [Write.serializeExtraFields_list] in Hextra. apply Ok_inj in Hextra. subst extra.
  cbn [Write.LocalFileHeader.fileName Write.LocalFileHeader.crc32 default] in Hname, Hcrc.
  unfold Datatypes.id in Hcrc.
  match type of Hrecord with
  | Write.serializeCentralDirectoryFileHeader _ ?o = _ =>
      destruct (serializeCentralDirectoryFileHeader_inv fill o [] record eq_refl Hrecord)
        as (extra & Hextra & _ & _ & _ & (_ & _ & Hk) & _)
  end.
  cbn [Write.CentralDirectoryFileHeader.comment] in Hk. clear extra Hextra.
  pose proof (blen_nonneg (Zip.Entry.fileName e)) as Hname0.
  pose proof (blen_nonneg (Zip.Entry.comment e)) as Hk0.
  match type of Hheader with
  | Write.serializeLocalFileHeader _ ?o = _ =>
      destruct (readLocalFileHeader_serialized fill false 0 o [] header []
                  (buffer ++ record ++ eocdr) eq_refl Hheader)
        as (extra & Hextra & Hlen & Hlocal)
  end.
  cbn [Write.serializeExtraFields Write.serializeExtraFields_list] in Hextra.
  apply Ok_inj in Hextra. subst extra.
  change (blen []) with 0 in Hlen, Hlocal.
  cbn [Write.LocalFileHeader.fileName app] in Hlen.
  match type of Hrecord with
  | Write.serializeCentralDirectoryFileHeader _ ?o = _ =>
      destruct (readCentralDirectoryFileHeader_serialized fill false 0 o [] record
                  (header ++ buffer) eocdr eq_refl Hrecord)
        as (extra & Hextra & Hlen' & Hcentral)
  end.
  cbn [Write.serializeExtraFields Write.serializeExtraFields_list] in Hextra.
  apply Ok_inj in Hextra. subst extra.
  change (blen []) with 0 in Hlen', Hcentral.
  cbn [Write.CentralDirectoryFileHeader.fileName Write.CentralDirectoryFileHeader.comment]
    in Hlen'.
  rewrite blen_app in Hcentral. rewrite <- app_assoc in Hcentral.
  (* the end record *)
  rewrite getEndOfCentralDirectoryRecord_classic in Heocdr by lia.
  apply Ok_inj in Heocdr. rewrite app_nil_r in Heocdr. symmetry in Heocdr.
  replace (blen header + blen buffer + blen record - (blen header + blen buffer))
    with (blen record) in Heocdr by lia.
  destruct (opener_on_trailing_record false 0 (header ++ buffer ++ record) eocdr decodeStrings
              1 (blen record) (blen header + blen buffer) (fill 20%nat) (fill 21%nat)
              Heocdr ltac:(lia) ltac:(lia) ltac:(lia)) as [Hbad Hgood].
  rewrite <- !app_assoc in Hbad, Hgood.
  unfold Unzip.fromBuffer.
  split; [exact Hbad|]. intros Hword. specialize (Hgood Hword).
  eexists. eexists. split; [exact Hgood|].
  unfold Unzip.entries.
  cbn [Unzip.handle Unzip.entryCount Unzip.centralDirectoryOffset].
  change (Z.to_nat 1) with 1%nat. cbn [Unzip.entries_loop]. unfold Unzip.readEntry.
  cbv iota in Hcentral. rewrite Hcentral. cbn [Js.bind].
  rewrite readEntry_of_header_plain;
    cbn [Unzip.CDFH.generalPurposeBitFlag Unzip.CDFH.uncompressedSize
         Unzip.CDFH.compressedSize Unzip.CDFH.relativeOffsetOfLocalHeader
         Unzip.CDFH.diskNumberStart Unzip.CDFH.extraFields
         Write.CentralDirectoryFileHeader.generalPurposeBitFlag
         Write.CentralDirectoryFileHeader.uncompressedSize
         Write.CentralDirectoryFileHeader.compressedSize
         Write.CentralDirectoryFileHeader.relativeOffsetOfLocalHeader
         Write.CentralDirectoryFileHeader.diskNumberStart default];
    unfold Datatypes.id; try reflexivity; try lia.
  cbn [fst snd Unzip.Entry.fileName Unzip.Entry.uncompressedSize Unzip.Entry.compressed
       Unzip.CDFH.fileName Unzip.CDFH.uncompressedSize Unzip.CDFH.compressionMethod
       Write.CentralDirectoryFileHeader.fileName
       Write.CentralDirectoryFileHeader.uncompressedSize
       Write.CentralDirectoryFileHeader.compressionMethod default].
  unfold Datatypes.id.
  split; [reflexivity|]. split; [reflexivity|]. split; [reflexivity|].
  split; [reflexivity|].
  change (header ++ buffer ++ record ++ eocdr)
    with ([] ++ header ++ buffer ++ record ++ eocdr).
  cbv iota in Hlocal.
  eapply openReadStream_stored; [exact Hlocal|..];
    cbn [Read.LocalFileHeader.fileNameLength Read.LocalFileHeader.extraFieldsLength
         Read.LocalFileHeader.compressionMethod Write.LocalFileHeader.fileName
         Write.LocalFileHeader.compressionMethod
         Unzip.Entry.relativeOffsetOfLocalHeader Unzip.Entry.compressedSize
         Unzip.Entry.uncompressedSize Unzip.Entry.centralDirectoryFileHeader
         Unzip.CDFH.crc32 Unzip.CDFH.relativeOffsetOfLocalHeader
         Unzip.CDFH.compressedSize Unzip.CDFH.uncompressedSize
         Write.CentralDirectoryFileHeader.crc32
         Write.CentralDirectoryFileHeader.relativeOffsetOfLocalHeader
         Write.CentralDirectoryFileHeader.compressedSize
         Write.CentralDirectoryFileHeader.uncompressedSize default];
    unfold Datatypes.id; change (blen []) with 0; try reflexivity; try lia.
  unfold MAX_SAFE_INTEGER. change (2 ^ 53 - 1) with 9007199254740991. lia.
Qed.

End StoredRoundTrip.

(** ** The opener on ZIP64 end records *)
Section OpenerZip64Facts.
Import Read Unzip.

Lemma read_at_position (file : bool) (filePosition : Z) (pre mid post : Buffer)
    (position length : Z) :
  position = blen pre -> length = blen mid ->
  read ((if file then FileHandle filePosition else BufferHandle) (pre ++ mid ++ post))
    position length
  = Ok mid.
Proof. intros -> ->. apply read_middle. Qed.

(** The three end records of a ZIP64 archive, as the writer lays them out
    behind [pre], lead the opener to the 64-bit count and offset. *)
Lemma opener_on_zip64_records (file : bool) (filePosition : Z) (pre z64 loc eocdr : Buffer)
    (decodeStrings : bool) (vm vn n size off n16 size32 off32 : Z) (b20 b21 : byte) :
  z64 = le_encode 4 0x06064b50 ++ le_encode 8 44 ++ le_encode 2 vm ++ le_encode 2 vn
          ++ le_encode 4 0 ++ le_encode 4 0 ++ le_encode 8 n ++ le_encode 8 n
          ++ le_encode 8 size ++ le_encode 8 off ->
  loc = le_encode 4 0x07064b50 ++ le_encode 4 0 ++ le_encode 8 (blen pre) ++ le_encode 4 1 ->
  eocdr = le_encode 4 0x06054b50 ++ le_encode 2 0 ++ le_encode 2 0
            ++ le_encode 2 n16 ++ le_encode 2 n16 ++ le_encode 4 size32 ++ le_encode 4 off32
            ++ [b20; b21] ->
  0 <= n < 2 ^ 64 -> 0 <= off < 2 ^ 64 -> blen pre < 2 ^ 64 ->
  0 <= n16 < 65536 -> 0 <= size32 < 4294967296 -> 0 <= off32 < 4294967296 ->
  n16 = 0xffff \/ off32 = 0xffffffff ->
  le_decode [b20; b21] = 0 ->
  let handle :=
    (if file then FileHandle filePosition else BufferHandle) (pre ++ z64 ++ loc ++ eocdr) in
  fromRandomAccessReader handle (blen (pre ++ z64 ++ loc ++ eocdr)) decodeStrings
  = Ok {| Unzip.handle := handle;
          centralDirectoryOffset := off;
          fileSize := blen (pre ++ z64 ++ loc ++ eocdr);
          entryCount := n;
          comment := if decodeStrings then Str [] else Buf [] |}.
Proof.
  intros Hz64 Hloc Heocdr Hn Hoff Hpre64 Hn16 Hsize32 Hoff32 Hsentinel Hword handle.
  assert (Hlen : blen eocdr = 22) by (subst eocdr; blen_solve).
  assert (Hlenl : blen loc = 20) by (subst loc; blen_solve).
  assert (Hlenz : blen z64 = 56) by (subst z64; blen_solve).
  pose proof (blen_nonneg pre) as Hpre.
  assert (Rsig : readUInt32LE eocdr 0 = Ok 0x06054b50)
    by (subst eocdr; unfold readUInt32LE; read_field).
  assert (Rdisk : readUInt16LE eocdr 4 = Ok 0)
    by (subst eocdr; unfold readUInt16LE; read_field).
  assert (Rcount : readUInt16LE eocdr 10 = Ok n16)
    by (subst eocdr; unfold readUInt16LE; read_field).
  assert (Roff : readUInt32LE eocdr 16 = Ok off32)
    by (subst eocdr; unfold readUInt32LE; read_field).
  assert (Rlen : readUInt16LE eocdr 20 = Ok (le_decode [b20; b21])).
  { subst eocdr. unfold readUInt16LE. rewrite readUIntLE_in_range by blen_solve.
    rewrite !app_assoc.
    match goal with
    | |- context [drop _ (?a ++ [b20; b21])] =>
        replace (Z.to_nat 20) with (length a)
          by (rewrite !length_app, !length_le_encode; reflexivity);
        rewrite drop_app_length
    end.
    reflexivity. }
  assert (Rlsig : readUInt32LE loc 0 = Ok 0x07064b50)
    by (subst loc; unfold readUInt32LE; read_field).
  assert (Rloff : readBigUInt64LE loc 8 = Ok (blen pre))
    by (subst loc; unfold readBigUInt64LE; read_field).
  assert (Rzsig : readUInt32LE z64 0 = Ok 0x06064b50)
    by (subst z64; unfold readUInt32LE; read_field).
  assert (Rzn : readBigUInt64LE z64 32 = Ok n)
    by (subst z64; unfold readBigUInt64LE; read_field).
  assert (Rzoff : readBigUInt64LE z64 48 = Ok off)
    by (subst z64; unfold readBigUInt64LE; read_field).
  clear Hz64 Hloc Heocdr.
  set (content := pre ++ z64 ++ loc ++ eocdr) in *.
  assert (Hcontent : blen content = blen pre + 98)
    by (unfold content; rewrite !blen_app; lia).
  assert (Hfound :
            fromRandomAccessReader handle (blen content) decodeStrings
            = eocdr_found handle (blen content) decodeStrings
                (blen content - Z.min (blen content) 65557)
                (drop (Z.to_nat (blen content - Z.min (blen content) 65557)) content)
                (Z.min (blen content) 65557 - 22)).
  { unfold fromRandomAccessReader.
    change (eocdrWithoutCommentSize + maxCommentSize) with 65557.
    change eocdrWithoutCommentSize with 22.
    unfold handle. rewrite read_tail by lia. cbn [Js.bind]. fold handle.
    set (sz := Z.min (blen content) 65557).
    replace (Z.to_nat (sz - 22 + 1)) with (S (Z.to_nat (sz - 22))) by (unfold sz; lia).
    replace (sz - 22) with (Z.of_nat (Z.to_nat (sz - 22))) at 2 by (unfold sz; lia).
    apply eocdr_scan_stops.
    - lia.
    - rewrite length_drop. unfold sz, blen in *. lia.
    - rewrite readUInt32LE_drop by (unfold sz, blen in *; lia).
      replace (Z.of_nat (Z.to_nat (blen content - sz) + Z.to_nat (sz - 22)))
        with (blen (pre ++ z64 ++ loc))
        by (rewrite !blen_app; unfold sz; lia).
      unfold content, readUInt32LE.
      replace (pre ++ z64 ++ loc ++ eocdr) with ((pre ++ z64 ++ loc) ++ eocdr)
        by now rewrite <- !app_assoc.
      rewrite readUIntLE_in_range by (rewrite ?blen_app; lia).
      unfold blen at 1. rewrite Nat2Z.id, drop_app_length.
      unfold readUInt32LE in Rsig. rewrite readUIntLE_in_range in Rsig by lia.
      exact Rsig.
    - intros j Hj. lia. }
  assert (Hsub : subarray_from
                   (drop (Z.to_nat (blen content - Z.min (blen content) 65557)) content)
                   (Z.min (blen content) 65557 - 22) = eocdr).
  { rewrite subarray_from_drop by (rewrite blen_drop; lia).
    rewrite drop_drop.
    replace (Z.to_nat (blen content - Z.min (blen content) 65557)
             + Z.to_nat (Z.min (blen content) 65557 - 22))%nat
      with (length (pre ++ z64 ++ loc))
      by (rewrite !length_app; unfold blen in *; lia).
    unfold content.
    replace (pre ++ z64 ++ loc ++ eocdr) with ((pre ++ z64 ++ loc) ++ eocdr)
      by now rewrite <- !app_assoc.
    apply drop_app_length. }
  rewrite Hfound. unfold eocdr_found. rewrite Hsub.
  rewrite Rdisk. cbn [Js.bind]. change (0 =? 0) with true. cbn [negb].
  rewrite Rcount, Roff, Rlen. cbn [Js.bind].
  change eocdrWithoutCommentSize with 22. rewrite Hlen, Hword.
  change (0 =? 22 - 22) with true. cbn [negb].
  replace (negb (n16 =? 0xffff) && negb (off32 =? 0xffffffff)) with false.
  2:{ symmetry. apply andb_false_iff.
      destruct Hsentinel as [->| ->]; [left|right]; reflexivity. }
  assert (Rloc : read handle
                    (blen content - Z.min (blen content) 65557
                     + (Z.min (blen content) 65557 - 22 - 20)) 20 = Ok loc).
  { unfold handle, content.
    replace (pre ++ z64 ++ loc ++ eocdr) with ((pre ++ z64) ++ loc ++ eocdr)
      by now rewrite <- !app_assoc.
    apply read_at_position; rewrite ?blen_app; lia. }
  assert (Rz64 : read handle (blen pre) 56 = Ok z64).
  { unfold handle, content. apply read_at_position; lia. }
  rewrite Rloc. cbn [Js.bind]. rewrite Rlsig. cbn [Js.bind].
  change (0x07064b50 =? 0x07064b50) with true. cbn [negb].
  rewrite Rloff. cbn [Js.bind]. rewrite Rz64.
  cbn [Js.bind]. rewrite Rzsig. cbn [Js.bind].
  change (0x06064b50 =? 0x06064b50) with true. cbn [negb].
  rewrite Rzn, Rzoff. cbn [Js.bind].
  replace 22 with (blen eocdr) by exact Hlen.
  now rewrite decodeCp437_from_end, subarray_from_end.
Qed.

End OpenerZip64Facts.

(** ** Positioned reads *)
Section ReadFacts.
Import Read Unzip.

Variable crc32 : Buffer -> Z -> Z.
Variable createInflateRaw : Run -> Run.
Variable fileChunks : Buffer -> list Buffer.

Lemma read_buffer_spec (content : Buffer) (position length : Z) :
  0 <= position -> 0 <= length ->
  read (BufferHandle content) position length
  = if blen content <? length + position then Throw "unexpected EOF"
    else Ok (take (Z.to_nat length) (drop (Z.to_nat position) content)).
Proof.
  intros Hp Hl. unfold read.
  destruct (Z.ltb_spec (blen content) (length + position)); [reflexivity|].
  rewrite subarray_range by lia. do 2 f_equal. lia.
Qed.

(** A read of a file, for a length of one byte or more: the place it reads
    from and what it finds there. *)
Lemma read_file_spec (filePosition : Z) (content : Buffer) (position length : Z) :
  0 <= filePosition -> 0 < length ->
  read (FileHandle filePosition content) position length
  = if position <? -1 then Throw "ERR_OUT_OF_RANGE: position"
    else
      let from := if position =? -1 then filePosition else position in
      if blen content <? from + length
      then
        if 2 ^ 63 - 1 - length <? position
        then Throw "ERR_OUT_OF_RANGE: position"
        else Throw "unexpected EOF"
      else Ok (take (Z.to_nat length) (drop (Z.to_nat from) content)).
Proof.
  intros Hf Hl. unfold read.
  destruct (Z.eqb_spec length 0); [lia|].
  destruct (Z.ltb_spec position (-1)); [reflexivity|]. cbv zeta.
  set (from := if position =? -1 then filePosition else position).
  assert (Hfrom : 0 <= from) by (unfold from; destruct (Z.eqb_spec position (-1)); lia).
  assert (Hlen : blen (take (Z.to_nat length) (drop (Z.to_nat from) content))
                 = Z.min length (Z.max 0 (blen content - from))).
  { unfold blen. rewrite length_take, length_drop. lia. }
  rewrite Hlen.
  destruct (Z.ltb_spec (blen content) (from + length));
    destruct (Z.ltb_spec (Z.min length (Z.max 0 (blen content - from))) length);
    try reflexivity; lia.
Qed.

(** The file system layer tests the position before it reads. On a file,
    which holds fewer than [2 ^ 63] bytes, that is what [read] does. *)
Lemma read_file_position_checked_first (filePosition : Z) (content : Buffer)
    (position length : Z) :
  blen content <= 2 ^ 63 - 1 -> 0 <= filePosition -> 0 < length ->
  read (FileHandle filePosition content) position length
  = if (position <? -1) || (2 ^ 63 - 1 - length <? position)
    then Throw "ERR_OUT_OF_RANGE: position"
    else
      let from := if position =? -1 then filePosition else position in
      if blen content <? from + length
      then Throw "unexpected EOF"
      else Ok (take (Z.to_nat length) (drop (Z.to_nat from) content)).
Proof.
  intros Hsize Hf Hl. rewrite read_file_spec by lia.
  destruct (Z.ltb_spec position (-1)); [reflexivity|]. cbn [orb]. cbv zeta.
  destruct (Z.ltb_spec (2 ^ 63 - 1 - length) position) as [Hhigh|Hlow]; [|reflexivity].
  destruct (Z.eqb_spec position (-1)) as [->|Hne].
  - destruct (Z.ltb_spec (blen content) (filePosition + length)); [reflexivity|lia].
  - destruct (Z.ltb_spec (blen content) (position + length)); [reflexivity|lia].
Qed.

(** A ranged read of an entry without compression, with validation left
    on. *)
Lemma openReadStream_stored_range (pre header data post : Buffer) (entry : Entry.t)
    (localFileHeader : LocalFileHeader.t) (options : UnzipEntryOptions.t) (a b : Z) :
  readLocalFileHeader (BufferHandle (pre ++ header ++ data ++ post)) (blen pre)
  = Ok localFileHeader ->
  30 + LocalFileHeader.fileNameLength localFileHeader
  + LocalFileHeader.extraFieldsLength localFileHeader = blen header ->
  LocalFileHeader.compressionMethod localFileHeader = 0 ->
  Entry.relativeOffsetOfLocalHeader entry = blen pre ->
  Entry.compressedSize entry = blen data ->
  Entry.uncompressedSize entry = blen data ->
  CDFH.crc32 (Entry.centralDirectoryFileHeader entry) = crc32 data 0 ->
  blen pre + blen header + blen data < MAX_SAFE_INTEGER ->
  Entry.compressed entry = Some false ->
  Entry.encrypted entry = false ->
  UnzipEntryOptions.decompress options = None ->
  UnzipEntryOptions.validateData options = None ->
  default 0 (UnzipEntryOptions.start options) = a ->
  default (blen data) (UnzipEntryOptions.end_ options) = b ->
  0 <= a <= b -> b <= blen data ->
  openReadStream crc32 createInflateRaw fileChunks
    (BufferHandle (pre ++ header ++ data ++ post)) entry options
  = Ok (Flows {| chunks := [take (Z.to_nat (b - a)) (drop (Z.to_nat a) data)];
                 failure := if b - a =? blen data then None
                            else Some "not enough bytes in the stream"%string |}).
Proof.
  intros Hlocal Hlen Hmethod Hoff Hcs Hus Hcrc Hsafe Hcompressed Hencrypted
    Hdecompress Hvalidate Ha Hb Hab Hbd.
  pose proof (blen_nonneg pre). pose proof (blen_nonneg header).
  pose proof (blen_nonneg data).
  unfold openReadStream.
  rewrite Hcompressed, Hencrypted, Hdecompress, Hvalidate.
  replace (bool_decide (Some false = Some true)) with false
    by (symmetry; apply bool_decide_eq_false; discriminate).
  rewrite !andb_false_r. cbn [andb].
  assert (Hstart :
            match UnzipEntryOptions.start options with
            | Some start =>
                if start <? 0 then Throw "options.start < 0"
                else if Entry.compressedSize entry <? start
                     then Throw "options.start > entry.compressedSize"
                     else Ok start
            | None => Ok 0
            end = Ok a).
  { destruct (UnzipEntryOptions.start options) as [start|]; cbn [default] in Ha;
      unfold Datatypes.id in Ha; subst a; [|reflexivity].
    rewrite Hcs.
    destruct (Z.ltb_spec start 0); [lia|].
    destruct (Z.ltb_spec (blen data) start); [lia|]. reflexivity. }
  rewrite Hstart. cbn [Js.bind].
  assert (Hend :
            match UnzipEntryOptions.end_ options with
            | Some e =>
                if e <? 0 then Throw "options.end < 0"
                else if Entry.compressedSize entry <? e
                     then Throw "options.end > entry.compressedSize"
                     else if e <? a then Throw "options.end < options.start" else Ok e
            | None => Ok (Entry.compressedSize entry)
            end = Ok b).
  { rewrite Hcs.
    destruct (UnzipEntryOptions.end_ options) as [e|]; cbn [default] in Hb;
      unfold Datatypes.id in Hb; subst b; [|reflexivity].
    destruct (Z.ltb_spec e 0); [lia|].
    destruct (Z.ltb_spec (blen data) e); [lia|].
    destruct (Z.ltb_spec e a); [lia|]. reflexivity. }
  rewrite Hend. cbn [Js.bind].
  rewrite Hoff, Hlocal. cbn [Js.bind]. rewrite Hmethod, Hlen.
  change (0 =? compressionMethods.none) with true.
  change (0 =? compressionMethods.deflate) with false.
  cbn [negb andb orb].
  unfold createReadStream.
  replace (MAX_SAFE_INTEGER <=? blen pre + blen header + a) with false
    by (symmetry; apply Z.leb_gt; lia).
  replace (MAX_SAFE_INTEGER <=? blen pre + blen header + b) with false
    by (symmetry; apply Z.leb_gt; lia).
  cbn [orb Js.bind].
  replace (bool_decide (@None bool = Some false)) with false
    by (symmetry; apply bool_decide_eq_false; discriminate).
  cbn [negb andb].
  set (part := take (Z.to_nat (b - a)) (drop (Z.to_nat a) data)).
  assert (Hpart : blen part = b - a).
  { unfold part, blen. rewrite length_take, length_drop. unfold blen in *. lia. }
  replace (subarray (pre ++ header ++ data ++ post) (blen pre + blen header + a)
             (blen pre + blen header + b)) with part.
  2:{ rewrite subarray_range by (rewrite ?blen_app; pose proof (blen_nonneg post); lia).
      unfold part.
      replace (blen pre + blen header + b - (blen pre + blen header + a)) with (b - a) by lia.
      rewrite (app_assoc pre header).
      replace (Z.to_nat (blen pre + blen header + a))
        with (length (pre ++ header) + Z.to_nat a)%nat
        by (rewrite length_app; unfold blen in *; lia).
      rewrite <- drop_drop, drop_app_length.
      rewrite drop_app_le by (unfold blen in *; lia).
      rewrite take_app_le by (rewrite length_drop; unfold blen in *; lia).
      reflexivity. }
  unfold validate. cbn [chunks failure].
  rewrite tap_passes.
  2:{ cbn [bytes]. unfold stream_length. cbn [concat]. rewrite app_nil_r. lia. }
  cbn [bytes tap_crc32 foldl]. unfold tap_flush. cbn [bytes tap_crc32].
  unfold stream_length. cbn [concat]. rewrite app_nil_r, Hus, Hpart, Z.add_0_l.
  destruct (Z.eqb_spec (b - a) (blen data)) as [Hfull|Hpartial]; cbn [negb];
    [|reflexivity].
  assert (part = data) as ->.
  { unfold part. replace a with 0 by lia. rewrite drop_0.
    apply take_ge. unfold blen in *. lia. }
  now rewrite Hcrc, Z.eqb_refl.
Qed.

End ReadFacts.

(** ** ZIP64 entries written and read back *)
Section Zip64EntryFacts.
Import Read Unzip.

Variable fill : nat -> byte.
Variable crc32 : Buffer -> Z -> Z.
Variable Buffer_toString : Buffer -> jsstring.

Lemma writeUIntLE_blen (n : nat) (b b' : Buffer) (v off : Z) :
  writeUIntLE n b v off = Ok b' -> blen b' = blen b.
Proof.
  unfold writeUIntLE.
  destruct ((v <? 0) || (2 ^ (8 * Z.of_nat n) <=? v)); [discriminate|].
  destruct (Z.leb_spec 0 off) as [Hoff|]; [|discriminate].
  destruct (Z.leb_spec (off + Z.of_nat n) (blen b)) as [Hend|]; [|discriminate].
  cbn [andb]. intros Hw. apply Ok_inj in Hw. subst b'.
  unfold blen in *. rewrite !length_app, length_take, length_le_encode, length_drop. lia.
Qed.

Lemma writeBigUInt64LE_blen (b b' : Buffer) (v : optnum) (off : Z) :
  writeBigUInt64LE b v off = Ok b' -> blen b' = blen b.
Proof. destruct v; [apply writeUIntLE_blen|discriminate]. Qed.

(** The reader on a central directory record that the writer emitted in
    ZIP64 format: the 24-byte payload has no room for the disk number that
    the reader demands whenever the stored offset is the sentinel. *)
Lemma readEntry_of_zip64_record (file : bool) (filePosition : Z) (entry : Zip.Entry.t)
    (record pre post : Buffer) (decodeStrings : bool) :
  Zip.Entry.forceZip64Format entry
  || Zip.ge_ffffffff (Zip.Entry.uncompressedSize entry)
  || Zip.ge_ffffffff (Zip.Entry.compressedSize entry)
  || Zip.ge_ffffffff (Zip.Entry.relativeOffsetOfLocalHeader entry) = true ->
  Zip.getCentralDirectoryRecord fill entry = Ok record ->
  readEntry crc32 Buffer_toString
    ((if file then FileHandle filePosition else BufferHandle) (pre ++ record ++ post)) (blen pre)
    decodeStrings
  = Throw "zip64 extended information extra field does not include disk number start".
Proof.
  intros Hzip64 H. unfold Zip.getCentralDirectoryRecord in H. rewrite Hzip64 in H.
  destruct (writeBigUInt64LE (Write.allocUnsafe fill 24) (Zip.Entry.uncompressedSize entry) 0)
    as [z1|] eqn:E1; cbn [Js.bind] in H; [|discriminate].
  destruct (writeBigUInt64LE z1 (Zip.Entry.compressedSize entry) 8)
    as [z2|] eqn:E2; cbn [Js.bind] in H; [|discriminate].
  destruct (writeBigUInt64LE z2 (Zip.Entry.relativeOffsetOfLocalHeader entry) 16)
    as [z3|] eqn:E3; cbn [Js.bind] in H; [|discriminate].
  assert (Hlen : blen z3 = 24).
  { rewrite (writeBigUInt64LE_blen _ _ _ _ E3), (writeBigUInt64LE_blen _ _ _ _ E2),
      (writeBigUInt64LE_blen _ _ _ _ E1).
    unfold blen. now rewrite length_allocUnsafe. }
  clear E1 E2 E3 z1 z2.
  match type of H with
  | Write.serializeCentralDirectoryFileHeader _ ?o = _ =>
      destruct (readCentralDirectoryFileHeader_serialized fill file filePosition o
                  [{| Write.id := 0x0001; Write.data := z3 |}] record pre post eq_refl H)
        as (extra & _ & _ & Hread)
  end.
  unfold readEntry. rewrite Hread. cbn [Js.bind]. clear Hread H.
  unfold readEntry_of_header.
  cbn [CDFH.generalPurposeBitFlag Write.CentralDirectoryFileHeader.generalPurposeBitFlag].
  replace (bitand
             (if Zip.Entry.crcAndFileSizeKnown entry
              then generalPurposeBitFlags.utf8
              else bitor generalPurposeBitFlags.utf8
                     generalPurposeBitFlags.unknownCrc32AndFileSizes)
             generalPurposeBitFlags.strongEncryption =? 0) with true
    by (destruct (Zip.Entry.crcAndFileSizeKnown entry); reflexivity).
  cbn [negb]. unfold readEntry_zip64.
  cbn [CDFH.uncompressedSize CDFH.compressedSize CDFH.relativeOffsetOfLocalHeader
       CDFH.diskNumberStart CDFH.extraFields
       Write.CentralDirectoryFileHeader.uncompressedSize
       Write.CentralDirectoryFileHeader.compressedSize
       Write.CentralDirectoryFileHeader.relativeOffsetOfLocalHeader
       Write.CentralDirectoryFileHeader.diskNumberStart default].
  unfold Datatypes.id. rewrite Z.eqb_refl. cbn [orb].
  unfold findExtraField. cbn [find Write.id]. rewrite Z.eqb_refl.
  cbn [fmap option_fmap option_map Write.data].
  unfold readBigUInt64LE.
  rewrite Hlen. change (24 <? 0 + 8) with false. cbv iota.
  rewrite (readUIntLE_in_range 8 z3 0) by lia. cbn [Js.bind fst snd].
  change (24 <? 0 + 8 + 8) with false. cbv iota.
  rewrite (readUIntLE_in_range 8 z3 (0 + 8)) by lia. cbn [Js.bind fst snd].
  change (24 <? 0 + 8 + 8 + 8) with false. cbv iota.
  rewrite (readUIntLE_in_range 8 z3 (0 + 8 + 8)) by lia. cbn [Js.bind fst snd].
  change (24 <? 0 + 8 + 8 + 8 + 4) with true. reflexivity.
Qed.

End Zip64EntryFacts.

(** ** What the calls on the writer emit *)
Section WriterTheorems.
Import Write Zip Zip.Class.

Variable fill : nat -> byte.
Variable crc32 : Buffer -> Z -> Z.
Variable deflateRaw : Buffer -> result Buffer.
Variable createDeflateRaw : Run -> Run.
Variable now : Date.

(** X14. When the work of a call fails on a writer that was in order, the
    call is rejected, the error is emitted, the stream is destroyed and the
    queue stays failed; whatever calls follow, nothing more is pushed, no
    entry is recorded, the cursor stays where it is and the stream is never
    ended. *)
Theorem rejected_call_stops_writer (self self' : Zip) (op : Op) (e : string)
    (ops : list Op) :
  queue self = Some Fulfilled ->
  step fill crc32 deflateRaw createDeflateRaw now self op = (self', Rejected e) ->
  queue self' = Some (Failed e)
  /\ destroyed self' = true
  /\ (exists errs, errors self' = errs ++ [e])
  /\ pushed (run fill crc32 deflateRaw createDeflateRaw now self' ops) = pushed self'
  /\ ended (run fill crc32 deflateRaw createDeflateRaw now self' ops) = ended self'
  /\ entries (run fill crc32 deflateRaw createDeflateRaw now self' ops) = entries self'
  /\ outputStreamCursor (run fill crc32 deflateRaw createDeflateRaw now self' ops)
     = outputStreamCursor self'.
Proof.
  intros Hq Hstep.
  destruct (step_rejected fill crc32 deflateRaw createDeflateRaw now _ _ _ _ Hq Hstep)
    as (Hq' & Hd & He).
  split; [exact Hq'|]. split; [exact Hd|]. split; [exact He|].
  apply (run_inert fill crc32 deflateRaw createDeflateRaw now ops self').
  rewrite Hq'. discriminate.
Qed.

(** X15. An [addBuffer] that resolves has pushed two chunks, the local file
    header of the entry and then the data (the buffer itself, or what
    [deflateRaw] made of it), has recorded the entry and has advanced the
    cursor by the length of both; the entry knows its checksum and sizes
    and has the old cursor as its header offset. *)
Theorem addBuffer_emits (self self' : Zip) (buffer : Buffer) (fileName : jsstring)
    (options : Options.t) (e : Entry.t) :
  addBuffer fill crc32 deflateRaw now self buffer fileName options = (self', Resolved e) ->
  exists name data header,
    sanitizeMetadataPath fileName false = Ok name
    /\ (if default true (Options.compress options) then deflateRaw buffer else Ok buffer)
       = Ok data
    /\ getLocalFileHeader fill e = Ok header
    /\ pushed self' = pushed self ++ [header; data]
    /\ entries self' = entries self ++ [e]
    /\ outputStreamCursor self' = outputStreamCursor self + blen header + blen data
    /\ Entry.relativeOffsetOfLocalHeader e = Some (outputStreamCursor self)
    /\ Entry.fileName e = Buffer_from_string name
    /\ Entry.crc32 e = Some (crc32 buffer 0)
    /\ Entry.uncompressedSize e = Some (blen buffer)
    /\ Entry.compressedSize e = Some (blen data)
    /\ Entry.crcAndFileSizeKnown e = true.
Proof. apply addBuffer_resolved. Qed.

(** X16. An [addDirectory] that resolves has pushed the local file header
    alone and recorded an entry whose name ends in a slash, with method 0,
    checksum 0 and both sizes 0. *)
Theorem addDirectory_emits (self self' : Zip) (fileName : jsstring)
    (options : Options.t) (e : Entry.t) :
  addDirectory fill now self fileName options = (self', Resolved e) ->
  exists name header,
    sanitizeMetadataPath fileName true = Ok name
    /\ last name = Some 47
    /\ getLocalFileHeader fill e = Ok header
    /\ pushed self' = pushed self ++ [header]
    /\ entries self' = entries self ++ [e]
    /\ outputStreamCursor self' = outputStreamCursor self + blen header
    /\ Entry.relativeOffsetOfLocalHeader e = Some (outputStreamCursor self)
    /\ Entry.fileName e = Buffer_from_string name
    /\ Entry.crc32 e = Some 0
    /\ Entry.uncompressedSize e = Some 0
    /\ Entry.compressedSize e = Some 0
    /\ Entry.compressionMethod e = 0
    /\ Entry.crcAndFileSizeKnown e = true.
Proof. apply addDirectory_resolved. Qed.

(** X17. An [addEntry] with a stream that resolves has copied the stream:
    it pushed a local file header and then the chunks of the stream
    unchanged. The stream ended without failure and held exactly as many
    bytes as the compressed size of the source entry, and the new entry
    keeps the checksum, sizes and method of the source entry. *)
Theorem addEntry_copies_stream (self self' : Zip) (entry : Unzip.Entry.t)
    (createReadStream : result Run) (options : Options.t) (e : Entry.t) :
  addEntry fill self entry (Some createReadStream) options = (self', Resolved e) ->
  exists stream header,
    createReadStream = Ok stream
    /\ failure stream = None
    /\ total_length (chunks stream) = Unzip.Entry.compressedSize entry
    /\ getLocalFileHeader fill e = Ok header
    /\ pushed self' = pushed self ++ header :: chunks stream
    /\ entries self' = entries self ++ [e]
    /\ outputStreamCursor self'
       = outputStreamCursor self + blen header + Unzip.Entry.compressedSize entry
    /\ Entry.relativeOffsetOfLocalHeader e = Some (outputStreamCursor self)
    /\ Entry.crc32 e = Some (Unzip.CDFH.crc32 (Unzip.Entry.centralDirectoryFileHeader entry))
    /\ Entry.uncompressedSize e = Some (Unzip.Entry.uncompressedSize entry)
    /\ Entry.compressedSize e = Some (Unzip.Entry.compressedSize entry)
    /\ Entry.compressionMethod e
       = Unzip.CDFH.compressionMethod (Unzip.Entry.centralDirectoryFileHeader entry).
Proof. apply addEntry_raw_resolved. Qed.

(** X18. An [addCentralDirectoryRecord] that resolves has pushed one
    central directory record per recorded entry, in the order the entries
    were added, and then the end records, computed for the cursor behind
    the last record and the cursor the call started from. Its comment is at
    most 65535 bytes long and does not contain the end of central directory
    signature. The entries stay recorded, the queue stays in order and the
    stream is not ended. *)
Theorem central_directory_emitted (self self' : Zip) (options : Options.t) :
  addCentralDirectoryRecord fill self options = (self', Resolved tt) ->
  exists comment records eocdr,
    match default (Buf EMPTY_BUFFER) (Options.comment options) with
    | Buf b => Ok b
    | Str s => Cp437.encodeCp437 s
    end = Ok comment
    /\ blen comment <= 0xffff
    /\ (forall pre post, comment <> pre ++ eocdrSignatureBuffer ++ post)
    /\ Forall2 (fun e r => getCentralDirectoryRecord fill e = Ok r) (entries self) records
    /\ getEndOfCentralDirectoryRecord fill (Z.of_nat (length (entries self)))
         (outputStreamCursor self + blen (concat records)) (outputStreamCursor self)
         comment (default false (Options.forceZip64Format options)) = Ok eocdr
    /\ pushed self' = pushed self ++ records ++ [eocdr]
    /\ outputStreamCursor self'
       = outputStreamCursor self + blen (concat records) + blen eocdr
    /\ offsetOfStartOfCentralDirectory self' = Some (outputStreamCursor self)
    /\ entries self' = entries self
    /\ queue self' = Some Fulfilled
    /\ ended self' = ended self.
Proof. apply addCentralDirectoryRecord_resolved. Qed.

(** X19. [addCentralDirectoryRecord] checks the comment before it queues
    anything: on a writer that has not been finalized, a comment longer
    than 65535 bytes, or one that contains the four bytes of the end of
    central directory signature anywhere, makes the call throw and leaves
    the writer as it was. *)
Theorem central_directory_comment_refused (self : Zip) (options : Options.t)
    (comment : Buffer) :
  queue self <> None ->
  match default (Buf EMPTY_BUFFER) (Options.comment options) with
  | Buf b => Ok b
  | Str s => Cp437.encodeCp437 s
  end = Ok comment ->
  (0xffff < blen comment ->
   addCentralDirectoryRecord fill self options = (self, Threw "comment is too large"))
  /\ (blen comment <= 0xffff ->
      (exists pre post, comment = pre ++ eocdrSignatureBuffer ++ post) ->
      addCentralDirectoryRecord fill self options
      = (self, Threw "comment contains end of central directory record signature")).
Proof. apply addCentralDirectoryRecord_comment. Qed.

End WriterTheorems.

Section WriterTheoremWitnesses.
Import Write Zip Zip.Class Samples.

Lemma rejected_call_stops_writer_witness :
  pushed (run zero_fill crc32_ieee no_deflateRaw no_deflate 0
            (fst (step zero_fill crc32_ieee no_deflateRaw no_deflate 0 (new 0)
                    (AddFile (Throw "ENOENT") a_txt stored_options)))
            [AddBuffer foo a_txt stored_options; End])
  = [].
Proof.
  destruct (rejected_call_stops_writer zero_fill crc32_ieee no_deflateRaw no_deflate 0
              (new 0)
              (fst (step zero_fill crc32_ieee no_deflateRaw no_deflate 0 (new 0)
                      (AddFile (Throw "ENOENT") a_txt stored_options)))
              (AddFile (Throw "ENOENT") a_txt stored_options) "ENOENT"
              [AddBuffer foo a_txt stored_options; End])
    as (_ & _ & _ & H & _).
  - reflexivity.
  - vm_compute. reflexivity.
  - exact H.
Defined.

Lemma addBuffer_emits_witness :
  exists header,
    pushed (fst (addBuffer zero_fill crc32_ieee no_deflateRaw 0 (new 0) foo a_txt
                   stored_options))
    = [header; foo].
Proof.
  destruct (snd (addBuffer zero_fill crc32_ieee no_deflateRaw 0 (new 0) foo a_txt
                   stored_options)) as [err|err|e|] eqn:E;
    [vm_compute in E; discriminate E|vm_compute in E; discriminate E|
    |vm_compute in E; discriminate E].
  destruct (addBuffer_emits zero_fill crc32_ieee no_deflateRaw 0 (new 0)
              (fst (addBuffer zero_fill crc32_ieee no_deflateRaw 0 (new 0) foo a_txt
                      stored_options))
              foo a_txt stored_options e)
    as (name & data & header & _ & Hdata & _ & Hpushed & _).
  - rewrite <- E. apply surjective_pairing.
  - exists header. apply Ok_inj in Hdata. subst data. exact Hpushed.
Defined.

Lemma addDirectory_emits_witness :
  exists header,
    pushed (fst (addDirectory zero_fill 0 (new 0) [100] stored_options)) = [header].
Proof.
  destruct (snd (addDirectory zero_fill 0 (new 0) [100] stored_options))
    as [err|err|e|] eqn:E;
    [vm_compute in E; discriminate E|vm_compute in E; discriminate E|
    |vm_compute in E; discriminate E].
  destruct (addDirectory_emits zero_fill 0 (new 0)
              (fst (addDirectory zero_fill 0 (new 0) [100] stored_options))
              [100] stored_options e)
    as (name & header & _ & _ & _ & Hpushed & _).
  - rewrite <- E. apply surjective_pairing.
  - exists header. exact Hpushed.
Defined.

Lemma addEntry_copies_stream_witness :
  exists header,
    pushed (fst (addEntry zero_fill (new 0) stored_foo_entry
                   (Some (Ok {| chunks := [foo]; failure := None |})) Options.empty))
    = [header; foo].
Proof.
  destruct (snd (addEntry zero_fill (new 0) stored_foo_entry
                   (Some (Ok {| chunks := [foo]; failure := None |})) Options.empty))
    as [err|err|e|] eqn:E;
    [vm_compute in E; discriminate E|vm_compute in E; discriminate E|
    |vm_compute in E; discriminate E].
  destruct (addEntry_copies_stream zero_fill (new 0)
              (fst (addEntry zero_fill (new 0) stored_foo_entry
                      (Some (Ok {| chunks := [foo]; failure := None |})) Options.empty))
              stored_foo_entry (Ok {| chunks := [foo]; failure := None |})
              Options.empty e)
    as (stream & header & Hstream & _ & _ & _ & Hpushed & _).
  - rewrite <- E. apply surjective_pairing.
  - exists header. apply Ok_inj in Hstream. subst stream. exact Hpushed.
Defined.

Lemma central_directory_emitted_witness :
  exists eocdr,
    pushed (fst (addCentralDirectoryRecord zero_fill (new 0) Options.empty)) = [eocdr]
    /\ queue (fst (addCentralDirectoryRecord zero_fill (new 0) Options.empty))
       = Some Fulfilled.
Proof.
  destruct (central_directory_emitted zero_fill (new 0)
              (fst (addCentralDirectoryRecord zero_fill (new 0) Options.empty))
              Options.empty)
    as (comment & records & eocdr & _ & _ & _ & Hrecords & _ & Hpushed & _ & _ & _ & Hq & _).
  - vm_compute. reflexivity.
  - apply Forall2_nil_inv_l in Hrecords. subst records.
    exists eocdr. split; [exact Hpushed|exact Hq].
Defined.

Lemma central_directory_comment_refused_witness :
  addCentralDirectoryRecord zero_fill (new 0) signature_comment_options
  = (new 0, Threw "comment contains end of central directory record signature").
Proof.
  refine (proj2 (central_directory_comment_refused zero_fill (new 0)
                   signature_comment_options [x61; x50; x4b; x05; x06] _ _) _ _).
  - discriminate.
  - reflexivity.
  - vm_compute. discriminate.
  - exists [x61], []. reflexivity.
Defined.

End WriterTheoremWitnesses.

(** ** Opening and reading archives *)
Section ReaderTheorems.
Import Read Unzip.

Variable fill : nat -> byte.
Variable crc32 : Buffer -> Z -> Z.
Variable deflateRaw : Buffer -> result Buffer.
Variable now : Date.
Variable Buffer_toString : Buffer -> jsstring.
Variable createInflateRaw : Run -> Run.
Variable fileChunks : Buffer -> list Buffer.

(** X20. The opener looks for the end of central directory signature in the
    last 65557 bytes only, at the positions that leave room for a 22-byte
    record. When none of them holds the signature, a buffer or a file is
    refused with the error that the signature was not found; so is every
    source shorter than 22 bytes. *)
Theorem opener_without_signature (file : bool) (filePosition : Z) (content : Buffer)
    (decodeStrings : bool) :
  (forall i : Z,
      blen content - 65557 <= i -> 0 <= i <= blen content - 22 ->
      readUInt32LE content i <> Ok 0x06054b50) ->
  (if file then fromFileHandle filePosition content decodeStrings
   else fromBuffer content decodeStrings)
  = Throw "end of central directory record signature not found".
Proof.
  intros H. pose proof (opener_not_found file filePosition content decodeStrings H) as Hopen.
  destruct file; exact Hopen.
Qed.

(** X21. Write and read back. On a new writer, [addBuffer] without
    compression followed by [addCentralDirectoryRecord] without comment,
    neither forcing ZIP64, push an archive whose fate hangs on the two bytes
    that [Buffer.allocUnsafe] left at offsets 20 and 21 of the end record.
    When they are not both zero, [fromBuffer] refuses the archive with an
    invalid comment length. When they are zero, [fromBuffer] opens it, the
    iterator yields exactly one entry, with the name that was written, and
    the stream that [openReadStream] returns with the default options
    carries the bytes of the buffer that was added and ends without
    failure, validated against the size and checksum of the entry. *)
Theorem stored_buffer_roundtrip (buffer : Buffer) (fileName : jsstring)
    (options options' : Zip.Options.t) (s1 s2 : Zip.Zip) (e : Zip.Entry.t)
    (decodeStrings : bool) :
  Zip.Options.compress options = Some false ->
  default false (Zip.Options.forceZip64Format options) = false ->
  Zip.Options.comment options' = None ->
  default false (Zip.Options.forceZip64Format options') = false ->
  Zip.Class.addBuffer fill crc32 deflateRaw now (Zip.new 0) buffer fileName options
  = (s1, Zip.Resolved e) ->
  Zip.Class.addCentralDirectoryRecord fill s1 options' = (s2, Zip.Resolved tt) ->
  (le_decode [fill 20%nat; fill 21%nat] <> 0 ->
   fromBuffer (concat (Zip.pushed s2)) decodeStrings = Throw "invalid comment length")
  /\ (le_decode [fill 20%nat; fill 21%nat] = 0 ->
      exists unzip entry out,
        fromBuffer (concat (Zip.pushed s2)) decodeStrings = Ok unzip
        /\ entries crc32 Buffer_toString unzip decodeStrings = ([entry], None)
        /\ Entry.fileName entry
           = (if decodeStrings then Str (Buffer_toString (Zip.Entry.fileName e))
              else Buf (Zip.Entry.fileName e))
        /\ Entry.uncompressedSize entry = blen buffer
        /\ Entry.compressed entry = Some false
        /\ openReadStream crc32 createInflateRaw fileChunks
             (BufferHandle (concat (Zip.pushed s2))) entry UnzipEntryOptions.default
           = Ok (Flows out)
        /\ concat (chunks out) = buffer
        /\ failure out = None).
Proof.
  intros Hcompress Hforce Hcomment Hforce' Hadd Hcd.
  destruct (stored_archive_reads_back fill crc32 deflateRaw now Buffer_toString
              createInflateRaw fileChunks buffer fileName options options' s1 s2 e
              decodeStrings Hcompress Hforce Hcomment Hforce' Hadd Hcd) as [Hbad Hgood].
  split; [exact Hbad|]. intros Hword.
  destruct (Hgood Hword) as (unzip & entry & Hopen & Hentries & Hname & Hsize & Hstored
                             & Hread).
  exists unzip, entry, {| chunks := [buffer]; failure := None |}.
  cbn [chunks failure concat]. rewrite app_nil_r. auto 10.
Qed.

(** X22. The ZIP64 end records that the writer emits when ZIP64 is forced
    lead the opener back to the 64-bit values: behind any [pre], with the
    cursor at the end of [pre] and no comment, the records are emitted, and
    when the two bytes left unwritten in the classic record are zero, the
    opener finds that record, follows the locator to the ZIP64 record and
    returns the entry count and the central directory offset that were
    written. *)
Theorem zip64_end_records_reopen (file : bool) (filePosition : Z) (pre : Buffer) (n off : Z)
    (decodeStrings : bool) :
  0 <= n < 2 ^ 64 -> 0 <= off <= blen pre -> blen pre < 2 ^ 64 ->
  le_decode [fill 20%nat; fill 21%nat] = 0 ->
  exists records,
    Zip.getEndOfCentralDirectoryRecord fill n (blen pre) off [] true = Ok records
    /\ blen records = 98
    /\ fromRandomAccessReader
         ((if file then FileHandle filePosition else BufferHandle) (pre ++ records))
         (blen (pre ++ records)) decodeStrings
       = Ok {| handle := (if file then FileHandle filePosition else BufferHandle) (pre ++ records);
               centralDirectoryOffset := off;
               fileSize := blen (pre ++ records);
               entryCount := n;
               comment := if decodeStrings then Str [] else Buf [] |}.
Proof.
  intros Hn Hoff Hpre Hword.
  eexists. split; [apply getEndOfCentralDirectoryRecord_forced; lia|].
  split; [blen_solve|].
  rewrite app_nil_r.
  eapply opener_on_zip64_records; try reflexivity; try lia; try exact Hword.
Qed.

(** X23. [read] on a file and on a buffer with the same content, for a
    length of one byte or more. The file read refuses every position below
    -1 and above 2^63 - 1 - length with an out-of-range error; at -1 it reads
    at the current position of the file and at every other position at that
    offset; it returns the bytes there when the range lies within the
    content and throws an unexpected end of file otherwise. The buffer read,
    from a position that is not negative, returns the bytes when the range
    lies within the content and throws an unexpected end of file otherwise.
    So the two agree from 0 to 2^63 - 1 - length, and above that the file
    read reports the position where the buffer read reports the end of the
    file. A read of no bytes differs beyond the end of the content: the file
    gives an empty buffer at any position, the buffer throws. *)
Theorem read_handles_agree (filePosition : Z) (content : Buffer) (position length : Z) :
  blen content <= 2 ^ 63 - 1 ->
  0 <= filePosition ->
  (0 < length ->
   read (FileHandle filePosition content) position length
   = (if (position <? -1) || (2 ^ 63 - 1 - length <? position)
      then Throw "ERR_OUT_OF_RANGE: position"
      else
        let from := if position =? -1 then filePosition else position in
        if blen content <? from + length
        then Throw "unexpected EOF"
        else Ok (take (Z.to_nat length) (drop (Z.to_nat from) content)))
   /\ (0 <= position ->
       read (BufferHandle content) position length
       = if blen content <? position + length
         then Throw "unexpected EOF"
         else Ok (take (Z.to_nat length) (drop (Z.to_nat position) content)))
   /\ (0 <= position <= 2 ^ 63 - 1 - length ->
       read (FileHandle filePosition content) position length
       = read (BufferHandle content) position length)
   /\ (0 <= position -> 2 ^ 63 - 1 - length < position ->
       read (FileHandle filePosition content) position length
       = Throw "ERR_OUT_OF_RANGE: position"
       /\ read (BufferHandle content) position length = Throw "unexpected EOF"))
  /\ read (FileHandle filePosition content) position 0 = Ok []
  /\ (blen content < position ->
      read (BufferHandle content) position 0 = Throw "unexpected EOF").
Proof.
  intros Hsize Hf. split; [intros Hl|split].
  - assert (Hfile := read_file_position_checked_first filePosition content position length
                       Hsize Hf Hl).
    assert (Hbuffer : 0 <= position ->
              read (BufferHandle content) position length
              = if blen content <? position + length
                then Throw "unexpected EOF"
                else Ok (take (Z.to_nat length) (drop (Z.to_nat position) content))).
    { intros Hp. rewrite read_buffer_spec by lia. now rewrite (Z.add_comm length). }
    split; [exact Hfile|]. split; [exact Hbuffer|]. split.
    + intros Hp. rewrite Hfile, Hbuffer by lia.
      destruct (Z.ltb_spec position (-1)); [lia|].
      destruct (Z.ltb_spec (2 ^ 63 - 1 - length) position); [lia|].
      destruct (Z.eqb_spec position (-1)); [lia|]. reflexivity.
    + intros Hp Hhigh. rewrite Hfile, Hbuffer by lia.
      destruct (Z.ltb_spec position (-1)); [lia|].
      destruct (Z.ltb_spec (2 ^ 63 - 1 - length) position); [|lia].
      split; [reflexivity|].
      destruct (Z.ltb_spec (blen content) (position + length)); [reflexivity|lia].
  - reflexivity.
  - intros H. pose proof (blen_nonneg content).
    rewrite read_buffer_spec by lia.
    now replace (blen content <? 0 + position) with true by (symmetry; apply Z.ltb_lt; lia).
Qed.

(** X24. A ranged read of an entry stored without compression, from a
    buffer, with decompression and validation left at their defaults: the
    stream carries the bytes of the range, and unless the range is the
    whole entry it fails at its end with not enough bytes in the stream,
    because the validation counts the bytes of the range against the full
    size of the entry. *)
Theorem ranged_read_of_stored_entry (pre header data post : Buffer) (entry : Entry.t)
    (localFileHeader : LocalFileHeader.t) (options : UnzipEntryOptions.t) (a b : Z) :
  readLocalFileHeader (BufferHandle (pre ++ header ++ data ++ post)) (blen pre)
  = Ok localFileHeader ->
  30 + LocalFileHeader.fileNameLength localFileHeader
  + LocalFileHeader.extraFieldsLength localFileHeader = blen header ->
  LocalFileHeader.compressionMethod localFileHeader = 0 ->
  Entry.relativeOffsetOfLocalHeader entry = blen pre ->
  Entry.compressedSize entry = blen data ->
  Entry.uncompressedSize entry = blen data ->
  CDFH.crc32 (Entry.centralDirectoryFileHeader entry) = crc32 data 0 ->
  blen pre + blen header + blen data < MAX_SAFE_INTEGER ->
  Entry.compressed entry = Some false ->
  Entry.encrypted entry = false ->
  UnzipEntryOptions.decompress options = None ->
  UnzipEntryOptions.validateData options = None ->
  default 0 (UnzipEntryOptions.start options) = a ->
  default (blen data) (UnzipEntryOptions.end_ options) = b ->
  0 <= a <= b -> b <= blen data ->
  exists out,
    openReadStream crc32 createInflateRaw fileChunks
      (BufferHandle (pre ++ header ++ data ++ post)) entry options = Ok (Flows out)
    /\ concat (chunks out) = take (Z.to_nat (b - a)) (drop (Z.to_nat a) data)
    /\ failure out = (if b - a =? blen data then None
                      else Some "not enough bytes in the stream"%string).
Proof.
  intros Hlocal Hlen Hmethod Hoff Hcs Hus Hcrc Hsafe Hcompressed Hencrypted
    Hdecompress Hvalidate Ha Hb Hab Hbd.
  eexists. split.
  - eapply openReadStream_stored_range; eassumption.
  - cbn [chunks failure concat]. now rewrite app_nil_r.
Qed.

(** X25. The reader refuses every central directory record that the writer
    emits in ZIP64 format, that is for an entry with [forceZip64Format] or
    with a size or header offset of 0xFFFFFFFF or more: the writer stores
    the three 64-bit values in a 24-byte extra field and the sentinel
    0xFFFFFFFF as the offset, and on that sentinel the reader demands four
    more bytes for a disk number. *)
Theorem zip64_entry_refused (file : bool) (filePosition : Z) (entry : Zip.Entry.t)
    (record pre post : Buffer) (decodeStrings : bool) :
  Zip.Entry.forceZip64Format entry
  || Zip.ge_ffffffff (Zip.Entry.uncompressedSize entry)
  || Zip.ge_ffffffff (Zip.Entry.compressedSize entry)
  || Zip.ge_ffffffff (Zip.Entry.relativeOffsetOfLocalHeader entry) = true ->
  Zip.getCentralDirectoryRecord fill entry = Ok record ->
  readEntry crc32 Buffer_toString
    ((if file then FileHandle filePosition else BufferHandle) (pre ++ record ++ post)) (blen pre)
    decodeStrings
  = Throw "zip64 extended information extra field does not include disk number start".
Proof. apply readEntry_of_zip64_record. Qed.

End ReaderTheorems.

Section ReaderTheoremWitnesses.
Import Read Unzip Samples.

Lemma opener_without_signature_witness :
  fromBuffer (replicate 22 x00) false
  = Throw "end of central directory record signature not found".
Proof.
  apply (opener_without_signature false 0 (replicate 22 x00) false).
  intros i _ Hi. change (blen (replicate 22 x00)) with 22 in Hi.
  assert (i = 0) as -> by lia. vm_compute. discriminate.
Defined.

Lemma stored_buffer_roundtrip_witness :
  exists unzip entry out,
    fromBuffer a_txt_archive true = Ok unzip
    /\ entries crc32_ieee Cp437.decodeCp437 unzip true = ([entry], None)
    /\ Entry.fileName entry = Str a_txt
    /\ openReadStream crc32_ieee no_inflate one_chunk (BufferHandle a_txt_archive) entry
         UnzipEntryOptions.default
       = Ok (Flows out)
    /\ concat (chunks out) = foo
    /\ failure out = None.
Proof.
  destruct (snd (Zip.Class.addBuffer zero_fill crc32_ieee no_deflateRaw 0 (Zip.new 0) foo
                   a_txt stored_options)) as [err|err|e|] eqn:E;
    [vm_compute in E; discriminate E|vm_compute in E; discriminate E|
    |vm_compute in E; discriminate E].
  destruct (stored_buffer_roundtrip zero_fill crc32_ieee no_deflateRaw 0 Cp437.decodeCp437
              no_inflate one_chunk foo a_txt stored_options Zip.Options.empty
              (fst (Zip.Class.addBuffer zero_fill crc32_ieee no_deflateRaw 0 (Zip.new 0) foo
                      a_txt stored_options))
              (fst (Zip.Class.addCentralDirectoryRecord zero_fill
                      (fst (Zip.Class.addBuffer zero_fill crc32_ieee no_deflateRaw 0
                              (Zip.new 0) foo a_txt stored_options))
                      Zip.Options.empty))
              e true)
    as [_ H].
  - reflexivity.
  - reflexivity.
  - reflexivity.
  - reflexivity.
  - rewrite <- E. apply surjective_pairing.
  - vm_compute. reflexivity.
  - destruct (H eq_refl)
      as (unzip & entry & out & Hopen & Hentries & Hname & _ & _ & Hread & Hbytes & Hend).
    exists unzip, entry, out. split; [exact Hopen|]. split; [exact Hentries|].
    split; [|split; [exact Hread|split; [exact Hbytes|exact Hend]]].
    rewrite Hname. vm_compute in E. injection E as <-. reflexivity.
Defined.

Lemma zip64_end_records_reopen_witness :
  exists records,
    Zip.getEndOfCentralDirectoryRecord zero_fill 1 3 0 [] true = Ok records
    /\ fromRandomAccessReader (BufferHandle (foo ++ records)) 101 true
       = Ok {| handle := BufferHandle (foo ++ records);
               centralDirectoryOffset := 0;
               fileSize := 101;
               entryCount := 1;
               comment := Str [] |}.
Proof.
  destruct (zip64_end_records_reopen zero_fill false 0 foo 1 0 true)
    as (records & Hrecords & Hlen & Hopen).
  - lia.
  - change (blen foo) with 3. lia.
  - change (blen foo) with 3. lia.
  - reflexivity.
  - exists records. split; [exact Hrecords|].
    rewrite blen_app, Hlen in Hopen. exact Hopen.
Defined.

Lemma read_handles_agree_witness :
  read (FileHandle 1 foo) 1 2 = read (BufferHandle foo) 1 2
  /\ read (FileHandle 1 foo) (-1) 2 = Ok [x6f; x6f]
  /\ read (FileHandle 1 foo) (2 ^ 63 - 2) 2 = Throw "ERR_OUT_OF_RANGE: position"
  /\ read (BufferHandle foo) (2 ^ 63 - 2) 2 = Throw "unexpected EOF"
  /\ read (FileHandle 1 foo) 4 0 = Ok []
  /\ read (BufferHandle foo) 4 0 = Throw "unexpected EOF".
Proof.
  assert (Hsize : blen foo <= 2 ^ 63 - 1) by (change (blen foo) with 3; lia).
  destruct (read_handles_agree 1 foo 1 2 Hsize) as [H _]; [lia|].
  destruct (H ltac:(lia)) as (_ & _ & Hagree & _).
  destruct (read_handles_agree 1 foo (-1) 2 Hsize) as [H1 _]; [lia|].
  destruct (H1 ltac:(lia)) as (Hcurrent & _).
  destruct (read_handles_agree 1 foo (2 ^ 63 - 2) 2 Hsize) as [H2 _]; [lia|].
  destruct (H2 ltac:(lia)) as (_ & _ & _ & Hhigh).
  destruct Hhigh as [Hfile_high Hbuffer_high]; [lia|lia|].
  destruct (read_handles_agree 1 foo 4 0 Hsize) as (_ & Hfile & Hbuffer); [lia|].
  split; [apply Hagree; lia|]. split; [exact Hcurrent|].
  split; [exact Hfile_high|]. split; [exact Hbuffer_high|].
  split; [exact Hfile|].
  apply Hbuffer. change (blen foo) with 3. lia.
Defined.

Lemma ranged_read_of_stored_entry_witness :
  exists out,
    openReadStream crc32_ieee no_inflate one_chunk (BufferHandle stored_foo) stored_foo_entry
      first_two_bytes = Ok (Flows out)
    /\ concat (chunks out) = [x66; x6f]
    /\ failure out = Some "not enough bytes in the stream"%string.
Proof.
  apply (ranged_read_of_stored_entry crc32_ieee no_inflate one_chunk
           [] (take 35 stored_foo) foo [] stored_foo_entry
           {| LocalFileHeader.versionNeededToExtract := 20;
              LocalFileHeader.generalPurposeBitFlag := 2048;
              LocalFileHeader.compressionMethod := 0;
              LocalFileHeader.fileLastModificationTime := 43437;
              LocalFileHeader.fileLastModificationDate := 22811;
              LocalFileHeader.crc32 := 2356372769;
              LocalFileHeader.compressedSize := 3;
              LocalFileHeader.uncompressedSize := 3;
              LocalFileHeader.fileNameLength := 5;
              LocalFileHeader.extraFieldsLength := 0;
              LocalFileHeader.fileName := [x61; x2e; x74; x78; x74];
              LocalFileHeader.extraFields := [] |}
           first_two_bytes 0 2).
  - vm_compute. reflexivity.
  - reflexivity.
  - reflexivity.
  - reflexivity.
  - reflexivity.
  - reflexivity.
  - vm_compute. reflexivity.
  - vm_compute. reflexivity.
  - reflexivity.
  - reflexivity.
  - reflexivity.
  - reflexivity.
  - reflexivity.
  - reflexivity.
  - lia.
  - change (blen foo) with 3. lia.
Defined.

Lemma zip64_entry_refused_witness :
  exists record,
    Zip.getCentralDirectoryRecord zero_fill forced_zip64_entry = Ok record
    /\ readEntry crc32_ieee Cp437.decodeCp437 (BufferHandle (foo ++ record)) 3 true
       = Throw "zip64 extended information extra field does not include disk number start".
Proof.
  eexists. split; [vm_compute; reflexivity|].
  match goal with
  | |- readEntry _ _ (BufferHandle (_ ++ ?r)) _ _ = _ =>
      pose proof (zip64_entry_refused zero_fill crc32_ieee Cp437.decodeCp437 false 0
                    forced_zip64_entry r foo [] true eq_refl) as H
  end.
  rewrite app_nil_r in H. apply H. vm_compute. reflexivity.
Defined.

End ReaderTheoremWitnesses.
